(* ===== verification/_CoqProject ===== *)
-Q . S2P
Prelude.v
Swrr.v
Config.v
Balancer.v
Weighted.v
LoadBalancer.v
CircuitBreaker.v
RustStr.v
Net.v
Order.v
Rule.v
RuleProofs.v
Router.v
Health.v
Service.v
LocalStore.v
RateLimit.v
Sticky.v
Duration.v
ConfigTypes.v
Resilience.v
L4.v
Encoding.v
Hash.v
HashProofs.v
BasicAuth.v
Http.v
Middleware.v
Jwt.v
JwtProofs.v
DigestAuth.v
Grpc.v
Pipeline.v
ConfigCheck.v
Udp.v
Cluster.v
HealthTasks.v
DistHealth.v
ClusterTasks.v
Valkey.v
Events.v
Provider.v
Polling.v
AccessLog.v
WebSocket.v
Handler.v
TcpProxy.v
UdpProxy.v
Trace.v
TraceIds.v
Telemetry.v
Der.v
Certs.v
Acme.v
Watcher.v
Extras.v
Connections.v
Tls.v
Server.v
Admin.v
InstanceLock.v
Relay.v
Http2Pool.v
Lifecycle.v
