(* ===== verification/Prelude.v ===== *)
(** * TrafficCop: a verified model of the reverse proxy

    TrafficCop (src/) is an HTTP, TCP and UDP reverse proxy. A request is routed
    by rules to a service, passes the middlewares of its route, and is sent to a
    backend that a load balancer picks; health monitoring takes failing backends
    out of rotation; configuration is loaded, watched and fetched; nodes form a
    cluster over a shared store; certificates come from files or from an ACME
    authority. This library models these parts and proves what they guarantee.
    Definitions are executable and keep the source's names; examples evaluate by
    computation. Paths below are under src/src/.

    ** Parts and files

    Foundations.
    - [Prelude] (this file): machine integers as [Z] with explicit wrap-around,
      [result] for fallible code ([Panic] is an abort), sums, list lemmas, the
      tactic [word] and the hint database [tc].
    - [RustStr]: Rust strings as UTF-8 bytes; slicing aborts off a boundary.
    - [Encoding]: base64, bit lemmas, comparison in constant time.
    - [Order]: the stable sort by descending priority the routers share.
    - [Net], [Http]: the interfaces to IP addresses, header maps and URIs, with
      their laws and a concrete instance each.

    Configuration.
    - [Config], [ConfigTypes]: the records of config/types.rs with their default
      values; [Duration]: config/duration.rs with its [f64] arithmetic and the
      visitors of the deserializer.
    - [ConfigCheck]: config/mod.rs (accessors, validation, loading).
    - [Watcher]: config/watcher.rs; [Provider]: cluster/provider.rs; [Polling]: its
      polling tasks, interleaved, and the clients of its providers.

    Routing and selection.
    - [Rule], [RuleProofs], [Router]: router/rule.rs (syntax, matching,
      recursive-descent parser) and router/mod.rs (host index, lookup).
    - [Swrr], [Weighted]: smooth weighted round robin. [Swrr] is the algorithm as
      a relation on integers; [Weighted] translates balancer/weighted.rs and
      service/weighted.rs and shows that both implement it.
    - [Balancer], [LoadBalancer]: the [Balancer] trait as a class with laws,
      round robin, least connections, random, and the facade of balancer/mod.rs,
      proved against the class. [Sticky]: balancer/sticky.rs over the interface
      [SessionStore].
    - [Resilience]: service/failover.rs, service/mirroring.rs and
      middleware/builtin/retry.rs.
    - [Service]: service/manager.rs and the part of proxy/handler.rs that selects
      a backend, records its answer and applies health changes, as a transition
      system whose steps interleave between requests.

    Health.
    - [CircuitBreaker]: health/circuit_breaker.rs, its abstract machine, and its
      behaviour in terms of the history of calls.
    - [Health]: active checks (health/mod.rs, health/checker.rs) and, in Module
      [Passive], health/passive.rs. [HealthTasks]: the tasks of the active checks
      over the start and all reloads. [DistHealth]: the checkers of
      health/distributed.rs on all nodes of a cluster.

    Middlewares, under middleware/builtin/.
    - [RateLimit]: rate_limit.rs, both per atomic access ([tstep]) and as one
      call ([try_acquire]). [Middleware]: ip_filter.rs, headers.rs, cors.rs,
      redirect_scheme.rs and path.rs, a Module each. [BasicAuth],
      [DigestAuth], [Jwt] with [JwtProofs], and [Hash] with [HashProofs] (SHA-2,
      MD5, HMAC): the authentication middlewares. [Grpc]: grpc_web.rs and
      proxy/grpc.rs. [Extras]: errors.rs, buffering.rs, compress.rs and
      forward_auth.rs. [AccessLog]: access_log.rs.
    - [Pipeline]: middleware/registry.rs and [Next::run] of middleware/mod.rs (the
      chain of a route over an abstract endpoint), and, in Module [Forward],
      [build_proxied_request] of proxy/handler.rs.

    Proxies.
    - [Handler]: [ProxyHandler::handle] of proxy/handler.rs, composed of router,
      pipeline, service, gRPC and WebSocket parts.
    - [WebSocket]: proxy/websocket.rs up to the upgrade. [Http2Pool]:
      proxy/http2_client.rs.
    - [L4]: tcp/service.rs, tcp/router.rs, udp/service.rs and udp/router.rs, one
      theory for both protocols; [Udp]: the UDP code on its own, shown to be it.
      [TcpProxy]: tcp/proxy.rs up to the connection. [Relay]: the calls of
      the two directions of a connection in tcp/proxy.rs and proxy/websocket.rs.
      [UdpProxy]: udp/proxy.rs.

    Stores and cluster.
    - [LocalStore]: store/local.rs, one function per store operation. [Valkey]:
      store/valkey.rs and cluster/mod.rs over the commands of the server.
    - [Cluster]: cluster/manager.rs and health/distributed.rs over the interface
      [ClusterStore], which both stores implement. [ClusterTasks]: the background
      tasks of cluster/manager.rs with shutdowns and crashes, interleaved.
      [Events]: the channels of the stores, the listener of store/valkey.rs and
      the drain listener of cluster/manager.rs.

    Certificates, under tls/.
    - [Der]: the DER and PEM encoders of acme/client.rs and mtls.rs. [Acme]: the
      client of acme/client.rs in a state and error monad over an arbitrary
      authority. [Certs]: resolver.rs, acme/storage.rs, acme/challenge.rs,
      acme/manager.rs. [Tls]: mod.rs and mtls.rs.

    The process.
    - [Connections]: the connection counter of server/mod.rs and the life of the
      tasks of server/listener.rs. [Server]: the shared state, hot reload and
      listeners of server/, what main.rs orders at the start. [Admin]:
      admin/api.rs. [InstanceLock]: single_instance.rs.
    - [Lifecycle]: [main] of main.rs and [Server::run] of server/mod.rs as a tree of
      requests to the system, with a continuation for every reply, and the binding
      of the listeners.
    - [Trace], [TraceIds]: telemetry/propagation.rs; [Telemetry]:
      telemetry/span.rs and metrics/mod.rs.

    ** What the theorems show

    - Selection: round robin visits the healthy servers in cyclic order, least
      connections minimises the weighted load, random selection follows the
      weights, smooth weighted round robin is exactly proportional over a cycle
      and returns to rest; every strategy meets one contract through the facade.
    - Health: when the breaker refuses and admits follows from the history of
      calls; ejection, recovery and hysteresis are characterised by the history of
      responses; for a server whose address no other server has, the balancer's
      flag agrees with the checker under every interleaving that applies its
      changes in the order they were recorded; the status of a checked server
      depends on its own checker alone, over any reloads; while one node of a
      cluster leads, the others come to its verdict as long as its report is stored.
    - Routing: the rule parser is total and inverts printing; the router returns
      an eligible route of maximal priority, up to the precedence of host routes;
      the TCP and UDP routers the best admitting route of the entry point.
    - Requests: a request takes the best eligible route, leaves at most once and
      only to a configured server of its service, every outcome is answered and
      recorded; over any sequence of requests and partial reloads the server sends
      only to backends of its configurations.
    - Limits: in any period one caller after the other gets at most the burst and
      what the period earns; racing callers get at most what the bucket holds and
      what each one's own time since the start earns ([token_bucket_double_credit]
      shows that an interval can count twice); the loop is wait-free; the
      distributed limiter is a log of admitted milliseconds.
    - Authentication: basic authentication accepts the text stored for a user,
      digest authentication the response of RFC 2617 for the quality of protection
      auth or none, JWT validation the printed tokens with the right algorithm,
      MAC, times, issuer and audience; where the code departs from the standards
      or the documentation is stated beside each theorem. An IP filter anywhere
      in a chain cannot be bypassed; the middlewares of a route that take effect
      are exactly those defined under their full name with one of twelve kinds;
      client certificates are checked as the mode says.
    - State: sessions, leases and health entries read back as written until they
      expire, cleanup is invisible, no two nodes lead at once, on either store
      and with lost messages; a departed leader is replaced within a term; drain
      notices arrive in order and are complete unless a node falls behind.
    - Configuration: validation accepts exactly the well-formed configurations
      without services for failover alone, only validated ones come into force, also under interleaved polls of several
      providers, printed durations parse back.
    - Certificates, against any authority: a challenge is answered during every
      request from the moment the authority is told of it, every order ends within
      bounded time and requests, every request is signed by the account over a
      fresh nonce, a successful order stores the key of the request it sent; a
      reader recovers everything from a certificate request.
    - Transport: the ClientHello reader ends on all bytes, aborts exactly on an
      overlong server name extension and reads back server names, datagrams keep
      to their backend and replies to their client, HTTP/2 requests keep to their
      host, a draining server admits no new connection, at most one instance holds
      the lock.
    - The process: for every outcome of its requests it opens nothing without a
      valid configuration or when it is told that another instance runs, and on a
      signal it stops exactly what it started.

    Theorems without a number beside them are of the same kind; lemmas on
    concrete runs record where the code departs from its comments or from what
    it means to do (for instance [health_change_race], [startup_order_fails]).

    ** Modelling choices

    - Integers keep their width: every operation that can wrap is wrapped as in
      the release profile, and theorems that need the absence of wrap-around
      state the bound (a counter one round short of 2^64, weights that fit).
    - Clocks are arguments: an operation takes each reading it makes. Where a
      theorem needs a monotone clock it says so.
    - Atomics are fields of a state record. Where the interleaving matters
      ([RateLimit.tstep], [Service.step], the tickets of [L4.next_with],
      [UdpProxy], [Connections.task_step], [Http2Pool.pool_step],
      [InstanceLock.os_step], [Relay.tcp_step], [ClusterTasks.task_step],
      [HealthTasks.check_step], [DistHealth.fleet_step], [Polling.poll_step],
      [Events.drain_step]) the grain is one atomic access, one wait, one call of
      the store or one system call; interleavings are sequentially consistent.
    - Hash maps are [gmap]s; where the code iterates over one, the model takes
      the entries in an arbitrary order.
    - Fuel: [Rule.parse_or] runs with [parse_fuel] (enough for every input by
      [rule_parser_total]), [Duration.parse_loop] with the length of the text
      ([duration_parser_total]), [Jwt.claims_loop] ([claims_reader_total]),
      [DigestAuth.params_loop] and [TcpProxy.ext_loop] ([sni_reader_bounds])
      with the length of their input, padding and chunking loops of [Hash] and
      [Der] with the length of the message, digit printing with the number of
      digits. The polling loops of [Acme] have the thirty rounds of the code,
      and [Connections.wait_loop] as many as its timeout allows
      ([drain_wait_ends]). Other loops are structural.
    - Parameters, with their laws as classes where theorems need them: regular
      expressions ([RegexLib], [RegexOps]), header maps ([HttpLib], [HttpOps],
      [HttpLaws]), URIs and URLs ([UriLib], [UriParser], [UrlLib]), IP addresses
      and networks ([IpLib]), the session store of [Sticky] ([SessionStore],
      which [LocalStore] implements), the commands of the Valkey server
      ([RedisServer], [RedisLaws]), JSON and YAML readers, SHA-1, key
      generation, signatures and the JSON of the authority ([AcmeLib]), the broadcast channels ([Broadcast], [BroadcastLaws]), that a
      store's lease can be taken once it is over ([LeaseLive]) and that it keeps
      health entries for a time ([HealthLaws], both met by both stores), certificate parsing and verification, the compressors. Each class of
      laws has an instance. What the system answers the process is an
      [environment], about which nothing is assumed.
    - Aborts: the release profile aborts the process on a panic, which the models
      return as [Panic] or as a state in which nothing runs.

    ** Not modelled

    Sockets, the HTTP and TLS protocols themselves, the streaming of bodies and
    the bytes that the library's copy loop relays are left to the libraries that implement them; their outcomes are inputs.
    The serde derivations of the configuration types, the compressors, the text
    of the dashboard and the installation of the metrics exporter are not
    modelled; nor are the accept loop of admin/server.rs, which nothing starts,
    the TLS client that accepts every certificate (proxy/tls_client.rs), and the
    containers of middleware/chain.rs, which no request path uses. *)
From stdpp Require Export base list gmap strings numbers option.
From Stdlib Require Export ZArith Lia.

#[global] Set Default Goal Selector "!".
#[export] Set Default Proof Using "Type".
Open Scope Z_scope.

(** ** Machine integers

    Rust integers are kept as [Z]; the operations of the release profile wrap
    (Cargo.toml sets no [overflow-checks] in [profile.release]). [usize] is the
    64-bit [usize] of the supported targets. *)
Definition u16_max : Z := 2 ^ 16 - 1.
Definition u32_max : Z := 2 ^ 32 - 1.
Definition u64_max : Z := 2 ^ 64 - 1.
Definition u128_max : Z := 2 ^ 128 - 1.
Definition i64_min : Z := - 2 ^ 63.
Definition i64_max : Z := 2 ^ 63 - 1.

Definition wrap_u32 (x : Z) : Z := x mod 2 ^ 32.
Definition wrap_u64 (x : Z) : Z := x mod 2 ^ 64.
Definition wrap_u128 (x : Z) : Z := x mod 2 ^ 128.
Definition wrap_i64 (x : Z) : Z := (x + 2 ^ 63) mod 2 ^ 64 - 2 ^ 63.

Definition in_u32 (x : Z) : Prop := 0 <= x <= u32_max.
Definition in_u64 (x : Z) : Prop := 0 <= x <= u64_max.
Definition in_i64 (x : Z) : Prop := i64_min <= x <= i64_max.

(** [a.saturating_sub(b)] on an unsigned type. *)
Definition saturating_sub (a b : Z) : Z := Z.max 0 (a - b).

Lemma wrap_u32_id x : in_u32 x -> wrap_u32 x = x.
Proof. unfold in_u32, u32_max, wrap_u32. intros. apply Z.mod_small. lia. Qed.

Lemma wrap_u64_id x : in_u64 x -> wrap_u64 x = x.
Proof. unfold in_u64, u64_max, wrap_u64. intros. apply Z.mod_small. lia. Qed.

Lemma wrap_i64_id x : in_i64 x -> wrap_i64 x = x.
Proof.
  unfold in_i64, i64_min, i64_max, wrap_i64. intros.
  rewrite Z.mod_small; lia.
Qed.

Lemma wrap_u32_range x : in_u32 (wrap_u32 x).
Proof. unfold in_u32, u32_max, wrap_u32. pose proof (Z.mod_pos_bound x (2 ^ 32)). lia. Qed.

Lemma wrap_u64_add x y : wrap_u64 (wrap_u64 x + y) = wrap_u64 (x + y).
Proof. apply Zplus_mod_idemp_l. Qed.
Lemma wrap_u64_range x : in_u64 (wrap_u64 x).
Proof. unfold in_u64, u64_max, wrap_u64. pose proof (Z.mod_pos_bound x (2 ^ 64)). lia. Qed.

Lemma wrap_i64_range x : in_i64 (wrap_i64 x).
Proof.
  unfold in_i64, i64_min, i64_max, wrap_i64.
  pose proof (Z.mod_pos_bound (x + 2 ^ 63) (2 ^ 64)). lia.
Qed.

Create HintDb tc discriminated.
#[export] Hint Resolve wrap_u32_range wrap_u64_range wrap_i64_range : tc.

(** [word] closes goals about machine-width bounds by linear arithmetic. *)
Ltac word :=
  unfold in_u32, in_u64, in_i64, u16_max, u32_max, u64_max, u128_max, i64_min, i64_max,
    saturating_sub in *; lia.

(** ** Outcomes of fallible Rust code

    [Ok] and [Err] are the constructors of Rust's [Result]; [Panic] is a call
    that aborts (the release profile has [panic = "abort"]). *)
Inductive result (E A : Type) : Type :=
| Ok (a : A)
| Err (e : E)
| Panic.
Arguments Ok {E A} a.
Arguments Err {E A} e.
Arguments Panic {E A}.

Definition res_bind {E A B} (r : result E A) (k : A -> result E B) : result E B :=
  match r with
  | Ok a => k a
  | Err e => Err e
  | Panic => Panic
  end.

Declare Scope rust_scope.
Delimit Scope rust_scope with rust.
(** The [?] operator: [x <-? r ;; k]. *)
Notation "x <-? r ;; k" := (res_bind r (fun x => k))
  (at level 100, r at next level, right associativity) : rust_scope.

Definition res_map {E A B} (f : A -> B) (r : result E A) : result E B :=
  res_bind r (fun a => Ok (f a)).

Definition ok_or {E A} (o : option A) (e : E) : result E A :=
  match o with Some a => Ok a | None => Err e end.

(** ** Sums over an index range *)
Fixpoint sum_n (n : nat) (f : nat -> Z) : Z :=
  match n with
  | O => 0
  | S m => sum_n m f + f m
  end.

Lemma sum_n_ext n f g : (forall j, (j < n)%nat -> f j = g j) -> sum_n n f = sum_n n g.
Proof.
  induction n as [|n IH]; intros H; simpl; [done|].
  rewrite IH; [|intros; apply H; lia]. rewrite H; [done|lia].
Qed.

Lemma sum_n_add n f g : sum_n n (fun j => f j + g j) = sum_n n f + sum_n n g.
Proof. induction n; simpl; lia. Qed.

Lemma sum_n_scale n c f : sum_n n (fun j => c * f j) = c * sum_n n f.
Proof. induction n as [|n IH]; simpl; lia. Qed.

Lemma sum_n_const0 n : sum_n n (fun _ => 0) = 0.
Proof. induction n; simpl; lia. Qed.

Lemma sum_n_single n k c : (k < n)%nat ->
  sum_n n (fun j => if decide (j = k) then c else 0) = c.
Proof.
  induction n as [|n IH]; intros H; [lia|]. simpl.
  destruct (decide (n = k)) as [->|Hne].
  - rewrite (sum_n_ext _ _ (fun _ => 0)); [rewrite sum_n_const0; lia|].
    intros j Hj. rewrite decide_False; [done|lia].
  - rewrite IH by lia. lia.
Qed.

Lemma sum_n_le n f g : (forall j, (j < n)%nat -> f j <= g j) -> sum_n n f <= sum_n n g.
Proof.
  induction n as [|n IH]; intros H; simpl; [lia|].
  pose proof (H n ltac:(lia)). specialize (IH ltac:(intros; apply H; lia)). lia.
Qed.

Lemma sum_n_bound n c f : (forall j, (j < n)%nat -> f j <= c) -> sum_n n f <= Z.of_nat n * c.
Proof.
  intros H. induction n as [|n IH]; simpl; [lia|].
  pose proof (H n ltac:(lia)). specialize (IH ltac:(intros; apply H; lia)). lia.
Qed.

(** A sum of terms that are each at most their counterpart and that has the
    same total is equal term by term. *)
Lemma sum_n_le_eq n f g : (forall j, (j < n)%nat -> f j <= g j) ->
  sum_n n f = sum_n n g -> forall j, (j < n)%nat -> f j = g j.
Proof.
  induction n as [|n IH]; intros Hle Heq j Hj; [lia|]. simpl in Heq.
  pose proof (sum_n_le n f g ltac:(intros; apply Hle; lia)).
  pose proof (Hle n ltac:(lia)).
  destruct (decide (j = n)) as [->|]; [lia|].
  apply IH; [intros; apply Hle; lia|lia|lia].
Qed.

(** Every term of a sum is bounded by the total minus a lower bound of the others. *)
Lemma sum_n_term n f lo k : (k < n)%nat -> lo <= 0 -> (forall j, (j < n)%nat -> lo <= f j) ->
  f k <= sum_n n f - (Z.of_nat n - 1) * lo.
Proof.
  induction n as [|n IH]; intros Hk Hlo Hf; [lia|]. simpl.
  destruct (decide (k = n)) as [->|].
  - assert (Z.of_nat n * lo <= sum_n n f).
    { clear IH Hk. induction n as [|n IH]; simpl; [lia|].
      pose proof (Hf n ltac:(lia)). specialize (IH ltac:(intros; apply Hf; lia)). lia. }
    lia.
  - specialize (IH ltac:(lia) Hlo ltac:(intros; apply Hf; lia)).
    pose proof (Hf n ltac:(lia)). lia.
Qed.

(** Sum of a list of integers, as [Iterator::sum] folds it. *)
Definition zsum (l : list Z) : Z := fold_right Z.add 0 l.

Lemma zsum_cons x l : zsum (x :: l) = x + zsum l.
Proof. done. Qed.

Lemma zsum_app l1 l2 : zsum (l1 ++ l2) = zsum l1 + zsum l2.
Proof. induction l1; simpl in *; lia. Qed.

Lemma sum_n_list (l : list Z) :
  sum_n (length l) (fun j => default 0 (l !! j)) = zsum l.
Proof.
  induction l as [|x l IH] using rev_ind; [done|].
  rewrite length_app, zsum_app. replace (length l + length [x])%nat with (S (length l)) by (simpl; lia).
  simpl sum_n. rewrite lookup_app_r, Nat.sub_diag by lia. simpl.
  rewrite <- IH. rewrite (sum_n_ext _ _ (fun j => default 0 (l !! j))); [lia|].
  intros j Hj. by rewrite lookup_app_l.
Qed.

(** ** Field updates of one entry of a vector *)
Lemma fmap_alter_same {A B} (f : A -> B) (g : A -> A) i (l : list A) :
  (forall x, f (g x) = f x) -> f <$> alter g i l = f <$> l.
Proof.
  intros Hf. apply list_eq. intros j. rewrite !list_lookup_fmap, list_lookup_alter.
  case_decide; [subst|done]. destruct (l !! j); simpl; [by rewrite Hf|done].
Qed.

Lemma fmap_alter_insert {A B} (f : A -> B) (g : A -> A) i v (l : list A) :
  (forall x, f (g x) = v) -> f <$> alter g i l = <[i := v]> (f <$> l).
Proof.
  intros Hf. apply list_eq. intros j.
  rewrite list_lookup_fmap, list_lookup_alter, list_lookup_insert, list_lookup_fmap, length_fmap.
  destruct (decide (i = j)) as [->|Hne].
  - destruct (l !! j) eqn:E; simpl.
    + apply lookup_lt_Some in E. rewrite decide_True; [by rewrite Hf|lia].
    + apply lookup_ge_None in E. rewrite decide_False; [done|lia].
  - rewrite decide_False; [done|lia].
Qed.
