(* ===== verification/Swrr.v ===== *)
(** * Smooth weighted round-robin, abstractly

    Both [WeightedBalancer::next_server] (src/src/balancer/weighted.rs) and
    [WeightedServiceRouter::next_service] (src/src/service/weighted.rs) run the
    same algorithm: add every active entry's weight to its current weight,
    select the first entry whose current weight is largest, subtract the total
    weight from the selected one. This file specifies one round as a relation
    over the current weights and proves what any sequence of rounds guarantees;
    the two components prove that their loops implement the relation. *)
From S2P Require Import Prelude.

Section Swrr.
(** [n] entries, the static weight [w j] of entry [j], and whether it is
    active (healthy). *)
Context (n : nat) (w : nat -> Z) (act : nat -> bool).

Definition act_w (j : nat) : Z := if act j then w j else 0.
Definition total : Z := sum_n n act_w.

(** One round: from current weights [cw], entry [k] is selected and the
    current weights become [cw']. *)
Record round (cw : nat -> Z) (k : nat) (cw' : nat -> Z) : Prop := {
  round_range : (k < n)%nat;
  round_active : act k = true;
  round_max : forall j, (j < n)%nat -> act j = true -> cw j + w j <= cw k + w k;
  round_post : forall j, (j < n)%nat ->
    cw' j = (if act j then cw j + w j else cw j) - (if decide (j = k) then total else 0);
}.

(** A run of rounds, with the selected entries in order. *)
Inductive rounds : (nat -> Z) -> list nat -> (nat -> Z) -> Prop :=
| rounds_nil cw : rounds cw [] cw
| rounds_cons cw k cw1 ks cw2 :
    round cw k cw1 -> rounds cw1 ks cw2 -> rounds cw (k :: ks) cw2.

Definition picks (j : nat) (ks : list nat) : Z :=
  Z.of_nat (length (filter (fun k => k = j) ks)).

Definition act_sum (cw : nat -> Z) : Z := sum_n n (fun j => if act j then cw j else 0).

(** The state the algorithm maintains between rounds: the active current
    weights cancel out and none of them has fallen to [-total]. *)
Record balanced (cw : nat -> Z) : Prop := {
  balanced_sum : act_sum cw = 0;
  balanced_low : forall j, (j < n)%nat -> act j = true -> - total < cw j;
}.

Hypothesis w_nonneg : forall j, (j < n)%nat -> 0 <= w j.
Hypothesis total_pos : 0 < total.

Lemma act_sum_step cw k cw' : round cw k cw' -> act_sum cw' = act_sum cw.
Proof using Type.
  intros R. destruct R as [Hk Hak _ Hpost]. unfold act_sum.
  rewrite (sum_n_ext _ _ (fun j => ((if act j then cw j else 0) + act_w j)
    + (if decide (j = k) then - total else 0))).
  - rewrite !sum_n_add, sum_n_single by done. unfold total. lia.
  - intros j Hj. rewrite Hpost by done. unfold act_w.
    destruct (decide (j = k)) as [->|]; [rewrite Hak; lia|]. destruct (act j); lia.
Qed.

(** The selected entry held a positive weight before the subtraction: it is
    the largest of a family that sums to [total]. *)
Lemma round_pick_pos cw k cw' : balanced cw -> round cw k cw' -> 0 < cw k + w k.
Proof using total_pos.
  intros [Hs _] [Hk Hak Hmax _].
  destruct (Z.lt_ge_cases 0 (cw k + w k)) as [|Hle]; [done|exfalso].
  assert (act_sum cw + total <= 0); [|lia].
  unfold act_sum, total. rewrite <- sum_n_add.
  transitivity (sum_n n (fun _ => 0)); [|by rewrite sum_n_const0].
  apply sum_n_le. intros j Hj. unfold act_w.
  destruct (act j) eqn:Ha; [|lia]. specialize (Hmax j Hj Ha). lia.
Qed.

Lemma balanced_step cw k cw' : balanced cw -> round cw k cw' -> balanced cw'.
Proof using w_nonneg total_pos.
  intros Hb Hr. pose proof (round_pick_pos _ _ _ Hb Hr) as Hpos.
  pose proof (act_sum_step _ _ _ Hr) as Hsum.
  destruct Hb as [Hs Hlow], Hr as [Hk Hak Hmax Hpost]. split; [lia|].
  intros j Hj Ha. rewrite Hpost by done. rewrite Ha.
  pose proof (w_nonneg j Hj). pose proof (Hlow j Hj Ha).
  destruct (decide (j = k)) as [->|]; lia.
Qed.

Lemma rounds_balanced cw ks cw' : rounds cw ks cw' -> balanced cw -> balanced cw'.
Proof using w_nonneg total_pos. induction 1; eauto using balanced_step. Qed.

Lemma picks_cons j k ks : picks j (k :: ks) = (if decide (j = k) then 1 else 0) + picks j ks.
Proof using Type.
  unfold picks. rewrite filter_cons.
  destruct (decide (k = j)), (decide (j = k)); simpl; try congruence; lia.
Qed.

(** The ledger: an active entry's current weight is what it accrued minus
    what its selections cost. *)
Lemma rounds_ledger cw ks cw' : rounds cw ks cw' -> forall j, (j < n)%nat -> act j = true ->
  cw' j = cw j + Z.of_nat (length ks) * w j - total * picks j ks.
Proof using Type.
  induction 1 as [cw|cw k cw1 ks cw2 Hr _ IH]; intros j Hj Ha.
  - unfold picks. simpl. lia.
  - rewrite (IH j Hj Ha), picks_cons. destruct Hr as [_ _ _ Hpost].
    rewrite (Hpost j Hj), Ha. cbn [length].
    destruct (decide (j = k)); lia.
Qed.

Lemma rounds_inactive cw ks cw' : rounds cw ks cw' -> forall j, (j < n)%nat -> act j = false ->
  picks j ks = 0 /\ cw' j = cw j.
Proof using Type.
  induction 1 as [cw|cw k cw1 ks cw2 Hr _ IH]; intros j Hj Ha; [done|].
  rewrite picks_cons. destruct (IH j Hj Ha) as [-> ->]. destruct Hr as [_ Hak _ Hpost].
  rewrite (Hpost j Hj), Ha. destruct (decide (j = k)); [congruence|lia].
Qed.

Lemma rounds_total_picks cw ks cw' : rounds cw ks cw' ->
  sum_n n (fun j => picks j ks) = Z.of_nat (length ks).
Proof using Type.
  induction 1 as [cw|cw k cw1 ks cw2 Hr _ IH].
  - unfold picks. simpl. apply sum_n_const0.
  - rewrite (sum_n_ext _ _ _ (fun j _ => picks_cons j k ks)), sum_n_add, IH.
    destruct Hr as [Hk _ _ _].
    rewrite sum_n_single by done. cbn [length]. lia.
Qed.

(** Exact fairness over one cycle: [total] rounds from the zero state select
    every active entry exactly as often as its weight. *)
Lemma cycle_fair cw ks cw' :
  (forall j, (j < n)%nat -> act j = true -> cw j = 0) ->
  rounds cw ks cw' -> Z.of_nat (length ks) = total ->
  forall j, (j < n)%nat -> picks j ks = act_w j.
Proof using w_nonneg total_pos.
  intros Hz Hrs Hlen.
  assert (Hb : balanced cw).
  { split.
    - unfold act_sum. rewrite (sum_n_ext _ _ (fun _ => 0)); [apply sum_n_const0|].
      intros j Hj. destruct (act j) eqn:Ha; [by rewrite Hz|done].
    - intros j Hj Ha. rewrite Hz by done. lia. }
  pose proof (rounds_balanced _ _ _ Hrs Hb) as [_ Hlow].
  apply sum_n_le_eq.
  - intros j Hj. unfold act_w. destruct (act j) eqn:Ha.
    + pose proof (rounds_ledger _ _ _ Hrs j Hj Ha) as Hl. rewrite Hz, Hlen in Hl by done.
      pose proof (Hlow j Hj Ha). nia.
    + destruct (rounds_inactive _ _ _ Hrs j Hj Ha) as [-> _]. lia.
  - rewrite (rounds_total_picks _ _ _ Hrs). done.
Qed.

(** At the end of a cycle the active current weights are back at zero. *)
Lemma cycle_closes cw ks cw' :
  (forall j, (j < n)%nat -> act j = true -> cw j = 0) ->
  rounds cw ks cw' -> Z.of_nat (length ks) = total ->
  forall j, (j < n)%nat -> act j = true -> cw' j = 0.
Proof using w_nonneg total_pos.
  intros Hz Hrs Hlen j Hj Ha.
  rewrite (rounds_ledger _ _ _ Hrs j Hj Ha), (cycle_fair _ _ _ Hz Hrs Hlen j Hj), Hz, Hlen by done.
  unfold act_w. rewrite Ha. lia.
Qed.

(** Between rounds every active current weight lies in [(-total, n * total)];
    with the round's increment it stays below [n * total + total]. *)
Lemma balanced_upper cw j : balanced cw -> (j < n)%nat -> act j = true ->
  cw j <= (Z.of_nat n - 1) * total.
Proof using total_pos.
  intros [Hs Hlow] Hj Ha.
  pose proof (sum_n_term n (fun j => if act j then cw j else 0) (- total) j Hj ltac:(lia)) as Ht.
  unfold act_sum in Hs. rewrite Hs in Ht. cbn beta in Ht. rewrite Ha in Ht.
  specialize (Ht ltac:(intros i Hi; destruct (act i) eqn:Hai; [specialize (Hlow i Hi Hai)|]; lia)).
  lia.
Qed.
End Swrr.

(** The specification depends on the weight and activity functions only
    pointwise. *)
Section Ext.
Context (n : nat) (w w' : nat -> Z) (act act' : nat -> bool).
Hypothesis Hw : forall j, w' j = w j.
Hypothesis Hact : forall j, act' j = act j.

Lemma total_ext : total n w' act' = total n w act.
Proof using Hw Hact.
  unfold total. apply sum_n_ext. intros j _. unfold act_w. by rewrite Hw, Hact.
Qed.

Lemma round_ext cw k cw' : round n w' act' cw k cw' -> round n w act cw k cw'.
Proof using Hw Hact.
  intros [H1 H2 H3 H4]. split.
  - done.
  - by rewrite <- Hact.
  - intros j Hj Ha. rewrite <- !Hw. apply H3; [done|by rewrite Hact].
  - intros j Hj. rewrite H4 by done. by rewrite total_ext, Hact, Hw.
Qed.

Lemma rounds_ext cw ks cw' : rounds n w' act' cw ks cw' -> rounds n w act cw ks cw'.
Proof using Hw Hact. induction 1; econstructor; eauto using round_ext. Qed.

Lemma balanced_ext cw : balanced n w act cw -> balanced n w' act' cw.
Proof using Hw Hact.
  intros [H1 H2]. split.
  - rewrite <- H1. unfold act_sum. apply sum_n_ext. intros j _. by rewrite Hact.
  - intros j Hj Ha. rewrite total_ext. apply H2; [done|by rewrite <- Hact].
Qed.
End Ext.
