(* ===== verification/Config.v ===== *)
(** * Configuration data

    The records of src/src/config/types.rs that the modelled components read,
    with the source's field names. Types of the [hyper] crate that only travel
    through (scheme, authority) are kept in their textual form. *)
From S2P Require Import Prelude.

Record ParsedBackendUri := { scheme : string; authority : string }.

Record Server := {
  url : string;
  weight : Z; (* u32 *)
  preserve_path : bool;
  parsed_uri : option ParsedBackendUri;
  url_arc : option string;
}.

#[export] Instance ParsedBackendUri_eq_dec : EqDecision ParsedBackendUri.
Proof. solve_decision. Defined.
#[export] Instance Server_eq_dec : EqDecision Server.
Proof. solve_decision. Defined.

Definition default_weight : Z := 1.

(** A server with a URL and a weight, the other fields at their defaults. *)
Definition mk_server (u : string) (w : Z) : Server :=
  {| url := u; weight := w; preserve_path := false; parsed_uri := None; url_arc := None |}.

Record StickyCookie := {
  name : string;
  secure : bool;
  http_only : bool;
  same_site : option string;
  max_age : option Z; (* i64 *)
  path : option string;
}.

Record Sticky := { cookie : option StickyCookie }.

(** [weighted] service: named services with a traffic weight. *)
Record WeightedServiceRef := { wref_name : string; wref_weight : Z }.

Record FailoverService := { fo_service : string; fo_fallback : string }.

(** Weights come from [u32] fields. *)
Definition server_ok (s : Server) : Prop := in_u32 (weight s).
