(* ===== verification/Balancer.v ===== *)
(** * Load-balancing strategies: the [Balancer] trait, round robin, least
    connections and random

    Models src/src/balancer/mod.rs (the trait), round_robin.rs, least_conn.rs
    and random.rs. An [AtomicX] field is a plain field of the state record and
    each method a function from state to state (the methods contain no
    blocking); the per-thread xorshift cell of [fast_random] is the extra
    argument and result [tls]. *)
From S2P Require Import Prelude Config.

(** ** The trait *)
Class Balancer (B : Type) := {
  next_server : B -> Z -> option Server * B * Z;
  mark_healthy : nat -> B -> B;
  mark_unhealthy : nat -> B -> B;
  find_server_index : B -> string -> option nat;
}.

(** [self.servers.iter().position(|s| s.url == url)] *)
Definition position_url (servers : list Server) (u : string) : option nat :=
  fst <$> list_find (fun s => url s = u) servers.

Lemma position_url_Some servers u i : position_url servers u = Some i <->
  exists s, servers !! i = Some s /\ url s = u /\
    forall j t, servers !! j = Some t -> (j < i)%nat -> url t <> u.
Proof.
  unfold position_url. split.
  - destruct (list_find _ servers) as [[i' s]|] eqn:E; intros [= <-].
    apply list_find_Some in E as (H1 & H2 & H3). simpl. eauto.
  - intros (s & H1 & H2 & H3).
    assert (list_find (fun s => url s = u) servers = Some (i, s)) as ->; [|done].
    apply list_find_Some. eauto.
Qed.

Lemma position_url_None servers u : position_url servers u = None <->
  Forall (fun s => url s <> u) servers.
Proof.
  unfold position_url. pose proof (list_find_None (fun s => url s = u) servers) as H.
  rewrite <- H. clear H. destruct (list_find _ _); simpl; naive_solver.
Qed.

(** What a strategy promises its callers: the server list never changes, the
    health vector changes only at a marked index, a selection is one of the
    configured servers, and selection fails only when nothing is selectable. *)
Class BalancerLaws (B : Type) `{Balancer B} (servers_of : B -> list Server)
    (health_of : B -> list bool) (wf : B -> Prop) := {
  law_wf_next b t : wf b -> wf (next_server b t).1.2;
  law_wf_healthy b i : wf b -> wf (mark_healthy i b);
  law_wf_unhealthy b i : wf b -> wf (mark_unhealthy i b);
  law_health_length b : wf b -> length (health_of b) = length (servers_of b);
  law_servers_next b t : servers_of (next_server b t).1.2 = servers_of b;
  law_servers_healthy b i : servers_of (mark_healthy i b) = servers_of b;
  law_servers_unhealthy b i : servers_of (mark_unhealthy i b) = servers_of b;
  law_health_next b t : health_of (next_server b t).1.2 = health_of b;
  law_health_healthy b i : health_of (mark_healthy i b) = <[i := true]> (health_of b);
  law_health_unhealthy b i : health_of (mark_unhealthy i b) = <[i := false]> (health_of b);
  law_next_member b t s : wf b -> (next_server b t).1.1 = Some s -> s ∈ servers_of b;
  law_next_none b t : wf b -> (next_server b t).1.1 = None ->
    Forall (fun h => h = false) (health_of b);
  law_find b u : find_server_index b u = position_url (servers_of b) u;
}.

(** [self.healthy[idx].load()]: the flag vectors are as long as the server
    list, so the index is always in range. *)
Definition load_flag (hs : list bool) (idx : nat) : bool := default false (hs !! idx).

(** [store] guarded by [if index < self.healthy.len()] or [servers.get(index)]. *)
Definition store_flag (v : bool) (idx : nat) (hs : list bool) : list bool :=
  if decide (idx < length hs)%nat then <[idx := v]> hs else hs.

Lemma store_flag_insert v idx hs : store_flag v idx hs = <[idx := v]> hs.
Proof. unfold store_flag. case_decide; [done|]. rewrite list_insert_ge; [done|lia]. Qed.

(** ** Round robin *)
Module RoundRobin.
Record t := {
  servers : list Server;
  healthy : list bool;
  counter : Z; (* AtomicUsize *)
}.

Definition new (ss : list Server) : t :=
  {| servers := ss; healthy := (fun _ => true) <$> ss; counter := 0 |}.

(** [(start + i) % len] *)
Definition slot (start : Z) (len i : nat) : nat :=
  Z.to_nat (wrap_u64 (start + Z.of_nat i) mod Z.of_nat len).

(** [for i in 0..len]: the first index whose flag is set. *)
Fixpoint scan (hs : list bool) (start : Z) (len : nat) (ixs : list nat) : option nat :=
  match ixs with
  | [] => None
  | i :: ixs' =>
      let idx := slot start len i in
      if load_flag hs idx then Some idx else scan hs start len ixs'
  end.

(** The index [next_server] returns a reference to, for a non-empty list. *)
Definition pick (b : t) : nat :=
  let len := length (servers b) in
  let start := counter b in
  match scan (healthy b) start len (seq 0 len) with
  | Some idx => idx
  | None => Z.to_nat (start mod Z.of_nat len)
  end.

Definition bump (b : t) : t :=
  {| servers := servers b; healthy := healthy b; counter := wrap_u64 (counter b + 1) |}.

Definition next (b : t) : option Server * t :=
  match servers b with
  | [] => (None, b)
  | _ => (servers b !! pick b, bump b)
  end.

Definition set_flag (v : bool) (i : nat) (b : t) : t :=
  {| servers := servers b; healthy := store_flag v i (healthy b); counter := counter b |}.

#[global] Instance balancer : Balancer t := {
  next_server b tls := (next b, tls);
  mark_healthy := set_flag true;
  mark_unhealthy := set_flag false;
  find_server_index b u := position_url (servers b) u;
}.

Record wf (b : t) : Prop := {
  wf_length : length (healthy b) = length (servers b);
  wf_counter : in_u64 (counter b);
}.

Lemma rr_new_wf ss : wf (new ss).
Proof. split; simpl; [by rewrite length_fmap|word]. Qed.

Lemma slot_lt start len i : (0 < len)%nat -> (slot start len i < len)%nat.
Proof.
  intros. unfold slot. pose proof (Z.mod_pos_bound (wrap_u64 (start + Z.of_nat i)) (Z.of_nat len)).
  lia.
Qed.

Lemma scan_Some hs start len ixs idx : scan hs start len ixs = Some idx ->
  exists i, i ∈ ixs /\ idx = slot start len i /\ load_flag hs idx = true.
Proof.
  induction ixs as [|i ixs IH]; simpl; [done|].
  destruct (load_flag hs (slot start len i)) eqn:E.
  - intros [= <-]. exists i. repeat split; auto. left.
  - intros H. destruct (IH H) as (i' & ? & ? & ?). exists i'. repeat split; auto. by right.
Qed.

Lemma scan_None hs start len ixs : scan hs start len ixs = None ->
  forall i, i ∈ ixs -> load_flag hs (slot start len i) = false.
Proof.
  induction ixs as [|i ixs IH]; simpl; intros H j Hj; [by apply not_elem_of_nil in Hj|].
  destruct (load_flag hs (slot start len i)) eqn:E; [done|].
  apply elem_of_cons in Hj as [->|Hj]; auto.
Qed.

Lemma pick_lt b : servers b <> [] -> (pick b < length (servers b))%nat.
Proof.
  intros Hne. assert (0 < length (servers b))%nat by (destruct (servers b); simpl; [congruence|lia]).
  unfold pick. destruct (scan _ _ _ _) eqn:E.
  - apply scan_Some in E as (i & _ & -> & _). by apply slot_lt.
  - pose proof (Z.mod_pos_bound (counter b) (Z.of_nat (length (servers b)))). lia.
Qed.

Lemma next_nonempty b : servers b <> [] -> next b = (servers b !! pick b, bump b).
Proof. intros H. unfold next. destruct (servers b); [congruence|done]. Qed.

#[global] Instance laws : BalancerLaws t servers healthy wf.
Proof.
  split; simpl.
  - intros b _ Hwf. unfold next. destruct (servers b); simpl; [exact Hwf|].
    destruct Hwf. split; simpl; [done|]. apply wrap_u64_range.
  - intros b i [H1 H2]. split; simpl; [|done]. rewrite store_flag_insert. by rewrite length_insert.
  - intros b i [H1 H2]. split; simpl; [|done]. rewrite store_flag_insert. by rewrite length_insert.
  - by intros b [].
  - intros b _. unfold next. by destruct (servers b) eqn:E.
  - done.
  - done.
  - intros b _. unfold next. by destruct (servers b) eqn:E.
  - intros. by rewrite store_flag_insert.
  - intros. by rewrite store_flag_insert.
  - intros b _ s Hwf Hs. destruct (decide (servers b = [])) as [He|He].
    + unfold next in Hs. by rewrite He in Hs.
    + rewrite next_nonempty in Hs by done. by eapply list_elem_of_lookup_2.
  - intros b _ [H1 H2] Hs. destruct (decide (servers b = [])) as [He|He].
    + rewrite He in H1. apply nil_length_inv in H1. by rewrite H1.
    + rewrite next_nonempty in Hs by done. apply lookup_ge_None in Hs.
      pose proof (pick_lt b He). lia.
  - done.
Qed.
(** ** Correctness of round robin *)

(** Away from the wrap-around of the 64-bit counter the scan visits the
    servers in cyclic order. *)
Lemma slot_exact start len i : 0 <= start -> start + Z.of_nat i <= u64_max ->
  slot start len i = Z.to_nat ((start + Z.of_nat i) mod Z.of_nat len).
Proof. intros. unfold slot. rewrite wrap_u64_id by word. done. Qed.

(** The slots of one scan cover every index. *)
Lemma slot_onto start len k : (k < len)%nat -> 0 <= start -> start + Z.of_nat len <= u64_max ->
  exists i, (i < len)%nat /\ slot start len i = k.
Proof.
  intros Hk Hs Hov. set (n := Z.of_nat len).
  set (d := (Z.of_nat k - start) mod n).
  assert (Hd : 0 <= d < n) by (apply Z.mod_pos_bound; lia).
  exists (Z.to_nat d). split; [lia|].
  rewrite slot_exact by lia. rewrite Z2Nat.id by lia. unfold d.
  rewrite Zplus_mod_idemp_r. replace (start + (Z.of_nat k - start)) with (Z.of_nat k) by lia.
  rewrite Z.mod_small by lia. lia.
Qed.

Lemma scan_first hs start len : forall m k idx,
  scan hs start len (seq k m) = Some idx ->
  exists i, (k <= i < k + m)%nat /\ idx = slot start len i /\ load_flag hs idx = true /\
    forall j, (k <= j < i)%nat -> load_flag hs (slot start len j) = false.
Proof.
  induction m as [|m IH]; intros k idx; simpl; [done|].
  destruct (load_flag hs (slot start len k)) eqn:E.
  - intros [= <-]. exists k. repeat split; auto; lia.
  - intros H. destruct (IH (S k) idx H) as (i & Hi & -> & Hf & Hj).
    exists i. split; [lia|]. repeat split; auto. intros j Hj'.
    destruct (decide (j = k)) as [->|]; [done|]. apply Hj. lia.
Qed.

(** [calls m b]: the results of [m] consecutive [next_server] calls. *)
Fixpoint calls (m : nat) (b : t) : list (option Server) * t :=
  match m with
  | O => ([], b)
  | S m' =>
      let (r, b1) := next b in
      let (rs, b2) := calls m' b1 in
      (r :: rs, b2)
  end.

Definition all_healthy (b : t) : Prop := Forall (fun h => h = true) (healthy b).

Lemma pick_all_healthy b : wf b -> all_healthy b -> servers b <> [] ->
  counter b <= u64_max ->
  pick b = Z.to_nat (counter b mod Z.of_nat (length (servers b))).
Proof.
  intros [Hlen Hc] Hall Hne Hov.
  assert (Hpos : (0 < length (servers b))%nat) by (destruct (servers b); simpl; [congruence|lia]).
  unfold pick. destruct (length (servers b)) as [|n] eqn:En; [lia|]. cbn [seq scan].
  assert (Hs : slot (counter b) (S n) 0 = Z.to_nat (counter b mod Z.of_nat (S n))).
  { rewrite slot_exact by word. do 2 f_equal. lia. }
  rewrite Hs. unfold load_flag.
  destruct (lookup_lt_is_Some_2 (healthy b) (Z.to_nat (counter b mod Z.of_nat (S n)))) as [h Hh].
  { pose proof (Z.mod_pos_bound (counter b) (Z.of_nat (S n))). lia. }
  rewrite Hh. pose proof (Forall_lookup_1 _ _ _ _ Hall Hh) as ->. done.
Qed.

Lemma calls_spec m : forall b, wf b -> all_healthy b -> servers b <> [] ->
  counter b + Z.of_nat m <= u64_max ->
  forall i, (i < m)%nat ->
    (calls m b).1 !! i =
      Some (servers b !! Z.to_nat ((counter b + Z.of_nat i) mod Z.of_nat (length (servers b)))).
Proof.
  induction m as [|m IH]; intros b Hwf Hall Hne Hov i Hi; [lia|].
  pose proof Hwf as [Hl Hc]. cbn [calls]. rewrite next_nonempty by done.
  destruct (calls m (bump b)) as [rs b2] eqn:E. cbn [fst].
  destruct i as [|i].
  - cbn -[Z.of_nat]. rewrite pick_all_healthy by (done || word).
    by replace (counter b + Z.of_nat 0) with (counter b) by lia.
  - cbn -[Z.of_nat]. change rs with (fst (rs, b2)). rewrite <- E. rewrite IH.
    + cbn -[Z.of_nat]. rewrite wrap_u64_id by word.
      by replace (counter b + 1 + Z.of_nat i) with (counter b + Z.of_nat (S i)) by lia.
    + split; cbn; [done|apply wrap_u64_range].
    + exact Hall.
    + exact Hne.
    + cbn. rewrite wrap_u64_id by word. lia.
    + lia.
Qed.

Lemma calls_length m b : length (calls m b).1 = m.
Proof.
  revert b. induction m as [|m IH]; intros b; [done|]. cbn [calls].
  destruct (next b) as [r b1]. specialize (IH b1). destruct (calls m b1) as [rs b2].
  cbn in *. by rewrite IH.
Qed.
End RoundRobin.

(** ** Least connections *)
Module LeastConn.
Record LeastConnServer := {
  config : Server;
  healthy : bool;
  active_connections : Z; (* AtomicUsize *)
}.
Record t := { servers : list LeastConnServer }.

Definition new (ss : list Server) : t :=
  {| servers := (fun c => {| config := c; healthy := true; active_connections := 0 |}) <$> ss |}.

(** [if let Some(server) = self.servers.get(index) { .. }] *)
Definition update (f : LeastConnServer -> LeastConnServer) (index : nat) (b : t) : t :=
  {| servers := alter f index (servers b) |}.

Definition set_conns (c : Z) (s : LeastConnServer) : LeastConnServer :=
  {| config := config s; healthy := healthy s; active_connections := c |}.
Definition set_healthy (h : bool) (s : LeastConnServer) : LeastConnServer :=
  {| config := config s; healthy := h; active_connections := active_connections s |}.

Definition acquire (index : nat) (b : t) : t :=
  update (fun s => set_conns (wrap_u64 (active_connections s + 1)) s) index b.
Definition release (index : nat) (b : t) : t :=
  update (fun s => set_conns (wrap_u64 (active_connections s - 1)) s) index b.

Definition weighted_conns (s : LeastConnServer) : Z :=
  if decide (weight (config s) > 0)
  then wrap_u64 (active_connections s * 100) / weight (config s)
  else wrap_u64 (active_connections s * 100).

(** The loop of [next_server], from index [idx] with the running minimum. *)
Fixpoint scan (idx : nat) (ss : list LeastConnServer) (best_idx : option nat)
    (min_conns : Z) : option nat :=
  match ss with
  | [] => best_idx
  | s :: ss' =>
      if healthy s then
        if decide (weighted_conns s < min_conns)
        then scan (S idx) ss' (Some idx) (weighted_conns s)
        else scan (S idx) ss' best_idx min_conns
      else scan (S idx) ss' best_idx min_conns
  end.

Definition pick (b : t) : option nat := scan 0 (servers b) None u64_max.

Definition next (b : t) : option Server :=
  match servers b with
  | [] => None
  | _ => idx ← pick b; config <$> servers b !! idx
  end.

#[global] Instance balancer : Balancer t := {
  next_server b tls := (next b, b, tls);
  mark_healthy := update (set_healthy true);
  mark_unhealthy := update (set_healthy false);
  find_server_index b u := position_url (config <$> servers b) u;
}.

Definition server_wf (s : LeastConnServer) : Prop :=
  in_u64 (active_connections s) /\ in_u32 (weight (config s)).
Definition wf (b : t) : Prop := Forall server_wf (servers b).

Lemma lc_new_wf ss : Forall server_ok ss -> wf (new ss).
Proof.
  intros H. unfold wf. simpl. apply Forall_fmap. eapply Forall_impl; [|exact H].
  intros s Hs. split; simpl; [word|exact Hs].
Qed.

(** Scaling by 100 never produces the sentinel [usize::MAX]: it is odd. *)
Lemma weighted_conns_lt_max s : server_wf s -> 0 <= weighted_conns s < u64_max.
Proof.
  intros [Hc Hw]. unfold weighted_conns.
  assert (0 <= wrap_u64 (active_connections s * 100) < u64_max).
  { unfold wrap_u64, u64_max.
    pose proof (Z.mod_pos_bound (active_connections s * 100) (2 ^ 64)).
    pose proof (Z.div_mod (active_connections s * 100) (2 ^ 64)). lia. }
  case_decide; [|lia]. split; [apply Z.div_pos; lia|].
  apply Z.div_lt_upper_bound; [lia|]. nia.
Qed.

(** Loop invariant: the result is the first healthy entry with the smallest
    weighted load among those not above the running minimum. *)
Lemma scan_spec ss : forall idx best m,
  match scan idx ss best m with
  | None => best = None /\ Forall (fun s => healthy s = true -> m <= weighted_conns s) ss
  | Some k =>
      (best = Some k /\ Forall (fun s => healthy s = true -> m <= weighted_conns s) ss) \/
      (exists i s, k = (idx + i)%nat /\ ss !! i = Some s /\ healthy s = true /\
         weighted_conns s < m /\
         forall j u, ss !! j = Some u -> healthy u = true ->
           if decide (j < i)%nat then weighted_conns s < weighted_conns u
           else weighted_conns s <= weighted_conns u)
  end.
Proof.
  induction ss as [|s ss IH]; intros idx best m; simpl.
  - destruct best; [left|]; split; done.
  - destruct (healthy s) eqn:Hh; [case_decide as Hlt|].
    + specialize (IH (S idx) (Some idx) (weighted_conns s)).
      destruct (scan _ _ _ _) as [k|]; [|by destruct IH].
      destruct IH as [[[= <-] Hall]|(i & u & -> & Hl & Hu & Hm & Hmin)]; right.
      * exists 0%nat, s. split; [lia|]. repeat split; try done.
        intros [|j] v Hv Hvh; [injection Hv as ->; simpl; lia|]. simpl in *.
        rewrite Forall_lookup in Hall. apply (Hall j v Hv Hvh).
      * exists (S i), u. split; [lia|]. repeat split; try done; [lia|].
        intros [|j] v Hv Hvh.
        { simpl in Hv. injection Hv as ->. rewrite decide_True by lia. lia. }
        simpl in Hv. specialize (Hmin j v Hv Hvh).
        destruct (decide (j < i)%nat), (decide (S j < S i)%nat); lia.
    + specialize (IH (S idx) best m).
      destruct (scan _ _ _ _) as [k|].
      * destruct IH as [[-> Hall]|(i & u & -> & Hl & Hu & Hm & Hmin)].
        { left. split; [done|]. constructor; [intros; lia|done]. }
        right. exists (S i), u. split; [lia|]. repeat split; try done.
        intros [|j] v Hv Hvh.
        { simpl in Hv. injection Hv as ->. rewrite decide_True by lia. lia. }
        simpl in Hv. specialize (Hmin j v Hv Hvh).
        destruct (decide (j < i)%nat), (decide (S j < S i)%nat); lia.
      * destruct IH. split; [done|]. constructor; [intros; lia|done].
    + specialize (IH (S idx) best m).
      destruct (scan _ _ _ _) as [k|].
      * destruct IH as [[-> Hall]|(i & u & -> & Hl & Hu & Hm & Hmin)].
        { left. split; [done|]. constructor; [congruence|done]. }
        right. exists (S i), u. split; [lia|]. repeat split; try done.
        intros [|j] v Hv Hvh; [simpl in Hv; congruence|].
        simpl in Hv. specialize (Hmin j v Hv Hvh).
        destruct (decide (j < i)%nat), (decide (S j < S i)%nat); lia.
      * destruct IH. split; [done|]. constructor; [congruence|done].
Qed.

Lemma pick_Some b k : pick b = Some k ->
  exists s, servers b !! k = Some s /\ healthy s = true /\
    forall j u, servers b !! j = Some u -> healthy u = true ->
      if decide (j < k)%nat then weighted_conns s < weighted_conns u
      else weighted_conns s <= weighted_conns u.
Proof.
  unfold pick. intros H. pose proof (scan_spec (servers b) 0 None u64_max) as HS.
  rewrite H in HS. destruct HS as [[? _]|(i & s & -> & ? & ? & _ & ?)]; [done|].
  exists s. eauto.
Qed.

Lemma pick_None b : wf b -> pick b = None ->
  Forall (fun s => healthy s = false) (servers b).
Proof.
  unfold pick. intros Hwf H. pose proof (scan_spec (servers b) 0 None u64_max) as HS.
  rewrite H in HS. destruct HS as [_ HS]. apply Forall_lookup. intros i s Hs.
  pose proof (Forall_lookup_1 _ _ _ _ HS Hs) as Hm.
  pose proof (weighted_conns_lt_max s (Forall_lookup_1 _ _ _ _ Hwf Hs)).
  destruct (healthy s) eqn:E; [specialize (Hm E); lia|done].
Qed.

Lemma update_config f i b : (forall s, config (f s) = config s) ->
  config <$> servers (update f i b) = config <$> servers b.
Proof.
  intros Hf. by apply fmap_alter_same.
Qed.

Lemma update_wf f i b : (forall s, server_wf s -> server_wf (f s)) -> wf b -> wf (update f i b).
Proof.
  intros Hf Hwf. unfold wf. simpl. apply Forall_alter; [exact Hwf|eauto].
Qed.

Lemma lc_update_health h i b :
  healthy <$> servers (update (set_healthy h) i b) = <[i := h]> (healthy <$> servers b).
Proof.
  by apply fmap_alter_insert.
Qed.

#[global] Instance laws :
  BalancerLaws t (fun b => config <$> servers b) (fun b => healthy <$> servers b) wf.
Proof.
  split; simpl.
  - done.
  - intros. by apply update_wf.
  - intros. by apply update_wf.
  - intros. by rewrite !length_fmap.
  - done.
  - intros. by apply update_config.
  - intros. by apply update_config.
  - done.
  - intros. apply lc_update_health.
  - intros. apply lc_update_health.
  - intros b _ s _ H. unfold next in H. destruct (servers b) eqn:E; [done|]. rewrite <- E in *.
    destruct (pick b) as [k|]; simpl in H; [|done].
    rewrite <- list_lookup_fmap in H. by eapply list_elem_of_lookup_2.
  - intros b _ Hwf H. unfold next in H. destruct (servers b) eqn:E; [done|]. rewrite <- E in *.
    destruct (pick b) as [k|] eqn:Hk; simpl in H.
    + apply pick_Some in Hk as (s & Hs & _). by rewrite Hs in H.
    + apply Forall_fmap. by apply pick_None.
  - done.
Qed.
End LeastConn.

(** ** Random *)

(** The xorshift generator of [fast_random] (the same body appears in
    random.rs, sticky.rs and service/weighted.rs, each with its own cell). *)
Definition xorshift32 (x : Z) : Z :=
  let x := Z.lxor x (wrap_u32 (Z.shiftl x 13)) in
  let x := Z.lxor x (Z.shiftr x 17) in
  Z.lxor x (wrap_u32 (Z.shiftl x 5)).

Lemma lxor_u32 x y : in_u32 x -> in_u32 y -> in_u32 (Z.lxor x y).
Proof.
  intros Hx Hy. split; [apply Z.lxor_nonneg; word|].
  destruct (Z.eq_dec (Z.lxor x y) 0) as [->|Hne]; [word|].
  assert (0 <= Z.lxor x y) by (apply Z.lxor_nonneg; word).
  enough (Z.lxor x y < 2 ^ 32) by word.
  apply Z.log2_lt_pow2; [lia|].
  assert (forall z, in_u32 z -> Z.log2 z < 32).
  { intros z Hz. destruct (Z.eq_dec z 0) as [->|]; [done|]. apply Z.log2_lt_pow2; word. }
  pose proof (Z.log2_lxor x y). pose proof (H0 x Hx). pose proof (H0 y Hy). word.
Qed.

Lemma shiftr_u32 x k : 0 <= k -> in_u32 x -> in_u32 (Z.shiftr x k).
Proof.
  intros Hk Hx. rewrite Z.shiftr_div_pow2 by lia. assert (0 < 2 ^ k) by (apply Z.pow_pos_nonneg; lia).
  split; [apply Z.div_pos; word|]. transitivity x; [|word]. apply Z.div_le_upper_bound; [lia|].
  destruct Hx. nia.
Qed.

Lemma xorshift32_range x : in_u32 x -> in_u32 (xorshift32 x).
Proof.
  intros Hx. unfold xorshift32.
  apply lxor_u32; [|apply wrap_u32_range].
  apply lxor_u32; [|apply shiftr_u32; [lia|]]; apply lxor_u32; auto using wrap_u32_range.
Qed.

(** [x ^ (x << k)] is zero only at zero: [2^k - 1] is invertible modulo
    [2^32]. *)
Lemma lxor_shiftl_nonzero x k : 0 < k -> Z.gcd (2 ^ 32) (2 ^ k - 1) = 1 -> in_u32 x -> x <> 0 ->
  Z.lxor x (wrap_u32 (Z.shiftl x k)) <> 0.
Proof.
  intros Hk Hgcd Hx Hne Heq. apply Z.lxor_eq in Heq.
  unfold wrap_u32 in Heq. rewrite Z.shiftl_mul_pow2 in Heq by lia.
  assert (H : (2 ^ 32 | (2 ^ k - 1) * x)).
  { exists (x * 2 ^ k / 2 ^ 32). pose proof (Z.div_mod (x * 2 ^ k) (2 ^ 32)). lia. }
  apply Z.gauss in H; [|done].
  destruct H as [q ->]. destruct Hx as [H0 H1]. unfold u32_max in H1. nia.
Qed.

Lemma xorshift32_nonzero x : in_u32 x -> x <> 0 -> xorshift32 x <> 0.
Proof.
  intros Hx Hne. unfold xorshift32.
  apply lxor_shiftl_nonzero; [lia|reflexivity| |].
  - apply lxor_u32; [|apply shiftr_u32; [lia|]]; apply lxor_u32; auto using wrap_u32_range.
  - set (y := Z.lxor x _).
    assert (Hy : in_u32 y) by (apply lxor_u32; auto using wrap_u32_range).
    assert (y <> 0) by (apply lxor_shiftl_nonzero; [lia|reflexivity|done|done]).
    intros Heq. apply Z.lxor_eq in Heq. rewrite Z.shiftr_div_pow2 in Heq by lia.
    assert (y / 2 ^ 17 < y) by (apply Z.div_lt; word). lia.
Qed.

Module Random.
Record RandomServer := { config : Server; healthy : bool }.
Record t := { servers : list RandomServer; total_weight : Z (* u32 *) }.

Definition new (ss : list Server) : t :=
  {| servers := (fun c => {| config := c; healthy := true |}) <$> ss;
     total_weight := wrap_u32 (zsum (weight <$> ss)) |}.

(** [fast_random]: advance the thread-local cell and return its new value. *)
Definition fast_random (tls : Z) : Z * Z := let x := xorshift32 tls in (x, x).

Definition first_config (b : t) : option Server := config <$> head (servers b).

(** Weight of the healthy servers, mathematically; the code keeps it in [u32]. *)
Definition healthy_sum (ss : list RandomServer) : Z :=
  zsum ((fun s => weight (config s)) <$> filter (fun s => healthy s = true) ss).
Definition healthy_weight (b : t) : Z := wrap_u32 (healthy_sum (servers b)).

(** The cumulative-weight loop. *)
Fixpoint walk (rand cumulative : Z) (ss : list RandomServer) : option RandomServer :=
  match ss with
  | [] => None
  | s :: ss' =>
      if healthy s then
        let cumulative := wrap_u32 (cumulative + weight (config s)) in
        if decide (rand < cumulative) then Some s else walk rand cumulative ss'
      else walk rand cumulative ss'
  end.

Definition next (b : t) (tls : Z) : option Server * Z :=
  if decide (servers b = [] \/ total_weight b = 0) then (first_config b, tls)
  else if decide (healthy_weight b = 0) then (first_config b, tls)
  else
    let (r, tls) := fast_random tls in
    let rand := r mod healthy_weight b in
    match walk rand 0 (servers b) with
    | Some s => (Some (config s), tls)
    | None => (first_config b, tls)
    end.

Definition set_healthy (h : bool) (s : RandomServer) : RandomServer :=
  {| config := config s; healthy := h |}.
Definition update (h : bool) (index : nat) (b : t) : t :=
  {| servers := alter (set_healthy h) index (servers b); total_weight := total_weight b |}.

#[global] Instance balancer : Balancer t := {
  next_server b tls := let '(s, tls) := next b tls in (s, b, tls);
  mark_healthy := update true;
  mark_unhealthy := update false;
  find_server_index b u := position_url (config <$> servers b) u;
}.

Lemma walk_member rand c ss s : walk rand c ss = Some s -> s ∈ ss /\ healthy s = true.
Proof.
  revert c. induction ss as [|s' ss IH]; intros c; simpl; [done|].
  destruct (healthy s') eqn:E; [case_decide; [intros [= <-]|]|].
  - split; [left|done].
  - intros H'. destruct (IH _ H'). split; [by right|done].
  - intros H'. destruct (IH _ H'). split; [by right|done].
Qed.

Lemma healthy_sum_cons s ss :
  healthy_sum (s :: ss) = (if healthy s then weight (config s) else 0) + healthy_sum ss.
Proof.
  unfold healthy_sum. rewrite filter_cons. destruct (healthy s) eqn:E; [done|].
  rewrite decide_False by congruence. lia.
Qed.

Lemma healthy_sum_nonneg ss : Forall (fun s => server_ok (config s)) ss -> 0 <= healthy_sum ss.
Proof.
  induction 1 as [|s ss Hs _ IH]; [done|]. rewrite healthy_sum_cons.
  unfold server_ok in Hs. destruct (healthy s); word.
Qed.

(** Without 32-bit overflow the loop cuts [0, healthy weight) into
    consecutive intervals, one per healthy server, as long as its weight. *)
Lemma walk_interval ss : forall c rand,
  Forall (fun s => server_ok (config s)) ss -> 0 <= c -> c + healthy_sum ss <= u32_max ->
  c <= rand < c + healthy_sum ss ->
  exists pre s post, ss = pre ++ s :: post /\ healthy s = true /\
    walk rand c ss = Some s /\
    c + healthy_sum pre <= rand < c + healthy_sum pre + weight (config s).
Proof.
  induction ss as [|s ss IH]; intros c rand Hok Hc Hov Hr.
  - unfold healthy_sum in Hr. simpl in Hr. lia.
  - apply Forall_cons_iff in Hok as [Hs Hok]. pose proof (healthy_sum_nonneg ss Hok).
    rewrite healthy_sum_cons in *. unfold server_ok in Hs. cbn [walk].
    destruct (healthy s) eqn:Hh.
    + rewrite wrap_u32_id by word. case_decide.
      * exists [], s, ss. unfold healthy_sum at 1 2. simpl. repeat split; auto; lia.
      * destruct (IH (c + weight (config s)) rand) as (pre & s' & post & -> & ? & ? & ?); try word; [done|].
        exists (s :: pre), s', post. rewrite !healthy_sum_cons, Hh. repeat split; auto; lia.
    + destruct (IH c rand) as (pre & s' & post & -> & ? & ? & ?); try word; [done|].
      exists (s :: pre), s', post. rewrite !healthy_sum_cons, Hh. repeat split; auto; lia.
Qed.

Lemma update_servers h i b : config <$> servers (update h i b) = config <$> servers b.
Proof.
  by apply fmap_alter_same.
Qed.

Lemma random_update_health h i b :
  healthy <$> servers (update h i b) = <[i := h]> (healthy <$> servers b).
Proof.
  by apply fmap_alter_insert.
Qed.

Lemma next_cases b tls :
  (exists s, s ∈ servers b /\ healthy s = true /\ (next b tls).1 = Some (config s)) \/
  (next b tls).1 = first_config b.
Proof.
  unfold next. case_decide; [by right|]. case_decide; [by right|]. simpl.
  destruct (walk _ _ _) as [s|] eqn:E; [|by right].
  apply walk_member in E as []. left. eauto.
Qed.

Lemma balancer_next b tls : (next_server b tls).1 = ((next b tls).1, b).
Proof. simpl. by destruct (next b tls). Qed.

#[global] Instance laws :
  BalancerLaws t (fun b => config <$> servers b) (fun b => healthy <$> servers b) (fun _ => True).
Proof.
  split.
  - done.
  - done.
  - done.
  - intros. by rewrite !length_fmap.
  - intros. by rewrite balancer_next.
  - intros. apply update_servers.
  - intros. apply update_servers.
  - intros. by rewrite balancer_next.
  - intros. apply random_update_health.
  - intros. apply random_update_health.
  - intros b t s _. rewrite balancer_next. simpl. intros Hn.
    destruct (next_cases b t) as [(s' & Hin & _ & Hs)|Hs]; rewrite Hs in Hn.
    + injection Hn as <-. apply list_elem_of_fmap. eauto.
    + unfold first_config in Hn. destruct (servers b); [done|]. injection Hn as <-. left.
  - intros b t _. rewrite balancer_next. simpl. intros Hn.
    destruct (next_cases b t) as [(s' & Hin & _ & Hs)|Hs]; rewrite Hs in Hn; [done|].
    unfold first_config in Hn. destruct (servers b); [constructor|done].
  - done.
Qed.
End Random.

(** ** Properties *)

(** [RoundRobinBalancer::next_server] returns a healthy server whenever one
    exists: the first healthy one at or after the counter in cyclic order, all
    the slots before it being unhealthy. The counter must be at least [len]
    short of the 64-bit wrap-around, where [(start + i) % len] jumps. *)
Theorem rr_selects_next_healthy (b : RoundRobin.t) :
  RoundRobin.wf b ->
  Exists (fun h => h = true) (RoundRobin.healthy b) ->
  RoundRobin.counter b + Z.of_nat (length (RoundRobin.servers b)) <= u64_max ->
  exists i k s,
    (i < length (RoundRobin.servers b))%nat /\
    k = Z.to_nat ((RoundRobin.counter b + Z.of_nat i)
                    mod Z.of_nat (length (RoundRobin.servers b))) /\
    RoundRobin.servers b !! k = Some s /\
    (RoundRobin.next b).1 = Some s /\
    RoundRobin.healthy b !! k = Some true /\
    forall j, (j < i)%nat ->
      RoundRobin.healthy b !! Z.to_nat ((RoundRobin.counter b + Z.of_nat j)
        mod Z.of_nat (length (RoundRobin.servers b))) = Some false.
Proof.
  intros [Hlen Hc] Hex Hov. apply Exists_exists in Hex as (h & Hin & ->).
  apply list_elem_of_In, list_elem_of_lookup in Hin as [k Hk].
  pose proof (lookup_lt_Some _ _ _ Hk) as Hklt. rewrite Hlen in Hklt.
  set (n := length (RoundRobin.servers b)) in *.
  assert (Hne : RoundRobin.servers b <> []).
  { unfold n in Hklt. destruct (RoundRobin.servers b); simpl in *; [lia|done]. }
  assert (Hflag : forall j, (j < n)%nat ->
    RoundRobin.healthy b !! j = Some (load_flag (RoundRobin.healthy b) j)).
  { intros j Hj. unfold load_flag.
    destruct (lookup_lt_is_Some_2 (RoundRobin.healthy b) j) as [x Hx]; [lia|]. by rewrite Hx. }
  rewrite RoundRobin.next_nonempty by done. cbn [fst].
  unfold RoundRobin.pick. fold n.
  destruct (RoundRobin.scan _ _ _ _) as [idx|] eqn:E.
  - apply RoundRobin.scan_first in E as (i & Hi & -> & Hf & Hj).
    assert (Hlt : (RoundRobin.slot (RoundRobin.counter b) n i < n)%nat) by (apply RoundRobin.slot_lt; lia).
    destruct (lookup_lt_is_Some_2 (RoundRobin.servers b) _ Hlt) as [s Hs].
    exists i, (RoundRobin.slot (RoundRobin.counter b) n i), s.
    split; [lia|]. split; [apply RoundRobin.slot_exact; word|].
    split; [done|]. split; [done|]. split; [by rewrite Hflag, Hf by done|].
    intros j Hji. rewrite <- RoundRobin.slot_exact by word.
    rewrite Hflag by (apply RoundRobin.slot_lt; lia). rewrite Hj by lia. done.
  - destruct (RoundRobin.slot_onto (RoundRobin.counter b) n k) as (i & Hi & Hik); try word.
    pose proof (RoundRobin.scan_None _ _ _ _ E i) as HN. rewrite Hik in HN.
    rewrite elem_of_seq in HN. specialize (HN ltac:(lia)).
    unfold load_flag in HN. rewrite Hk in HN. done.
Qed.

Definition rr_demo : RoundRobin.t :=
  RoundRobin.set_flag false 1
    (RoundRobin.new [mk_server "http://a" 1; mk_server "http://b" 1; mk_server "http://c" 1]).

Lemma rr_selects_next_healthy_witness :
  exists i k s, (i < 3)%nat /\ RoundRobin.servers rr_demo !! k = Some s /\
    (RoundRobin.next rr_demo).1 = Some s /\ RoundRobin.healthy rr_demo !! k = Some true.
Proof.
  destruct (rr_selects_next_healthy rr_demo) as (i & k & s & H1 & H2 & H3 & H4 & H5 & _).
  - split; [reflexivity|vm_compute; split; discriminate].
  - left. reflexivity.
  - vm_compute. discriminate.
  - exists i, k, s. split; [exact H1|]. split; [exact H3|]. split; [exact H4|exact H5].
Defined.

(** With every server healthy, [len] consecutive calls return the server
    list rotated to the counter: each server is selected exactly once per
    cycle, in configuration order. *)
Theorem rr_cycle_is_rotation (b : RoundRobin.t) :
  RoundRobin.wf b -> RoundRobin.all_healthy b ->
  RoundRobin.counter b + Z.of_nat (length (RoundRobin.servers b)) <= u64_max ->
  (RoundRobin.calls (length (RoundRobin.servers b)) b).1 =
    Some <$> rotate (Z.to_nat (RoundRobin.counter b)) (RoundRobin.servers b).
Proof.
  intros Hwf Hall Hov. pose proof Hwf as [_ Hc].
  apply list_eq. intros i. rewrite list_lookup_fmap.
  destruct (decide (i < length (RoundRobin.servers b))%nat) as [Hi|Hi].
  - assert (RoundRobin.servers b <> []).
    { destruct (RoundRobin.servers b); simpl in *; [lia|done]. }
    rewrite RoundRobin.calls_spec by done.
    rewrite lookup_rotate_r by done. unfold rotate_nat_add.
    destruct (lookup_lt_is_Some_2 (RoundRobin.servers b)
      (Z.to_nat ((RoundRobin.counter b + Z.of_nat i) mod Z.of_nat (length (RoundRobin.servers b))))) as [s Hs].
    { pose proof (Z.mod_pos_bound (RoundRobin.counter b + Z.of_nat i)
        (Z.of_nat (length (RoundRobin.servers b)))). lia. }
    rewrite Hs. rewrite Z2Nat.id by word. by rewrite Hs.
  - rewrite !(proj2 (lookup_ge_None _ _)); [done| |].
    + rewrite length_rotate. lia.
    + rewrite RoundRobin.calls_length. lia.
Qed.

Lemma rr_cycle_is_rotation_witness :
  let b := RoundRobin.new [mk_server "http://a" 1; mk_server "http://b" 1] in
  (RoundRobin.calls 2 b).1 = [Some (mk_server "http://a" 1); Some (mk_server "http://b" 1)].
Proof.
  intros b. refine (rr_cycle_is_rotation b _ _ _).
  - apply RoundRobin.rr_new_wf.
  - repeat constructor.
  - vm_compute. discriminate.
Defined.

(** [LeastConnBalancer::next_server] returns [None] exactly when no server
    is healthy; otherwise it returns a healthy server whose weighted load
    [conns * 100 / weight] is minimal among the healthy ones, the first such. *)
Theorem lc_selects_minimum (b : LeastConn.t) :
  LeastConn.wf b ->
  match LeastConn.next b with
  | None => Forall (fun s => LeastConn.healthy s = false) (LeastConn.servers b)
  | Some c =>
      exists k s, LeastConn.servers b !! k = Some s /\ LeastConn.config s = c /\
        LeastConn.healthy s = true /\
        forall j u, LeastConn.servers b !! j = Some u -> LeastConn.healthy u = true ->
          if decide (j < k)%nat
          then LeastConn.weighted_conns s < LeastConn.weighted_conns u
          else LeastConn.weighted_conns s <= LeastConn.weighted_conns u
  end.
Proof.
  intros Hwf. unfold LeastConn.next.
  destruct (LeastConn.servers b) as [|s0 ss] eqn:E; [constructor|]. rewrite <- E.
  destruct (LeastConn.pick b) as [k|] eqn:Hk; simpl.
  - destruct (LeastConn.pick_Some b k Hk) as (s & Hs & Hh & Hmin). rewrite Hs. simpl.
    exists k, s. auto.
  - by apply LeastConn.pick_None.
Qed.

Definition lc_demo : LeastConn.t :=
  LeastConn.acquire 0 (LeastConn.new [mk_server "http://a" 1; mk_server "http://b" 2]).

Lemma lc_selects_minimum_witness :
  exists k s, LeastConn.servers lc_demo !! k = Some s /\
    LeastConn.config s = mk_server "http://b" 2 /\ LeastConn.healthy s = true.
Proof.
  assert (Hwf : LeastConn.wf lc_demo).
  { repeat constructor; vm_compute; discriminate. }
  destruct (lc_selects_minimum lc_demo Hwf) as (k & s & H1 & H2 & H3 & _).
  exists k, s. split; [exact H1|]. split; [exact H2|exact H3].
Defined.

(** [RandomBalancer::next_server] maps the drawn number, reduced modulo the
    healthy weight, to a healthy server through consecutive intervals that are
    exactly as long as the server's weight, so a uniform draw selects servers
    in proportion to their weights. The weights of the list must not overflow
    the [u32] total. *)
Theorem random_selects_by_weight (b : Random.t) (tls : Z) :
  Forall (fun s => server_ok (Random.config s)) (Random.servers b) ->
  Random.total_weight b <> 0 ->
  0 < Random.healthy_sum (Random.servers b) <= u32_max ->
  exists pre s post,
    Random.servers b = pre ++ s :: post /\
    Random.healthy s = true /\
    Random.next b tls = (Some (Random.config s), xorshift32 tls) /\
    Random.healthy_sum pre
      <= xorshift32 tls mod Random.healthy_sum (Random.servers b)
      < Random.healthy_sum pre + weight (Random.config s).
Proof.
  intros Hok Htot [Hpos Hmax].
  assert (Hw : Random.healthy_weight b = Random.healthy_sum (Random.servers b)).
  { unfold Random.healthy_weight. apply wrap_u32_id. word. }
  pose proof (Z.mod_pos_bound (xorshift32 tls) (Random.healthy_sum (Random.servers b)) Hpos).
  destruct (Random.walk_interval (Random.servers b) 0
    (xorshift32 tls mod Random.healthy_sum (Random.servers b))) as (pre & s & post & Hsplit & Hh & Hwalk & Hiv);
    [done|lia|lia|lia|].
  exists pre, s, post. split; [done|]. split; [done|]. split; [|lia].
  unfold Random.next. rewrite Hw.
  rewrite decide_False.
  - rewrite decide_False by lia. simpl. by rewrite Hwalk.
  - intros [He|He]; [|done]. rewrite He in Hsplit. by destruct pre.
Qed.

Lemma random_selects_by_weight_witness :
  let b := Random.new [mk_server "http://a" 1; mk_server "http://b" 3] in
  exists pre s post, Random.servers b = pre ++ s :: post /\ Random.healthy s = true /\
    Random.next b 0xDEADBEEF = (Some (Random.config s), xorshift32 0xDEADBEEF).
Proof.
  intros b. destruct (random_selects_by_weight b 0xDEADBEEF) as (pre & s & post & H1 & H2 & H3 & _).
  - repeat constructor; vm_compute; discriminate.
  - vm_compute. discriminate.
  - vm_compute. split; [reflexivity|discriminate].
  - exists pre, s, post. split; [exact H1|]. split; [exact H2|exact H3].
Defined.

(** The xorshift generator behind every random choice never reaches its
    fixed point zero: from a non-zero 32-bit cell every number of steps keeps
    the cell a non-zero 32-bit value. *)
Theorem fast_random_never_stuck (tls : Z) (k : nat) :
  in_u32 tls -> tls <> 0 ->
  in_u32 (Nat.iter k xorshift32 tls) /\ Nat.iter k xorshift32 tls <> 0.
Proof.
  intros Hr Hne. induction k as [|k [IH1 IH2]]; simpl; [done|].
  split; [by apply xorshift32_range|by apply xorshift32_nonzero].
Qed.

Lemma fast_random_never_stuck_witness :
  in_u32 (Nat.iter 5 xorshift32 0xDEADBEEF) /\ Nat.iter 5 xorshift32 0xDEADBEEF <> 0.
Proof. apply (fast_random_never_stuck 0xDEADBEEF 5); vm_compute; [split|]; discriminate. Defined.
