(* ===== verification/Weighted.v ===== *)
(** * Weighted selection: [WeightedBalancer] and [WeightedServiceRouter]

    Models src/src/balancer/weighted.rs and src/src/service/weighted.rs. Both
    loops are translated as written, with 64-bit wrap-around; each is then
    shown to implement a round of the smooth weighted round-robin of Swrr.v. *)
From S2P Require Import Prelude Config Swrr Balancer.

Module WeightedBalancer.
Record WeightedServer := {
  config : Server;
  healthy : bool;
  current_weight : Z; (* AtomicI64 *)
  effective_weight : Z; (* AtomicU64 *)
}.
Record t := {
  servers : list WeightedServer;
  cached_total_weight : Z; (* AtomicI64 *)
}.

Definition set_current (c : Z) (s : WeightedServer) : WeightedServer :=
  {| config := config s; healthy := healthy s; current_weight := c;
     effective_weight := effective_weight s |}.

(** [effective_weight.load() as i64] *)
Definition ew (s : WeightedServer) : Z := wrap_i64 (effective_weight s).

Definition new (ss : list Server) : t :=
  let servers := (fun c => {| config := c; healthy := true; current_weight := 0;
                              effective_weight := weight c |}) <$> ss in
  {| servers := servers; cached_total_weight := wrap_i64 (zsum (ew <$> servers)) |}.

Definition recompute_total_weight (b : t) : t :=
  {| servers := servers b;
     cached_total_weight :=
       wrap_i64 (zsum (ew <$> filter (fun s => healthy s = true) (servers b))) |}.

(** The selection loop: bumps the current weight of every healthy server and
    remembers the first largest. *)
Fixpoint scan (idx : nat) (ss : list WeightedServer) (best_idx : option nat)
    (best_weight : Z) : list WeightedServer * option nat :=
  match ss with
  | [] => ([], best_idx)
  | s :: ss' =>
      if healthy s then
        let cw := wrap_i64 (current_weight s + ew s) in
        let better := bool_decide (best_idx = None) || bool_decide (best_weight < cw) in
        let (rest, best) :=
          scan (S idx) ss' (if better then Some idx else best_idx)
            (if better then cw else best_weight) in
        (set_current cw s :: rest, best)
      else
        let (rest, best) := scan (S idx) ss' best_idx best_weight in (s :: rest, best)
  end.

Definition first_config (ss : list WeightedServer) : option Server := config <$> head ss.

Definition next (b : t) : option Server * t :=
  match servers b with
  | [] => (None, b)
  | _ =>
      let total := cached_total_weight b in
      if decide (total = 0) then (first_config (servers b), b)
      else
        let (ss, best_idx) := scan 0 (servers b) None i64_min in
        match best_idx with
        | Some idx =>
            let ss' := alter (fun s => set_current (wrap_i64 (current_weight s - total)) s) idx ss in
            (config <$> ss !! idx, {| servers := ss'; cached_total_weight := total |})
        | None => (first_config ss, {| servers := ss; cached_total_weight := total |})
        end
  end.

Definition restore (s : WeightedServer) : WeightedServer :=
  {| config := config s; healthy := true; current_weight := current_weight s;
     effective_weight := weight (config s) |}.
Definition disable (s : WeightedServer) : WeightedServer :=
  {| config := config s; healthy := false; current_weight := current_weight s;
     effective_weight := effective_weight s |}.

(** [if let Some(server) = self.servers.get(index) { ..; recompute }] *)
Definition mark (f : WeightedServer -> WeightedServer) (index : nat) (b : t) : t :=
  match servers b !! index with
  | Some _ =>
      recompute_total_weight
        {| servers := alter f index (servers b); cached_total_weight := cached_total_weight b |}
  | None => b
  end.

#[global] Instance balancer : Balancer t := {
  next_server b tls := (next b, tls);
  mark_healthy := mark restore;
  mark_unhealthy := mark disable;
  find_server_index b u := position_url (config <$> servers b) u;
}.

(** ** The loop *)
Definition bumped (s : WeightedServer) : WeightedServer :=
  if healthy s then set_current (wrap_i64 (current_weight s + ew s)) s else s.

Lemma scan_servers ss : forall idx best m, (scan idx ss best m).1 = bumped <$> ss.
Proof.
  induction ss as [|s ss IH]; intros idx best m; [done|]. cbn [scan fmap list_fmap].
  unfold bumped at 1. destruct (healthy s).
  - set (c := wrap_i64 _). set (d := _ || _).
    specialize (IH (S idx) (if d then Some idx else best) (if d then c else m)).
    destruct (scan _ _ _ _). simpl in *. by rewrite IH.
  - specialize (IH (S idx) best m). destruct (scan _ _ _ _). simpl in *. by rewrite IH.
Qed.

Definition cand (s : WeightedServer) : Z := wrap_i64 (current_weight s + ew s).

Lemma scan_best ss : forall idx best m,
  match (scan idx ss best m).2 with
  | None => best = None /\ Forall (fun s => healthy s = false) ss
  | Some k =>
      (best = Some k /\ Forall (fun s => healthy s = true -> cand s <= m) ss) \/
      (exists i s, k = (idx + i)%nat /\ ss !! i = Some s /\ healthy s = true /\
         (best <> None -> m < cand s) /\
         Forall (fun u => healthy u = true -> cand u <= cand s) ss)
  end.
Proof.
  induction ss as [|s ss IH]; intros idx best m; cbn [scan].
  - cbn. destruct best; [left|]; auto.
  - destruct (healthy s) eqn:Hh.
    + fold (cand s). set (d := _ || _) in *.
      specialize (IH (S idx) (if d then Some idx else best) (if d then cand s else m)).
      destruct (scan _ _ _ _) as [rest [k|]]; cbn [snd] in *.
      * destruct IH as [[Hb Hall]|(i & u & -> & Hl & Hu & Hm & Hall)].
        -- destruct d eqn:Hd.
           ++ injection Hb as <-. right. exists 0%nat, s. split; [lia|]. repeat split; auto.
              ** intros Hne. apply orb_true_iff in Hd as [Hd|Hd]; apply bool_decide_eq_true in Hd; [done|lia].
              ** constructor; [lia|]. done.
           ++ left. split; [done|]. constructor; [intros _|done].
              apply orb_false_iff in Hd as [_ Hd]. apply bool_decide_eq_false in Hd. lia.
        -- right. exists (S i), u. split; [lia|]. repeat split; auto.
           ++ intros Hne. destruct d eqn:Hd; [|by apply Hm].
              specialize (Hm ltac:(done)). apply orb_true_iff in Hd as [Hd|Hd];
                apply bool_decide_eq_true in Hd; [done|lia].
           ++ constructor; [|done]. intros _. destruct d eqn:Hd.
              ** specialize (Hm ltac:(done)). lia.
              ** apply orb_false_iff in Hd as [Hd1 Hd2]. apply bool_decide_eq_false in Hd1, Hd2.
                 specialize (Hm Hd1). lia.
      * destruct IH as [Hb _]. destruct d eqn:Hd; [done|].
        apply orb_false_iff in Hd as [Hd _]. apply bool_decide_eq_false in Hd. by rewrite Hb in Hd.
    + specialize (IH (S idx) best m).
      destruct (scan _ _ _ _) as [rest [k|]]; cbn [snd] in *.
      * destruct IH as [[-> Hall]|(i & u & -> & Hl & Hu & Hm & Hall)].
        -- left. split; [done|]. constructor; [congruence|done].
        -- right. exists (S i), u. split; [lia|]. repeat split; auto.
           constructor; [congruence|done].
      * destruct IH. split; [done|]. by constructor.
Qed.

(** ** Well-formedness *)
Record server_wf (s : WeightedServer) : Prop := {
  wf_weight : in_u32 (weight (config s));
  wf_effective : effective_weight s = weight (config s);
  wf_current : in_i64 (current_weight s);
}.

Definition healthy_total (ss : list WeightedServer) : Z :=
  zsum ((fun s => if healthy s then weight (config s) else 0) <$> ss).

Record wf (b : t) : Prop := {
  wf_servers : Forall server_wf (servers b);
  wf_size : Z.of_nat (length (servers b)) <= 32768;
  wf_total : cached_total_weight b = healthy_total (servers b);
}.

Lemma ew_weight s : server_wf s -> ew s = weight (config s).
Proof. intros []. unfold ew. rewrite wf_effective0. apply wrap_i64_id. word. Qed.

Lemma healthy_total_bounds ss : Forall server_wf ss ->
  0 <= healthy_total ss <= Z.of_nat (length ss) * u32_max.
Proof.
  induction 1 as [|s ss Hs _ IH]; [done|]. destruct Hs as [Hw _ _].
  unfold healthy_total in *. rewrite fmap_cons, zsum_cons. cbn [length].
  destruct (healthy s); word.
Qed.

Lemma filter_total ss : Forall server_wf ss ->
  zsum (ew <$> filter (fun s => healthy s = true) ss) = healthy_total ss.
Proof.
  induction 1 as [|s ss Hs _ IH]; [done|]. unfold healthy_total in *.
  rewrite filter_cons, fmap_cons, zsum_cons. destruct (healthy s) eqn:E.
  - rewrite decide_True, fmap_cons, zsum_cons, ew_weight by done. lia.
  - rewrite decide_False by congruence. lia.
Qed.

Lemma recompute_wf b : Forall server_wf (servers b) ->
  Z.of_nat (length (servers b)) <= 32768 -> wf (recompute_total_weight b).
Proof.
  intros H1 H2. split; [done|done|]. unfold recompute_total_weight.
  cbn [cached_total_weight servers]. rewrite filter_total by done.
  pose proof (healthy_total_bounds _ H1). rewrite wrap_i64_id; [done|]. word.
Qed.

Lemma wb_new_wf ss : Forall server_ok ss -> Z.of_nat (length ss) <= 32768 -> wf (new ss).
Proof.
  intros Hok Hn.
  assert (HF : Forall server_wf (servers (new ss))).
  { simpl. apply Forall_fmap. eapply Forall_impl; [|exact Hok].
    intros s Hs. split; simpl; [exact Hs|done|word]. }
  assert (Hn' : Z.of_nat (length (servers (new ss))) <= 32768) by (simpl; by rewrite length_fmap).
  pose proof (healthy_total_bounds _ HF) as Hb.
  assert (He : zsum (ew <$> servers (new ss)) = healthy_total (servers (new ss))).
  { unfold healthy_total. f_equal. clear - HF. simpl in *.
    induction ss as [|s ss IH]; [done|]. apply Forall_cons_iff in HF as [Hs HF].
    rewrite !fmap_cons. rewrite ew_weight by done. f_equal. by apply IH. }
  split; [done|done|].
  change (cached_total_weight (new ss)) with (wrap_i64 (zsum (ew <$> servers (new ss)))).
  rewrite He. apply wrap_i64_id. word.
Qed.

(** ** Invariant *)
Lemma bumped_config s : config (bumped s) = config s.
Proof. unfold bumped. by destruct (healthy s). Qed.
Lemma bumped_healthy s : healthy (bumped s) = healthy s.
Proof. unfold bumped. by destruct (healthy s) eqn:E. Qed.
Lemma bumped_wf s : server_wf s -> server_wf (bumped s).
Proof.
  intros [H1 H2 H3]. unfold bumped. destruct (healthy s); split; simpl; auto using wrap_i64_range.
Qed.
Lemma set_current_wf c s : in_i64 c -> server_wf s -> server_wf (set_current c s).
Proof. intros Hc [H1 H2 H3]. by split. Qed.

Lemma healthy_total_ext ss ss' : config <$> ss = config <$> ss' ->
  healthy <$> ss = healthy <$> ss' -> healthy_total ss = healthy_total ss'.
Proof.
  unfold healthy_total. revert ss'. induction ss as [|s ss IH]; intros [|s' ss'] H1 H2; try done.
  rewrite !fmap_cons in *. injection H1 as Hc H1. injection H2 as Hh H2.
  rewrite !zsum_cons, Hc, Hh, (IH ss') by done. done.
Qed.

(** The server list after a call to [next]: bumped, and charged at the
    selected index. *)
Lemma next_shape b : (next b).2 = b \/
  ((next b).2 = {| servers := bumped <$> servers b; cached_total_weight := cached_total_weight b |}) \/
  exists idx, (next b).2 =
    {| servers := alter (fun s => set_current (wrap_i64 (current_weight s - cached_total_weight b)) s) idx
         (bumped <$> servers b);
       cached_total_weight := cached_total_weight b |}.
Proof.
  unfold next. destruct (servers b) as [|s ss] eqn:E; [by left|]. rewrite <- E.
  case_decide; [by left|]. right.
  pose proof (scan_servers (servers b) 0 None i64_min) as Hs.
  destruct (scan _ _ _ _) as [ss' [k|]]; cbn [fst snd] in *; rewrite Hs; [right|left]; eauto.
Qed.

Lemma next_config b : config <$> servers (next b).2 = config <$> servers b.
Proof.
  assert (Hb : config <$> (bumped <$> servers b) = config <$> servers b).
  { rewrite <- list_fmap_compose. apply list_fmap_ext. intros. apply bumped_config. }
  destruct (next_shape b) as [-> | [-> | [k ->]]]; cbn [servers]; [done|done|].
  rewrite fmap_alter_same; done.
Qed.

Lemma next_health b : healthy <$> servers (next b).2 = healthy <$> servers b.
Proof.
  assert (Hb : healthy <$> (bumped <$> servers b) = healthy <$> servers b).
  { rewrite <- list_fmap_compose. apply list_fmap_ext. intros. apply bumped_healthy. }
  destruct (next_shape b) as [-> | [-> | [k ->]]]; cbn [servers]; [done|done|].
  rewrite fmap_alter_same; done.
Qed.

Lemma next_wf b : wf b -> wf (next b).2.
Proof.
  intros [H1 H2 H3].
  assert (Hb : Forall server_wf (bumped <$> servers b)).
  { apply Forall_fmap. eapply Forall_impl; [|exact H1]. intros; by apply bumped_wf. }
  assert (HF : Forall server_wf (servers (next b).2)).
  { destruct (next_shape b) as [-> | [-> | [k ->]]]; cbn [servers]; [done|done|].
    apply Forall_alter; [done|]. intros. apply set_current_wf; auto using wrap_i64_range. }
  split; [done| |].
  - rewrite <- (length_fmap config), next_config, length_fmap. done.
  - rewrite (healthy_total_ext _ (servers b)) by auto using next_config, next_health.
    destruct (next_shape b) as [-> | [-> | [k ->]]]; done.
Qed.

Lemma mark_shape f i b : mark f i b = b \/
  mark f i b = recompute_total_weight
    {| servers := alter f i (servers b); cached_total_weight := cached_total_weight b |}.
Proof. unfold mark. destruct (servers b !! i); auto. Qed.

Lemma wb_mark_wf f i b : (forall s, server_wf s -> server_wf (f s)) -> wf b -> wf (mark f i b).
Proof.
  intros Hf Hwf. destruct (mark_shape f i b) as [-> | ->]; [done|]. destruct Hwf as [H1 H2 H3].
  apply recompute_wf; cbn [servers].
  - apply Forall_alter; [done|eauto].
  - by rewrite length_alter.
Qed.

Lemma mark_config f i b : (forall s, config (f s) = config s) ->
  config <$> servers (mark f i b) = config <$> servers b.
Proof.
  intros Hf. destruct (mark_shape f i b) as [-> | ->]; [done|]. by apply fmap_alter_same.
Qed.

Lemma mark_health f i h b : (forall s, healthy (f s) = h) ->
  healthy <$> servers (mark f i b) = <[i := h]> (healthy <$> servers b).
Proof.
  intros Hf. unfold mark. destruct (servers b !! i) eqn:E.
  - by apply fmap_alter_insert.
  - rewrite list_insert_ge; [done|]. rewrite length_fmap. by apply lookup_ge_None.
Qed.

Lemma next_some b : servers b <> [] -> exists s, (next b).1 = Some s /\ s ∈ config <$> servers b.
Proof.
  intros Hne. unfold next. destruct (servers b) as [|s0 ss] eqn:E; [done|]. rewrite <- E.
  case_decide.
  { exists (config s0). rewrite E. split; [done|left]. }
  pose proof (scan_servers (servers b) 0 None i64_min) as Hs.
  pose proof (scan_best (servers b) 0 None i64_min) as Hk.
  destruct (scan _ _ _ _) as [ss' [k|]]; cbn [fst snd] in *; subst ss'.
  - destruct Hk as [[? _]|(i & s & -> & Hl & _)]; [done|].
    exists (config s). replace (0 + i)%nat with i by lia.
    rewrite list_lookup_fmap, Hl. cbn [fmap option_fmap option_map].
    rewrite bumped_config. split; [done|]. apply list_elem_of_fmap. exists s. split; [done|]. by eapply list_elem_of_lookup_2.
  - exists (config s0). split; [|rewrite E; left]. rewrite E.
    change (Some (config (bumped s0)) = Some (config s0)). by rewrite bumped_config.
Qed.

#[global] Instance laws :
  BalancerLaws t (fun b => config <$> servers b) (fun b => healthy <$> servers b) wf.
Proof.
  split; simpl.
  - intros. by apply next_wf.
  - intros. apply wb_mark_wf; [|done]. intros s [? ? ?]. by split.
  - intros. apply wb_mark_wf; [|done]. intros s [? ? ?]. by split.
  - intros. by rewrite !length_fmap.
  - intros. apply next_config.
  - intros. by apply mark_config.
  - intros. by apply mark_config.
  - intros. apply next_health.
  - intros. by apply mark_health.
  - intros. by apply mark_health.
  - intros b _ s _ H. destruct (decide (servers b = [])) as [He|He].
    + unfold next in H. by rewrite He in H.
    + destruct (next_some b He) as (s' & Hs & Hin). rewrite Hs in H. by injection H as <-.
  - intros b _ _ H. destruct (decide (servers b = [])) as [He|He].
    + rewrite He. constructor.
    + destruct (next_some b He) as (s' & Hs & _). by rewrite Hs in H.
  - done.
Qed.

(** ** Refinement of the smooth weighted round-robin specification *)
Definition W (b : t) (j : nat) : Z := default 0 ((fun s => weight (config s)) <$> servers b !! j).
Definition A (b : t) (j : nat) : bool := default false (healthy <$> servers b !! j).
Definition CW (b : t) (j : nat) : Z := default 0 (current_weight <$> servers b !! j).
Definition N (b : t) : nat := length (servers b).

Lemma spec_total b : total (N b) (W b) (A b) = healthy_total (servers b).
Proof.
  unfold total, healthy_total, N. rewrite <- sum_n_list. rewrite length_fmap.
  apply sum_n_ext. intros j Hj. unfold act_w, W, A. rewrite list_lookup_fmap.
  destruct (servers b !! j) as [s|]; [|done]. simpl. by destruct (healthy s).
Qed.

Lemma W_nonneg b : wf b -> forall j, (j < N b)%nat -> 0 <= W b j.
Proof.
  intros [H1 _ _] j Hj. unfold W. destruct (servers b !! j) as [s|] eqn:E; [|done]. simpl.
  destruct (Forall_lookup_1 _ _ _ _ H1 E). word.
Qed.

Abbreviation balanced_state b := (balanced (N b) (W b) (A b) (CW b)).

(** In a balanced state no 64-bit operation of the loop wraps. *)
Lemma balanced_no_wrap b j s : wf b -> balanced_state b -> 0 < healthy_total (servers b) ->
  servers b !! j = Some s -> healthy s = true ->
  cand s = current_weight s + weight (config s) /\
  wrap_i64 (cand s - cached_total_weight b) = cand s - cached_total_weight b.
Proof.
  intros Hwf Hb Hpos Hs Hh. pose proof Hwf as [H1 H2 H3].
  assert (Hj : (j < N b)%nat) by (by eapply lookup_lt_Some).
  assert (Ha : A b j = true) by (unfold A; by rewrite Hs).
  pose proof (Forall_lookup_1 _ _ _ _ H1 Hs) as Hsw. pose proof Hsw as [Hw _ _].
  pose proof (healthy_total_bounds _ H1) as Hbd. fold (N b) in Hbd, H2.
  pose proof (balanced_low _ _ _ _ Hb j Hj Ha) as Hlow.
  pose proof (balanced_upper (N b) (W b) (A b) ltac:(by rewrite spec_total) _ _ Hb Hj Ha) as Hup.
  rewrite spec_total in Hlow, Hup.
  assert (Hcw : CW b j = current_weight s) by (unfold CW; by rewrite Hs).
  rewrite Hcw in Hlow, Hup.
  assert ((Z.of_nat (N b) - 1) * healthy_total (servers b) <= 32768 * (32768 * u32_max)) by (unfold u32_max in *; nia).
  unfold cand. rewrite ew_weight by done. rewrite H3.
  rewrite (wrap_i64_id (current_weight s + _)) by word. split; [done|].
  rewrite wrap_i64_id by word. done.
Qed.

Lemma next_selects b : servers b <> [] -> cached_total_weight b <> 0 ->
  Exists (fun s => healthy s = true) (servers b) ->
  exists k s, servers b !! k = Some s /\ healthy s = true /\
    Forall (fun u => healthy u = true -> cand u <= cand s) (servers b) /\
    next b = (Some (config s),
      {| servers := alter (fun s => set_current (wrap_i64 (current_weight s - cached_total_weight b)) s) k
           (bumped <$> servers b);
         cached_total_weight := cached_total_weight b |}).
Proof.
  intros Hne Ht Hex. unfold next. destruct (servers b) as [|s0 ss] eqn:E; [done|]. rewrite <- E in *.
  rewrite decide_False by done.
  pose proof (scan_servers (servers b) 0 None i64_min) as Hs.
  pose proof (scan_best (servers b) 0 None i64_min) as Hk.
  destruct (scan _ _ _ _) as [ss' [k|]]; cbn [fst snd] in *; subst ss'.
  - destruct Hk as [[? _]|(i & s & -> & Hl & Hh & _ & Hmax)]; [done|].
    exists i, s. rewrite Nat.add_0_l, list_lookup_fmap, Hl. cbn [fmap option_fmap option_map].
    rewrite bumped_config. auto.
  - destruct Hk as [_ Hk]. apply Exists_exists in Hex as (s & Hin & Hh).
    rewrite Forall_forall in Hk. apply Hk in Hin. congruence.
Qed.

Lemma total_pos_exists ss : healthy_total ss <> 0 -> Exists (fun s => healthy s = true) ss.
Proof.
  unfold healthy_total. induction ss as [|s ss IH]; [done|]. rewrite fmap_cons, zsum_cons.
  destruct (healthy s) eqn:E; [by left|]. intros. right. apply IH. lia.
Qed.

Lemma next_round b : wf b -> balanced_state b -> 0 < healthy_total (servers b) ->
  exists k s, servers b !! k = Some s /\ (next b).1 = Some (config s) /\
    round (N b) (W b) (A b) (CW b) k (CW (next b).2).
Proof.
  intros Hwf Hb Hpos. pose proof Hwf as [H1 H2 H3].
  destruct (next_selects b) as (k & s & Hs & Hh & Hmax & Hn).
  { intros He. rewrite He in Hpos. by vm_compute in Hpos. }
  { lia. }
  { apply total_pos_exists. lia. }
  exists k, s. rewrite Hn. cbn [fst snd]. split; [done|]. split; [done|].
  pose proof (balanced_no_wrap b k s Hwf Hb Hpos Hs Hh) as [Hck _].
  split.
  - by eapply lookup_lt_Some.
  - unfold A. by rewrite Hs.
  - intros j Hj Ha. unfold A in Ha. unfold CW, W. rewrite Hs.
    destruct (servers b !! j) as [u|] eqn:Hu; [|done]. simpl in *.
    pose proof (Forall_lookup_1 _ _ _ _ Hmax Hu Ha) as Hle.
    destruct (balanced_no_wrap b j u Hwf Hb Hpos Hu Ha) as [Hcu _]. lia.
  - intros j Hj. unfold CW, A, W. cbn [servers]. rewrite list_lookup_alter, list_lookup_fmap.
    destruct (servers b !! j) as [u|] eqn:Hu; [|by apply lookup_ge_None in Hu; unfold N in Hj; lia].
    rewrite spec_total, <- H3.
    destruct (decide (k = j)) as [->|Hne].
    + rewrite (decide_True (P := j = j)) by done. simplify_eq. simpl.
      destruct (balanced_no_wrap b j s Hwf Hb Hpos Hs Hh) as [Hcu Hwr].
      unfold bumped. rewrite ?list_lookup_fmap, Hs. simpl. rewrite Hh. simpl.
      unfold cand in *. by rewrite Hwr, Hcu.
    + rewrite decide_False by congruence. rewrite ?list_lookup_fmap, ?Hu. simpl. unfold bumped.
      destruct (healthy u) eqn:Hhu; simpl; [|lia].
      destruct (balanced_no_wrap b j u Hwf Hb Hpos Hu Hhu) as [Hcu _].
      unfold cand in Hcu. lia.
Qed.

(** [calls m b]: the results of [m] consecutive [next_server] calls. *)
Fixpoint calls (m : nat) (b : t) : list (option Server) * t :=
  match m with
  | O => ([], b)
  | S m' =>
      let (r, b1) := next b in
      let (rs, b2) := calls m' b1 in
      (r :: rs, b2)
  end.

Lemma views_next b : N (next b).2 = N b /\ (forall j, W (next b).2 j = W b j) /\
  (forall j, A (next b).2 j = A b j) /\ healthy_total (servers (next b).2) = healthy_total (servers b).
Proof.
  pose proof (next_config b) as Hc. pose proof (next_health b) as Hh. split; [|split; [|split]].
  - unfold N. rewrite <- (length_fmap config), Hc. by rewrite length_fmap.
  - intros j. unfold W. apply (f_equal (.!! j)) in Hc. rewrite !list_lookup_fmap in Hc.
    destruct (servers (next b).2 !! j), (servers b !! j); simpl in *; congruence.
  - intros j. unfold A. apply (f_equal (.!! j)) in Hh. rewrite !list_lookup_fmap in Hh.
    by rewrite Hh.
  - by apply healthy_total_ext.
Qed.

Lemma calls_views m : forall b, N (calls m b).2 = N b /\ forall i, A (calls m b).2 i = A b i.
Proof.
  induction m as [|m IH]; intros b; [done|]. cbn [calls].
  pose proof (views_next b) as (HN & _ & HA & _). destruct (next b) as [r b1].
  destruct (IH b1) as [IH1 IH2]. destruct (calls m b1) as [rs b2]. cbn [fst snd] in *.
  split; [congruence|]. intros i. by rewrite IH2, HA.
Qed.

Lemma calls_rounds m : forall b, wf b -> balanced_state b -> 0 < healthy_total (servers b) ->
  exists ks, length ks = m /\
    (calls m b).1 = (fun k => config <$> servers b !! k) <$> ks /\
    rounds (N b) (W b) (A b) (CW b) ks (CW (calls m b).2).
Proof.
  induction m as [|m IH]; intros b Hwf Hb Hpos.
  { exists []. repeat constructor. }
  destruct (next_round b Hwf Hb Hpos) as (k & s & Hs & Hr & Hround).
  pose proof (views_next b) as (HN & HW & HA & HT). pose proof (next_config b) as Hcfg.
  pose proof (next_wf b Hwf) as Hwf1. cbn [calls].
  destruct (next b) as [r b1] eqn:E. cbn [fst snd] in *. subst r.
  assert (Hb1 : balanced_state b1).
  { rewrite HN. apply (balanced_ext _ (W b) _ (A b)); [done|done|].
    eapply balanced_step; [by apply W_nonneg|by rewrite spec_total|exact Hb|exact Hround]. }
  destruct (IH b1 Hwf1 Hb1 ltac:(by rewrite HT)) as (ks & Hlen & Hres & Hrs).
  destruct (calls m b1) as [rs b2]. cbn [fst snd] in *. subst rs.
  exists (k :: ks). split; [simpl; lia|]. split.
  - rewrite fmap_cons, Hs. f_equal. apply list_fmap_ext. intros i x Hx.
    apply (f_equal (.!! x)) in Hcfg. by rewrite !list_lookup_fmap in Hcfg.
  - econstructor; [exact Hround|]. rewrite HN in Hrs.
    by apply (rounds_ext _ (W b) (W b1) (A b) (A b1)).
Qed.

(** The state right after [new], or between cycles, whatever servers have
    been marked: the healthy servers carry no current weight. *)
Definition at_rest (b : t) : Prop :=
  Forall (fun s => healthy s = true -> current_weight s = 0) (servers b).

Lemma at_rest_CW b : at_rest b -> forall j, (j < N b)%nat -> A b j = true -> CW b j = 0.
Proof.
  intros Hr j Hj Ha. unfold A, CW in *. destruct (servers b !! j) as [s|] eqn:E; [|done].
  by apply (Forall_lookup_1 _ _ _ _ Hr E).
Qed.

Lemma at_rest_balanced b : at_rest b -> 0 < healthy_total (servers b) -> balanced_state b.
Proof.
  intros Hr Hpos. pose proof (at_rest_CW b Hr) as Hz. split.
  - unfold act_sum. rewrite (sum_n_ext _ _ (fun _ => 0)); [apply sum_n_const0|].
    intros j Hj. destruct (A b j) eqn:Ha; [by rewrite Hz|done].
  - intros j Hj Ha. rewrite spec_total, Hz by done. lia.
Qed.
End WeightedBalancer.

(** ** Weighted services *)
Module WeightedServiceRouter.
Record WeightedServiceEntry := { name : string; weight : Z (* u32 *) }.
Record t := {
  services : list WeightedServiceEntry;
  total_weight : Z; (* i64 *)
  current_weights : list Z; (* Vec<AtomicI64> *)
}.

Definition new (config : list WeightedServiceRef) : t :=
  let services := (fun s => {| name := wref_name s; weight := wref_weight s |}) <$> config in
  {| services := services;
     total_weight := wrap_i64 (zsum (weight <$> services));
     current_weights := (fun _ => 0) <$> services |}.

(** The selection loop over the services and their current weights. *)
Fixpoint scan (i : nat) (ss : list WeightedServiceEntry) (cws : list Z) (selected : nat)
    (max_weight : Z) : list Z * nat :=
  match ss, cws with
  | s :: ss', cw :: cws' =>
      let current := wrap_i64 (cw + weight s) in
      let better := bool_decide (max_weight < current) in
      let (rest, sel) :=
        scan (S i) ss' cws' (if better then i else selected)
          (if better then current else max_weight) in
      (current :: rest, sel)
  | _, _ => (cws, selected)
  end.

Definition next_service (r : t) : option string * t :=
  match services r with
  | [] => (None, r)
  | [s] => (Some (name s), r)
  | _ =>
      let (cws, selected_idx) := scan 0 (services r) (current_weights r) 0 i64_min in
      (name <$> services r !! selected_idx,
       {| services := services r; total_weight := total_weight r;
          current_weights := alter (fun c => wrap_i64 (c - total_weight r)) selected_idx cws |})
  end.

(** [random_service] draws with the thread-local generator; the remainder by
    a zero total aborts. *)
Fixpoint walk (target cumulative : Z) (ss : list WeightedServiceEntry) : option string :=
  match ss with
  | [] => None
  | s :: ss' =>
      let cumulative := wrap_i64 (cumulative + weight s) in
      if decide (target < cumulative) then Some (name s) else walk target cumulative ss'
  end.

Definition random_service (r : t) (tls : Z) : result unit (option string) * Z :=
  match services r with
  | [] => (Ok None, tls)
  | [s] => (Ok (Some (name s)), tls)
  | _ =>
      let x := xorshift32 tls in
      if decide (total_weight r = 0) then (Panic, x)
      else
        let target := Z.rem (Z.abs x) (total_weight r) in
        (Ok (match walk target 0 (services r) with
             | Some n => Some n
             | None => name <$> services r !! pred (length (services r))
             end), x)
  end.

Definition service_names (r : t) : list string := name <$> services r.

(** ** Invariant and refinement *)
Record wf (r : t) : Prop := {
  wf_weights : Forall (fun s => in_u32 (weight s)) (services r);
  wf_length : length (current_weights r) = length (services r);
  wf_size : Z.of_nat (length (services r)) <= 32768;
  wf_total : total_weight r = zsum (weight <$> services r);
}.

Lemma total_bounds ss : Forall (fun s => in_u32 (weight s)) ss ->
  0 <= zsum (weight <$> ss) <= Z.of_nat (length ss) * u32_max.
Proof.
  induction 1 as [|s ss Hs _ IH]; [done|]. rewrite fmap_cons, zsum_cons. cbn [length]. word.
Qed.

Lemma sr_new_wf cfg : Forall (fun s => in_u32 (wref_weight s)) cfg ->
  Z.of_nat (length cfg) <= 32768 -> wf (new cfg).
Proof.
  intros H1 H2.
  assert (HF : Forall (fun s => in_u32 (weight s)) (services (new cfg))).
  { simpl. apply Forall_fmap. exact H1. }
  pose proof (total_bounds _ HF) as Hb. split; [done|simpl; by rewrite !length_fmap|simpl; by rewrite length_fmap|].
  change (total_weight (new cfg)) with (wrap_i64 (zsum (weight <$> services (new cfg)))).
  apply wrap_i64_id. simpl services in Hb at 3. rewrite length_fmap in Hb. word.
Qed.

Definition W (r : t) (j : nat) : Z := default 0 (weight <$> services r !! j).
Definition CW (r : t) (j : nat) : Z := default 0 (current_weights r !! j).
Definition N (r : t) : nat := length (services r).
Definition all_active (j : nat) : bool := true.

Definition cand (s : WeightedServiceEntry) (cw : Z) : Z := wrap_i64 (cw + weight s).

Lemma scan_weights ss : forall cws i sel m, length cws = length ss ->
  (scan i ss cws sel m).1 = zip_with cand ss cws.
Proof.
  induction ss as [|s ss IH]; intros [|cw cws] i sel m Hl; simplify_eq/=; [done|].
  fold (cand s cw). set (d := bool_decide _).
  specialize (IH cws (S i) (if d then i else sel) (if d then cand s cw else m) Hl).
  destruct (scan _ _ _ _ _). simpl in *. by rewrite IH.
Qed.

Lemma scan_selected ss : forall cws i sel m, length cws = length ss ->
  let k := (scan i ss cws sel m).2 in
  (k = sel /\ forall j x, zip_with cand ss cws !! j = Some x -> x <= m) \/
  (exists j x, k = (i + j)%nat /\ zip_with cand ss cws !! j = Some x /\ m < x /\
     forall j' x', zip_with cand ss cws !! j' = Some x' -> x' <= x).
Proof.
  induction ss as [|s ss IH]; intros [|cw cws] i sel m Hl; simplify_eq/=.
  { left. split; [done|]. intros j x. by rewrite lookup_nil. }
  fold (cand s cw). set (d := bool_decide _).
  specialize (IH cws (S i) (if d then i else sel) (if d then cand s cw else m) Hl).
  destruct (scan _ _ _ _ _) as [rest k] eqn:E. cbn [snd] in *.
  destruct d eqn:Hd; [apply bool_decide_eq_true in Hd|apply bool_decide_eq_false in Hd].
  - right. destruct IH as [[-> Hall]|(j & x & -> & Hx & Hm & Hall)].
    + exists 0%nat, (cand s cw). split; [lia|]. split; [done|]. split; [done|].
      intros [|j'] x' Hx'; [simplify_eq/=; lia|]. simpl in Hx'. by apply (Hall j').
    + exists (S j), x. split; [lia|]. split; [done|]. split; [lia|].
      intros [|j'] x' Hx'; [simplify_eq/=; lia|]. by apply (Hall j').
  - destruct IH as [[-> Hall]|(j & x & -> & Hx & Hm & Hall)].
    + left. split; [done|]. intros [|j'] x' Hx'; [simplify_eq/=; lia|]. by apply (Hall j').
    + right. exists (S j), x. split; [lia|]. split; [done|]. split; [lia|].
      intros [|j'] x' Hx'; [simplify_eq/=; lia|]. by apply (Hall j').
Qed.

Lemma sr_spec_total r : total (N r) (W r) all_active = zsum (weight <$> services r).
Proof.
  unfold total, N. rewrite <- sum_n_list. rewrite length_fmap. apply sum_n_ext. intros j Hj.
  unfold act_w, W, all_active. rewrite list_lookup_fmap. by destruct (services r !! j).
Qed.

Lemma sr_W_nonneg r : wf r -> forall j, (j < N r)%nat -> 0 <= W r j.
Proof.
  intros [H1 _ _ _] j Hj. unfold W. destruct (services r !! j) as [s|] eqn:E; [|done].
  pose proof (Forall_lookup_1 _ _ _ _ H1 E). simpl in *. word.
Qed.

Abbreviation balanced_state r := (balanced (N r) (W r) all_active (CW r)).

Lemma sr_balanced_no_wrap r j s cw : wf r -> balanced_state r -> 0 < total_weight r ->
  services r !! j = Some s -> current_weights r !! j = Some cw ->
  cand s cw = cw + weight s /\ i64_min < cw + weight s /\
  wrap_i64 (cw + weight s - total_weight r) = cw + weight s - total_weight r.
Proof.
  intros Hwf Hb Hpos Hs Hc. pose proof Hwf as [H1 H2 H3 H4].
  assert (Hj : (j < N r)%nat) by (by eapply lookup_lt_Some).
  pose proof (Forall_lookup_1 _ _ _ _ H1 Hs) as Hw. cbn beta in Hw.
  pose proof (total_bounds _ H1) as Hbd. rewrite <- H4 in Hbd. fold (N r) in Hbd, H3.
  pose proof (balanced_low _ _ _ _ Hb j Hj eq_refl) as Hlow.
  pose proof (balanced_upper (N r) (W r) all_active ltac:(rewrite sr_spec_total; lia) _ _ Hb Hj eq_refl) as Hup.
  rewrite sr_spec_total, <- H4 in Hlow, Hup.
  assert (Hcw : CW r j = cw) by (unfold CW; by rewrite Hc). rewrite Hcw in *.
  assert ((Z.of_nat (N r) - 1) * total_weight r <= 32768 * (32768 * u32_max)) by (unfold u32_max in *; nia).
  unfold cand. rewrite !wrap_i64_id by word. split; [done|]. split; [word|done].
Qed.

Lemma lookup_current r j s : wf r -> services r !! j = Some s ->
  exists cw, current_weights r !! j = Some cw.
Proof.
  intros [_ H2 _ _] Hs. apply lookup_lt_is_Some_2. rewrite H2. by eapply lookup_lt_Some.
Qed.

Lemma sr_next_round r : wf r -> balanced_state r -> 0 < total_weight r -> (2 <= N r)%nat ->
  exists k s, services r !! k = Some s /\ (next_service r).1 = Some (name s) /\
    services (next_service r).2 = services r /\ total_weight (next_service r).2 = total_weight r /\
    length (current_weights (next_service r).2) = length (current_weights r) /\
    round (N r) (W r) all_active (CW r) k (CW (next_service r).2).
Proof.
  intros Hwf Hb Hpos Hn. pose proof Hwf as [H1 H2 H3 H4].
  pose proof (scan_weights (services r) (current_weights r) 0 0 i64_min H2) as Hsw.
  pose proof (scan_selected (services r) (current_weights r) 0 0 i64_min H2) as Hsel.
  unfold next_service. unfold N in Hn.
  destruct (services r) as [|s0 [|s1 ss]] eqn:E; [simpl in Hn; lia..|]. rewrite <- E in *.
  destruct (scan _ _ _ _ _) as [cws k]. cbn [fst snd] in *. subst cws.
  assert (Hz : forall j s cw, services r !! j = Some s -> current_weights r !! j = Some cw ->
    zip_with cand (services r) (current_weights r) !! j = Some (cw + weight s)).
  { intros j s cw Hs Hc. rewrite lookup_zip_with, Hs. simpl. rewrite Hc. simpl.
    by destruct (sr_balanced_no_wrap r j s cw Hwf Hb Hpos Hs Hc) as [-> _]. }
  destruct Hsel as [[_ Hall]|(j & x & -> & Hx & _ & Hall)].
  { destruct (lookup_current r 0 s0 Hwf) as [cw Hc]; [by rewrite E|].
    pose proof (sr_balanced_no_wrap r 0 s0 cw Hwf Hb Hpos ltac:(by rewrite E) Hc) as (_ & Hmin & _).
    specialize (Hall 0%nat _ (Hz 0%nat s0 cw ltac:(by rewrite E) Hc)). lia. }
  apply lookup_zip_with_Some in Hx as (s & cw & -> & Hs & Hc).
  rewrite Nat.add_0_l. exists j, s. rewrite Hs. cbn [fst snd services total_weight current_weights].
  split; [done|]. split; [done|]. split; [done|]. split; [done|].
  split; [rewrite length_alter, length_zip_with; lia|].
  destruct (sr_balanced_no_wrap r j s cw Hwf Hb Hpos Hs Hc) as (Hcand & _ & Hwr).
  split.
  - by eapply lookup_lt_Some.
  - done.
  - intros i Hi _. destruct (lookup_lt_is_Some_2 (services r) i Hi) as [u Hu].
    destruct (lookup_current r i u Hwf Hu) as [cu Hcu]. unfold CW, W. rewrite Hs, Hc, Hu, Hcu. simpl.
    specialize (Hall i _ (Hz i u cu Hu Hcu)). lia.
  - intros i Hi. destruct (lookup_lt_is_Some_2 (services r) i Hi) as [u Hu].
    destruct (lookup_current r i u Hwf Hu) as [cu Hcu].
    unfold CW, W. cbn [current_weights]. rewrite list_lookup_alter, (Hz i u cu Hu Hcu), Hu, Hcu.
    rewrite sr_spec_total, <- H4. simpl.
    destruct (decide (j = i)) as [->|]; simpl.
    + rewrite (decide_True (P := i = i)) by done. simplify_eq.
      rewrite ?(Hz i s cw Hs Hc). simpl. rewrite Hwr. unfold all_active. lia.
    + rewrite decide_False by congruence. rewrite ?(Hz i u cu Hu Hcu). simpl.
      unfold all_active. lia.
Qed.

(** [calls m r]: the results of [m] consecutive [next_service] calls. *)
Fixpoint calls (m : nat) (r : t) : list (option string) * t :=
  match m with
  | O => ([], r)
  | S m' =>
      let (x, r1) := next_service r in
      let (xs, r2) := calls m' r1 in
      (x :: xs, r2)
  end.

Lemma sr_calls_rounds m : forall r, wf r -> balanced_state r -> 0 < total_weight r -> (2 <= N r)%nat ->
  exists ks, length ks = m /\ (calls m r).1 = (fun k => name <$> services r !! k) <$> ks /\
    rounds (N r) (W r) all_active (CW r) ks (CW (calls m r).2).
Proof.
  induction m as [|m IH]; intros r Hwf Hb Hpos Hn.
  { exists []. repeat constructor. }
  destruct (sr_next_round r Hwf Hb Hpos Hn) as (k & s & Hs & Hr & Hsv & Htw & Hl & Hround).
  cbn [calls]. destruct (next_service r) as [x r1]. cbn [fst snd] in *. subst x.
  pose proof Hwf as [H1 H2 H3 H4].
  assert (Hwf1 : wf r1) by (split; rewrite ?Hsv, ?Htw; try done; lia).
  assert (Hv : N r1 = N r /\ W r1 = W r) by (unfold N, W; by rewrite Hsv).
  destruct Hv as [HN HW].
  assert (Hb1 : balanced_state r1).
  { rewrite HN, HW. eapply balanced_step; [by apply sr_W_nonneg|rewrite sr_spec_total; lia|exact Hb|exact Hround]. }
  destruct (IH r1 Hwf1 Hb1 ltac:(lia) ltac:(lia)) as (ks & Hlen & Hres & Hrs).
  destruct (calls m r1) as [xs r2]. cbn [fst snd] in *. subst xs.
  exists (k :: ks). split; [simpl; lia|]. split.
  - rewrite fmap_cons, Hs, Hsv. done.
  - econstructor; [exact Hround|]. by rewrite HN, HW in Hrs.
Qed.

Lemma new_balanced cfg : wf (new cfg) -> 0 < total_weight (new cfg) ->
  balanced_state (new cfg) /\ forall j, CW (new cfg) j = 0.
Proof.
  intros Hwf Hpos.
  assert (Hz : forall j, CW (new cfg) j = 0).
  { intros j. unfold CW. simpl. rewrite !list_lookup_fmap. by destruct (cfg !! j). }
  split; [|done]. split.
  - unfold act_sum. rewrite (sum_n_ext _ _ (fun _ => 0)); [apply sum_n_const0|].
    intros j _. apply Hz.
  - intros j Hj _. rewrite sr_spec_total, Hz, <- (wf_total _ Hwf). lia.
Qed.
End WeightedServiceRouter.

(** C1. Exact proportional fairness of [WeightedBalancer]: starting at rest, one
    cycle of [total weight] calls of [next_server] returns every healthy server
    exactly as many times as its weight, and no unhealthy server at all; the
    current weights are then back at rest, so every later cycle repeats this.
    No 64-bit operation wraps for up to 32768 servers with [u32] weights. *)
Theorem weighted_cycle_fair (b : WeightedBalancer.t) :
  WeightedBalancer.wf b ->
  WeightedBalancer.at_rest b ->
  0 < WeightedBalancer.healthy_total (WeightedBalancer.servers b) ->
  let m := Z.to_nat (WeightedBalancer.healthy_total (WeightedBalancer.servers b)) in
  exists ks,
    (WeightedBalancer.calls m b).1 =
      (fun k => WeightedBalancer.config <$> WeightedBalancer.servers b !! k) <$> ks /\
    (forall j s, WeightedBalancer.servers b !! j = Some s ->
      picks j ks = if WeightedBalancer.healthy s then weight (WeightedBalancer.config s) else 0) /\
    WeightedBalancer.at_rest (WeightedBalancer.calls m b).2.
Proof.
  intros Hwf Hrest Hpos m. set (T := WeightedBalancer.healthy_total _) in *.
  pose proof (WeightedBalancer.at_rest_balanced b Hrest Hpos) as Hb.
  pose proof (WeightedBalancer.at_rest_CW b Hrest) as Hz.
  destruct (WeightedBalancer.calls_rounds m b Hwf Hb Hpos) as (ks & Hlen & Hres & Hrs).
  assert (Hm : Z.of_nat (length ks) = total (WeightedBalancer.N b) (WeightedBalancer.W b) (WeightedBalancer.A b)).
  { rewrite WeightedBalancer.spec_total. fold T. lia. }
  pose proof (WeightedBalancer.W_nonneg b Hwf) as Hw.
  assert (Htp : 0 < total (WeightedBalancer.N b) (WeightedBalancer.W b) (WeightedBalancer.A b)) by lia.
  exists ks. split; [exact Hres|]. split.
  - intros j s Hs. rewrite (cycle_fair _ _ _ Hw Htp _ _ _ Hz Hrs Hm j) by (by eapply lookup_lt_Some).
    unfold act_w, WeightedBalancer.A, WeightedBalancer.W. by rewrite Hs.
  - pose proof (cycle_closes _ _ _ Hw Htp _ _ _ Hz Hrs Hm) as Hclose.
    apply Forall_lookup. intros j s Hs Hh.
    destruct (WeightedBalancer.calls_views m b) as [HvN HvA]. specialize (HvA j).
    unfold WeightedBalancer.A in HvA at 1. rewrite Hs in HvA. simpl in HvA. rewrite Hh in HvA.
    assert (Hj : (j < WeightedBalancer.N b)%nat).
    { rewrite <- HvN. by eapply lookup_lt_Some. }
    specialize (Hclose j Hj (eq_sym HvA)). unfold WeightedBalancer.CW in Hclose. by rewrite Hs in Hclose.
Qed.

Definition wrr_demo : WeightedBalancer.t :=
  WeightedBalancer.mark WeightedBalancer.disable 2
    (WeightedBalancer.new [mk_server "http://a" 5; mk_server "http://b" 3; mk_server "http://c" 2]).

Lemma weighted_cycle_fair_witness :
  exists ks, (WeightedBalancer.calls 8 wrr_demo).1 =
      (fun k => WeightedBalancer.config <$> WeightedBalancer.servers wrr_demo !! k) <$> ks /\
    picks 0 ks = 5 /\ picks 1 ks = 3 /\ picks 2 ks = 0.
Proof.
  destruct (weighted_cycle_fair wrr_demo) as (ks & H1 & H2 & _).
  - split; [|vm_compute; discriminate|reflexivity].
    repeat constructor; vm_compute; discriminate.
  - repeat constructor.
  - reflexivity.
  - exists ks. split; [exact H1|]. split; [exact (H2 0%nat _ eq_refl)|].
    split; [exact (H2 1%nat _ eq_refl)|exact (H2 2%nat _ eq_refl)].
Defined.

(** Whenever a healthy server with a positive weight exists,
    [WeightedBalancer::next_server] returns a healthy server, from any
    well-formed state (any history of calls and health changes). *)
Theorem weighted_selects_healthy (b : WeightedBalancer.t) :
  WeightedBalancer.wf b ->
  Exists (fun s => WeightedBalancer.healthy s = true /\ 0 < weight (WeightedBalancer.config s))
    (WeightedBalancer.servers b) ->
  exists k s, WeightedBalancer.servers b !! k = Some s /\
    WeightedBalancer.healthy s = true /\
    (WeightedBalancer.next b).1 = Some (WeightedBalancer.config s).
Proof.
  intros Hwf Hex. pose proof Hwf as [H1 H2 H3].
  assert (Hpos : 0 < WeightedBalancer.healthy_total (WeightedBalancer.servers b)).
  { clear - H1 Hex. induction Hex as [s ss [Hh Hw]|s ss _ IH].
    - apply Forall_cons_iff in H1 as [_ H1]. pose proof (WeightedBalancer.healthy_total_bounds _ H1).
      unfold WeightedBalancer.healthy_total in *. rewrite fmap_cons, zsum_cons, Hh. lia.
    - apply Forall_cons_iff in H1 as [[Hw _ _] H1]. specialize (IH H1).
      unfold WeightedBalancer.healthy_total in *. rewrite fmap_cons, zsum_cons.
      destruct (WeightedBalancer.healthy s); word. }
  destruct (WeightedBalancer.next_selects b) as (k & s & Hs & Hh & _ & Hn).
  - intros He. rewrite He in Hpos. by vm_compute in Hpos.
  - lia.
  - apply WeightedBalancer.total_pos_exists. lia.
  - exists k, s. rewrite Hn. auto.
Qed.

Lemma weighted_selects_healthy_witness :
  exists k s, WeightedBalancer.servers wrr_demo !! k = Some s /\
    WeightedBalancer.healthy s = true /\
    (WeightedBalancer.next wrr_demo).1 = Some (WeightedBalancer.config s).
Proof.
  apply (weighted_selects_healthy wrr_demo).
  - split; [|vm_compute; discriminate|reflexivity].
    repeat constructor; vm_compute; discriminate.
  - left. split; reflexivity.
Defined.

(** Traffic splitting by [WeightedServiceRouter] is exact: over one cycle of
    [total weight] calls from a fresh router, each of two or more services is
    returned exactly as often as its configured weight. *)
Theorem weighted_service_cycle_fair (cfg : list WeightedServiceRef) :
  Forall (fun s => in_u32 (wref_weight s)) cfg ->
  (2 <= length cfg)%nat -> Z.of_nat (length cfg) <= 32768 ->
  0 < zsum (wref_weight <$> cfg) ->
  let r := WeightedServiceRouter.new cfg in
  exists ks,
    (WeightedServiceRouter.calls (Z.to_nat (zsum (wref_weight <$> cfg))) r).1 =
      (fun k => wref_name <$> cfg !! k) <$> ks /\
    forall j s, cfg !! j = Some s -> picks j ks = wref_weight s.
Proof.
  intros H1 Hn H2 Hpos r.
  pose proof (WeightedServiceRouter.sr_new_wf cfg H1 H2) as Hwf. fold r in Hwf.
  assert (Ht : WeightedServiceRouter.total_weight r = zsum (wref_weight <$> cfg)).
  { rewrite (WeightedServiceRouter.wf_total _ Hwf). unfold r, WeightedServiceRouter.new. simpl.
    by rewrite <- list_fmap_compose. }
  assert (HN : WeightedServiceRouter.N r = length cfg).
  { unfold WeightedServiceRouter.N, r, WeightedServiceRouter.new. simpl. by rewrite length_fmap. }
  destruct (WeightedServiceRouter.new_balanced cfg Hwf) as [Hb Hz]; [fold r; lia|]. fold r in Hb, Hz.
  destruct (WeightedServiceRouter.sr_calls_rounds (Z.to_nat (zsum (wref_weight <$> cfg))) r Hwf Hb)
    as (ks & Hlen & Hres & Hrs); [lia|lia|].
  exists ks. split.
  - rewrite Hres. apply list_fmap_ext. intros _ k _. unfold r. simpl.
    rewrite list_lookup_fmap. by destruct (cfg !! k).
  - intros j s Hs.
    rewrite (cycle_fair _ _ _ (WeightedServiceRouter.sr_W_nonneg r Hwf)
      ltac:(rewrite WeightedServiceRouter.sr_spec_total, <- (WeightedServiceRouter.wf_total _ Hwf); lia)
      _ _ _ (fun j _ _ => Hz j) Hrs).
    + unfold act_w, WeightedServiceRouter.all_active, WeightedServiceRouter.W, r. simpl.
      by rewrite list_lookup_fmap, Hs.
    + rewrite WeightedServiceRouter.sr_spec_total, <- (WeightedServiceRouter.wf_total _ Hwf). lia.
    + rewrite HN. by eapply lookup_lt_Some.
Qed.

Lemma weighted_service_cycle_fair_witness :
  let cfg := [{| wref_name := "stable"; wref_weight := 3 |}; {| wref_name := "canary"; wref_weight := 1 |}] in
  exists ks, (WeightedServiceRouter.calls 4 (WeightedServiceRouter.new cfg)).1 =
      (fun k => wref_name <$> cfg !! k) <$> ks /\ picks 0 ks = 3 /\ picks 1 ks = 1.
Proof.
  intros cfg. destruct (weighted_service_cycle_fair cfg) as (ks & H1 & H2).
  - repeat constructor; vm_compute; discriminate.
  - vm_compute. repeat constructor.
  - vm_compute. discriminate.
  - reflexivity.
  - exists ks. split; [exact H1|]. split; [exact (H2 0%nat _ eq_refl)|exact (H2 1%nat _ eq_refl)].
Defined.

(** [random_service] aborts with a division by zero exactly when there are
    two or more services and their total weight is zero; in every other case it
    returns a service name of the router, or [None] for an empty router. *)
Theorem random_service_outcome (r : WeightedServiceRouter.t) (tls : Z) :
  match (WeightedServiceRouter.random_service r tls).1 with
  | Panic => (2 <= length (WeightedServiceRouter.services r))%nat /\
             WeightedServiceRouter.total_weight r = 0
  | Ok None => WeightedServiceRouter.services r = []
  | Ok (Some n) => n ∈ WeightedServiceRouter.service_names r /\
             ((2 <= length (WeightedServiceRouter.services r))%nat ->
              WeightedServiceRouter.total_weight r <> 0)
  | Err _ => False
  end.
Proof.
  assert (Hwalk : forall ss target c n, WeightedServiceRouter.walk target c ss = Some n ->
    n ∈ WeightedServiceRouter.name <$> ss).
  { induction ss as [|s ss IH]; intros target c n; cbn; [done|].
    case_decide; [intros [= <-]; left|]. intros H'. right. eauto. }
  unfold WeightedServiceRouter.random_service, WeightedServiceRouter.service_names.
  destruct (WeightedServiceRouter.services r) as [|s0 [|s1 ss]] eqn:E.
  - done.
  - split; [left|]. simpl. lia.
  - rewrite <- E. case_decide; cbn [fst].
    + split; [rewrite E; simpl; lia|done].
    + destruct (WeightedServiceRouter.walk _ _ _) as [n|] eqn:Hw.
      * split; [|done]. by apply Hwalk in Hw.
      * destruct (WeightedServiceRouter.services r !! _) as [s|] eqn:Hs; simpl.
        -- split; [|done]. apply list_elem_of_fmap. exists s. split; [done|]. by eapply list_elem_of_lookup_2.
        -- apply lookup_ge_None in Hs. rewrite E in Hs. simpl in Hs. lia.
Qed.
