(* ===== verification/LoadBalancer.v ===== *)
(** * [LoadBalancer]: choice of strategy and dynamic dispatch

    Models [LoadBalancer] of src/src/balancer/mod.rs. The [Box<dyn Balancer>]
    field is an inductive type with one constructor per strategy, and the
    methods dispatch through the [Balancer] instances. *)
From S2P Require Import Prelude Config Balancer Weighted.

Inductive strategy :=
| SRoundRobin (b : RoundRobin.t)
| SWeighted (b : WeightedBalancer.t)
| SLeastConn (b : LeastConn.t)
| SRandom (b : Random.t).

Record LoadBalancer := { lb_strategy : strategy }.

(** [windows(2).all(|w| w[0].weight == w[1].weight)] *)
Fixpoint all_equal_weights (ss : list Server) : bool :=
  match ss with
  | s1 :: (s2 :: _) as rest => bool_decide (weight s1 = weight s2) && all_equal_weights rest
  | _ => true
  end.

Definition has_weights (ss : list Server) : bool := existsb (fun s => bool_decide (1 < weight s)) ss.

Definition from_load_balancer (servers : list Server) : LoadBalancer :=
  {| lb_strategy :=
       if has_weights servers && negb (all_equal_weights servers)
       then SWeighted (WeightedBalancer.new servers)
       else SRoundRobin (RoundRobin.new servers) |}.

Definition with_strategy (servers : list Server) (s : string) : LoadBalancer :=
  {| lb_strategy :=
       if bool_decide (s = "round_robin" \/ s = "roundRobin") then SRoundRobin (RoundRobin.new servers)
       else if bool_decide (s = "weighted") then SWeighted (WeightedBalancer.new servers)
       else if bool_decide (s = "least_conn" \/ s = "leastConn") then SLeastConn (LeastConn.new servers)
       else if bool_decide (s = "random") then SRandom (Random.new servers)
       else SRoundRobin (RoundRobin.new servers) |}.

(** Rebuild the box around the result of a strategy's method. *)
Definition reboxed {B} (box : B -> strategy) (r : option Server * B * Z) : option Server * LoadBalancer * Z :=
  (r.1.1, {| lb_strategy := box r.1.2 |}, r.2).

#[export] Instance lb_balancer : Balancer LoadBalancer := {
  next_server lb tls :=
    match lb_strategy lb with
    | SRoundRobin b => reboxed SRoundRobin (next_server b tls)
    | SWeighted b => reboxed SWeighted (next_server b tls)
    | SLeastConn b => reboxed SLeastConn (next_server b tls)
    | SRandom b => reboxed SRandom (next_server b tls)
    end;
  mark_healthy i lb :=
    {| lb_strategy := match lb_strategy lb with
       | SRoundRobin b => SRoundRobin (mark_healthy i b)
       | SWeighted b => SWeighted (mark_healthy i b)
       | SLeastConn b => SLeastConn (mark_healthy i b)
       | SRandom b => SRandom (mark_healthy i b)
       end |};
  mark_unhealthy i lb :=
    {| lb_strategy := match lb_strategy lb with
       | SRoundRobin b => SRoundRobin (mark_unhealthy i b)
       | SWeighted b => SWeighted (mark_unhealthy i b)
       | SLeastConn b => SLeastConn (mark_unhealthy i b)
       | SRandom b => SRandom (mark_unhealthy i b)
       end |};
  find_server_index lb u :=
    match lb_strategy lb with
    | SRoundRobin b => find_server_index b u
    | SWeighted b => find_server_index b u
    | SLeastConn b => find_server_index b u
    | SRandom b => find_server_index b u
    end;
}.

Definition lb_servers (lb : LoadBalancer) : list Server :=
  match lb_strategy lb with
  | SRoundRobin b => RoundRobin.servers b
  | SWeighted b => WeightedBalancer.config <$> WeightedBalancer.servers b
  | SLeastConn b => LeastConn.config <$> LeastConn.servers b
  | SRandom b => Random.config <$> Random.servers b
  end.

Definition lb_health (lb : LoadBalancer) : list bool :=
  match lb_strategy lb with
  | SRoundRobin b => RoundRobin.healthy b
  | SWeighted b => WeightedBalancer.healthy <$> WeightedBalancer.servers b
  | SLeastConn b => LeastConn.healthy <$> LeastConn.servers b
  | SRandom b => Random.healthy <$> Random.servers b
  end.

Definition lb_wf (lb : LoadBalancer) : Prop :=
  match lb_strategy lb with
  | SRoundRobin b => RoundRobin.wf b
  | SWeighted b => WeightedBalancer.wf b
  | SLeastConn b => LeastConn.wf b
  | SRandom b => True
  end.

(** Every strategy obeys the contract, so the dispatching object does. *)
#[export] Instance lb_laws : BalancerLaws LoadBalancer lb_servers lb_health lb_wf.
Proof.
  unfold lb_servers, lb_health, lb_wf.
  split; intros [[b|b|b|b]]; cbn -[next_server mark_healthy mark_unhealthy find_server_index]; intros.
  all: cbn [next_server lb_balancer mark_healthy mark_unhealthy find_server_index lb_strategy reboxed fst snd] in *.
  all: lazymatch goal with
       | b : RoundRobin.t |- _ => pose proof RoundRobin.laws as L
       | b : WeightedBalancer.t |- _ => pose proof WeightedBalancer.laws as L
       | b : LeastConn.t |- _ => pose proof LeastConn.laws as L
       | b : Random.t |- _ => pose proof Random.laws as L
       end.
  all: solve
    [ exact I | reflexivity | assumption
    | eapply (law_wf_next (BalancerLaws := L)); eassumption
    | eapply (law_wf_healthy (BalancerLaws := L)); eassumption
    | eapply (law_wf_unhealthy (BalancerLaws := L)); eassumption
    | eapply (law_health_length (BalancerLaws := L)); eassumption
    | eapply (law_servers_next (BalancerLaws := L))
    | eapply (law_servers_healthy (BalancerLaws := L))
    | eapply (law_servers_unhealthy (BalancerLaws := L))
    | eapply (law_health_next (BalancerLaws := L))
    | eapply (law_health_healthy (BalancerLaws := L))
    | eapply (law_health_unhealthy (BalancerLaws := L))
    | eapply (law_next_member (BalancerLaws := L)); eassumption
    | eapply (law_next_none (BalancerLaws := L)); eassumption
    | eapply (law_find (BalancerLaws := L)) ].
Qed.

(** ** Any history of calls *)
Inductive lb_op := OpNext | OpMarkHealthy (i : nat) | OpMarkUnhealthy (i : nat).

Section History.
Context {B : Type} `{HB : Balancer B} {servers_of : B -> list Server} {health_of : B -> list bool}
  {wf : B -> Prop} `{HL : !BalancerLaws B servers_of health_of wf}.

Definition run_op (op : lb_op) (st : B * Z) : B * Z :=
  match op with
  | OpNext => let r := next_server st.1 st.2 in (r.1.2, r.2)
  | OpMarkHealthy i => (mark_healthy i st.1, st.2)
  | OpMarkUnhealthy i => (mark_unhealthy i st.1, st.2)
  end.

Definition run_ops (ops : list lb_op) (st : B * Z) : B * Z := fold_left (fun st op => run_op op st) ops st.

(** What a history of marks does to a health vector. *)
Definition replay_op (op : lb_op) (hs : list bool) : list bool :=
  match op with
  | OpNext => hs
  | OpMarkHealthy i => <[i := true]> hs
  | OpMarkUnhealthy i => <[i := false]> hs
  end.
Definition replay (ops : list lb_op) (hs : list bool) : list bool :=
  fold_left (fun hs op => replay_op op hs) ops hs.

Lemma run_ops_contract ops : forall st, wf st.1 ->
  wf (run_ops ops st).1 /\ servers_of (run_ops ops st).1 = servers_of st.1 /\
  health_of (run_ops ops st).1 = replay ops (health_of st.1).
Proof using HL.
  induction ops as [|op ops IH]; intros st Hwf; [done|]. unfold run_ops, replay in *. cbn [fold_left].
  assert (Hop : wf (run_op op st).1 /\ servers_of (run_op op st).1 = servers_of st.1 /\
    health_of (run_op op st).1 = replay_op op (health_of st.1)).
  { destruct op as [|i|i]; cbn [run_op replay_op fst].
    - split; [|split]; [by apply law_wf_next|apply law_servers_next|apply law_health_next].
    - split; [|split]; [by apply law_wf_healthy|apply law_servers_healthy|apply law_health_healthy].
    - split; [|split]; [by apply law_wf_unhealthy|apply law_servers_unhealthy|apply law_health_unhealthy]. }
  destruct Hop as (H1 & H2 & H3). destruct (IH _ H1) as (IH1 & IH2 & IH3).
  rewrite IH2, IH3, H2, H3. done.
Qed.
End History.

Lemma from_load_balancer_init ss : Forall server_ok ss -> Z.of_nat (length ss) <= 32768 ->
  lb_wf (from_load_balancer ss) /\ lb_servers (from_load_balancer ss) = ss /\
  lb_health (from_load_balancer ss) = replicate (length ss) true.
Proof.
  intros Hok Hn. unfold from_load_balancer, lb_wf, lb_servers, lb_health. cbn [lb_strategy].
  destruct (has_weights ss && negb (all_equal_weights ss)).
  - split; [by apply WeightedBalancer.wb_new_wf|]. cbn [WeightedBalancer.new WeightedBalancer.servers].
    rewrite <- !list_fmap_compose. split.
    + rewrite (list_fmap_ext _ id); [apply list_fmap_id|done].
    + clear. induction ss; simpl; f_equal; done.
  - split; [apply RoundRobin.rr_new_wf|]. split; [done|]. cbn.
    clear. induction ss; simpl; f_equal; done.
Qed.

(** C28. The contract of a configured load balancer over any history of
    selections and health marks: the server list is the configured one, the
    health vector is the all-healthy start with the marks applied, every
    selection is a configured server, and selection returns nothing only when
    all servers are marked unhealthy (or none is configured). *)
Theorem lb_contract (ss : list Server) (ops : list lb_op) (tls tls' : Z) :
  Forall server_ok ss -> Z.of_nat (length ss) <= 32768 ->
  let lb := (run_ops ops (from_load_balancer ss, tls)).1 in
  lb_servers lb = ss /\
  lb_health lb = replay ops (replicate (length ss) true) /\
  (forall s, (next_server lb tls').1.1 = Some s -> s ∈ ss) /\
  ((next_server lb tls').1.1 = None -> Forall (fun h => h = false) (lb_health lb)).
Proof.
  intros Hok Hn lb. destruct (from_load_balancer_init ss Hok Hn) as (Hwf & Hs & Hh).
  destruct (run_ops_contract ops (from_load_balancer ss, tls) Hwf) as (Hwf' & Hs' & Hh').
  cbn [fst] in Hs', Hh'. fold lb in Hwf', Hs', Hh'.
  split; [congruence|]. split; [congruence|]. split.
  - intros s Hsel. apply (law_next_member (BalancerLaws := lb_laws)) in Hsel; [|done]. congruence.
  - by apply (law_next_none (BalancerLaws := lb_laws)).
Qed.

Lemma lb_contract_witness :
  let ss := [mk_server "http://a" 2; mk_server "http://b" 1] in
  let lb := (run_ops [OpNext; OpMarkUnhealthy 0; OpNext] (from_load_balancer ss, 1)).1 in
  lb_servers lb = ss /\ lb_health lb = [false; true].
Proof.
  intros ss lb.
  destruct (lb_contract ss [OpNext; OpMarkUnhealthy 0; OpNext] 1 1) as (H1 & H2 & _).
  - repeat constructor; vm_compute; discriminate.
  - vm_compute. discriminate.
  - split; [exact H1|exact H2].
Defined.

Lemma all_equal_weights_spec ss : all_equal_weights ss = true <->
  forall s1 s2, s1 ∈ ss -> s2 ∈ ss -> weight s1 = weight s2.
Proof.
  induction ss as [|s ss IH]; [split; [intros _ s1 s2 H; by apply not_elem_of_nil in H|done]|].
  destruct ss as [|s' ss].
  { split; [|done]. intros _ s1 s2 H1 H2. apply list_elem_of_singleton in H1, H2. congruence. }
  cbn [all_equal_weights]. rewrite andb_true_iff, bool_decide_eq_true, IH. split.
  - intros [Hw Hall] s1 s2 H1 H2.
    assert (Hs : forall u, u ∈ s :: s' :: ss -> weight u = weight s').
    { intros u Hu. apply elem_of_cons in Hu as [->|Hu]; [done|]. apply Hall; [done|left]. }
    rewrite (Hs s1), (Hs s2); done.
  - intros Hall. split; [apply Hall; [left|right; left]|].
    intros s1 s2 H1 H2. apply Hall; by right.
Qed.

(** [from_load_balancer] picks the weighted strategy exactly when some weight
    exceeds 1 and two weights differ. Weights 0 and 1 together therefore use
    plain round robin, which ignores weights. *)
Theorem lb_strategy_choice (ss : list Server) :
  (exists b, lb_strategy (from_load_balancer ss) = SWeighted b) <->
  (exists s, s ∈ ss /\ 1 < weight s) /\
  (exists s1 s2, s1 ∈ ss /\ s2 ∈ ss /\ weight s1 <> weight s2).
Proof.
  assert (Hhas : has_weights ss = true <-> exists s, s ∈ ss /\ 1 < weight s).
  { unfold has_weights. rewrite existsb_exists. split; intros (s & H1 & H2); exists s.
    - split; [by apply list_elem_of_In|by apply bool_decide_eq_true in H2].
    - split; [by apply list_elem_of_In|by apply bool_decide_eq_true]. }
  assert (Hdiff : all_equal_weights ss = false <-> exists s1 s2, s1 ∈ ss /\ s2 ∈ ss /\ weight s1 <> weight s2).
  { split.
    - clear Hhas. induction ss as [|s [|s' ss] IH]; cbn [all_equal_weights]; [done|done|].
      rewrite andb_false_iff, bool_decide_eq_false. intros [Hne|Hr].
      + exists s, s'. repeat split; [left|right; left|done].
      + destruct (IH Hr) as (s1 & s2 & H1 & H2 & H3). exists s1, s2. repeat split; [by right|by right|done].
    - intros (s1 & s2 & H1 & H2 & H3). destruct (all_equal_weights ss) eqn:E; [|done].
      pose proof (proj1 (all_equal_weights_spec ss) E s1 s2 H1 H2). done. }
  rewrite <- Hhas, <- Hdiff. unfold from_load_balancer. cbn [lb_strategy].
  destruct (has_weights ss), (all_equal_weights ss); simpl; split; intros H; try done;
    try (destruct H; done); eauto.
Qed.
