(* ===== verification/CircuitBreaker.v ===== *)
(** * Circuit breaker

    Models src/src/health/circuit_breaker.rs. The atomics are fields of a state
    record; [now] arguments are readings of [epoch.elapsed().as_millis()], one
    per reading the code makes. An abstract three-state machine specifies the
    breaker and the implementation is proved to simulate it. *)
From S2P Require Import Prelude.

Inductive CircuitState := Closed | Open | HalfOpen.
#[export] Instance CircuitState_eq_dec : EqDecision CircuitState.
Proof. solve_decision. Defined.

Record CircuitBreaker := {
  failure_threshold : Z; (* u32 *)
  recovery_timeout_ms : Z; (* u64 *)
  failures : Z; (* AtomicU32 *)
  successes : Z; (* AtomicU32 *)
  state_code : Z; (* AtomicU32: 0 = Closed, 1 = Open, 2 = HalfOpen *)
  opened_at : Z; (* AtomicU64 *)
}.

Definition cb_new (threshold timeout_ms : Z) : CircuitBreaker :=
  {| failure_threshold := threshold; recovery_timeout_ms := wrap_u64 timeout_ms;
     failures := 0; successes := 0; state_code := 0; opened_at := 0 |}.

Definition set_state (c : Z) (cb : CircuitBreaker) : CircuitBreaker :=
  {| failure_threshold := failure_threshold cb; recovery_timeout_ms := recovery_timeout_ms cb;
     failures := failures cb; successes := successes cb; state_code := c; opened_at := opened_at cb |}.
Definition set_failures (f : Z) (cb : CircuitBreaker) : CircuitBreaker :=
  {| failure_threshold := failure_threshold cb; recovery_timeout_ms := recovery_timeout_ms cb;
     failures := f; successes := successes cb; state_code := state_code cb; opened_at := opened_at cb |}.
Definition set_successes (s : Z) (cb : CircuitBreaker) : CircuitBreaker :=
  {| failure_threshold := failure_threshold cb; recovery_timeout_ms := recovery_timeout_ms cb;
     failures := failures cb; successes := s; state_code := state_code cb; opened_at := opened_at cb |}.
Definition set_opened_at (t : Z) (cb : CircuitBreaker) : CircuitBreaker :=
  {| failure_threshold := failure_threshold cb; recovery_timeout_ms := recovery_timeout_ms cb;
     failures := failures cb; successes := successes cb; state_code := state_code cb; opened_at := t |}.

(** [state()]: reading an open circuit past its timeout moves it to half-open. *)
Definition state (now : Z) (cb : CircuitBreaker) : CircuitState * CircuitBreaker :=
  if decide (state_code cb = 0) then (Closed, cb)
  else if decide (state_code cb = 1) then
    if decide (recovery_timeout_ms cb <= wrap_u64 (now - opened_at cb))
    then (HalfOpen, set_successes 0 (set_state 2 cb))
    else (Open, cb)
  else (HalfOpen, cb).

Definition allow_request (now : Z) (cb : CircuitBreaker) : bool * CircuitBreaker :=
  match state now cb with
  | (Closed, cb) => (true, cb)
  | (Open, cb) => (false, cb)
  | (HalfOpen, cb) => (true, cb)
  end.

Definition record_success (now : Z) (cb : CircuitBreaker) : CircuitBreaker :=
  match state now cb with
  | (Closed, cb) => set_failures 0 cb
  | (HalfOpen, cb) =>
      let s := wrap_u32 (successes cb + 1) in
      let cb := set_successes s cb in
      if decide (3 <= s) then set_failures 0 (set_state 0 cb) else cb
  | (Open, cb) => cb
  end.

(** [now] is the reading inside [state()], [now'] the one stored in [opened_at]. *)
Definition record_failure (now now' : Z) (cb : CircuitBreaker) : CircuitBreaker :=
  match state now cb with
  | (Closed, cb) =>
      let f := wrap_u32 (failures cb + 1) in
      let cb := set_failures f cb in
      if decide (failure_threshold cb <= f) then set_opened_at now' (set_state 1 cb) else cb
  | (HalfOpen, cb) => set_opened_at now' (set_state 1 cb)
  | (Open, cb) => cb
  end.

Definition reset (cb : CircuitBreaker) : CircuitBreaker :=
  set_successes 0 (set_failures 0 (set_state 0 cb)).

(** ** Specification *)
Module Spec.
(** [SClosed n]: [n] failures in a row; [SOpen t]: opened at [t];
    [SHalfOpen n]: [n] successes since the probe began. *)
Inductive st := SClosed (n : Z) | SOpen (t : Z) | SHalfOpen (n : Z).

Definition elapse (timeout now : Z) (s : st) : st :=
  match s with
  | SOpen t => if decide (timeout <= now - t) then SHalfOpen 0 else s
  | _ => s
  end.
Definition admits (s : st) : bool := match s with SOpen _ => false | _ => true end.
Definition success (s : st) : st :=
  match s with
  | SClosed _ => SClosed 0
  | SHalfOpen n => if decide (3 <= n + 1) then SClosed 0 else SHalfOpen (n + 1)
  | SOpen t => SOpen t
  end.
Definition failure (threshold now : Z) (s : st) : st :=
  match s with
  | SClosed n => if decide (threshold <= n + 1) then SOpen now else SClosed (n + 1)
  | SHalfOpen _ => SOpen now
  | SOpen t => SOpen t
  end.
End Spec.

Definition cb_abs (cb : CircuitBreaker) : Spec.st :=
  if decide (state_code cb = 0) then Spec.SClosed (failures cb)
  else if decide (state_code cb = 1) then Spec.SOpen (opened_at cb)
  else Spec.SHalfOpen (successes cb).

(** The invariant at time [t]: a legal state code, a counter that has not yet
    reached its threshold, and an opening time in the past. *)
Record cb_inv (t : Z) (cb : CircuitBreaker) : Prop := {
  inv_threshold : in_u32 (failure_threshold cb);
  inv_timeout : in_u64 (recovery_timeout_ms cb);
  inv_time : 0 <= opened_at cb <= t;
  inv_code : state_code cb = 0 \/ state_code cb = 1 \/ state_code cb = 2;
  inv_failures : state_code cb = 0 -> 0 <= failures cb < Z.max 1 (failure_threshold cb);
  inv_successes : state_code cb = 2 -> 0 <= successes cb < 3;
}.

(** Operations with their clock readings. *)
Inductive cb_op := CAllow (now : Z) | CSuccess (now : Z) | CFailure (now now' : Z) | CReset.

Definition cb_step (op : cb_op) (cb : CircuitBreaker) : option bool * CircuitBreaker :=
  match op with
  | CAllow now => let (b, cb) := allow_request now cb in (Some b, cb)
  | CSuccess now => (None, record_success now cb)
  | CFailure now now' => (None, record_failure now now' cb)
  | CReset => (None, reset cb)
  end.

Definition spec_step (threshold timeout : Z) (op : cb_op) (s : Spec.st) : option bool * Spec.st :=
  match op with
  | CAllow now => let s := Spec.elapse timeout now s in (Some (Spec.admits s), s)
  | CSuccess now => (None, Spec.success (Spec.elapse timeout now s))
  | CFailure now now' => (None, Spec.failure threshold now' (Spec.elapse timeout now s))
  | CReset => (None, Spec.SClosed 0)
  end.

(** A monotone clock: [cb_times t op t'] when the readings of [op] lie between
    [t] and [t'], below the 64-bit range. *)
Definition cb_times (t : Z) (op : cb_op) (t' : Z) : Prop :=
  match op with
  | CAllow now => t <= now <= t'
  | CSuccess now => t <= now <= t'
  | CFailure now now' => t <= now <= now' /\ now' <= t'
  | CReset => t <= t'
  end /\ t' <= u64_max.

Inductive cb_trace : Z -> list cb_op -> Prop :=
| cb_trace_nil t : cb_trace t []
| cb_trace_cons t op t' ops : cb_times t op t' -> cb_trace t' ops -> cb_trace t (op :: ops).

(** Outputs of a trace of operations, and the final state. *)
Fixpoint cb_run (ops : list cb_op) (cb : CircuitBreaker) : list (option bool) * CircuitBreaker :=
  match ops with
  | [] => ([], cb)
  | op :: ops' =>
      let (o, cb) := cb_step op cb in
      let (os, cb) := cb_run ops' cb in
      (o :: os, cb)
  end.

Fixpoint spec_run (threshold timeout : Z) (ops : list cb_op) (s : Spec.st) : list (option bool) * Spec.st :=
  match ops with
  | [] => ([], s)
  | op :: ops' =>
      let (o, s) := spec_step threshold timeout op s in
      let (os, s) := spec_run threshold timeout ops' s in
      (o :: os, s)
  end.

(** ** Simulation *)
(** Decide every test of a fully destructed state and close the cases. *)
Ltac cb_solve :=
  repeat (first [case_decide | progress cbn]); try lia;
  (split; [split; cbn; auto; lia|]); repeat split; try done; f_equal; lia.

Lemma state_sim t now cb : cb_inv t cb -> t <= now <= u64_max ->
  let (s, cb') := state now cb in
  cb_inv now cb' /\ cb_abs cb' = Spec.elapse (recovery_timeout_ms cb) now (cb_abs cb) /\
  failure_threshold cb' = failure_threshold cb /\ recovery_timeout_ms cb' = recovery_timeout_ms cb /\
  match s with
  | Closed => state_code cb' = 0
  | Open => state_code cb' = 1
  | HalfOpen => state_code cb' = 2
  end.
Proof.
  destruct cb as [th tmo f su code op]. intros [H1 H2 H3 H4 H5 H6] Hnow. cbn in H1, H2, H3, H4, H5, H6.
  assert (Hw : wrap_u64 (now - op) = now - op) by (apply wrap_u64_id; word).
  unfold state, cb_abs. cbn. rewrite Hw. destruct H4 as [->|[->| ->]]; cb_solve.
Qed.

Lemma step_sim t op t' cb : cb_inv t cb -> cb_times t op t' ->
  cb_inv t' (cb_step op cb).2 /\
  failure_threshold (cb_step op cb).2 = failure_threshold cb /\
  recovery_timeout_ms (cb_step op cb).2 = recovery_timeout_ms cb /\
  ((cb_step op cb).1, cb_abs (cb_step op cb).2) =
    spec_step (failure_threshold cb) (recovery_timeout_ms cb) op (cb_abs cb).
Proof.
  intros Hinv [Ht Ht'].
  destruct op as [now|now|now now'|]; cbn [cb_step spec_step].
  4: { destruct cb, Hinv. unfold cb_abs. cbn in *. cb_solve. }
  all: pose proof (state_sim t now cb Hinv ltac:(lia)) as Hs;
    unfold allow_request, record_success, record_failure;
    destruct (state now cb) as [s cb1]; destruct Hs as (Hinv1 & Habs & Hth & Hto & Hcode);
    rewrite <- Habs, <- ?Hth, <- ?Hto; clear Habs Hinv Hth Hto;
    destruct cb1 as [th tmo f su code op]; destruct Hinv1 as [H1 H2 H3 H4 H5 H6]; cbn in *;
    unfold cb_abs; cbn; destruct s; subst code; cbn;
    try (specialize (H5 eq_refl)); try (specialize (H6 eq_refl));
    rewrite ?wrap_u32_id by word; cb_solve.
Qed.

Lemma run_sim ops : forall t cb, cb_trace t ops -> cb_inv t cb ->
  (exists t', cb_inv t' (cb_run ops cb).2) /\
  ((cb_run ops cb).1, cb_abs (cb_run ops cb).2) =
    spec_run (failure_threshold cb) (recovery_timeout_ms cb) ops (cb_abs cb).
Proof.
  induction ops as [|op ops IH]; intros t cb Htr Hinv; [by eauto|].
  inversion Htr as [|? ? t' ? Ht Htr']; subst.
  destruct (step_sim t op t' cb Hinv Ht) as (Hinv' & Hth & Hto & Hsp).
  cbn [cb_run spec_run]. destruct (cb_step op cb) as [o cb1]. cbn [fst snd] in *.
  destruct (IH t' cb1 Htr' Hinv') as (Hex & Hrun). rewrite Hth, Hto in Hrun.
  rewrite <- Hsp. destruct (cb_run ops cb1) as [os cb2]. cbn [fst snd] in *.
  split; [done|]. by rewrite <- Hrun.
Qed.

Lemma new_inv threshold timeout : in_u32 threshold -> cb_inv 0 (cb_new threshold timeout).
Proof. intros H. split; cbn; auto using wrap_u64_range; try lia. Qed.

(** The breaker implements the abstract machine: for every sequence of operations
    on a monotone clock, starting from a new breaker, every [allow_request] answer
    and the final abstract state are those of the machine, and the state invariant
    holds at the end. *)
Lemma cb_simulates (threshold timeout : Z) (ops : list cb_op) :
  in_u32 threshold -> in_u64 timeout -> cb_trace 0 ops ->
  let cb := cb_new threshold timeout in
  ((cb_run ops cb).1, cb_abs (cb_run ops cb).2) = spec_run threshold timeout ops (Spec.SClosed 0) /\
  exists t, cb_inv t (cb_run ops cb).2.
Proof.
  intros Hth Hto Htr cb. destruct (run_sim ops 0 cb Htr (new_inv threshold timeout Hth)) as [Hex Hrun].
  split; [|done]. rewrite Hrun. unfold cb, cb_new. cbn. by rewrite wrap_u64_id.
Qed.

(** ** What callers see *)
(** The answer to a request at [now] after a history of operations, oldest first. *)
Definition answer (threshold timeout : Z) (ops : list cb_op) (now : Z) : bool :=
  (allow_request now (cb_run ops (cb_new threshold timeout)).2).1.

Definition is_failure (op : cb_op) : bool := match op with CFailure _ _ => true | _ => false end.
Definition is_success (op : cb_op) : bool := match op with CSuccess _ => true | _ => false end.
Definition is_reset (op : cb_op) : bool := match op with CReset => true | _ => false end.
Definition count (p : cb_op -> bool) (ops : list cb_op) : Z := Z.of_nat (length (List.filter p ops)).

(** Readings of an operation between two times. *)
Definition between (t u : Z) (op : cb_op) : Prop :=
  match op with
  | CAllow now | CSuccess now => t <= now <= u
  | CFailure now now' => t <= now <= now' /\ now' <= u
  | CReset => True
  end.

(** The abstract state after a history. *)
Definition after (threshold timeout : Z) (ops : list cb_op) (s : Spec.st) : Spec.st :=
  fold_left (fun s op => (spec_step threshold timeout op s).2) ops s.

Lemma spec_run_after threshold timeout ops : forall s,
  (spec_run threshold timeout ops s).2 = after threshold timeout ops s.
Proof.
  induction ops as [|op ops IH]; intros s; [done|]. cbn. destruct (spec_step _ _ op s) as [o s1].
  specialize (IH s1). by destruct (spec_run _ _ ops s1).
Qed.

Lemma count_cons p op ops : count p (op :: ops) = (if p op then 1 else 0) + count p ops.
Proof. unfold count. cbn. destruct (p op); cbn [length]; lia. Qed.
Lemma count_pos p ops : 0 <= count p ops.
Proof. unfold count. lia. Qed.

Lemma trace_prefix ops ops' : forall t, cb_trace t (ops ++ ops') -> cb_trace t ops.
Proof. induction ops as [|op ops IH]; intros t Ht; [constructor|]. inversion Ht; subst. econstructor; eauto. Qed.
Lemma trace_suffix ops ops' : forall t, cb_trace t (ops ++ ops') -> exists t', t <= t' /\ cb_trace t' ops'.
Proof.
  induction ops as [|op ops IH]; intros t Ht; [by exists t|].
  inversion Ht as [|? ? t1 ? Hop Hr]; subst. destruct (IH _ Hr) as (t' & ? & ?).
  exists t'. split; [|done]. destruct op, Hop; lia.
Qed.
Lemma trace_between t ops now : cb_trace t (ops ++ [CAllow now]) ->
  t <= now /\ now <= u64_max /\ Forall (between t now) ops.
Proof.
  revert t. induction ops as [|op ops IH]; intros t Ht; inversion Ht as [|? ? t1 ? Hop Hr]; subst.
  - destruct Hop. split; [lia|]. split; [lia|constructor].
  - destruct (IH _ Hr) as (? & ? & Hf). assert (t <= t1) by (destruct op, Hop; lia).
    split; [lia|]. split; [done|]. constructor; [destruct op, Hop; cbn; auto; lia|].
    revert Hf. apply Forall_impl. intros [] Hb; cbn in *; auto; lia.
Qed.

Section Histories.
Context (threshold timeout : Z).
#[local] Abbreviation run_from := (after threshold timeout).
#[local] Abbreviation step_from op s := ((spec_step threshold timeout op s).2).

Lemma after_app ops ops' s : run_from (ops ++ ops') s = run_from ops' (run_from ops s).
Proof. apply fold_left_app. Qed.
Lemma after_cons op ops s : run_from (op :: ops) s = run_from ops (step_from op s).
Proof. done. Qed.

(** The answer is that of the abstract machine. *)
Lemma answer_spec ops now : in_u32 threshold -> in_u64 timeout -> cb_trace 0 (ops ++ [CAllow now]) ->
  answer threshold timeout ops now =
    Spec.admits (Spec.elapse timeout now (run_from ops (Spec.SClosed 0))).
Proof.
  intros Hth Hto Htr. set (cb := cb_new threshold timeout).
  destruct (run_sim ops 0 cb (trace_prefix _ _ _ Htr) (new_inv threshold timeout Hth)) as [_ Hrun].
  assert (Hinv : forall ops t cb, cb_trace t (ops ++ [CAllow now]) -> cb_inv t cb ->
    exists t', t' <= now <= u64_max /\ cb_inv t' (cb_run ops cb).2 /\
      recovery_timeout_ms (cb_run ops cb).2 = recovery_timeout_ms cb).
  { clear. induction ops as [|op ops IH]; intros t cb Ht Hi.
    - exists t. inversion Ht as [|? ? ? ? [] ?]; subst. split; [lia|done].
    - inversion Ht as [|? ? t' ? Hop Ht']; subst.
      destruct (step_sim t op t' cb Hi Hop) as (Hi' & _ & Hto & _). cbn [cb_run].
      destruct (cb_step op cb) as [o cb1]. cbn [fst snd] in *.
      destruct (IH t' cb1 Ht' Hi') as (t2 & ? & ? & Hto'). exists t2. destruct (cb_run ops cb1); cbn in *.
      by rewrite Hto', Hto. }
  destruct (Hinv ops 0 cb Htr (new_inv threshold timeout Hth)) as (t & Ht & Hi & Hr).
  apply (f_equal snd) in Hrun. cbn [snd] in Hrun. rewrite spec_run_after in Hrun.
  assert (Hcb : cb_abs cb = Spec.SClosed 0) by done.
  assert (Hrt : recovery_timeout_ms cb = timeout) by (apply wrap_u64_id; done).
  pose proof (state_sim t now _ Hi Ht) as Hs. unfold answer. fold cb. unfold allow_request.
  rewrite Hrun, Hr, Hrt, Hcb in Hs.
  destruct (state now _) as [[] cb']; destruct Hs as (_ & Habs & _ & _ & Hc);
    change (failure_threshold cb) with threshold in Habs; rewrite <- Habs; unfold cb_abs; by rewrite Hc.
Qed.

(** An open breaker opened at the time of a recorded failure. *)
Lemma open_since ops t : forall s, run_from ops s = Spec.SOpen t ->
  (exists now, CFailure now t ∈ ops) \/ s = Spec.SOpen t.
Proof.
  induction ops as [|op ops IH]; intros s Hs; [by right|]. rewrite after_cons in Hs.
  destruct (IH _ Hs) as [[now ?]|Heq]; [left; exists now; by right|]. clear IH Hs.
  destruct op as [now|now|now now'|], s as [n|t0|n]; cbn in Heq; repeat case_decide; cbn in Heq;
    repeat case_decide; simplify_eq; auto; left; exists now; left.
Qed.

(** While there are fewer failures than the threshold a closed breaker stays closed. *)
Lemma few_failures ops : forall n, 0 <= n -> n + count is_failure ops < threshold ->
  exists m, run_from ops (Spec.SClosed n) = Spec.SClosed m.
Proof.
  induction ops as [|op ops IH]; intros n Hn Hc; [by exists n|].
  rewrite after_cons. rewrite count_cons in Hc. pose proof (count_pos is_failure ops).
  destruct op as [now|now|now now'|]; cbn in *; try (apply IH; lia).
  rewrite decide_False by lia. apply IH; lia.
Qed.

(** Failures with no success between them, within the timeout of [t1]: the breaker is
    open since [t1] or later, or it still counts every one of them. *)
Definition striking (t1 i : Z) (s : Spec.st) : Prop :=
  match s with
  | Spec.SClosed n => i <= n < Z.max 1 threshold
  | Spec.SOpen t => t1 <= t
  | Spec.SHalfOpen _ => i = 0
  end.
Lemma strikes ops t1 now : now < t1 + timeout -> Forall (between t1 now) ops ->
  count is_success ops = 0 -> count is_reset ops = 0 ->
  forall i s, striking t1 i s -> striking t1 (i + count is_failure ops) (run_from ops s).
Proof.
  intros Hnow. induction ops as [|op ops IH]; intros Hf Hs Hr i s Hst; [by rewrite Z.add_0_r|].
  inversion Hf as [|? ? Hb Hf']; subst. rewrite !count_cons in *. rewrite after_cons.
  pose proof (count_pos is_success ops). pose proof (count_pos is_reset ops).
  rewrite Z.add_assoc. apply IH; [done|destruct op; cbn in *; lia..|].
  destruct op as [u|u|u u'|], s as [n|t0|n]; cbn in *; repeat case_decide; cbn; try lia;
    case_decide; cbn; lia.
Qed.

(** A probing breaker counts its successes and closes at the third. *)
Lemma probing ops : count is_failure ops = 0 -> count is_reset ops = 0 ->
  forall n, 0 <= n < 3 -> run_from ops (Spec.SHalfOpen n) =
    if decide (n + count is_success ops < 3) then Spec.SHalfOpen (n + count is_success ops)
    else Spec.SClosed 0.
Proof.
  assert (Hclosed : forall ops, count is_failure ops = 0 -> run_from ops (Spec.SClosed 0) = Spec.SClosed 0).
  { clear ops. induction ops as [|op ops IH]; intros Hf; [done|]. rewrite count_cons in Hf.
    pose proof (count_pos is_failure ops). rewrite after_cons.
    destruct op; cbn in *; [apply IH; lia..|lia|apply IH; lia]. }
  induction ops as [|op ops IH]; intros Hf Hr n Hn.
  { change (count is_success []) with 0. rewrite decide_True by lia. by rewrite Z.add_0_r. }
  rewrite !count_cons in *. rewrite after_cons.
  pose proof (count_pos is_failure ops). pose proof (count_pos is_reset ops). pose proof (count_pos is_success ops).
  destruct op as [u|u|u u'|]; cbn in *; try lia.
  - rewrite IH by lia. by rewrite Z.add_0_l.
  - case_decide; [rewrite decide_False by lia; apply Hclosed; lia|]. rewrite IH by lia.
    replace (n + 1 + count is_success ops) with (n + (1 + count is_success ops)) by lia. done.
Qed.

(** After a refusal and no success or reset since, the breaker is open or has just begun
    to probe. *)
Lemma refused_still ops : count is_success ops = 0 -> count is_reset ops = 0 ->
  forall s, (exists t, s = Spec.SOpen t) \/ s = Spec.SHalfOpen 0 ->
  (exists t, run_from ops s = Spec.SOpen t) \/ run_from ops s = Spec.SHalfOpen 0.
Proof.
  induction ops as [|op ops IH]; intros Hs Hr s Hst; [done|]. rewrite !count_cons in *. rewrite after_cons.
  pose proof (count_pos is_reset ops). pose proof (count_pos is_success ops).
  apply IH; [destruct op; cbn in *; lia..|].
  destruct Hst as [[t ->]| ->], op as [u|u|u u'|]; cbn in *; repeat case_decide; cbn; eauto; lia.
Qed.

(** Opened at [t], the breaker stays open until the timeout unless it is reset. *)
Lemma stays_open ops t now : now < t + timeout -> Forall (between t now) ops -> count is_reset ops = 0 ->
  run_from ops (Spec.SOpen t) = Spec.SOpen t.
Proof.
  intros Hnow. induction ops as [|op ops IH]; intros Hf Hr; [done|]. inversion Hf as [|? ? Hb Hf']; subst.
  rewrite count_cons in Hr. pose proof (count_pos is_reset ops). rewrite after_cons.
  destruct op as [u|u|u u'|]; cbn in *; try rewrite decide_False by lia; try (apply IH; [done|lia]). lia.
Qed.

(** A closed breaker has counted fewer failures than the threshold. *)
Definition below (s : Spec.st) : Prop :=
  match s with Spec.SClosed n => 0 <= n < Z.max 1 threshold | _ => True end.
Lemma reached_below ops : forall s, below s -> below (run_from ops s).
Proof.
  induction ops as [|op ops IH]; intros s Hs; [done|]. rewrite after_cons. apply IH.
  destruct op as [u|u|u u'|], s as [n|t0|n]; cbn in *; repeat case_decide; cbn; try done; try lia;
    repeat case_decide; cbn; try done; lia.
Qed.

Context (Hth : in_u32 threshold) (Hto : in_u64 timeout).
#[local] Abbreviation new := (Spec.SClosed 0).
#[local] Abbreviation answered := (answer threshold timeout).

Lemma admits_when_old ops now : cb_trace 0 (ops ++ [CAllow now]) ->
  (forall u u', CFailure u u' ∈ ops -> u' + timeout <= now) -> answered ops now = true.
Proof using Hth Hto.
  intros Htr Hold. rewrite answer_spec by done. destruct (run_from ops new) as [n|t|n] eqn:Hs; [done| |done].
  destruct (open_since ops t new Hs) as [[u Hin]|]; [|done]. specialize (Hold _ _ Hin).
  cbn. by rewrite decide_True by lia.
Qed.

Lemma admits_when_few pre ops now : cb_trace 0 (pre ++ ops ++ [CAllow now]) ->
  pre = [] \/ (exists pre', pre = pre' ++ [CReset]) ->
  count is_failure ops < threshold -> answered (pre ++ ops) now = true.
Proof using Hth Hto.
  intros Htr Hpre Hc. rewrite answer_spec by (done || by rewrite <- app_assoc). rewrite after_app.
  assert (Hnew : run_from pre new = new) by (destruct Hpre as [->|[pre' ->]]; [done|by rewrite after_app]).
  rewrite Hnew. destruct (few_failures ops 0) as [m ->]; [lia..|done].
Qed.

Lemma refuses_after_strikes pre t1 ops now : cb_trace 0 (pre ++ CAllow t1 :: ops ++ [CAllow now]) ->
  answered pre t1 = true -> count is_success ops = 0 -> count is_reset ops = 0 ->
  Z.max 1 threshold <= count is_failure ops -> now < t1 + timeout ->
  answered (pre ++ CAllow t1 :: ops) now = false.
Proof using Hth Hto.
  intros Htr Ha Hs Hr Hc Hnow.
  rewrite answer_spec in Ha by (done || eapply (trace_prefix _ (ops ++ [CAllow now])); by rewrite <- app_assoc).
  rewrite answer_spec by (done || by rewrite <- app_assoc). rewrite after_app, after_cons.
  destruct (trace_suffix _ _ _ Htr) as (T & _ & Htr'). inversion Htr' as [|? ? T' ? [Ht1 _] Htr2]; subst.
  destruct (trace_between _ _ _ Htr2) as (_ & _ & Hf).
  pose proof (reached_below pre new ltac:(cbn; lia)) as Hb.
  assert (Hst : striking t1 0 (Spec.elapse timeout t1 (run_from pre new))).
  { destruct (run_from pre new); cbn in *; repeat case_decide; cbn in *; (done || lia). }
  apply (strikes ops t1 now) in Hst; try done.
  2: { revert Hf. apply Forall_impl. intros [] ?; cbn in *; auto; lia. }
  cbn [spec_step snd]. unfold striking in Hst.
  destruct (run_from ops _) as [n|t|n]; cbn; [lia| |lia]. by rewrite decide_False by lia.
Qed.

(** The state during a probe. *)
Lemma probe_state pre t0 mid t1 probe rest :
  cb_trace 0 ((pre ++ CAllow t0 :: mid ++ CAllow t1 :: probe) ++ rest) ->
  answered pre t0 = false -> count is_success mid = 0 -> count is_reset mid = 0 ->
  answered (pre ++ CAllow t0 :: mid) t1 = true ->
  count is_failure probe = 0 -> count is_reset probe = 0 ->
  run_from (pre ++ CAllow t0 :: mid ++ CAllow t1 :: probe) new =
    if decide (count is_success probe < 3) then Spec.SHalfOpen (count is_success probe) else new.
Proof using Hth Hto.
  intros Htr Ha0 Hs Hr Ha1 Hpf Hpr. apply trace_prefix in Htr.
  rewrite answer_spec in Ha0 by (done || eapply (trace_prefix _ (mid ++ CAllow t1 :: probe)); by rewrite <- app_assoc).
  rewrite answer_spec in Ha1 by (done || eapply (trace_prefix _ probe); by rewrite <- !app_assoc).
  rewrite after_app, after_cons in Ha1. rewrite after_app, after_cons, after_app, after_cons. cbn [spec_step snd] in *.
  set (s := Spec.elapse timeout t0 _) in *.
  destruct (refused_still mid Hs Hr s) as [[t Ht]|Ht]; [destruct s; [done|by left; eexists|done]| |];
    rewrite Ht in *; cbn in Ha1 |- *; repeat case_decide; try done; rewrite probing by (done || lia);
    rewrite Z.add_0_l; by case_decide.
Qed.
End Histories.

(** C6. What callers of a breaker see, for histories of requests, recorded outcomes
    and resets on a monotone clock, each call completed before the next begins.
    (1) A request is admitted when every recorded failure is at least the recovery
    timeout old, and when fewer failures than the threshold follow the start or the
    last reset. (2) After an admitted request at [t1], once the threshold's number of
    failures (at least one) is recorded with no success or reset between them, every
    request before [t1 + timeout] is refused. (3) After a refusal, the first admitted
    request begins a probe: while fewer than three successes are recorded a single
    failure at [t'] has every request before [t' + timeout] refused; three successes
    close the breaker, so that fewer failures than the threshold leave requests
    admitted. (4) The probe is not limited: every request during it is admitted,
    although the comment in [allow_request] speaks of limited requests. *)
Theorem cb_behaviour (threshold timeout : Z) :
  in_u32 threshold -> in_u64 timeout ->
  let answer := answer threshold timeout in
  (forall ops now, cb_trace 0 (ops ++ [CAllow now]) ->
     (forall u u', CFailure u u' ∈ ops -> u' + timeout <= now) -> answer ops now = true) /\
  (forall pre ops now, cb_trace 0 (pre ++ ops ++ [CAllow now]) ->
     pre = [] \/ (exists pre', pre = pre' ++ [CReset]) ->
     count is_failure ops < threshold -> answer (pre ++ ops) now = true) /\
  (forall pre t1 ops now, cb_trace 0 (pre ++ CAllow t1 :: ops ++ [CAllow now]) ->
     answer pre t1 = true -> count is_success ops = 0 -> count is_reset ops = 0 ->
     Z.max 1 threshold <= count is_failure ops -> now < t1 + timeout ->
     answer (pre ++ CAllow t1 :: ops) now = false) /\
  (forall pre t0 mid t1 probe,
     let start := pre ++ CAllow t0 :: mid ++ CAllow t1 :: probe in
     answer pre t0 = false -> count is_success mid = 0 -> count is_reset mid = 0 ->
     answer (pre ++ CAllow t0 :: mid) t1 = true ->
     count is_failure probe = 0 -> count is_reset probe = 0 ->
     (forall now, cb_trace 0 (start ++ [CAllow now]) -> answer start now = true) /\
     (count is_success probe < 3 -> forall u t' ops now,
        cb_trace 0 (start ++ CFailure u t' :: ops ++ [CAllow now]) -> count is_reset ops = 0 ->
        now < t' + timeout -> answer (start ++ CFailure u t' :: ops) now = false) /\
     (3 <= count is_success probe -> forall ops now,
        cb_trace 0 (start ++ ops ++ [CAllow now]) -> count is_failure ops < threshold ->
        answer (start ++ ops) now = true)).
Proof.
  intros Hth Hto a. subst a. split; [intros; by apply admits_when_old|].
  split; [intros; by apply admits_when_few|]. split; [intros; by apply refuses_after_strikes|].
  intros pre t0 mid t1 probe start Ha0 Hs Hr Ha1 Hpf Hpr. split; [|split].
  - intros now Htr. rewrite answer_spec by done. unfold start. rewrite (probe_state _ _ Hth Hto _ _ _ _ _ _ Htr) by done.
    by case_decide.
  - intros Hk u t' ops now Htr Hro Hnow.
    rewrite answer_spec by (done || by rewrite <- app_assoc). rewrite after_app. unfold start.
    rewrite (probe_state _ _ Hth Hto _ _ _ _ _ _ Htr), decide_True by done.
    destruct (trace_suffix _ _ _ Htr) as (T & _ & Htr'). inversion Htr' as [|? ? T' ? [Ht1 _] Htr2]; subst.
    destruct (trace_between _ _ _ Htr2) as (_ & _ & Hf). rewrite after_cons. cbn.
    rewrite (stays_open _ _ _ _ now) by (done || (revert Hf; apply Forall_impl; intros [] ?; cbn in *; auto; lia)).
    cbn. by rewrite decide_False by lia.
  - intros Hk ops now Htr Hc. rewrite answer_spec by (done || by rewrite <- app_assoc). rewrite after_app. unfold start.
    rewrite (probe_state _ _ Hth Hto _ _ _ _ _ _ Htr), decide_False by (done || lia).
    destruct (few_failures threshold timeout ops 0) as [m ->]; [lia..|done].
Qed.

Ltac tick v := apply (cb_trace_cons _ _ v); [vm_compute; repeat split; discriminate|].

(** Threshold 2, timeout 30: two failures after an admitted request refuse; a probe with
    one success and a failure refuses again; a probe with three successes closes. *)
Lemma cb_behaviour_witness :
  answer 2 30 [CAllow 0; CFailure 1 1; CFailure 2 2] 29 = false /\
  answer 2 30 [CFailure 1 1; CFailure 2 2; CAllow 3; CAllow 40; CSuccess 41; CFailure 42 42] 71 = false /\
  answer 2 30 [CFailure 1 1; CFailure 2 2; CAllow 3; CAllow 40; CSuccess 41; CSuccess 42; CSuccess 43;
               CFailure 44 44] 45 = true.
Proof.
  destruct (cb_behaviour 2 30) as (_ & _ & H3 & H4); [vm_compute; split; discriminate..|].
  split; [|split].
  - apply (H3 [] 0 [CFailure 1 1; CFailure 2 2] 29); try reflexivity; try (vm_compute; discriminate).
    tick 0. tick 1. tick 2. tick 29. apply cb_trace_nil.
  - apply (H4 [CFailure 1 1; CFailure 2 2] 3 [] 40 [CSuccess 41]
      eq_refl eq_refl eq_refl eq_refl eq_refl eq_refl) with (ops := []); try reflexivity.
    tick 1. tick 2. tick 3. tick 40. tick 41. tick 42. tick 71. apply cb_trace_nil.
  - apply (H4 [CFailure 1 1; CFailure 2 2] 3 [] 40 [CSuccess 41; CSuccess 42; CSuccess 43]
      eq_refl eq_refl eq_refl eq_refl eq_refl eq_refl) with (ops := [CFailure 44 44]);
      [vm_compute; discriminate| |reflexivity].
    tick 1. tick 2. tick 3. tick 40. tick 41. tick 42. tick 43. tick 44. tick 45. apply cb_trace_nil.
Defined.

(** ** Two threads *)
(** The stores of [record_failure] that opens the circuit are two accesses: the state
    first, the opening time second. A request that reads between them measures the
    timeout from the previous opening (or from the epoch), so that once the breaker is
    a timeout old the circuit that was just opened is at once half-open, and the time
    stored afterwards has no effect: requests are admitted right after the failure
    that should have refused them. *)
Definition open_state_stored (cb : CircuitBreaker) : CircuitBreaker := set_state 1 cb.
Definition open_time_stored (now' : Z) (cb : CircuitBreaker) : CircuitBreaker := set_opened_at now' cb.

Lemma open_race_admits (cb : CircuitBreaker) (now now' : Z) :
  state_code cb <> 1 -> in_u64 now -> 0 <= opened_at cb <= now ->
  opened_at cb + recovery_timeout_ms cb <= now ->
  let between_stores := (allow_request now (open_state_stored cb)).2 in
  (allow_request now' (open_time_stored now' between_stores)).1 = true.
Proof.
  intros Hc Hn Ho Ht. unfold allow_request, state, open_state_stored, open_time_stored. cbn.
  rewrite wrap_u64_id by word.
  repeat case_decide; try done; lia.
Qed.

(** ** Consequences at the level of the implementation *)

(** [failures_at ts cb]: one recorded failure per time stamp. *)
Definition failures_at (ts : list Z) (cb : CircuitBreaker) : CircuitBreaker :=
  fold_left (fun cb t => record_failure t t cb) ts cb.

Lemma closed_failure now now' cb : state_code cb = 0 -> 0 <= failures cb < u32_max ->
  record_failure now now' cb =
    if decide (failure_threshold cb <= failures cb + 1)
    then set_opened_at now' (set_state 1 (set_failures (failures cb + 1) cb))
    else set_failures (failures cb + 1) cb.
Proof.
  intros Hc Hf. unfold record_failure, state. rewrite decide_True by done. cbn.
  rewrite wrap_u32_id by word. done.
Qed.

Lemma failures_below ts : forall cb, state_code cb = 0 -> 0 <= failures cb ->
  in_u32 (failure_threshold cb) ->
  failures cb + Z.of_nat (length ts) < failure_threshold cb ->
  failures_at ts cb = set_failures (failures cb + Z.of_nat (length ts)) cb.
Proof.
  induction ts as [|t ts IH]; intros cb Hc Hf Hth Hlt.
  - cbn. destruct cb. cbn. unfold set_failures. cbn. f_equal. lia.
  - cbn [length] in Hlt. unfold failures_at in *. cbn [fold_left].
    rewrite closed_failure by (done || word). rewrite decide_False by lia.
    rewrite IH; cbn; auto; try lia. unfold set_failures. cbn. f_equal. cbn [length]. lia.
Qed.

(** A new breaker with threshold [n >= 1] stays closed, admitting requests,
    through any [n - 1] consecutive failures; the [n]-th opens it, and it then
    rejects every request until [recovery_timeout_ms] after that failure, when
    the next request is admitted as a probe. *)
Theorem cb_trips_at_threshold (threshold timeout last now : Z) (ts : list Z) :
  in_u32 threshold -> in_u64 timeout -> 1 <= threshold ->
  Z.of_nat (length ts) = threshold - 1 ->
  0 <= last <= now -> now <= u64_max ->
  let before := failures_at ts (cb_new threshold timeout) in
  let after := record_failure last last before in
  (allow_request now before).1 = true /\
  (allow_request now after).1 = bool_decide (last + timeout <= now).
Proof.
  intros Hth Hto H1 Hlen Hl Hn before after.
  assert (Hb : before = set_failures (threshold - 1) (cb_new threshold timeout)).
  { unfold before. rewrite failures_below; cbn; auto; try lia. by rewrite Hlen, Z.add_0_l. }
  split; [rewrite Hb; unfold allow_request, state; by rewrite decide_True|].
  unfold after. rewrite Hb, closed_failure by (cbn; done || word). cbn.
  rewrite decide_True by lia. unfold allow_request, state. cbn.
  rewrite decide_False, decide_True by lia.
  rewrite !wrap_u64_id by word.
  case_decide; cbn; [rewrite bool_decide_true by lia|rewrite bool_decide_false by lia]; done.
Qed.

Lemma cb_trips_at_threshold_witness :
  let after := record_failure 7 7 (failures_at [1; 2] (cb_new 3 30)) in
  (allow_request 36 after).1 = false /\ (allow_request 37 after).1 = true.
Proof.
  intros after. split.
  - refine (proj2 (cb_trips_at_threshold 3 30 7 36 [1; 2] _ _ _ _ _ _)); vm_compute; try split; done.
  - refine (proj2 (cb_trips_at_threshold 3 30 7 37 [1; 2] _ _ _ _ _ _)); vm_compute; try split; done.
Defined.

(** A probing (half-open) breaker closes after three successes in a row, with
    its failure count cleared, and any failure before the third success opens it
    again at once, so recovery needs three consecutive successes. *)
Theorem cb_half_open_recovery (cb : CircuitBreaker) (t1 t2 t3 : Z) (k : nat) :
  state_code cb = 2 -> successes cb = 0 -> (k <= 2)%nat ->
  cb_abs (record_success t3 (record_success t2 (record_success t1 cb))) = Spec.SClosed 0 /\
  cb_abs (record_failure t3 t3 (Nat.iter k (record_success t1) cb)) = Spec.SOpen t3.
Proof.
  destruct cb as [th tmo f su code op]. cbn. intros -> -> Hk. split; [done|].
  destruct k as [|[|[|k]]]; try lia; done.
Qed.

Lemma cb_half_open_recovery_witness :
  let cb := (allow_request 100 (record_failure 7 7 (cb_new 1 30))).2 in
  cb_abs (record_success 103 (record_success 102 (record_success 101 cb))) = Spec.SClosed 0.
Proof.
  intros cb. refine (proj1 (cb_half_open_recovery cb 101 102 103 0 _ _ _)); [reflexivity|reflexivity|lia].
Defined.
