(* ===== verification/RustStr.v ===== *)
(** * Rust strings

    A [String]/[&str] is the sequence of its UTF-8 bytes, kept in a [string].
    This file defines the standard-library operations the modelled code calls:
    ASCII case folding, prefixes, splitting, byte search, slicing at byte
    offsets (which aborts off a character boundary) and [trim], whose set of
    Unicode white space is spelled out in its UTF-8 encodings. *)
From S2P Require Import Prelude.
From Stdlib Require Export Ascii.

Open Scope string_scope.
Open Scope Z_scope.

#[global] Arguments String.append : simpl nomatch.

Definition byte_of (c : ascii) : Z := Z.of_nat (nat_of_ascii c).
Definition byte_at (n : nat) : ascii := ascii_of_nat n.

Fixpoint str_map (f : ascii -> ascii) (s : string) : string :=
  match s with
  | EmptyString => EmptyString
  | String c s' => String (f c) (str_map f s')
  end.

Fixpoint str_forall (p : ascii -> bool) (s : string) : bool :=
  match s with
  | EmptyString => true
  | String c s' => p c && str_forall p s'
  end.

(** ** ASCII case *)
Definition lower_ascii (c : ascii) : ascii :=
  let n := nat_of_ascii c in
  if (65 <=? n)%nat && (n <=? 90)%nat then ascii_of_nat (n + 32) else c.
Definition to_ascii_lowercase (s : string) : string := str_map lower_ascii s.
Definition eq_ignore_ascii_case (a b : string) : bool :=
  bool_decide (to_ascii_lowercase a = to_ascii_lowercase b).

(** ** Prefixes *)
Fixpoint strip_prefix (p s : string) : option string :=
  match p, s with
  | EmptyString, _ => Some s
  | String a p', String b s' => if Ascii.eqb a b then strip_prefix p' s' else None
  | String _ _, EmptyString => None
  end.
Definition starts_with (p s : string) : bool :=
  match strip_prefix p s with Some _ => true | None => false end.

(** [s.contains(p)] *)
Fixpoint contains (p s : string) : bool :=
  starts_with p s || match s with EmptyString => false | String _ s' => contains p s' end.

(** The last byte, for [ends_with] of an ASCII character. *)
Fixpoint last_byte (s : string) : option ascii :=
  match s with
  | EmptyString => None
  | String c EmptyString => Some c
  | String _ s' => last_byte s'
  end.
Definition ends_with_byte (c : ascii) (s : string) : bool :=
  match last_byte s with Some d => Ascii.eqb c d | None => false end.

(** ** Splitting on an ASCII byte *)

(** [s.split_once(sep)] *)
Fixpoint split_once (sep : ascii) (s : string) : option (string * string) :=
  match s with
  | EmptyString => None
  | String c s' =>
      if Ascii.eqb c sep then Some (EmptyString, s')
      else match split_once sep s' with
           | Some (a, b) => Some (String c a, b)
           | None => None
           end
  end.

(** [s.split(sep)]: always at least one piece. *)
Fixpoint split_on (sep : ascii) (s : string) : list string :=
  match s with
  | EmptyString => [EmptyString]
  | String c s' =>
      let rest := split_on sep s' in
      if Ascii.eqb c sep then EmptyString :: rest
      else match rest with
           | piece :: rest' => String c piece :: rest'
           | [] => [String c EmptyString]
           end
  end.

(** [s.find(c)]: byte offset of the first occurrence. *)
Fixpoint find_byte (c : ascii) (s : string) : option nat :=
  match s with
  | EmptyString => None
  | String d s' => if Ascii.eqb c d then Some O else S <$> find_byte c s'
  end.

(** ** Characters and slices *)

(** UTF-8 continuation bytes are [10xxxxxx]. *)
Definition is_continuation (c : ascii) : bool :=
  let n := nat_of_ascii c in (128 <=? n)%nat && (n <? 192)%nat.
Definition is_ascii_byte (c : ascii) : bool := (nat_of_ascii c <? 128)%nat.
Definition is_ascii (s : string) : bool := str_forall is_ascii_byte s.

(** Visible ASCII, space and tab: what a header value's text consists of. *)
Definition visible_byte (c : ascii) : bool :=
  let n := byte_of c in ((32 <=? n) && (n <=? 126)) || (n =? 9).

(** The first byte of every character, in order: [s.chars()] as far as ASCII
    comparisons can tell. *)
Fixpoint lead_bytes (s : string) : list ascii :=
  match s with
  | EmptyString => []
  | String c s' => if is_continuation c then lead_bytes s' else c :: lead_bytes s'
  end.

Fixpoint str_drop (n : nat) (s : string) : string :=
  match n, s with
  | S n', String _ s' => str_drop n' s'
  | _, _ => s
  end.
Fixpoint str_take (n : nat) (s : string) : string :=
  match n, s with
  | S n', String c s' => String c (str_take n' s')
  | _, _ => EmptyString
  end.

Definition is_char_boundary (s : string) (n : nat) : bool :=
  (n <=? String.length s)%nat &&
  match str_drop n s with
  | EmptyString => true
  | String c _ => (n =? 0)%nat || negb (is_continuation c)
  end.

(** [&s[n..]] and [&s[..n]]: abort off a character boundary. *)
Definition slice_from {E} (s : string) (n : nat) : result E string :=
  if is_char_boundary s n then Ok (str_drop n s) else Panic.
Definition slice_to {E} (s : string) (n : nat) : result E string :=
  if is_char_boundary s n then Ok (str_take n s) else Panic.

(** ** [trim] *)
Fixpoint of_bytes (l : list nat) : string :=
  match l with
  | [] => EmptyString
  | n :: l' => String (ascii_of_nat n) (of_bytes l')
  end.

(** The characters with the Unicode [White_Space] property, encoded. *)
Definition white_space : list string :=
  of_bytes <$>
    [[9]; [10]; [11]; [12]; [13]; [32]; [194; 133]; [194; 160]; [225; 154; 128];
     [226; 128; 128]; [226; 128; 129]; [226; 128; 130]; [226; 128; 131]; [226; 128; 132];
     [226; 128; 133]; [226; 128; 134]; [226; 128; 135]; [226; 128; 136]; [226; 128; 137];
     [226; 128; 138]; [226; 128; 168]; [226; 128; 169]; [226; 128; 175]; [226; 129; 159];
     [227; 128; 128]]%nat.

Definition strip_any (ps : list string) (s : string) : option string :=
  fold_right (fun p acc => match strip_prefix p s with Some s' => Some s' | None => acc end) None ps.

(** Strip prefixes from [ps] as long as one applies; the fuel is the length. *)
Fixpoint strip_all (fuel : nat) (ps : list string) (s : string) : string :=
  match fuel with
  | O => s
  | S fuel' => match strip_any ps s with Some s' => strip_all fuel' ps s' | None => s end
  end.

Fixpoint str_rev_app (s acc : string) : string :=
  match s with
  | EmptyString => acc
  | String c s' => str_rev_app s' (String c acc)
  end.
Definition str_rev (s : string) : string := str_rev_app s EmptyString.

Definition trim_start (s : string) : string := strip_all (String.length s) white_space s.
Definition trim_end (s : string) : string :=
  str_rev (strip_all (String.length s) (str_rev <$> white_space) (str_rev s)).
Definition trim (s : string) : string := trim_end (trim_start s).

(** [s.trim_start_matches(c)], [s.trim_end_matches(c)] and [s.trim_matches(c)]
    for an ASCII character. *)
Fixpoint strip_head (c : ascii) (s : string) : string :=
  match s with String d s' => if Ascii.eqb d c then strip_head c s' else s | EmptyString => "" end.
Definition trim_end_matches (c : ascii) (s : string) : string := str_rev (strip_head c (str_rev s)).
Definition trim_matches (c : ascii) (s : string) : string := trim_end_matches c (strip_head c s).

(** ** Lemmas *)
Lemma str_app_nil_r (s : string) : s +:+ "" = s.
Proof. induction s as [|c s IH]; [done|]. simpl. by rewrite IH. Qed.

Lemma str_app_assoc (a b c : string) : (a +:+ b) +:+ c = a +:+ (b +:+ c).
Proof. induction a as [|x a IH]; [done|]. simpl. by rewrite IH. Qed.

Lemma str_length_app (a b : string) : String.length (a +:+ b) = (String.length a + String.length b)%nat.
Proof. induction a as [|x a IH]; [done|]. simpl. by rewrite IH. Qed.

Lemma strip_prefix_app p s : strip_prefix p (p +:+ s) = Some s.
Proof. induction p as [|c p IH]; [done|]. simpl. by rewrite Ascii.eqb_refl. Qed.

Lemma strip_prefix_Some p s r : strip_prefix p s = Some r <-> s = p +:+ r.
Proof.
  split; [|intros ->; apply strip_prefix_app].
  revert s. induction p as [|c p IH]; intros s H; [by injection H as ->|].
  destruct s as [|d s]; [done|]. simpl in H. destruct (Ascii.eqb_spec c d) as [->|]; [|done].
  rewrite (IH s H). done.
Qed.

Lemma starts_with_spec p s : starts_with p s = true <-> exists r, s = p +:+ r.
Proof.
  unfold starts_with. destruct (strip_prefix p s) as [r|] eqn:E.
  - apply strip_prefix_Some in E as ->. split; eauto.
  - split; [done|]. intros [r ->]. by rewrite strip_prefix_app in E.
Qed.

Lemma split_once_Some sep s a b : split_once sep s = Some (a, b) ->
  s = a +:+ String sep b.
Proof.
  revert a. induction s as [|c s IH]; intros a; simpl; [done|].
  destruct (Ascii.eqb_spec c sep) as [->|].
  - intros [= <- <-]. done.
  - destruct (split_once sep s) as [[a' b']|]; [|done]. intros [= <- <-].
    simpl. f_equal. by apply IH.
Qed.

(** Text without the separator in front of it. *)
Lemma split_once_app sep a b : str_forall (fun c => negb (Ascii.eqb c sep)) a = true ->
  split_once sep (a +:+ String sep b) = Some (a, b).
Proof.
  induction a as [|c a IH]; cbn.
  - intros _. by rewrite Ascii.eqb_refl.
  - destruct (Ascii.eqb c sep); [done|]. cbn. intros H. by rewrite (IH H).
Qed.

Lemma split_once_none sep s : str_forall (fun c => negb (Ascii.eqb c sep)) s = true -> split_once sep s = None.
Proof. induction s as [|c s IH]; cbn; [done|]. destruct (Ascii.eqb c sep); [done|]. cbn. intros Hs. by rewrite (IH Hs). Qed.

Lemma split_on_nonempty sep s : split_on sep s <> [].
Proof. destruct s as [|c s]; cbn; [done|]. destruct (Ascii.eqb c sep); [done|]. by destruct (split_on sep s). Qed.

Lemma split_on_app sep a b : split_on sep (a +:+ String sep b) = (split_on sep a ++ split_on sep b)%list.
Proof.
  induction a as [|c a IH]; cbn [String.append split_on].
  - by rewrite Ascii.eqb_refl.
  - rewrite IH. destruct (Ascii.eqb c sep); [done|]. pose proof (split_on_nonempty sep a).
    by destruct (split_on sep a).
Qed.

Lemma split_on_single sep s : str_forall (fun c => negb (Ascii.eqb c sep)) s = true -> split_on sep s = [s].
Proof. induction s as [|c s IH]; cbn; [done|]. destruct (Ascii.eqb c sep); [done|]. cbn. intros Hs. by rewrite (IH Hs). Qed.

Lemma to_ascii_lowercase_app a b :
  to_ascii_lowercase (a +:+ b) = to_ascii_lowercase a +:+ to_ascii_lowercase b.
Proof. unfold to_ascii_lowercase. induction a as [|c a IH]; [done|]. simpl. by rewrite IH. Qed.

Lemma lower_ascii_idem c : lower_ascii (lower_ascii c) = lower_ascii c.
Proof. destruct c as [[] [] [] [] [] [] [] []]; reflexivity. Qed.

Lemma to_ascii_lowercase_idem s : to_ascii_lowercase (to_ascii_lowercase s) = to_ascii_lowercase s.
Proof.
  unfold to_ascii_lowercase. induction s as [|c s IH]; [done|]. simpl. by rewrite IH, lower_ascii_idem.
Qed.

Lemma str_forall_app p a b : str_forall p (a +:+ b) = str_forall p a && str_forall p b.
Proof. induction a as [|c a IH]; [done|]. simpl. by rewrite IH, andb_assoc. Qed.

Lemma str_drop_app a b : str_drop (String.length a) (a +:+ b) = b.
Proof. induction a as [|c a IH]; [by destruct b|]. done. Qed.

Lemma str_take_app a b : str_take (String.length a) (a +:+ b) = a.
Proof. induction a as [|c a IH]; [by destruct b|]. simpl. by rewrite IH. Qed.

Lemma str_take_all n s : (String.length s <= n)%nat -> str_take n s = s.
Proof. revert n. induction s as [|c s IH]; intros [|n] H; cbn in *; [done|done|lia|]. f_equal. apply IH. lia. Qed.
Lemma str_take_app_le n a b : (n <= String.length a)%nat -> str_take n (a +:+ b) = str_take n a.
Proof. revert n. induction a as [|c a IH]; intros [|n] H; cbn in *; [by destruct b|lia|done|]. f_equal. apply IH. lia. Qed.
Lemma str_take_app_ge n a b : (String.length a <= n)%nat -> str_take n (a +:+ b) = a +:+ str_take (n - String.length a) b.
Proof. revert n. induction a as [|c a IH]; intros [|n] H; cbn in *; [by destruct b|done|lia|]. f_equal. apply IH. lia. Qed.

Lemma str_take_drop n s : str_take n s +:+ str_drop n s = s.
Proof. revert n. induction s as [|c s IH]; intros [|n]; try done. cbn. by rewrite IH. Qed.

Lemma str_take_drop_all s : str_take (String.length s) s = s /\ str_drop (String.length s) s = "".
Proof. induction s as [|c s [IH1 IH2]]; [done|]. cbn. by rewrite IH1, IH2. Qed.
Lemma str_drop_length n s : String.length (str_drop n s) = (String.length s - n)%nat.
Proof.
  revert n. induction s as [|c s IH]; intros [|n]; simpl; try done.
Qed.

Lemma str_take_length n s : String.length (str_take n s) = (n `min` String.length s)%nat.
Proof.
  revert n. induction s as [|c s IH]; intros [|n]; simpl; try done. by rewrite IH.
Qed.

Lemma str_forall_impl (p q : ascii -> bool) s : (forall c, p c = true -> q c = true) -> str_forall p s = true -> str_forall q s = true.
Proof. intros Hpq. induction s as [|c s IH]; cbn; [done|]. intros [Hc Hs]%andb_true_iff. by rewrite (Hpq c Hc), IH. Qed.

Lemma str_drop_forall p n s : str_forall p s = true -> str_forall p (str_drop n s) = true.
Proof.
  revert n. induction s as [|c s IH]; intros [|n] H; simpl in *; try done.
  apply andb_prop in H as [_ H]. by apply IH.
Qed.

Lemma str_take_forall p n s : str_forall p s = true -> str_forall p (str_take n s) = true.
Proof.
  revert n. induction s as [|c s IH]; intros [|n] H; simpl in *; try done.
  apply andb_prop in H as [Hc H]. rewrite Hc. by apply IH.
Qed.

Lemma ascii_not_continuation c : is_ascii_byte c = true -> is_continuation c = false.
Proof.
  unfold is_ascii_byte, is_continuation. rewrite Nat.ltb_lt. intros H.
  destruct (Nat.leb_spec 128 (nat_of_ascii c)); [lia|done].
Qed.

(** ASCII text has one character per byte and a boundary at every offset. *)
Lemma is_ascii_boundary s n : is_ascii s = true -> (n <= String.length s)%nat ->
  is_char_boundary s n = true.
Proof.
  intros Ha Hn. unfold is_char_boundary. rewrite (proj2 (Nat.leb_le _ _) Hn). simpl.
  pose proof (str_drop_forall _ n _ Ha) as Hd. destruct (str_drop n s) as [|c r]; [done|].
  simpl in Hd. apply andb_prop in Hd as [Hc _]. rewrite (ascii_not_continuation _ Hc).
  apply orb_true_r.
Qed.

Lemma strip_any_suffix ps s s' : strip_any ps s = Some s' -> exists p, s = p +:+ s'.
Proof.
  unfold strip_any. induction ps as [|p ps IH]; simpl; [done|]. intros H.
  destruct (strip_prefix p s) as [r|] eqn:E; [|by apply IH].
  injection H as <-. apply strip_prefix_Some in E as ->. eauto.
Qed.

Lemma strip_all_suffix fuel ps s : exists p, s = p +:+ strip_all fuel ps s.
Proof.
  revert s. induction fuel as [|fuel IH]; intros s; simpl; [by exists ""|].
  destruct (strip_any ps s) as [s'|] eqn:E; [|by exists ""].
  apply strip_any_suffix in E as [p ->]. destruct (IH s') as [q Hq].
  exists (p +:+ q). by rewrite str_app_assoc, <- Hq.
Qed.

Lemma str_rev_app_spec s acc : str_rev_app s acc = str_rev s +:+ acc.
Proof.
  unfold str_rev. revert acc. induction s as [|c s IH]; intros acc; [done|]. simpl.
  rewrite IH, (IH (String c "")), str_app_assoc. done.
Qed.

Lemma str_rev_cons c s : str_rev (String c s) = str_rev s +:+ String c "".
Proof. unfold str_rev at 1. simpl. apply str_rev_app_spec. Qed.

Lemma str_rev_append a b : str_rev (a +:+ b) = str_rev b +:+ str_rev a.
Proof.
  induction a as [|c a IH]; simpl; [by rewrite str_app_nil_r|].
  by rewrite !str_rev_cons, IH, str_app_assoc.
Qed.

Lemma str_rev_involutive s : str_rev (str_rev s) = s.
Proof. induction s as [|c s IH]; [done|]. by rewrite str_rev_cons, str_rev_append, IH. Qed.

Lemma str_rev_length s : String.length (str_rev s) = String.length s.
Proof.
  induction s as [|c s IH]; [done|]. rewrite str_rev_cons, str_length_app, IH. simpl. lia.
Qed.

(** [trim] returns a factor of its argument. *)
Lemma trim_factor s : exists p q, s = p +:+ trim s +:+ q.
Proof.
  unfold trim, trim_end, trim_start.
  destruct (strip_all_suffix (String.length s) white_space s) as [p Hp].
  set (t := strip_all _ _ s) in *.
  destruct (strip_all_suffix (String.length t) (str_rev <$> white_space) (str_rev t)) as [q Hq].
  set (u := strip_all _ _ (str_rev t)) in *.
  exists p, (str_rev q). rewrite Hp at 1. f_equal.
  rewrite <- (str_rev_involutive t), Hq, str_rev_append. done.
Qed.

Lemma trim_length s : (String.length (trim s) <= String.length s)%nat.
Proof.
  destruct (trim_factor s) as (p & q & Hs). rewrite Hs at 2. rewrite !str_length_app. lia.
Qed.

Lemma trim_forall p s : str_forall p s = true -> str_forall p (trim s) = true.
Proof.
  destruct (trim_factor s) as (a & b & Hs). rewrite Hs at 1. rewrite !str_forall_app.
  intros H. apply andb_prop in H as [_ H]. by apply andb_prop in H as [H _].
Qed.

(** A string is left alone by [trim] when no white space character starts with
    its first byte or ends with its last one. *)
Definition head_differs (c : ascii) (p : string) : bool :=
  match p with String d _ => negb (Ascii.eqb d c) | EmptyString => false end.
Definition is_plain (c : ascii) : bool :=
  forallb (head_differs c) white_space && forallb (head_differs c) (str_rev <$> white_space).

Lemma strip_any_plain ps c s : forallb (head_differs c) ps = true -> strip_any ps (String c s) = None.
Proof.
  unfold strip_any. induction ps as [|p ps IH]; [done|]. cbn [forallb fold_right]. intros H.
  apply andb_prop in H as [Hp H]. rewrite IH by done. destruct p as [|d p]; [done|]. simpl in *.
  by destruct (Ascii.eqb d c).
Qed.

Lemma strip_all_plain fuel ps c s : forallb (head_differs c) ps = true ->
  strip_all fuel ps (String c s) = String c s.
Proof. intros H. destruct fuel; [done|]. simpl. by rewrite strip_any_plain. Qed.

Lemma last_byte_rev s c : last_byte s = Some c -> exists t, str_rev s = String c t.
Proof.
  induction s as [|d s IH]; [done|]. simpl. destruct s as [|e s].
  - intros [= ->]. by exists "".
  - intros H. destruct (IH H) as [t Ht]. exists (t +:+ String d "").
    rewrite str_rev_cons, Ht. done.
Qed.

Lemma last_byte_app a c : last_byte (a +:+ String c "") = Some c.
Proof.
  induction a as [|d a IH]; [done|]. simpl. destruct (a +:+ String c "") eqn:E; [|done].
  by destruct a.
Qed.

Lemma last_byte_some c s : exists d, last_byte (String c s) = Some d.
Proof. revert c. induction s as [|d s IH]; intros c; [by exists c|]. destruct (IH d) as [e He]. by exists e. Qed.

Lemma trim_start_plain c s : is_plain c = true -> trim_start (String c s) = String c s.
Proof. intros H. apply andb_prop in H as [H _]. by apply strip_all_plain. Qed.

Lemma trim_end_plain s c : last_byte s = Some c -> is_plain c = true -> trim_end s = s.
Proof.
  intros Hl H. apply andb_prop in H as [_ H]. unfold trim_end.
  destruct (last_byte_rev s c Hl) as [t Ht]. rewrite Ht, strip_all_plain by done.
  by rewrite <- Ht, str_rev_involutive.
Qed.

Lemma trim_plain c s d : is_plain c = true -> last_byte (String c s) = Some d -> is_plain d = true ->
  trim (String c s) = String c s.
Proof.
  intros Hc Hl Hd. unfold trim. rewrite trim_start_plain by done. by apply (trim_end_plain _ d).
Qed.

Lemma last_byte_forall p s c : str_forall p s = true -> last_byte s = Some c -> p c = true.
Proof.
  induction s as [|d s IH]; [done|]. intros [Hd Hs]%andb_prop. destruct s as [|e s]; [by intros [= <-]|]. apply IH, Hs.
Qed.
Lemma trim_all_plain s : str_forall is_plain s = true -> trim s = s.
Proof.
  destruct s as [|c s]; [done|]. intros Hs. destruct (last_byte_some c s) as [d Hd]. pose proof Hs as [Hc _]%andb_prop.
  apply (trim_plain c s d); [done|done|]. by eapply last_byte_forall.
Qed.
