(* ===== verification/Net.v ===== *)
(** * IP addresses and networks

    The address types of [std::net] and the [ipnetwork] crate, as the interface
    [IpLib]: parsing, printing and containment. *)
From S2P Require Import Prelude RustStr.

Class IpLib := {
  IpAddr : Type;
  IpNetwork : Type;
  parse_addr : string -> option IpAddr; (* [s.parse::<IpAddr>().ok()] *)
  show_addr : IpAddr -> string; (* [ip.to_string()] *)
  parse_network : string -> option IpNetwork; (* [s.parse::<IpNetwork>().ok()] *)
  single_host : IpAddr -> option IpNetwork; (* the /32 or /128 network *)
  network_contains : IpNetwork -> IpAddr -> bool;
}.

(** Printed addresses: they parse back, and neither [trim] nor splitting at
    commas changes them. *)
Class IpLaws `{IpLib} := {
  parse_show : forall a, parse_addr (show_addr a) = Some a;
  show_trimmed : forall a, trim (" " +:+ show_addr a) = show_addr a /\ trim (show_addr a) = show_addr a;
  show_visible : forall a, str_forall visible_byte (show_addr a) = true;
  show_no_comma : forall a, str_forall (fun c => negb (Ascii.eqb c ",")) (show_addr a) = true;
}.

(** Two hosts, for concrete runs; the network [None] is everything. *)
Definition two_hosts : IpLib :=
  {| IpAddr := bool;
     IpNetwork := option bool;
     parse_addr s := if decide (s = "10.0.0.1") then Some true else if decide (s = "192.168.1.1") then Some false else None;
     show_addr a := if a : bool then "10.0.0.1" else "192.168.1.1";
     parse_network s := if decide (s = "0.0.0.0/0") then Some None else None;
     single_host a := Some (Some a);
     network_contains n a := match n with None => true | Some b => Bool.eqb a b end |}.

#[export] Instance two_hosts_laws : @IpLaws two_hosts.
Proof. split; intros []; (split || idtac); vm_compute; reflexivity. Qed.
