(* ===== verification/Order.v ===== *)
(** * The stable sort by descending priority

    [routes.sort_by(|a, b| b.priority.cmp(&a.priority))], used by the HTTP, TCP
    and UDP routers: elements of equal priority keep their order. *)
From Stdlib Require Import Sorting.Sorted.
From S2P Require Import Prelude.
From stdpp Require Import list.
Open Scope Z_scope.
Open Scope list_scope.

Section Order.
Context {A : Type} (prio : A -> Z).

(** [x] stands before [l] in the input. *)
Fixpoint insert_desc (x : A) (l : list A) : list A :=
  match l with
  | [] => [x]
  | y :: l' => if prio x <? prio y then y :: insert_desc x l' else x :: l
  end.
Definition sort_desc (l : list A) : list A := foldr insert_desc [] l.

Definition descending (l : list A) : Prop := StronglySorted (fun a b => prio b <= prio a) l.

Lemma insert_desc_elem x l y : y ∈ insert_desc x l <-> y = x \/ y ∈ l.
Proof.
  induction l as [|z l IH]; cbn [insert_desc]; [by rewrite elem_of_cons|].
  destruct (_ <? _); rewrite !elem_of_cons; [rewrite IH|]; tauto.
Qed.

Lemma sort_desc_elem l x : x ∈ sort_desc l <-> x ∈ l.
Proof.
  induction l as [|y l IH]; [done|]. change (sort_desc (y :: l)) with (insert_desc y (sort_desc l)).
  by rewrite insert_desc_elem, IH, elem_of_cons.
Qed.

Lemma insert_desc_sorted x l : descending l -> descending (insert_desc x l).
Proof.
  unfold descending. induction 1 as [|y l Hl IH Hy]; cbn [insert_desc]; [by repeat constructor|].
  destruct (Z.ltb_spec (prio x) (prio y)) as [H|H].
  - constructor; [done|]. apply Forall_forall. intros z [->|Hz]%insert_desc_elem; [lia|].
    rewrite Forall_forall in Hy. by apply Hy.
  - constructor; [by constructor|]. constructor; [done|]. eapply Forall_impl; [exact Hy|]. simpl. intros. lia.
Qed.

Lemma sort_desc_sorted l : descending (sort_desc l).
Proof. induction l as [|x l IH]; [constructor|]. by apply insert_desc_sorted. Qed.

(** Equal priorities keep the order of the input. *)
Lemma sort_desc_stable p l : filter (fun x => prio x = p) (sort_desc l) = filter (fun x => prio x = p) l.
Proof.
  induction l as [|x l IH]; [done|]. change (sort_desc (x :: l)) with (insert_desc x (sort_desc l)).
  rewrite filter_cons, <- IH. generalize (sort_desc_sorted l). clear IH.
  induction (sort_desc l) as [|y l' IH]; intros Hs; cbn [insert_desc]; [by rewrite filter_cons, filter_nil|].
  inversion_clear Hs as [|? ? Hs' Hy].
  destruct (Z.ltb_spec (prio x) (prio y)) as [H|H]; [|by rewrite (filter_cons _ x)].
  rewrite (filter_cons _ y), (filter_cons _ y l'), IH by done. destruct (decide (prio x = p)), (decide (prio y = p)); try done. lia.
Qed.

(** The first accepted element of a sorted list has the highest priority. *)
Lemma find_descending (ok : A -> bool) l : descending l ->
  match find ok l with
  | Some x => x ∈ l /\ ok x = true /\ forall y, y ∈ l -> ok y = true -> prio y <= prio x
  | None => forall y, y ∈ l -> ok y = false
  end.
Proof.
  induction 1 as [|x l Hl IH Hx]; cbn [find]; [by intros y []%elem_of_nil|]. rewrite Forall_forall in Hx.
  destruct (ok x) eqn:E.
  - split; [left|]. split; [done|]. intros y [->|Hy]%elem_of_cons _; [lia|]. by apply Hx.
  - destruct (find ok l) as [z|].
    + destruct IH as (Hz & Hok & Hmax). split; [by right|]. split; [done|].
      intros y [->|Hy]%elem_of_cons Hyok; [congruence|by apply Hmax].
    + intros y [->|Hy]%elem_of_cons; [done|by apply IH].
Qed.
End Order.
