(* ===== verification/Rule.v ===== *)
(** * Routing rules: AST, evaluation and the recursive-descent parser

    Models src/src/router/rule.rs. Regular expressions and the header map are
    third-party ([regex], [hyper]): they are the parameters [RegexLib] and
    [HttpLib]. The recursive parser takes fuel; [parse_fuel] of it is proved to
    be always enough. Parser loops count parentheses in [i32]; inputs shorter
    than 2 GiB cannot overflow it, so the depth is an integer here. *)
From S2P Require Import Prelude RustStr.

Class RegexLib := {
  Regex : Type;
  regex_new : string -> string + Regex; (* inl: the error *)
  is_match : Regex -> string -> bool;
}.

Class HttpLib := {
  HeaderMap : Type;
  HeaderValue : Type;
  hm_get : HeaderMap -> string -> option HeaderValue;
  hv_to_str : HeaderValue -> option string; (* [to_str().ok()] *)
}.

Inductive RuleParseError :=
| InvalidSyntax (s : string)
| InvalidRegex (e : string)
| UnknownFunction (s : string).

(** ** Query strings *)
Definition is_hexdigit (c : ascii) : bool :=
  let n := nat_of_ascii c in
  ((48 <=? n) && (n <=? 57) || (65 <=? n) && (n <=? 70) || (97 <=? n) && (n <=? 102))%nat.

Definition hex_val (c : ascii) : nat :=
  let n := nat_of_ascii c in
  if (n <=? 57)%nat then (n - 48)%nat else if (n <=? 70)%nat then (n - 55)%nat else (n - 87)%nat.

(** [result.push(byte as char)]: a byte above 127 becomes the two-byte encoding
    of the Latin-1 character with that code. *)
Definition push_latin1 (n : nat) (rest : string) : string :=
  if (n <? 128)%nat then String (ascii_of_nat n) rest
  else String (ascii_of_nat (192 + n / 64)) (String (ascii_of_nat (128 + n mod 64)) rest).

Fixpoint url_decode (s : string) : string :=
  match s with
  | EmptyString => EmptyString
  | String c s' =>
      if Ascii.eqb c "%" then
        match s' with
        | String h1 ((String h2 tl) as s1) =>
            if is_hexdigit h1 then
              if is_hexdigit h2 then push_latin1 (16 * hex_val h1 + hex_val h2) (url_decode tl)
              else String "%" (String h1 (url_decode s1))
            else String "%" (url_decode s')
        | String h1 EmptyString =>
            if is_hexdigit h1 then String "%" (String h1 EmptyString)
            else String "%" (url_decode s')
        | EmptyString => String "%" EmptyString
        end
      else if Ascii.eqb c "+" then String " " (url_decode s')
      else String c (url_decode s')
  end.

(** [pair.splitn(2, '=')] with both parts present is [split_once]. *)
Definition query_param_matches (query key expected : string) : bool :=
  existsb (fun pair =>
    match split_once "=" pair with
    | Some (k, v) => bool_decide (url_decode k = key) && bool_decide (url_decode v = expected)
    | None => false
    end) (split_on "&" query).

Section Rules.
Context `{RL : RegexLib} `{HL : HttpLib}.

Inductive Rule :=
| RHost (h : string)
| RHostRegex (re : Regex)
| RPath (p : string)
| RPathPrefix (p : string)
| RPathRegex (re : Regex)
| RHeader (name value : string)
| RHeaderRegex (name : string) (re : Regex)
| RQuery (key value : string)
| RMethod (m : string)
| RAnd (a b : Rule)
| ROr (a b : Rule)
| RNot (r : Rule).

(** The request attributes [matches] is called with. *)
Record Attrs := {
  a_host : option string;
  a_path : string;
  a_query : option string;
  a_method : option string;
  a_headers : HeaderMap;
}.

Definition map_or_false {A} (o : option A) (f : A -> bool) : bool :=
  match o with Some a => f a | None => false end.

Definition header_str (hs : HeaderMap) (n : string) : option string :=
  v ← hm_get hs n; hv_to_str v.

Fixpoint matches (r : Rule) (q : Attrs) : bool :=
  match r with
  | RHost expected => map_or_false (a_host q) (fun h => eq_ignore_ascii_case h expected)
  | RHostRegex re => map_or_false (a_host q) (is_match re)
  | RPath expected => bool_decide (a_path q = expected)
  | RPathPrefix prefix => starts_with prefix (a_path q)
  | RPathRegex re => is_match re (a_path q)
  | RHeader n v => map_or_false (header_str (a_headers q) n) (fun x => bool_decide (x = v))
  | RHeaderRegex n re => map_or_false (header_str (a_headers q) n) (is_match re)
  | RQuery k v => map_or_false (a_query q) (fun s => query_param_matches s k v)
  | RMethod m => map_or_false (a_method q) (fun x => eq_ignore_ascii_case x m)
  | RAnd a b => matches a q && matches b q
  | ROr a b => matches a q || matches b q
  | RNot r => negb (matches r q)
  end.

Fixpoint extract_hosts (r : Rule) : list string :=
  match r with
  | RHost h => [h]
  | RAnd a b => extract_hosts a ++ extract_hosts b
  | _ => []
  end.

(** ** Parser *)
Definition bq : ascii := "`".

Fixpoint parse_args_loop (s : string) (in_backtick : bool) (current : string) (args : list string)
    : list string :=
  match s with
  | EmptyString => args
  | String c s' =>
      if Ascii.eqb c bq then
        if in_backtick then parse_args_loop s' false EmptyString (args ++ [current])
        else parse_args_loop s' true current args
      else if in_backtick then parse_args_loop s' in_backtick (current +:+ String c EmptyString) args
      else parse_args_loop s' in_backtick current args
  end.
Definition parse_args (s : string) : list string := parse_args_loop s false EmptyString [].

Fixpoint find_op_loop (input op : string) (cs : list ascii) (i : nat) (depth : Z) (in_backtick : bool)
    : result RuleParseError (option nat) :=
  match cs with
  | [] => Ok None
  | c :: cs' =>
      if Ascii.eqb c bq then find_op_loop input op cs' (S i) depth (negb in_backtick)
      else if Ascii.eqb c "(" && negb in_backtick then find_op_loop input op cs' (S i) (depth + 1) in_backtick
      else if Ascii.eqb c ")" && negb in_backtick then find_op_loop input op cs' (S i) (depth - 1) in_backtick
      else if negb in_backtick && (depth =? 0) then
        res_bind (slice_from input i) (fun rest =>
          if starts_with op rest then Ok (Some i)
          else find_op_loop input op cs' (S i) depth in_backtick)
      else find_op_loop input op cs' (S i) depth in_backtick
  end.
Definition find_operator (input op : string) : result RuleParseError (option nat) :=
  find_op_loop input op (lead_bytes input) 0 0 false.

Definition regex_arg (pattern : string) (k : Regex -> Rule) : result RuleParseError Rule :=
  match regex_new pattern with
  | inr re => Ok (k re)
  | inl e => Err (InvalidRegex e)
  end.

(** The matcher function named [func] applied to its arguments. *)
Definition build (func : string) (args : list string) : result RuleParseError Rule :=
  let first (msg : string) (k : string -> result RuleParseError Rule) :=
    match args with a :: _ => k a | [] => Err (InvalidSyntax msg) end in
  let two (msg : string) (k : string -> string -> result RuleParseError Rule) :=
    match args with [a; b] => k a b | _ => Err (InvalidSyntax msg) end in
  if bool_decide (func = "Host") then
    first "Host requires an argument" (fun a => Ok (RHost a))
  else if bool_decide (func = "HostRegexp") then
    first "HostRegexp requires an argument" (fun a => regex_arg a RHostRegex)
  else if bool_decide (func = "Path") then
    first "Path requires an argument" (fun a => Ok (RPath a))
  else if bool_decide (func = "PathPrefix") then
    first "PathPrefix requires an argument" (fun a => Ok (RPathPrefix a))
  else if bool_decide (func = "PathRegexp") then
    first "PathRegexp requires an argument" (fun a => regex_arg a RPathRegex)
  else if bool_decide (func = "Header") then
    two "Header requires two arguments" (fun a b => Ok (RHeader a b))
  else if bool_decide (func = "HeaderRegexp") then
    two "HeaderRegexp requires two arguments" (fun a b => regex_arg b (RHeaderRegex a))
  else if bool_decide (func = "Method") then
    first "Method requires an argument" (fun a => Ok (RMethod a))
  else if bool_decide (func = "Query") then
    two "Query requires two arguments" (fun a b => Ok (RQuery a b))
  else Err (UnknownFunction func).

Definition parse_function (input : string) : result RuleParseError Rule :=
  let input := trim input in
  match find_byte "(" input with
  | None => Err (InvalidSyntax input)
  | Some paren_start =>
      let func_name := str_take paren_start input in
      if ends_with_byte ")" input then
        let args_str := str_take (String.length input - 1 - (paren_start + 1))
                          (str_drop (paren_start + 1) input) in
        build func_name (parse_args args_str)
      else Err (InvalidSyntax input)
  end.

(** Outcomes of the recursive part: [None] when the fuel runs out. *)
Definition pres := option (result RuleParseError Rule).
Definition pbind {A} (r : result RuleParseError A) (k : A -> pres) : pres :=
  match r with Ok a => k a | Err e => Some (Err e) | Panic => Some Panic end.
Definition pbind2 (m : pres) (k : Rule -> pres) : pres :=
  match m with Some r => pbind r k | None => None end.

Fixpoint parse_or (fuel : nat) (input : string) : pres :=
  match fuel with
  | O => None
  | S fuel' =>
      pbind (find_operator input "||") (fun o =>
        match o with
        | Some pos =>
            pbind (slice_to input pos) (fun l =>
            pbind2 (parse_or fuel' l) (fun left =>
            pbind (slice_from input (pos + 2)) (fun r =>
            pbind2 (parse_or fuel' r) (fun right => Some (Ok (ROr left right))))))
        | None => parse_and fuel' input
        end)
  end
with parse_and (fuel : nat) (input : string) : pres :=
  match fuel with
  | O => None
  | S fuel' =>
      pbind (find_operator input "&&") (fun o =>
        match o with
        | Some pos =>
            pbind (slice_to input pos) (fun l =>
            pbind2 (parse_and fuel' l) (fun left =>
            pbind (slice_from input (pos + 2)) (fun r =>
            pbind2 (parse_and fuel' r) (fun right => Some (Ok (RAnd left right))))))
        | None => parse_unary fuel' input
        end)
  end
with parse_unary (fuel : nat) (input : string) : pres :=
  match fuel with
  | O => None
  | S fuel' =>
      let input := trim input in
      match strip_prefix "!" input with
      | Some rest => pbind2 (parse_unary fuel' rest) (fun inner => Some (Ok (RNot inner)))
      | None => parse_primary fuel' input
      end
  end
with parse_primary (fuel : nat) (input : string) : pres :=
  match fuel with
  | O => None
  | S fuel' =>
      let input := trim input in
      if starts_with "(" input && ends_with_byte ")" input
      then parse_or fuel' (str_take (String.length input - 2) (str_drop 1 input))
      else Some (parse_function input)
  end.

(** Enough for any input: at most four calls per byte consumed. *)
Definition parse_fuel (input : string) : nat := (4 * String.length input + 4)%nat.

Definition parse (input : string) : pres :=
  let input := trim input in parse_or (parse_fuel input) input.
End Rules.

(** Headers as an association list of texts, for concrete runs. *)
Definition list_http : HttpLib := {|
  HeaderMap := list (string * string);
  HeaderValue := string;
  hm_get := fun m k => snd <$> find (fun e => bool_decide (fst e = k)) m;
  hv_to_str := Some |}.
