(* ===== verification/RuleProofs.v ===== *)
(** * Routing rules: the parser is total, and prints parse back

    Totality of the recursive-descent parser (the fuel of [parse] is enough on
    every input), absence of aborts on ASCII input, and the round trip from a
    printed rule. *)
From S2P Require Import Prelude RustStr Rule.

Section Total.
Context `{RL : RegexLib}.

Lemma is_char_boundary_le s n : is_char_boundary s n = true -> (n <= String.length s)%nat.
Proof. intros H. apply andb_prop in H as [H _]. by apply Nat.leb_le. Qed.

Lemma slice_from_Ok {E} s n r : @slice_from E s n = Ok r -> r = str_drop n s /\ (n <= String.length s)%nat.
Proof.
  unfold slice_from. destruct (is_char_boundary s n) eqn:B; [|done]. intros [= <-].
  split; [done|]. by apply is_char_boundary_le.
Qed.

Lemma slice_to_Ok {E} s n r : @slice_to E s n = Ok r -> r = str_take n s /\ (n <= String.length s)%nat.
Proof.
  unfold slice_to. destruct (is_char_boundary s n) eqn:B; [|done]. intros [= <-].
  split; [done|]. by apply is_char_boundary_le.
Qed.

Lemma slice_not_Err {E} s n e : @slice_from E s n <> Err e /\ @slice_to E s n <> Err e.
Proof. unfold slice_from, slice_to. by destruct (is_char_boundary s n). Qed.

(** A found operator lies inside the input. *)
Lemma find_op_loop_Some input op cs : forall i depth bt pos,
  find_op_loop input op cs i depth bt = Ok (Some pos) ->
  (pos <= String.length input)%nat /\ starts_with op (str_drop pos input) = true.
Proof.
  induction cs as [|c cs IH]; intros i depth bt pos; cbn [find_op_loop]; [done|].
  destruct (Ascii.eqb c bq); [apply IH|].
  destruct (_ && _); [apply IH|]. destruct (_ && _); [apply IH|].
  destruct (_ && _); [|apply IH].
  destruct (slice_from input i) as [r| |] eqn:E; cbn [res_bind]; [|done|done].
  apply slice_from_Ok in E as [-> Hi].
  destruct (starts_with op (str_drop i input)) eqn:E; [|apply IH]. by intros [= <-].
Qed.

Lemma find_operator_Some input op pos : find_operator input op = Ok (Some pos) ->
  (pos + String.length op <= String.length input)%nat.
Proof.
  intros H. apply find_op_loop_Some in H as [Hp Hs]. apply starts_with_spec in Hs as [r Hr].
  apply (f_equal String.length) in Hr. rewrite str_drop_length, str_length_app in Hr. lia.
Qed.

Lemma find_op_loop_not_Err input op cs : forall i depth bt e,
  find_op_loop input op cs i depth bt <> Err e.
Proof.
  induction cs as [|c cs IH]; intros i depth bt e; cbn [find_op_loop]; [done|].
  destruct (Ascii.eqb c bq); [apply IH|].
  destruct (_ && _); [apply IH|]. destruct (_ && _); [apply IH|].
  destruct (_ && _); [|apply IH].
  destruct (slice_from input i) as [r| |] eqn:E; cbn [res_bind]; [|by apply slice_not_Err in E|done].
  destruct (starts_with _ _); [done|apply IH].
Qed.

(** On ASCII input characters and bytes coincide, so no slice aborts. *)
Lemma lead_bytes_length s : (length (lead_bytes s) <= String.length s)%nat.
Proof. induction s as [|c s IH]; simpl; [lia|]. destruct (is_continuation c); simpl; lia. Qed.

Lemma find_op_loop_ascii input op cs : is_ascii input = true -> forall i depth bt,
  (i + length cs <= String.length input)%nat -> find_op_loop input op cs i depth bt <> Panic.
Proof.
  intros Ha. induction cs as [|c cs IH]; intros i depth bt Hi; cbn [find_op_loop]; [done|].
  cbn [length] in Hi.
  destruct (Ascii.eqb c bq); [apply IH; lia|].
  destruct (_ && _); [apply IH; lia|]. destruct (_ && _); [apply IH; lia|].
  destruct (_ && _); [|apply IH; lia].
  unfold slice_from. rewrite is_ascii_boundary by (done || lia). cbn [res_bind].
  destruct (starts_with _ _); [done|apply IH; lia].
Qed.

Lemma find_operator_ascii input op : is_ascii input = true -> find_operator input op <> Panic.
Proof.
  intros Ha. apply find_op_loop_ascii; [done|]. pose proof (lead_bytes_length input). lia.
Qed.

(** What the four mutually recursive functions guarantee with enough fuel. *)
Definition settles (input : string) (m : pres) : Prop :=
  exists r, m = Some r /\ (is_ascii input = true -> r <> Panic).

(** The shared shape of [parse_or] and [parse_and]: split at the operator and
    recurse on the two parts, or fall through to the next level. *)
Lemma binary_settles input op (rec below : string -> pres) mk :
  String.length op = 2%nat ->
  (forall s, (String.length s + 2 <= String.length input)%nat -> settles s (rec s)) ->
  settles input (below input) ->
  settles input
    (pbind (find_operator input op) (fun o =>
        match o with
        | Some pos =>
            pbind (slice_to input pos) (fun l =>
            pbind2 (rec l) (fun left =>
            pbind (slice_from input (pos + 2)) (fun r =>
            pbind2 (rec r) (fun right => Some (Ok (mk left right))))))
        | None => below input
        end)).
Proof.
  intros Hop Hrec Hbelow. destruct (find_operator input op) as [[pos|]| |] eqn:E; cbn [pbind].
  - pose proof (find_operator_Some _ _ _ E) as Hpos. rewrite Hop in Hpos.
    destruct (slice_to input pos) as [l|e|] eqn:El; cbn [pbind].
    + apply slice_to_Ok in El as [-> _].
      assert (Hl : (String.length (str_take pos input) + 2 <= String.length input)%nat)
        by (rewrite str_take_length; lia).
      destruct (Hrec _ Hl) as (rl & Hrl & Pl). rewrite Hrl. cbn [pbind2].
      destruct rl as [left|e|]; cbn [pbind].
      * destruct (slice_from input (pos + 2)) as [r|e|] eqn:Er; cbn [pbind].
        -- apply slice_from_Ok in Er as [-> _].
           assert (Hr : (String.length (str_drop (pos + 2) input) + 2 <= String.length input)%nat)
             by (rewrite str_drop_length; lia).
           destruct (Hrec _ Hr) as (rr & Hrr & Pr). rewrite Hrr. cbn [pbind2].
           destruct rr as [right|e|]; cbn [pbind]; eexists; (split; [reflexivity|]); try done.
           intros Ha. by apply Pr, str_drop_forall.
        -- by apply slice_not_Err in Er.
        -- eexists. split; [reflexivity|]. intros Ha. unfold slice_from in Er.
           rewrite is_ascii_boundary in Er by (done || lia). done.
      * eexists. split; [reflexivity|done].
      * eexists. split; [reflexivity|]. intros Ha. by apply Pl, str_take_forall.
    + by apply slice_not_Err in El.
    + eexists. split; [reflexivity|]. intros Ha. unfold slice_to in El.
      rewrite is_ascii_boundary in El by (done || lia). done.
  - done.
  - by apply find_op_loop_not_Err in E.
  - eexists. split; [reflexivity|]. intros Ha. by apply (find_operator_ascii _ op) in Ha.
Qed.

Lemma build_not_Panic f args : build f args <> Panic.
Proof.
  unfold build, regex_arg.
  repeat match goal with
  | |- context [if bool_decide ?P then _ else _] => destruct (bool_decide P)
  end; repeat case_match; done.
Qed.

Lemma parse_function_not_Panic s : parse_function s <> Panic.
Proof.
  unfold parse_function. destruct (find_byte _ _); [|done].
  destruct (ends_with_byte _ _); [apply build_not_Panic|done].
Qed.

Lemma last_byte_length c s : ends_with_byte c s = true -> (1 <= String.length s)%nat.
Proof. destruct s; [done|]. simpl. lia. Qed.

Lemma parse_settles fuel : forall input,
  ((4 * String.length input + 4 <= fuel)%nat -> settles input (parse_or fuel input)) /\
  ((4 * String.length input + 3 <= fuel)%nat -> settles input (parse_and fuel input)) /\
  ((4 * String.length input + 2 <= fuel)%nat -> settles input (parse_unary fuel input)) /\
  ((4 * String.length input + 1 <= fuel)%nat -> settles input (parse_primary fuel input)).
Proof.
  induction fuel as [|fuel IH]; intros input; [repeat split; lia|].
  pose proof (trim_length input) as Ht.
  split; [|split; [|split]]; intros Hf; cbn [parse_or parse_and parse_unary parse_primary].
  - apply (binary_settles input "||" (parse_or fuel)); [done| |].
    + intros s Hs. apply (IH s). lia.
    + apply (IH input). lia.
  - apply (binary_settles input "&&" (parse_and fuel)); [done| |].
    + intros s Hs. apply (IH s). lia.
    + apply (IH input). lia.
  - destruct (strip_prefix "!" (trim input)) as [rest|] eqn:E.
    + apply strip_prefix_Some in E. pose proof (f_equal String.length E) as Hl.
      rewrite str_length_app in Hl. simpl in Hl.
      destruct (IH rest) as (_ & _ & Hu & _). destruct Hu as (r & Hr & Pr); [lia|]. rewrite Hr.
      assert (Ha : is_ascii input = true -> is_ascii rest = true).
      { intros Ha. apply trim_forall in Ha. rewrite E in Ha. unfold is_ascii in *.
        rewrite str_forall_app in Ha. by apply andb_prop in Ha as [_ Ha]. }
      destruct r as [inner|e|]; cbn [pbind2 pbind]; eexists; (split; [reflexivity|]); auto; done.
    + destruct (IH (trim input)) as (_ & _ & _ & Hp). destruct Hp as (r & Hr & Pr); [lia|].
      exists r. split; [done|]. intros Ha. by apply Pr, trim_forall.
  - destruct (starts_with "(" (trim input) && ends_with_byte ")" (trim input)) eqn:E.
    + apply andb_prop in E as [Es Ee]. apply starts_with_spec in Es as [r0 Hr0].
      assert (Hlen : (2 <= String.length (trim input))%nat).
      { rewrite Hr0 in *. destruct r0; [done|]. simpl. lia. }
      set (inner := str_take _ _).
      assert (Hin : (String.length inner + 2 <= String.length (trim input))%nat).
      { unfold inner. rewrite str_take_length, str_drop_length. lia. }
      destruct (IH inner) as (Ho & _). destruct Ho as (r & Hr & Pr); [lia|].
      exists r. split; [done|]. intros Ha. apply Pr. by apply str_take_forall, str_drop_forall, trim_forall.
    + eexists. split; [reflexivity|]. intros _. apply parse_function_not_Panic.
Qed.
End Total.

(** C37. The routing-rule parser terminates on every input string (its recursion
    is bounded: the fuel is never exhausted), and it never aborts on ASCII input:
    it returns a rule or a parse error. *)
Theorem rule_parser_total `{RegexLib} (input : string) :
  exists r, parse input = Some r /\ (is_ascii input = true -> r <> Panic).
Proof.
  unfold parse, parse_fuel. destruct (parse_settles (4 * String.length (trim input) + 4) (trim input)) as [Ho _].
  destruct Ho as (r & Hr & Pr); [lia|]. exists r. split; [done|]. intros Ha. by apply Pr, trim_forall.
Qed.

(** ** Round trip: printed rules parse back *)

(** Surface syntax: a call of a matcher function, or a boolean combination. *)
Inductive srule :=
| SCall (f : string) (args : list string)
| SAnd (a b : srule)
| SOr (a b : srule)
| SNot (a : srule).

Definition quoted (a : string) : string := "`" +:+ a +:+ "`".
Fixpoint print_args (args : list string) : string :=
  match args with
  | [] => ""
  | [a] => quoted a
  | a :: args' => quoted a +:+ ", " +:+ print_args args'
  end.
Definition paren (s : string) : string := "(" +:+ s +:+ ")".
Fixpoint print (s : srule) : string :=
  match s with
  | SCall f args => f +:+ paren (print_args args)
  | SAnd a b => paren (print a) +:+ " && " +:+ paren (print b)
  | SOr a b => paren (print a) +:+ " || " +:+ paren (print b)
  | SNot a => "!" +:+ paren (print a)
  end.

Definition is_alnum (c : ascii) : bool :=
  let n := nat_of_ascii c in
  ((48 <=? n) && (n <=? 57) || (65 <=? n) && (n <=? 90) || (97 <=? n) && (n <=? 122))%nat.
Definition not_bq (c : ascii) : bool := negb (Ascii.eqb c bq) && is_ascii_byte c.

(** Function names are alphanumeric, arguments ASCII without back-ticks. *)
Fixpoint good (s : srule) : bool :=
  match s with
  | SCall f args => negb (bool_decide (f = "")) && str_forall is_alnum f && forallb (str_forall not_bq) args
  | SAnd a b | SOr a b => good a && good b
  | SNot a => good a
  end.

(** What the rule means: the left operand is elaborated first. *)
Fixpoint elab `{RegexLib} (s : srule) : result RuleParseError Rule :=
  match s with
  | SCall f args => build f args
  | SAnd a b => res_bind (elab a) (fun x => res_bind (elab b) (fun y => Ok (RAnd x y)))
  | SOr a b => res_bind (elab a) (fun x => res_bind (elab b) (fun y => Ok (ROr x y)))
  | SNot a => res_bind (elab a) (fun x => Ok (RNot x))
  end.

(** [find_operator] on ASCII text, relative to the text still to scan. *)
Fixpoint scan_op (op s : string) (depth : Z) (bt : bool) : option nat :=
  match s with
  | EmptyString => None
  | String c s' =>
      let skip d b := S <$> scan_op op s' d b in
      if Ascii.eqb c bq then skip depth (negb bt)
      else if Ascii.eqb c "(" && negb bt then skip (depth + 1) bt
      else if Ascii.eqb c ")" && negb bt then skip (depth - 1) bt
      else if negb bt && (depth =? 0) && starts_with op s then Some O
      else skip depth bt
  end.

Lemma is_ascii_cons c s : is_ascii (String c s) = is_ascii_byte c && is_ascii s.
Proof. done. Qed.
Lemma is_ascii_app a b : is_ascii (a +:+ b) = is_ascii a && is_ascii b.
Proof. apply str_forall_app. Qed.

Lemma scan_op_correct op rest : forall pre depth bt, is_ascii (pre +:+ rest) = true ->
  find_op_loop (pre +:+ rest) op (lead_bytes rest) (String.length pre) depth bt =
    Ok ((fun k => (String.length pre + k)%nat) <$> scan_op op rest depth bt).
Proof.
  induction rest as [|c rest IH]; intros pre depth bt Ha; [done|].
  assert (Hc : is_ascii_byte c = true).
  { rewrite is_ascii_app, is_ascii_cons in Ha. by apply andb_prop in Ha as [_ [Ha _]%andb_prop]. }
  pose proof (IH (pre +:+ String c "")) as IH'. rewrite str_app_assoc, str_length_app in IH'. simpl in IH'.
  replace (String.length pre + 1)%nat with (S (String.length pre)) in IH' by lia.
  assert (Hskip : forall d b, find_op_loop (pre +:+ String c rest) op (lead_bytes rest) (S (String.length pre)) d b =
    Ok ((fun k => (String.length pre + k)%nat) <$> (S <$> scan_op op rest d b))).
  { intros d b. rewrite IH' by done. destruct (scan_op op rest d b); simpl; [do 2 f_equal; lia|done]. }
  cbn [lead_bytes]. rewrite (ascii_not_continuation _ Hc). cbn [find_op_loop scan_op].
  destruct (Ascii.eqb c bq); [apply Hskip|].
  destruct (Ascii.eqb c "(" && negb bt); [apply Hskip|].
  destruct (Ascii.eqb c ")" && negb bt); [apply Hskip|].
  destruct (negb bt && (depth =? 0)); cbn [andb]; [|apply Hskip].
  unfold slice_from. rewrite is_ascii_boundary; [|done|rewrite str_length_app; lia]. cbn [res_bind].
  rewrite str_drop_app. destruct (starts_with op (String c rest)); [|apply Hskip].
  simpl. do 2 f_equal. lia.
Qed.

Lemma find_operator_scan op s : is_ascii s = true -> find_operator s op = Ok (scan_op op s 0 false).
Proof.
  intros Ha. unfold find_operator.
  transitivity (Ok (E := RuleParseError) ((fun k => (0 + k)%nat) <$> scan_op op s 0 false)).
  - exact (scan_op_correct op s "" 0 false Ha).
  - by destruct (scan_op op s 0 false).
Qed.

(** [t] is skipped by the scan in the given mode. *)
Definition skips (op t : string) (d : Z) (bt : bool) : Prop :=
  forall rest, scan_op op (t +:+ rest) d bt =
    (fun k => (String.length t + k)%nat) <$> scan_op op rest d bt.

Lemma skips_app op a b d bt : skips op a d bt -> skips op b d bt -> skips op (a +:+ b) d bt.
Proof.
  intros Ha Hb rest. rewrite str_app_assoc, Ha, Hb, str_length_app.
  destruct (scan_op op rest d bt); simpl; [f_equal; lia|done].
Qed.

Lemma scan_S {op t d bt rest} : skips op t d bt ->
  scan_op op (t +:+ rest) d bt = (fun k => (String.length t + k)%nat) <$> scan_op op rest d bt.
Proof. intros H. apply H. Qed.

(** Quoted text is skipped whatever it contains. *)
Lemma skips_in_quotes op a d : str_forall not_bq a = true -> skips op a d true.
Proof.
  intros Ha rest. induction a as [|c a IH]; [by simpl; destruct (scan_op op rest d true)|].
  simpl in Ha. apply andb_prop in Ha as [Hc Ha]. apply andb_prop in Hc as [Hc _].
  apply negb_true_iff in Hc. simpl. rewrite Hc, !andb_false_r. simpl. rewrite IH by done.
  by destruct (scan_op op rest d true).
Qed.

Lemma skips_quoted op a d : str_forall not_bq a = true -> skips op (quoted a) d false.
Proof.
  intros Ha rest. unfold quoted. rewrite !str_app_assoc.
  change (scan_op op ("`" +:+ (a +:+ ("`" +:+ rest))) d false) with (S <$> scan_op op (a +:+ ("`" +:+ rest)) d true).
  rewrite (skips_in_quotes op a d Ha).
  change (scan_op op ("`" +:+ rest) d true) with (S <$> scan_op op rest d false).
  rewrite !str_length_app. destruct (scan_op op rest d false); simpl; [f_equal; lia|done].
Qed.

(** Inside parentheses, characters other than parentheses and quotes are
    skipped; at the top level, so are those that cannot start an operator. *)
Definition inert (c : ascii) : bool :=
  negb (Ascii.eqb c bq) && negb (Ascii.eqb c "(") && negb (Ascii.eqb c ")").

Lemma skips_inert op a d : d <> 0 -> str_forall inert a = true -> skips op a d false.
Proof.
  intros Hd Ha rest. induction a as [|c a IH]; [by simpl; destruct (scan_op op rest d false)|].
  simpl in Ha. apply andb_prop in Ha as [Hc Ha]. apply andb_prop in Hc as [Hc Hc3].
  apply andb_prop in Hc as [Hc1 Hc2]. apply negb_true_iff in Hc1, Hc2, Hc3.
  simpl. rewrite Hc1, Hc2, Hc3, (proj2 (Z.eqb_neq d 0) Hd). simpl. rewrite IH by done.
  by destruct (scan_op op rest d false).
Qed.

Lemma skips_top op o op' a : op = String o op' ->
  str_forall (fun c => inert c && negb (Ascii.eqb c o)) a = true -> skips op a 0 false.
Proof.
  intros -> Ha rest. induction a as [|c a IH]; [by simpl; destruct (scan_op _ rest 0 false)|].
  simpl in Ha. apply andb_prop in Ha as [Hc Ha]. apply andb_prop in Hc as [Hc Ho].
  apply andb_prop in Hc as [Hc Hc3]. apply andb_prop in Hc as [Hc1 Hc2].
  apply negb_true_iff in Hc1, Hc2, Hc3, Ho.
  cbn [String.append scan_op]. rewrite Hc1, Hc2, Hc3. unfold starts_with. cbn [strip_prefix].
  rewrite Ascii.eqb_sym, Ho. simpl. rewrite IH by done.
  by destruct (scan_op _ rest 0 false).
Qed.

(** A parenthesised text whose content is skipped at depth one more. *)
Lemma skips_paren op t d : skips op t (d + 1) false -> skips op (paren t) d false.
Proof.
  intros Ht rest. unfold paren. rewrite !str_app_assoc.
  change (scan_op op ("(" +:+ (t +:+ (")" +:+ rest))) d false)
    with (S <$> scan_op op (t +:+ (")" +:+ rest)) (d + 1) false).
  rewrite Ht.
  change (scan_op op (")" +:+ rest) (d + 1) false) with (S <$> scan_op op rest (d + 1 - 1) false).
  replace (d + 1 - 1) with d by lia. rewrite !str_length_app.
  destruct (scan_op op rest d false); simpl; [f_equal; lia|done].
Qed.

Lemma alnum_chars c : is_alnum c = true ->
  inert c = true /\ is_ascii_byte c = true /\ is_plain c = true /\
  Ascii.eqb c "|" = false /\ Ascii.eqb c "&" = false /\ Ascii.eqb c "!" = false /\ Ascii.eqb "(" c = false.
Proof. destruct c as [[] [] [] [] [] [] [] []]; intros H; try discriminate H; repeat split; reflexivity. Qed.

Lemma print_args_skips op args d : d <> 0 -> forallb (str_forall not_bq) args = true ->
  skips op (print_args args) d false.
Proof.
  intros Hd. induction args as [|a args IH]; [intros _; by apply (skips_inert op "" d)|].
  cbn [forallb]. intros [Ha Hargs]%andb_prop. destruct args as [|b args].
  - cbn [print_args]. by apply skips_quoted.
  - change (print_args (a :: b :: args)) with (quoted a +:+ ", " +:+ print_args (b :: args)).
    apply skips_app; [by apply skips_quoted|]. apply skips_app; [by apply skips_inert|]. by apply IH.
Qed.

(** A printed rule is skipped entirely inside parentheses. *)
Lemma print_skips op s : good s = true -> forall d, 0 < d -> skips op (print s) d false.
Proof.
  induction s as [f args|a IHa b IHb|a IHa b IHb|a IHa]; cbn [good print]; intros Hg d Hd.
  - apply andb_prop in Hg as [[_ Hf]%andb_prop Hargs]. apply skips_app.
    + apply skips_inert; [lia|]. eapply str_forall_impl; [|exact Hf]. intros c Hc. apply (alnum_chars c Hc).
    + apply skips_paren, print_args_skips; [lia|done].
  - apply andb_prop in Hg as [Ha Hb]. apply skips_app; [apply skips_paren, IHa; [done|lia]|].
    apply skips_app; [apply skips_inert; [lia|done]|]. apply skips_paren, IHb; [done|lia].
  - apply andb_prop in Hg as [Ha Hb]. apply skips_app; [apply skips_paren, IHa; [done|lia]|].
    apply skips_app; [apply skips_inert; [lia|done]|]. apply skips_paren, IHb; [done|lia].
  - apply skips_app; [apply skips_inert; [lia|done]|]. apply skips_paren, IHa; [done|lia].
Qed.

Lemma print_ascii s : good s = true -> is_ascii (print s) = true.
Proof.
  assert (Hargs : forall args, forallb (str_forall not_bq) args = true -> is_ascii (print_args args) = true).
  { assert (Hq : forall a, str_forall not_bq a = true -> is_ascii (quoted a) = true).
    { intros a Ha. unfold quoted. rewrite !is_ascii_app. simpl. rewrite andb_true_r.
      eapply str_forall_impl; [|exact Ha]. intros c Hc. by apply andb_prop in Hc as [_ Hc]. }
    induction args as [|a args IH]; [done|]. cbn [forallb]. intros [Ha Hr]%andb_prop.
    destruct args as [|b args]; [by apply Hq|].
    change (print_args (a :: b :: args)) with (quoted a +:+ ", " +:+ print_args (b :: args)).
    rewrite !is_ascii_app, Hq, IH by done. done. }
  assert (Hp : forall t, is_ascii (paren t) = is_ascii t).
  { intros t. unfold paren. rewrite !is_ascii_app. simpl. by rewrite andb_true_r. }
  induction s as [f args|a IHa b IHb|a IHa b IHb|a IHa]; cbn [good print]; intros Hg;
    rewrite ?is_ascii_app, ?Hp.
  - apply andb_prop in Hg as [[_ Hf]%andb_prop Hargs']. rewrite Hargs by done.
    rewrite andb_true_r. eapply str_forall_impl; [|exact Hf]. intros c Hc. apply (alnum_chars c Hc).
  - apply andb_prop in Hg as [Ha Hb]. by rewrite IHa, IHb.
  - apply andb_prop in Hg as [Ha Hb]. by rewrite IHa, IHb.
  - by rewrite IHa.
Qed.

Lemma last_byte_paren a t : last_byte (a +:+ paren t) = Some ")"%char.
Proof. unfold paren. rewrite <- !str_app_assoc. apply last_byte_app. Qed.

Lemma trim_paren t : trim (paren t) = paren t.
Proof.
  apply (trim_plain "(" (t +:+ ")") ")"); [reflexivity| |reflexivity].
  exact (last_byte_paren "" t).
Qed.

Lemma trim_paren_r t : trim (paren t +:+ " ") = paren t.
Proof.
  unfold trim. change (paren t +:+ " ") with (String "(" ((t +:+ ")") +:+ " ")).
  rewrite trim_start_plain by reflexivity.
  change (String "(" ((t +:+ ")") +:+ " ")) with (paren t +:+ " ").
  unfold trim_end. rewrite str_rev_append.
  replace (String.length (paren t +:+ " ")) with (S (String.length (paren t)))
    by (rewrite str_length_app; simpl; lia).
  destruct (last_byte_rev (paren t) ")") as [u Hu]; [exact (last_byte_paren "" t)|].
  rewrite Hu. cbn [strip_all].
  change (strip_any (str_rev <$> white_space) (str_rev " " +:+ String ")" u)) with (Some (String ")" u)).
  cbn [strip_all]. rewrite strip_all_plain by reflexivity. by rewrite <- Hu, str_rev_involutive.
Qed.

Lemma trim_paren_l t : trim (" " +:+ paren t) = paren t.
Proof.
  unfold trim, trim_start. cbn [String.append String.length strip_all].
  change (strip_any white_space (String " " (paren t))) with (Some (paren t)).
  cbn [strip_all]. unfold paren at 2. cbn [String.append]. rewrite strip_all_plain by reflexivity.
  change (String "(" (t +:+ ")")) with (paren t).
  apply (trim_end_plain _ ")"); [exact (last_byte_paren "" t)|reflexivity].
Qed.

Section RoundTrip.
Context `{RL : RegexLib}.

Lemma primary_paren f t : parse_primary (S f) (paren t) = parse_or f t.
Proof.
  cbn [parse_primary]. rewrite trim_paren.
  assert (He : ends_with_byte ")" (paren t) = true).
  { unfold ends_with_byte. rewrite (last_byte_paren "" t : last_byte (paren t) = _). done. }
  assert (Hs : starts_with "(" (paren t) = true) by done.
  rewrite He, Hs. simpl andb. cbv iota. f_equal. unfold paren.
  rewrite !str_length_app. cbn [String.length str_drop String.append].
  replace (1 + (String.length t + 1) - 2)%nat with (String.length t) by lia.
  destruct t; apply str_take_app.
Qed.

Lemma unary_paren f u t : trim u = paren t -> parse_unary (S (S f)) u = parse_or f t.
Proof. intros Hu. cbn [parse_unary]. rewrite Hu. cbn [strip_prefix paren String.append]. apply primary_paren. Qed.

Lemma and_paren f u t : is_ascii u = true -> scan_op "&&" u 0 false = None -> trim u = paren t ->
  parse_and (S (S (S f))) u = parse_or f t.
Proof.
  intros Ha Hs Hu. cbn [parse_and]. rewrite find_operator_scan, Hs by done. cbn [pbind].
  by apply unary_paren.
Qed.

Lemma or_paren f u t : is_ascii u = true -> scan_op "||" u 0 false = None ->
  scan_op "&&" u 0 false = None -> trim u = paren t ->
  parse_or (S (S (S (S f)))) u = parse_or f t.
Proof.
  intros Ha Ho Hs Hu. cbn [parse_or]. rewrite find_operator_scan, Ho by done. cbn [pbind].
  by apply and_paren.
Qed.

Lemma parse_args_in a : forall rest cur args, str_forall not_bq a = true ->
  parse_args_loop (a +:+ rest) true cur args = parse_args_loop rest true (cur +:+ a) args.
Proof.
  induction a as [|c a IH]; intros rest cur args Ha; [by rewrite str_app_nil_r|].
  simpl in Ha. apply andb_prop in Ha as [[Hc%negb_true_iff _]%andb_prop Ha].
  simpl. rewrite Hc, IH by done. by rewrite str_app_assoc.
Qed.

Lemma parse_args_print args : forall acc, forallb (str_forall not_bq) args = true ->
  parse_args_loop (print_args args) false "" acc = (acc ++ args)%list.
Proof.
  assert (Hq : forall a rest acc, str_forall not_bq a = true ->
    parse_args_loop (quoted a +:+ rest) false "" acc = parse_args_loop rest false "" (acc ++ [a])).
  { intros a rest acc Ha. unfold quoted. rewrite !str_app_assoc. cbn [String.append parse_args_loop].
    change (Ascii.eqb "`" bq) with true. cbv iota. rewrite parse_args_in by done. done. }
  induction args as [|a args IH]; intros acc; [by rewrite app_nil_r|].
  cbn [forallb]. intros [Ha Hr]%andb_prop. destruct args as [|b args].
  - cbn [print_args]. rewrite <- (str_app_nil_r (quoted a)), Hq by done. done.
  - change (print_args (a :: b :: args)) with (quoted a +:+ ", " +:+ print_args (b :: args)).
    rewrite Hq by done.
    cbn [String.append parse_args_loop]. change (Ascii.eqb "," bq) with false. change (Ascii.eqb " " bq) with false.
    cbv iota. rewrite IH by done. by rewrite <- app_assoc.
Qed.

Lemma find_byte_name f rest : str_forall is_alnum f = true ->
  find_byte "(" (f +:+ String "(" rest) = Some (String.length f).
Proof.
  induction f as [|c f IH]; [done|]. cbn [str_forall String.append find_byte].
  intros [Hc Hf]%andb_prop. destruct (alnum_chars c Hc) as (_ & _ & _ & _ & _ & _ & Hp).
  by rewrite Hp, IH.
Qed.

Lemma function_print f args : f <> "" -> str_forall is_alnum f = true ->
  forallb (str_forall not_bq) args = true ->
  trim (f +:+ paren (print_args args)) = f +:+ paren (print_args args) /\
  parse_function (f +:+ paren (print_args args)) = build f args.
Proof.
  intros Hne Hf Hargs.
  assert (Ht : trim (f +:+ paren (print_args args)) = f +:+ paren (print_args args)).
  { pose proof (last_byte_paren f (print_args args)) as Hl. destruct f as [|c f]; [done|].
    simpl in Hf. apply andb_prop in Hf as [Hc _].
    apply (trim_plain c _ ")"); [apply (alnum_chars c Hc)|exact Hl|reflexivity]. }
  split; [done|]. unfold parse_function. rewrite Ht.
  set (s := f +:+ paren (print_args args)).
  assert (He : ends_with_byte ")" s = true) by (unfold ends_with_byte, s; by rewrite last_byte_paren).
  assert (Hfind : find_byte "(" s = Some (String.length f)) by (apply find_byte_name; done).
  rewrite Hfind, He. unfold s. rewrite str_take_app. f_equal.
  assert (Hd : str_drop (String.length f + 1) (f +:+ paren (print_args args)) = print_args args +:+ ")").
  { unfold paren. rewrite <- str_app_assoc.
    replace (String.length f + 1)%nat with (String.length (f +:+ "(")) by (rewrite str_length_app; done).
    apply str_drop_app. }
  rewrite Hd. unfold paren. rewrite !str_length_app. cbn [String.length].
  replace (String.length f + (1 + (String.length (print_args args) + 1)) - 1 - (String.length f + 1))%nat
    with (String.length (print_args args)) by lia.
  rewrite str_take_app. by apply (parse_args_print args []).
Qed.

Lemma skips_none op t : skips op t 0 false -> scan_op op t 0 false = None.
Proof. intros Ht. rewrite <- (str_app_nil_r t), (Ht ""). done. Qed.

(** The operands of a printed combination. *)
Lemma paren_skips op s : good s = true -> skips op (paren (print s)) 0 false.
Proof. intros Hg. apply skips_paren, print_skips; [done|lia]. Qed.

Lemma paren_ascii t : is_ascii (paren t) = is_ascii t.
Proof. unfold paren. rewrite !is_ascii_app. simpl. by rewrite andb_true_r. Qed.

Lemma operand_l op o op' s : op = String o op' -> Ascii.eqb " " o = false -> good s = true ->
  skips op (paren (print s) +:+ " ") 0 false.
Proof.
  intros Hop Ho Hg. apply skips_app; [by apply paren_skips|].
  apply (skips_top op o op' _ Hop). cbn [str_forall]. by rewrite Ho.
Qed.

Lemma operand_r op o op' s : op = String o op' -> Ascii.eqb " " o = false -> good s = true ->
  skips op (" " +:+ paren (print s)) 0 false.
Proof.
  intros Hop Ho Hg. apply skips_app; [|by apply paren_skips].
  apply (skips_top op o op' _ Hop). cbn [str_forall]. by rewrite Ho.
Qed.

(** Splitting a printed combination at its operator [oo]. *)
Lemma split_print o a b : Ascii.eqb o bq = false -> Ascii.eqb o "(" = false -> Ascii.eqb o ")" = false ->
  Ascii.eqb " " o = false -> is_ascii_byte o = true -> good a = true -> good b = true ->
  let op := String o (String o "") in
  let l := paren (print a) +:+ " " in
  let r := " " +:+ paren (print b) in
  let s := paren (print a) +:+ (" " +:+ op +:+ " ") +:+ paren (print b) in
  s = l +:+ op +:+ r /\ is_ascii s = true /\
  find_operator s op = Ok (Some (String.length l)) /\
  slice_to (E := RuleParseError) s (String.length l) = Ok l /\
  slice_from (E := RuleParseError) s (String.length l + 2) = Ok r.
Proof.
  intros H1 H2 H3 H4 Ho Ha Hb op l r s.
  assert (Hs : s = l +:+ op +:+ r) by (unfold s, l, r; by rewrite !str_app_assoc).
  assert (Hasc : is_ascii s = true).
  { rewrite Hs. unfold l, r, op. rewrite !is_ascii_app, !paren_ascii, !print_ascii by done.
    cbn [is_ascii str_forall]. unfold is_ascii. cbn [str_forall]. by rewrite Ho. }
  split; [done|]. split; [done|]. split; [|split].
  - rewrite find_operator_scan by done. f_equal. rewrite Hs, (operand_l op o (String o "") a) by done.
    assert (H0 : scan_op op (op +:+ r) 0 false = Some O).
    { unfold op. cbn [String.append scan_op]. rewrite H1, H2, H3. unfold starts_with. cbn [strip_prefix].
      by rewrite !Ascii.eqb_refl. }
    rewrite H0. simpl. f_equal. lia.
  - unfold slice_to. rewrite is_ascii_boundary; [|done|rewrite Hs, !str_length_app; lia].
    by rewrite Hs, str_take_app.
  - unfold slice_from. rewrite is_ascii_boundary; [|done|rewrite Hs, !str_length_app; simpl; lia].
    rewrite Hs, <- str_app_assoc.
    replace (String.length l + 2)%nat with (String.length (l +:+ op)) by (rewrite str_length_app; done).
    by rewrite str_drop_app.
Qed.

Lemma paren_length t : String.length (paren t) = (String.length t + 2)%nat.
Proof. unfold paren. rewrite !str_length_app. simpl. lia. Qed.

Lemma no_op_or f u : is_ascii u = true -> skips "||" u 0 false -> parse_or (S f) u = parse_and f u.
Proof. intros Ha Hs. cbn [parse_or]. by rewrite find_operator_scan, skips_none by done. Qed.

Lemma no_op_and f u : is_ascii u = true -> skips "&&" u 0 false -> parse_and (S f) u = parse_unary f u.
Proof. intros Ha Hs. cbn [parse_and]. by rewrite find_operator_scan, skips_none by done. Qed.

Lemma and_step f s pos l r : find_operator s "&&" = Ok (Some pos) ->
  slice_to (E := RuleParseError) s pos = Ok l -> slice_from (E := RuleParseError) s (pos + 2) = Ok r ->
  parse_and (S f) s =
    pbind2 (parse_and f l) (fun x => pbind2 (parse_and f r) (fun y => Some (Ok (RAnd x y)))).
Proof. intros H1 H2 H3. cbn [parse_and]. rewrite H1. cbn [pbind]. rewrite H2, H3. done. Qed.

Lemma or_step f s pos l r : find_operator s "||" = Ok (Some pos) ->
  slice_to (E := RuleParseError) s pos = Ok l -> slice_from (E := RuleParseError) s (pos + 2) = Ok r ->
  parse_or (S f) s =
    pbind2 (parse_or f l) (fun x => pbind2 (parse_or f r) (fun y => Some (Ok (ROr x y)))).
Proof. intros H1 H2 H3. cbn [parse_or]. rewrite H1. cbn [pbind]. rewrite H2, H3. done. Qed.

Lemma unary_bang f t :
  parse_unary (S f) ("!" +:+ paren t) =
    pbind2 (parse_unary f (paren t)) (fun x => Some (Ok (RNot x))).
Proof.
  assert (Ht : trim ("!" +:+ paren t) = "!" +:+ paren t).
  { apply (trim_plain "!" (paren t) ")"); [done|exact (last_byte_paren "!" t)|done]. }
  cbn [parse_unary]. rewrite Ht.
  reflexivity.
Qed.

(** An operand: an ASCII text without top-level operators that trims to a
    parenthesised one. *)
Definition operand (u t : string) : Prop :=
  is_ascii u = true /\ skips "||" u 0 false /\ skips "&&" u 0 false /\ trim u = paren t.

Lemma operand_left s : good s = true -> operand (paren (print s) +:+ " ") (print s).
Proof.
  intros Hg. repeat split; [|by eapply operand_l|by eapply operand_l|apply trim_paren_r].
  by rewrite is_ascii_app, paren_ascii, print_ascii by done.
Qed.

Lemma operand_right s : good s = true -> operand (" " +:+ paren (print s)) (print s).
Proof.
  intros Hg. repeat split; [|by eapply operand_r|by eapply operand_r|apply trim_paren_l].
  by rewrite is_ascii_app, paren_ascii, print_ascii by done.
Qed.

Lemma operand_and f u t : operand u t -> parse_and (S (S (S f))) u = parse_or f t.
Proof. intros (Ha & _ & Hs & Ht). rewrite no_op_and by done. by apply unary_paren. Qed.

Lemma operand_or f u t : operand u t -> parse_or (S (S (S (S f)))) u = parse_or f t.
Proof. intros Hu. pose proof Hu as (Ha & Ho & _ & _). rewrite no_op_or by done. by apply operand_and. Qed.

Lemma call_prints f args n : good (SCall f args) = true -> (4 <= n)%nat ->
  parse_or n (print (SCall f args)) = Some (build f args).
Proof.
  intros Hg Hn. pose proof (print_ascii _ Hg) as Hasc. revert Hg Hasc. cbn [good print].
  intros [[Hne Hf]%andb_prop Hargs]%andb_prop Hasc. apply negb_true_iff, bool_decide_eq_false in Hne.
  destruct (function_print f args Hne Hf Hargs) as [Htrim Hfun].
  assert (Hskip : forall o, Ascii.eqb o "|" || Ascii.eqb o "&" = true ->
    skips (String o (String o "")) (f +:+ paren (print_args args)) 0 false).
  { intros o Ho. apply skips_app; [|by apply skips_paren, print_args_skips].
    apply (skips_top _ o (String o "") _ eq_refl). eapply str_forall_impl; [|exact Hf].
    intros c Hc. destruct (alnum_chars c Hc) as (H1 & _ & _ & H2 & H3 & _). rewrite H1.
    apply orb_prop in Ho as [->%Ascii.eqb_eq| ->%Ascii.eqb_eq]; [by rewrite H2|by rewrite H3]. }
  destruct n as [|[|[|[|n]]]]; [lia|lia|lia|lia|].
  rewrite no_op_or, no_op_and by (done || by apply Hskip).
  cbn [parse_unary]. rewrite Htrim. destruct f as [|c f]; [done|].
  simpl in Hf. apply andb_prop in Hf as [Hc _].
  destruct (alnum_chars c Hc) as (_ & _ & _ & _ & _ & H1 & H2).
  cbn [String.append strip_prefix]. rewrite (Ascii.eqb_sym "!" c), H1.
  cbn [parse_primary]. change (String c (f +:+ paren (print_args args))) with (String c f +:+ paren (print_args args)).
  rewrite Htrim. unfold starts_with. cbn [String.append strip_prefix]. rewrite H2. cbn [andb].
  by rewrite <- Hfun.
Qed.

Lemma parse_or_print s : good s = true -> forall n, (4 * String.length (print s) + 4 <= n)%nat ->
  parse_or n (print s) = Some (elab s).
Proof.
  induction s as [f args|a IHa b IHb|a IHa b IHb|a IHa]; intros Hg n Hn.
  - apply call_prints; [done|lia].
  - cbn [good] in Hg. apply andb_prop in Hg as [Ha Hb].
    destruct (split_print "&" a b) as (_ & Hasc & Hfind & Hto & Hfrom); try done.
    cbn [print] in *. change (" " +:+ "&&" +:+ " ") with " && " in *. rewrite !str_length_app, !paren_length in Hn. simpl String.length in Hn.
    destruct n as [|[|[|[|[|n]]]]]; [lia|lia|lia|lia|lia|].
    rewrite no_op_or; [|done|].
    2:{ apply skips_app; [by apply paren_skips|]. apply skips_app; [|by apply paren_skips]. by eapply skips_top. }
    rewrite (and_step _ _ _ _ _ Hfind Hto Hfrom).
    rewrite (operand_and _ _ (print a)) by (by apply operand_left). rewrite IHa by (done || lia).
    cbn [pbind2 elab]. destruct (elab a); [|done|done]. cbn [pbind res_bind].
    rewrite (operand_and _ _ (print b)) by (by apply operand_right). rewrite IHb by (done || lia).
    cbn [pbind2 elab]. by destruct (elab b).
  - cbn [good] in Hg. apply andb_prop in Hg as [Ha Hb].
    destruct (split_print "|" a b) as (_ & Hasc & Hfind & Hto & Hfrom); try done.
    cbn [print] in *. change (" " +:+ "||" +:+ " ") with " || " in *. rewrite !str_length_app, !paren_length in Hn. simpl String.length in Hn.
    destruct n as [|[|[|[|[|n]]]]]; [lia|lia|lia|lia|lia|].
    rewrite (or_step _ _ _ _ _ Hfind Hto Hfrom).
    rewrite (operand_or _ _ (print a)) by (by apply operand_left). rewrite IHa by (done || lia).
    cbn [pbind2 elab]. destruct (elab a); [|done|done]. cbn [pbind res_bind].
    rewrite (operand_or _ _ (print b)) by (by apply operand_right). rewrite IHb by (done || lia).
    cbn [pbind2 elab]. by destruct (elab b).
  - pose proof (print_ascii _ Hg) as Hasc. cbn [good print] in *.
    rewrite !str_length_app, !paren_length in Hn. simpl String.length in Hn.
    destruct n as [|[|[|[|[|n]]]]]; [lia|lia|lia|lia|lia|].
    rewrite no_op_or, no_op_and; try done.
    2,3: apply skips_app; [by eapply skips_top|by apply paren_skips].
    rewrite unary_bang.
    rewrite (unary_paren _ _ (print a)) by apply trim_paren. rewrite IHa by (done || lia).
    cbn [elab pbind2]. by destruct (elab a).
Qed.
End RoundTrip.

Lemma print_trim s : good s = true -> trim (print s) = print s.
Proof.
  destruct s as [f args|a b|a b|a]; cbn [good print]; intros Hg.
  - apply andb_prop in Hg as [[Hne Hf]%andb_prop Hargs].
    apply negb_true_iff, bool_decide_eq_false in Hne.
    destruct f as [|c f]; [done|]. cbn [str_forall] in Hf. apply andb_prop in Hf as [Hc _].
    apply (trim_plain c _ ")"); [apply (alnum_chars c Hc)| |done].
    exact (last_byte_paren (String c f) (print_args args)).
  - apply (trim_plain "(" _ ")"); [done| |done].
    pose proof (last_byte_paren (paren (print a) +:+ " && ") (print b)) as Hl.
    rewrite str_app_assoc in Hl. exact Hl.
  - apply (trim_plain "(" _ ")"); [done| |done].
    pose proof (last_byte_paren (paren (print a) +:+ " || ") (print b)) as Hl.
    rewrite str_app_assoc in Hl. exact Hl.
  - apply (trim_plain "!" _ ")"); [done| |done]. exact (last_byte_paren "!" (print a)).
Qed.

(** C8. Printed rules parse back: for every rule built from matcher calls (names
    alphanumeric, arguments ASCII without back-ticks, but otherwise containing
    any operators or parentheses) with [&&], [||] and [!], parsing the text of
    the rule gives exactly the rule it denotes, or the error of its first
    ill-formed call; operators inside quoted arguments are never taken for
    operators of the rule. *)
Theorem rule_parse_print `{RegexLib} (s : srule) :
  good s = true -> parse (print s) = Some (elab s).
Proof.
  intros Hg. unfold parse. rewrite print_trim by done. apply parse_or_print; [done|]. unfold parse_fuel. lia.
Qed.

(** A concrete instance of the regular-expression interface: no expression
    compiles. *)
Definition no_regex : RegexLib := {| Regex := Empty_set; regex_new := fun p => inl p; is_match := fun re _ => match re with end |}.
Definition sample_rule : srule :=
  SOr (SAnd (SCall "Host" ["a.com"]) (SNot (SCall "PathPrefix" ["/x && (y"]))) (SCall "Query" ["k"; "v||w"]).

Lemma rule_parse_print_witness :
  print sample_rule = "((Host(`a.com`)) && (!(PathPrefix(`/x && (y`)))) || (Query(`k`, `v||w`))" /\
  @parse no_regex (print sample_rule) = Some (@elab no_regex sample_rule).
Proof.
  split; [vm_compute; reflexivity|].
  apply (@rule_parse_print no_regex sample_rule). vm_compute. reflexivity.
Defined.

(** Outside ASCII the parser takes a character index for a byte offset: a rule
    with accented characters aborts the process, and one with a multi-byte path
    silently loses the condition after its [&&]. *)
Theorem rule_parser_char_offset `{RegexLib} :
  parse "Host(`ééé`) && Path(`/`)" = Some Panic /\
  parse "Path(`/中`)&&(Path(`/b`))" = Some (Ok (RPath "/中")).
Proof. split; vm_compute; reflexivity. Qed.
