(* ===== verification/Router.v ===== *)
(** * Request router: construction, indexes and lookup

    Models src/src/router/mod.rs and src/src/router/matcher.rs on top of the
    rule language of [Rule]. The configured routers are the list of entries in
    the iteration order of the configuration's hash map. *)
From Stdlib Require Import Sorting.Sorted.
From S2P Require Import Prelude RustStr Rule RuleProofs Order.
From stdpp Require Import list.
Open Scope list_scope.
Open Scope Z_scope.

(** A router of the configuration (config/types.rs), the fields routing reads. *)
Record RouterConfig := {
  rc_entry_points : list string;
  rc_rule : string;
  rc_service : string;
  rc_middlewares : list string;
  rc_priority : Z; (* i32 *)
}.

Section Router.
Context `{RL : RegexLib} `{HL : HttpLib}.

Record Route := {
  r_name : string;
  r_entrypoints : list string;
  r_rule : Rule; (* the matcher *)
  r_service : string;
  r_middlewares : list string;
  r_priority : Z;
  r_host_indexed : bool;
}.

Record Router := {
  routes : list Route;
  candidates_by_ep : gmap string (list nat);
  catch_all : list nat;
  host_index : gmap string (list nat);
}.

(** [RouteMatcher::from_rule]; [parse] never runs out of its fuel. *)
Definition from_rule (s : string) : result RuleParseError Rule :=
  match parse s with Some r => r | None => Panic end.

Definition mk_route (name : string) (c : RouterConfig) (rule : Rule) : Route := {|
  r_name := name;
  r_entrypoints := rc_entry_points c;
  r_rule := rule;
  r_service := rc_service c;
  r_middlewares := rc_middlewares c;
  r_priority := rc_priority c;
  r_host_indexed := false |}.

(** The [filter_map] over the configuration; [None] when a rule aborts. *)
Fixpoint parse_routes (cfg : list (string * RouterConfig)) : option (list Route) :=
  match cfg with
  | [] => Some []
  | (name, c) :: cfg' =>
      match from_rule (rc_rule c) with
      | Ok rule => (mk_route name c rule ::.) <$> parse_routes cfg'
      | Err _ => parse_routes cfg'
      | Panic => None
      end
  end.

(** The stable sort by descending priority. *)
Definition sort_by_priority (l : list Route) : list Route := sort_desc r_priority l.

(** [index.entry(key).or_default().push(idx)] *)
Definition push_idx (idx : nat) (index : gmap string (list nat)) (key : string)
    : gmap string (list nat) :=
  <[key := default [] (index !! key) ++ [idx]]> index.

Fixpoint index_loop (keys : Route -> list string) (l : list Route) (idx : nat)
    (index : gmap string (list nat)) : gmap string (list nat) :=
  match l with
  | [] => index
  | r :: l' => index_loop keys l' (S idx) (foldl (push_idx idx) index (keys r))
  end.

Definition host_keys (r : Route) : list string := to_ascii_lowercase <$> extract_hosts (r_rule r).

Definition mark_host (r : Route) : Route :=
  if bool_decide (extract_hosts (r_rule r) = []) then r
  else {| r_name := r_name r; r_entrypoints := r_entrypoints r; r_rule := r_rule r;
          r_service := r_service r; r_middlewares := r_middlewares r;
          r_priority := r_priority r; r_host_indexed := true |}.

Fixpoint catch_all_loop (l : list Route) (idx : nat) : list nat :=
  match l with
  | [] => []
  | r :: l' =>
      if bool_decide (r_entrypoints r = []) then idx :: catch_all_loop l' (S idx)
      else catch_all_loop l' (S idx)
  end.

Definition priority_of (l : list Route) (idx : nat) : Z := from_option r_priority 0 (l !! idx).

(** The merge of two index lists; the indices are in range ([wf_index]). *)
Fixpoint merge (prio : nat -> Z) (a : list nat) : list nat -> list nat :=
  match a with
  | [] => fun b => b
  | x :: a' => fix go b :=
      match b with
      | [] => x :: a'
      | y :: b' => if prio y <=? prio x then x :: merge prio a' (y :: b') else y :: go b'
      end
  end.

Definition index_routes (sorted : list Route) : Router :=
  let rs := mark_host <$> sorted in
  let ca := catch_all_loop rs 0 in
  {| routes := rs;
     candidates_by_ep := (fun c => merge (priority_of rs) c ca) <$> index_loop r_entrypoints rs 0 ∅;
     catch_all := ca;
     host_index := index_loop host_keys rs 0 ∅ |}.

Definition from_config (cfg : list (string * RouterConfig)) : option Router :=
  (fun rs => index_routes (sort_by_priority rs)) <$> parse_routes cfg.

(** ** Lookup *)
Definition ep_match (r : Route) (ep : string) : bool :=
  bool_decide (r_entrypoints r = []) || existsb (fun e => bool_decide (e = ep)) (r_entrypoints r).

(** The first route of [idxs] that [ok] accepts; an index out of range aborts. *)
Fixpoint scan (rs : list Route) (ok : Route -> bool) (idxs : list nat) : result Empty_set (option Route) :=
  match idxs with
  | [] => Ok None
  | idx :: idxs' =>
      match rs !! idx with
      | None => Panic
      | Some r => if ok r then Ok (Some r) else scan rs ok idxs'
      end
  end.

Definition host_candidates (rt : Router) (host : option string) : list nat :=
  match host with
  | Some h => default [] (host_index rt !! to_ascii_lowercase h)
  | None => []
  end.

Definition match_request (rt : Router) (ep : string) (q : Attrs) : result Empty_set (option Route) :=
  let candidates := default (catch_all rt) (candidates_by_ep rt !! ep) in
  res_bind (scan (routes rt) (fun r => ep_match r ep && matches (r_rule r) q) (host_candidates rt (a_host q)))
    (fun found =>
      match found with
      | Some r => Ok (Some r)
      | None => scan (routes rt) (fun r => negb (r_host_indexed r) && matches (r_rule r) q) candidates
      end).

(** ** Index lists *)

(** Indices in range of [rs], by descending priority. *)
Definition wf_index (rs : list Route) (l : list nat) : Prop :=
  Forall (fun i => is_Some (rs !! i)) l /\
  StronglySorted (fun i j => priority_of rs j <= priority_of rs i) l.

Lemma merge_elem prio a b i : i ∈ merge prio a b <-> i ∈ a \/ i ∈ b.
Proof.
  revert b. induction a as [|x a IH]; intros b; [simpl; rewrite elem_of_nil; tauto|].
  induction b as [|y b IHb]; [simpl; rewrite elem_of_nil; tauto|]. cbn [merge]. destruct (prio y <=? prio x).
  - rewrite !elem_of_cons, IH, elem_of_cons. tauto.
  - rewrite elem_of_cons, IHb, !elem_of_cons. tauto.
Qed.

Lemma merge_sorted prio a b :
  StronglySorted (fun i j => prio j <= prio i) a -> StronglySorted (fun i j => prio j <= prio i) b ->
  StronglySorted (fun i j => prio j <= prio i) (merge prio a b).
Proof.
  intros Ha. revert b. induction Ha as [|x a Ha IH Hx]; intros b Hb; [done|].
  induction Hb as [|y b Hb IHb Hy]; [by constructor|]. cbn [merge].
  rewrite Forall_forall in Hx, Hy. destruct (Z.leb_spec (prio y) (prio x)) as [H|H].
  - constructor; [apply IH; by constructor; [|apply Forall_forall]|].
    apply Forall_forall. intros i. rewrite merge_elem, elem_of_cons.
    intros [Hi|[->|Hi]]; [by apply Hx|done|]. specialize (Hy i Hi). lia.
  - constructor; [exact IHb|]. apply Forall_forall. intros i Hi.
    change (i ∈ merge prio (x :: a) b) in Hi. apply merge_elem in Hi as [Hi|Hi]; [|by apply Hy].
    apply elem_of_cons in Hi as [->|Hi]; [lia|]. specialize (Hx i Hi). lia.
Qed.

(** Routes in descending priority: ascending index lists are well formed. *)
Definition sorted_routes (rs : list Route) : Prop := descending r_priority rs.

Lemma sorted_lookup rs i j : sorted_routes rs -> (i <= j)%nat -> is_Some (rs !! j) ->
  priority_of rs j <= priority_of rs i.
Proof.
  unfold priority_of. intros Hs. revert i j. induction Hs as [|r rs Hs IH Hr]; intros i j Hij [x Hj]; [done|].
  destruct j as [|j].
  - replace i with O by lia. done.
  - destruct i as [|i]; [|apply IH; [lia|by exists x]]. simpl in *. rewrite Hj. simpl.
    rewrite Forall_forall in Hr. eapply Hr, list_elem_of_lookup_2, Hj.
Qed.

Lemma ascending_wf rs l : sorted_routes rs -> Forall (fun i => is_Some (rs !! i)) l ->
  StronglySorted le l -> wf_index rs l.
Proof.
  intros Hs Hr Hl. split; [done|]. induction Hl as [|i l Hl IH Hi]; [constructor|].
  inversion_clear Hr. constructor; [by apply IH|]. rewrite Forall_forall in Hi |- *.
  intros j Hj. apply sorted_lookup; [done|by apply Hi|]. match goal with H : Forall _ _ |- _ => rewrite Forall_forall in H; by apply H end.
Qed.

Lemma sorted_snoc l (x : nat) : StronglySorted le l -> Forall (fun i => i <= x)%nat l -> StronglySorted le (l ++ [x]).
Proof.
  induction 1 as [|i l Hl IH Hi]; intros Hx; simpl; [by repeat constructor|].
  inversion_clear Hx. constructor; [by apply IH|]. apply Forall_app. split; [done|by constructor].
Qed.

(** What an accumulated index holds: for each key, in ascending order, the
    indices below [idx] that [has] it, and [idx] itself for the keys in [now]. *)
Definition index_inv (has : string -> nat -> Prop) (now : list string) (idx : nat)
    (m : gmap string (list nat)) : Prop :=
  forall k, StronglySorted le (default [] (m !! k)) /\
    forall j, j ∈ default [] (m !! k) <-> (j < idx)%nat /\ has k j \/ j = idx /\ k ∈ now.

Lemma push_inv has ks idx m key :
  index_inv has ks idx m -> index_inv has (ks ++ [key]) idx (push_idx idx m key).
Proof.
  intros Hinv k. destruct (Hinv k) as [Hs He]. unfold push_idx. destruct (decide (k = key)) as [->|Hne].
  - rewrite lookup_insert_eq. simpl. split.
    + apply sorted_snoc; [done|]. apply Forall_forall. intros j Hj%He. lia.
    + intros j. rewrite elem_of_app, He, list_elem_of_singleton, elem_of_app, list_elem_of_singleton. tauto.
  - rewrite lookup_insert_ne by done. split; [done|]. intros j.
    rewrite He, elem_of_app, list_elem_of_singleton. split; [tauto|]. intros [?|[? [?|?]]]; [tauto|tauto|done].
Qed.

Lemma push_all_inv has idx keys : forall now m,
  index_inv has now idx m -> index_inv has (now ++ keys) idx (foldl (push_idx idx) m keys).
Proof.
  induction keys as [|k keys IH]; intros now m Hinv; simpl; [by rewrite app_nil_r|].
  replace (now ++ k :: keys) with ((now ++ [k]) ++ keys) by (by rewrite <- app_assoc).
  by apply IH, push_inv.
Qed.

Lemma index_loop_inv keys l : forall done m,
  index_inv (fun k j => exists r, done !! j = Some r /\ k ∈ keys r) [] (length done) m ->
  index_inv (fun k j => exists r, (done ++ l) !! j = Some r /\ k ∈ keys r) [] (length (done ++ l))
    (index_loop keys l (length done) m).
Proof.
  induction l as [|r l IH]; intros done m Hinv; [by rewrite app_nil_r|]. cbn [index_loop].
  replace (done ++ r :: l) with ((done ++ [r]) ++ l) by (by rewrite <- app_assoc).
  replace (S (length done)) with (length (done ++ [r])) by (rewrite length_app; simpl; lia).
  apply IH. intros k. destruct (push_all_inv _ _ (keys r) _ _ Hinv k) as [Hs He]. split; [done|].
  intros j. rewrite He. simpl. rewrite elem_of_nil. rewrite length_app. simpl.
  split.
  - intros [[Hj (r' & Hr' & Hk)]|[-> Hk]]; left; (split; [lia|]).
    + exists r'. by rewrite lookup_app_l.
    + exists r. by rewrite lookup_app_r, Nat.sub_diag by lia.
  - intros [[Hj (r' & Hr' & Hk)]|[_ []]]. destruct (decide (j = length done)) as [->|Hne].
    + right. rewrite lookup_app_r, Nat.sub_diag in Hr' by lia. by simplify_eq/=.
    + left. split; [lia|]. exists r'. rewrite lookup_app_l in Hr' by lia. done.
Qed.

(** The index of all routes: the routes that have the key, in order. *)
Lemma index_loop_spec keys rs k : 
  let l := default [] (index_loop keys rs 0 ∅ !! k) in
  StronglySorted le l /\ forall j, j ∈ l <-> exists r, rs !! j = Some r /\ k ∈ keys r.
Proof.
  destruct (index_loop_inv keys rs [] ∅) with (k := k) as [Hs He].
  { intros k'. rewrite lookup_empty. simpl. split; [constructor|]. intros j. rewrite !elem_of_nil. split; [done|]. intros [[? _]|[_ []]]. lia. }
  simpl in *. split; [done|]. intros j. rewrite He, elem_of_nil. split; [tauto|].
  intros (r & Hr & Hk). left. split; [by apply lookup_lt_Some in Hr|eauto].
Qed.

Lemma catch_all_spec l : forall idx,
  StronglySorted le (catch_all_loop l idx) /\ forall j, j ∈ catch_all_loop l idx <->
    (idx <= j)%nat /\ exists r, l !! (j - idx)%nat = Some r /\ r_entrypoints r = [].
Proof.
  induction l as [|r l IH]; intros idx; cbn [catch_all_loop].
  { split; [constructor|]. intros j. rewrite elem_of_nil. split; [done|]. intros (_ & r & ? & _). done. }
  destruct (IH (S idx)) as [Hs He].
  assert (Hshift : forall j, (S idx <= j)%nat -> (j - idx = S (j - S idx))%nat) by lia.
  case_bool_decide as Hr.
  - split.
    + constructor; [done|]. apply Forall_forall. intros j Hj%He. lia.
    + intros j. rewrite elem_of_cons, He. split.
      * intros [->|(Hj & r' & Hr' & ?)]; [split; [lia|]; exists r; by rewrite Nat.sub_diag|].
        split; [lia|]. exists r'. by rewrite Hshift.
      * intros (Hj & r' & Hr' & ?). destruct (decide (j = idx)) as [->|]; [by left|right].
        split; [lia|]. exists r'. rewrite Hshift in Hr' by lia. done.
  - split; [done|]. intros j. rewrite He. split.
    + intros (Hj & r' & Hr' & ?). split; [lia|]. exists r'. by rewrite Hshift.
    + intros (Hj & r' & Hr' & ?). destruct (decide (j = idx)) as [->|].
      * rewrite Nat.sub_diag in Hr'. by simplify_eq/=.
      * split; [lia|]. exists r'. rewrite Hshift in Hr' by lia. done.
Qed.

(** Scanning a well-formed index list never aborts and finds an accepted
    route of the highest priority. *)
Lemma route_scan_spec rs ok l : wf_index rs l ->
  exists o, scan rs ok l = Ok o /\
  match o with
  | Some r => (exists i, i ∈ l /\ rs !! i = Some r) /\ ok r = true /\
      forall j r', j ∈ l -> rs !! j = Some r' -> ok r' = true -> r_priority r' <= r_priority r
  | None => forall j r', j ∈ l -> rs !! j = Some r' -> ok r' = false
  end.
Proof.
  intros [Hr Hs]. induction Hs as [|i l Hs IH Hi].
  { exists None. split; [done|]. by intros j r' []%elem_of_nil. }
  inversion_clear Hr as [|? ? [r Hri] Hr']. destruct (IH Hr') as (o & Ho & Hspec). cbn [scan]. rewrite Hri.
  destruct (ok r) eqn:Eok.
  - exists (Some r). split; [done|]. split; [exists i; by rewrite elem_of_cons; auto|]. split; [done|].
    intros j r' Hj Hr'' _. apply elem_of_cons in Hj as [->|Hj]; [by simplify_eq|].
    rewrite Forall_forall in Hi. specialize (Hi j Hj). unfold priority_of in Hi. by rewrite Hri, Hr'' in Hi.
  - exists o. split; [done|]. destruct o as [r0|].
    + destruct Hspec as ((i0 & Hi0 & Hri0) & Hok & Hmax). split; [exists i0; rewrite elem_of_cons; auto|].
      split; [done|]. intros j r' [->|Hj]%elem_of_cons; [intros; simplify_eq; congruence|]. by apply Hmax.
    + intros j r' [->|Hj]%elem_of_cons; [intros; simplify_eq; congruence|]. by apply Hspec.
Qed.

(** ** Construction *)
Lemma mark_priority r : r_priority (mark_host r) = r_priority r.
Proof. unfold mark_host. by case_bool_decide. Qed.

Lemma mark_sorted l : sorted_routes l -> sorted_routes (mark_host <$> l).
Proof.
  induction 1 as [|r l Hl IH Hr]; [constructor|]. constructor; [done|].
  apply Forall_fmap. eapply Forall_impl; [exact Hr|]. intros x Hx. simpl. by rewrite !mark_priority.
Qed.

(** The routes of the router, as the configuration gives them. *)
Definition configured (cfg : list (string * RouterConfig)) (r : Route) : Prop :=
  exists name c rule, (name, c) ∈ cfg /\ from_rule (rc_rule c) = Ok rule /\
    r = mark_host (mk_route name c rule).

Lemma parse_routes_elem cfg : forall rs, parse_routes cfg = Some rs -> forall r,
  r ∈ rs <-> exists name c rule, (name, c) ∈ cfg /\ from_rule (rc_rule c) = Ok rule /\ r = mk_route name c rule.
Proof.
  induction cfg as [|[n c] cfg IH]; cbn [parse_routes]; intros rs Hrs r.
  { simplify_eq. rewrite elem_of_nil. split; [done|]. intros (? & ? & ? & []%elem_of_nil & _). }
  assert (Hskip : (forall rule, from_rule (rc_rule c) <> Ok rule) -> forall rs', parse_routes cfg = Some rs' ->
    (r ∈ rs' <-> exists name c' rule, (name, c') ∈ (n, c) :: cfg /\ from_rule (rc_rule c') = Ok rule /\ r = mk_route name c' rule)).
  { intros Hno rs' Hrs'. rewrite (IH rs' Hrs' r). split; intros (n' & c' & ru & Hin & Hok & ->).
    - exists n', c', ru. rewrite elem_of_cons. auto.
    - apply elem_of_cons in Hin as [?|Hin]; [simplify_eq; by destruct (Hno ru)|]. by exists n', c', ru. }
  destruct (from_rule (rc_rule c)) as [rule|e|] eqn:E; [|apply Hskip; [by rewrite ?E|done]|done].
  apply fmap_Some in Hrs as (rs' & Hrs' & ->). rewrite elem_of_cons, (IH rs' Hrs' r). split.
  - intros [->|(n' & c' & ru & Hin & Hok & ->)]; [exists n, c, rule|exists n', c', ru]; rewrite elem_of_cons; auto.
  - intros (n' & c' & ru & [?|Hin]%elem_of_cons & Hok & ->); [left; congruence|]. right. by exists n', c', ru.
Qed.

Lemma from_config_routes cfg rt : from_config cfg = Some rt ->
  exists sorted, rt = index_routes sorted /\ sorted_routes (routes rt) /\
    forall r, configured cfg r <-> r ∈ routes rt.
Proof.
  unfold from_config. intros (rs & Hrs & ->)%fmap_Some. exists (sort_by_priority rs). split; [done|].
  split; [apply mark_sorted, sort_desc_sorted|]. intros r. cbn [index_routes routes]. rewrite list_elem_of_fmap. split.
  - intros (n & c & ru & Hin & Hok & ->). eexists. split; [done|]. unfold sort_by_priority. rewrite sort_desc_elem.
    apply (parse_routes_elem _ _ Hrs). eauto 6.
  - intros (r' & -> & Hr'). unfold sort_by_priority in Hr'. rewrite sort_desc_elem in Hr'. apply (parse_routes_elem _ _ Hrs) in Hr' as (n & c & ru & ? & ? & ->).
    exists n, c, ru. auto.
Qed.

(** ** Host extraction is sound for the host index *)
Lemma extract_hosts_sound r q : matches r q = true -> forall h, h ∈ extract_hosts r ->
  exists h0, a_host q = Some h0 /\ to_ascii_lowercase h0 = to_ascii_lowercase h.
Proof.
  induction r; cbn [matches extract_hosts]; intros Hm h0; try by intros []%elem_of_nil.
  - intros ->%list_elem_of_singleton. unfold map_or_false in Hm. destruct (a_host q) as [h'|]; [|done].
    exists h'. split; [done|]. by apply bool_decide_eq_true in Hm.
  - apply andb_prop in Hm as [H1 H2]. intros [Hi|Hi]%elem_of_app; auto.
Qed.

Lemma mark_flag name c rule :
  let r := mark_host (mk_route name c rule) in
  r_host_indexed r = true <-> extract_hosts (r_rule r) <> [].
Proof. unfold mark_host. simpl. case_bool_decide as H; simpl; [|done]. by rewrite H. Qed.

Lemma ep_match_true r ep : ep_match r ep = true <-> r_entrypoints r = [] \/ ep ∈ r_entrypoints r.
Proof.
  unfold ep_match. rewrite orb_true_iff, bool_decide_eq_true. f_equiv. rewrite existsb_exists. split.
  - intros (e & He & ->%bool_decide_eq_true). by apply list_elem_of_In.
  - intros He. exists ep. split; [by apply list_elem_of_In|by apply bool_decide_eq_true].
Qed.

Lemma index_in_range keys rs k l : l = default [] (index_loop keys rs 0 ∅ !! k) -> sorted_routes rs -> wf_index rs l.
Proof.
  intros -> Hs. destruct (index_loop_spec keys rs k) as [Hl He]. apply ascending_wf; [done| |done].
  apply Forall_forall. intros j (r & Hr & _)%He. by exists r.
Qed.

(** The candidates of an entry point: the routes that accept it. *)
Lemma candidates_spec sorted ep :
  let rt := index_routes sorted in
  let l := default (catch_all rt) (candidates_by_ep rt !! ep) in
  sorted_routes (routes rt) ->
  wf_index (routes rt) l /\
  forall j, j ∈ l <-> exists r, routes rt !! j = Some r /\ ep_match r ep = true.
Proof.
  intros rt l Hs. set (rs := routes rt) in *.
  destruct (catch_all_spec rs 0) as [Hcs Hce]. destruct (index_loop_spec r_entrypoints rs ep) as [Hes Hee].
  assert (Hca : wf_index rs (catch_all_loop rs 0)).
  { apply ascending_wf; [done| |done]. apply Forall_forall. intros j (_ & r & Hr & _)%Hce.
    rewrite Nat.sub_0_r in Hr. by exists r. }
  pose proof (index_in_range r_entrypoints rs ep _ eq_refl Hs) as Hep.
  assert (Hcat : forall j, j ∈ catch_all_loop rs 0 <-> exists r, rs !! j = Some r /\ r_entrypoints r = []).
  { intros j. rewrite Hce, Nat.sub_0_r. split; [tauto|]. intros H. split; [lia|done]. }
  assert (Hl : l = merge (priority_of rs) (default [] (index_loop r_entrypoints rs 0 ∅ !! ep)) (catch_all_loop rs 0)).
  { unfold l. cbn [rt index_routes candidates_by_ep catch_all]. rewrite lookup_fmap.
    change (mark_host <$> sorted) with rs. by destruct (index_loop r_entrypoints rs 0 ∅ !! ep). }
  rewrite Hl. split.
  - destruct Hca as [Hc1 Hc2], Hep as [He1 He2]. split; [|by apply merge_sorted].
    rewrite Forall_forall in Hc1, He1 |- *. intros j [Hj|Hj]%merge_elem; auto.
  - intros j. rewrite merge_elem, Hee, Hcat. split.
    + intros [(r & ? & ?)|(r & ? & ?)]; exists r; rewrite ep_match_true; auto.
    + intros (r & ? & [?|?]%ep_match_true); [right|left]; eauto.
Qed.

(** The host candidates: the host-indexed routes for the request's host. *)
Lemma host_candidates_spec sorted q :
  let rt := index_routes sorted in
  sorted_routes (routes rt) ->
  wf_index (routes rt) (host_candidates rt (a_host q)) /\
  forall j, j ∈ host_candidates rt (a_host q) <->
    exists r h, routes rt !! j = Some r /\ a_host q = Some h /\ to_ascii_lowercase h ∈ host_keys r.
Proof.
  intros rt Hs. unfold host_candidates. destruct (a_host q) as [h|].
  - split; [by eapply index_in_range|]. destruct (index_loop_spec host_keys (routes rt) (to_ascii_lowercase h)) as [_ He].
    intros j. etransitivity; [apply He|]. split.
    + intros (r & ? & ?). eauto.
    + intros (r & h' & ? & ? & ?). simplify_eq. eauto.
  - split; [split; constructor|]. intros j. rewrite elem_of_nil. split; [done|]. by intros (? & ? & ? & ? & ?).
Qed.

Definition eligible (r : Route) (ep : string) (q : Attrs) : bool := ep_match r ep && matches (r_rule r) q.

(** An eligible host-indexed route is among the host candidates. *)
Lemma eligible_indexed cfg r ep q : configured cfg r -> eligible r ep q = true -> r_host_indexed r = true ->
  exists h, a_host q = Some h /\ to_ascii_lowercase h ∈ host_keys r.
Proof.
  intros (n & c & ru & _ & _ & ->) [_ Hm]%andb_prop Hx%mark_flag.
  destruct (extract_hosts (r_rule (mark_host (mk_route n c ru)))) as [|h hs] eqn:E; [done|].
  destruct (extract_hosts_sound _ _ Hm h) as (h0 & Hh0 & Heq); [rewrite E; by left|].
  exists h0. split; [done|]. rewrite Heq. unfold host_keys. rewrite E. by left.
Qed.

Lemma indexed_of_keys cfg r k : configured cfg r -> k ∈ host_keys r -> r_host_indexed r = true.
Proof.
  intros (n & c & ru & _ & _ & ->) Hk. apply mark_flag. intros He. unfold host_keys in Hk. rewrite He in Hk.
  by apply elem_of_nil in Hk.
Qed.
End Router.

(** What a lookup returns. *)
Lemma match_request_spec `{RegexLib} `{HttpLib} cfg rt ep q : from_config cfg = Some rt ->
  exists o, match_request rt ep q = Ok o /\
  match o with
  | Some r => configured cfg r /\ eligible r ep q = true /\
      forall r', configured cfg r' -> eligible r' ep q = true ->
        r_host_indexed r' = true \/ r_host_indexed r = false -> r_priority r' <= r_priority r
  | None => forall r', configured cfg r' -> eligible r' ep q = false
  end.
Proof.
  intros (sorted & -> & Hs & Hcfg)%from_config_routes.
  destruct (host_candidates_spec sorted q Hs) as [Hhw Hhe].
  destruct (candidates_spec sorted ep Hs) as [Hcw Hce].
  set (rt := index_routes sorted) in *. unfold match_request.
  destruct (route_scan_spec (routes rt) (fun r => ep_match r ep && matches (r_rule r) q) _ Hhw) as (o1 & -> & H1).
  cbn [res_bind]. destruct o1 as [r|].
  - exists (Some r). split; [done|]. destruct H1 as ((i & Hi & Hri) & Hok & Hmax).
    assert (Hr : configured cfg r) by (by eapply Hcfg, list_elem_of_lookup_2).
    split; [done|]. split; [done|]. intros r' Hr' He' Hx.
    apply Hhe in Hi as (r0 & h & Hr0 & Hh & Hk). simplify_eq.
    assert (Hx' : r_host_indexed r' = true).
    { destruct Hx as [?|Hx]; [done|]. by rewrite (indexed_of_keys _ _ _ Hr Hk) in Hx. }
    destruct (eligible_indexed _ _ _ _ Hr' He' Hx') as (h' & Hh' & Hk').
    pose proof (proj1 (Hcfg r') Hr') as (j & Hj)%list_elem_of_lookup_1.
    apply (Hmax j r'); [apply Hhe; eauto|done|done].
  - assert (Hno : forall r', configured cfg r' -> eligible r' ep q = true -> r_host_indexed r' = false).
    { intros r' Hr' He'. destruct (r_host_indexed r') eqn:Hx; [|done].
      destruct (eligible_indexed _ _ _ _ Hr' He' Hx) as (h' & Hh' & Hk').
      pose proof (proj1 (Hcfg r') Hr') as (j & Hj)%list_elem_of_lookup_1.
      assert (eligible r' ep q = false) by (apply (H1 j r'); [apply Hhe; eauto|done]). congruence. }
    destruct (route_scan_spec (routes rt) (fun r => negb (r_host_indexed r) && matches (r_rule r) q) _ Hcw) as (o2 & -> & H2).
    exists o2. split; [done|]. 
    assert (Hin : forall r', configured cfg r' -> eligible r' ep q = true -> exists j,
      j ∈ default (catch_all rt) (candidates_by_ep rt !! ep) /\ routes rt !! j = Some r' /\
      negb (r_host_indexed r') && matches (r_rule r') q = true).
    { intros r' Hr' He'. pose proof (proj1 (Hcfg r') Hr') as (j & Hj)%list_elem_of_lookup_1.
      rewrite (Hno _ Hr' He'). apply andb_prop in He' as [Hep Hm]. exists j. rewrite Hce. eauto. }
    destruct o2 as [r|].
    + destruct H2 as ((i & Hi & Hri) & [_ Hm]%andb_prop & Hmax).
      split; [by eapply Hcfg, list_elem_of_lookup_2|]. apply Hce in Hi as (r0 & Hr0 & Hep). simplify_eq.
      split; [by apply andb_true_intro|]. intros r' Hr' He' _. destruct (Hin r' Hr' He') as (j & ? & ? & ?). eauto.
    + intros r' Hr'. destruct (eligible r' ep q) eqn:He'; [|done].
      destruct (Hin r' Hr' He') as (j & Hj & Hrj & Hok). by rewrite (H2 j r' Hj Hrj) in Hok.
Qed.

(** C7. Route selection. The router built from a configuration answers every
    request without aborting. The route it returns is a configured one that
    accepts the entry point and whose rule matches, and no eligible route has a
    higher priority, except that a route without host condition may lose to
    one with a host condition; it returns no route only when no configured
    route is eligible. *)
Theorem router_selects `{RegexLib} `{HttpLib} cfg rt ep q : from_config cfg = Some rt ->
  exists o, match_request rt ep q = Ok o /\
  match o with
  | Some r => configured cfg r /\ eligible r ep q = true /\
      forall r', configured cfg r' -> eligible r' ep q = true ->
        r_host_indexed r' = true \/ r_host_indexed r = false -> r_priority r' <= r_priority r
  | None => forall r', configured cfg r' -> eligible r' ep q = false
  end.
Proof. apply match_request_spec. Qed.

#[local] Existing Instance no_regex.
#[local] Existing Instance list_http.

(** Two routers: a low-priority one bound to a host, and a high-priority one
    bound to a path. *)
Definition low_cfg : RouterConfig :=
  {| rc_entry_points := ["web"]; rc_rule := "Host(`a.com`)"; rc_service := "s1";
     rc_middlewares := []; rc_priority := 1 |}.
Definition high_cfg : RouterConfig :=
  {| rc_entry_points := []; rc_rule := "PathPrefix(`/api`)"; rc_service := "s2";
     rc_middlewares := []; rc_priority := 100 |}.
Definition sample_cfg : list (string * RouterConfig) := [("low", low_cfg); ("high", high_cfg)].
Definition sample_request (h : string) : @Attrs list_http :=
  @Build_Attrs list_http (Some h) "/api/x" None (Some "GET") ([] : @HeaderMap list_http).

Definition sample_router : @Router no_regex :=
  default {| routes := []; candidates_by_ep := ∅; catch_all := []; host_index := ∅ |}
    (@from_config no_regex sample_cfg).

Definition chosen (o : result Empty_set (option (@Route no_regex))) : option string :=
  match o with Ok (Some r) => Some (r_name r) | _ => None end.

Lemma router_selects_witness :
  chosen (match_request sample_router "web" (sample_request "b.com")) = Some "high" /\
  exists o, match_request sample_router "web" (sample_request "b.com") = Ok o /\
  match o with
  | Some r => configured sample_cfg r /\ eligible r "web" (sample_request "b.com") = true /\
      forall r', configured sample_cfg r' -> eligible r' "web" (sample_request "b.com") = true ->
        r_host_indexed r' = true \/ r_host_indexed r = false -> r_priority r' <= r_priority r
  | None => forall r', configured sample_cfg r' -> eligible r' "web" (sample_request "b.com") = false
  end.
Proof.
  split; [vm_compute; reflexivity|].
  apply (@router_selects no_regex list_http sample_cfg sample_router "web" (sample_request "b.com")).
  vm_compute. reflexivity.
Defined.

(** Priorities do not order routes with a host condition against routes
    without one: a request that both a priority-100 path route and a priority-1
    host route match goes to the host route. *)
Theorem router_host_precedence :
  let lo := mark_host (mk_route "low" low_cfg (RHost "a.com")) in
  let hi := mark_host (mk_route "high" high_cfg (RPathPrefix "/api")) in
  @from_config no_regex sample_cfg = Some sample_router /\
  configured sample_cfg lo /\ configured sample_cfg hi /\
  eligible lo "web" (sample_request "A.com") = true /\ eligible hi "web" (sample_request "A.com") = true /\
  r_priority lo < r_priority hi /\
  match_request sample_router "web" (sample_request "A.com") = Ok (Some lo).
Proof.
  split; [vm_compute; reflexivity|].
  split; [exists "low", low_cfg, (RHost "a.com"); split; [left|split; vm_compute; reflexivity]|].
  split; [exists "high", high_cfg, (RPathPrefix "/api"); split; [right; left|split; vm_compute; reflexivity]|].
  repeat split; vm_compute; reflexivity.
Qed.
