(* ===== verification/Health.v ===== *)
(** * Backend health: active checks and passive monitoring

    Models src/src/health/mod.rs ([HealthStatus]), the check loop of
    src/src/health/checker.rs and src/src/health/passive.rs. Instants and
    durations are integers in nanoseconds; each clock reading is an argument of
    the operation that makes it. *)
From S2P Require Import Prelude.
From stdpp Require Import list.
Open Scope Z_scope.
Open Scope list_scope.

(** ** Active checks *)

(** What a check reports: the texts of the source's error strings are built
    from these. *)
Inductive CheckError :=
| RequestFailed (e : string)
| UnexpectedStatus (expected got : Z)
| ServerError (got : Z)
| TimedOut.

Record HealthStatus := {
  hs_healthy : bool;
  consecutive_successes : Z; (* AtomicU32 *)
  consecutive_failures : Z; (* AtomicU32 *)
  last_check : option Z;
  last_error : option CheckError;
}.

Definition hs_new : HealthStatus :=
  {| hs_healthy := true; consecutive_successes := 0; consecutive_failures := 0;
     last_check := None; last_error := None |}.

Definition record_success (now : Z) (s : HealthStatus) : HealthStatus :=
  {| hs_healthy := hs_healthy s;
     consecutive_successes := wrap_u32 (consecutive_successes s + 1);
     consecutive_failures := 0;
     last_check := Some now; last_error := None |}.

Definition record_failure (e : CheckError) (now : Z) (s : HealthStatus) : HealthStatus :=
  {| hs_healthy := hs_healthy s;
     consecutive_successes := 0;
     consecutive_failures := wrap_u32 (consecutive_failures s + 1);
     last_check := Some now; last_error := Some e |}.

Definition hs_mark (v : bool) (s : HealthStatus) : HealthStatus :=
  {| hs_healthy := v; consecutive_successes := consecutive_successes s;
     consecutive_failures := consecutive_failures s;
     last_check := last_check s; last_error := last_error s |}.

(** What the HTTP client (third party) answers to a check request. *)
Inductive check_reply := ReplyStatus (code : Z) | ReplyError (e : string).

(** The response part of [perform_http_check]; [expected] is the configured
    status. *)
Definition perform_http_check (expected : option Z) (r : check_reply) : result CheckError unit :=
  match r with
  | ReplyError e => Err (RequestFailed e)
  | ReplyStatus status =>
      match expected with
      | Some exp => if negb (status =? exp) then Err (UnexpectedStatus exp status) else Ok tt
      | None =>
          if ((200 <=? status) && (status <? 300)) || (status =? 404) then Ok tt
          else if (500 <=? status) && (status <? 600) then Err (ServerError status)
          else Ok tt
      end
  end.

Definition healthy_threshold : Z := 2.
Definition unhealthy_threshold : Z := 3.

(** The failure branches of the loop body. *)
Definition on_failure (e : CheckError) (now : Z) (s : HealthStatus) : HealthStatus :=
  let s := record_failure e now s in
  if hs_healthy s && (unhealthy_threshold <=? consecutive_failures s) then hs_mark false s else s.

(** One iteration of the loop of [start]: [None] is the timeout. *)
Definition tick (expected : option Z) (reply : option check_reply) (now : Z) (s : HealthStatus)
    : HealthStatus :=
  match perform_http_check expected <$> reply with
  | Some (Ok _) =>
      let s := record_success now s in
      if negb (hs_healthy s) && (healthy_threshold <=? consecutive_successes s) then hs_mark true s else s
  | Some (Err e) => on_failure e now s
  | Some Panic => s
  | None => on_failure TimedOut now s
  end.

Definition check_run (expected : option Z) (ticks : list (option check_reply * Z)) : HealthStatus :=
  fold_left (fun s tk => tick expected tk.1 tk.2 s) ticks hs_new.

(** Whether a tick counts as a success. *)
Definition passed (expected : option Z) (reply : option check_reply) : bool :=
  match perform_http_check expected <$> reply with Some (Ok _) => true | _ => false end.

(** Outcomes newest first: three failures in a row with no two successes in a
    row since. *)
Fixpoint no_two_successes (h : list bool) : Prop :=
  match h with
  | a :: (b :: _) as h' => ~ (a = true /\ b = true) /\ no_two_successes h'
  | _ => True
  end.
Definition down (h : list bool) : Prop :=
  exists since before, h = since ++ [false; false; false] ++ before /\ no_two_successes since.

(** The outcomes at the head of [h] that equal [v], up to [n]. *)
Fixpoint streak (v : bool) (h : list bool) : Z :=
  match h with
  | b :: h' => if Bool.eqb b v then 1 + streak v h' else 0
  | [] => 0
  end.

Lemma streak_nonneg v h : 0 <= streak v h.
Proof. induction h as [|b h IH]; simpl; [lia|]. destruct (Bool.eqb b v); lia. Qed.

Lemma no_two_tail b h : no_two_successes (b :: h) -> no_two_successes h.
Proof. destruct h; [done|]. by intros [_ H]. Qed.

Lemma down_failure h : down (false :: h) <-> down h \/ 2 <= streak false h.
Proof.
  split.
  - intros (since & before & Heq & Hn). destruct since as [|b since].
    + injection Heq as ->. right. simpl. pose proof (streak_nonneg false before). lia.
    + injection Heq as <- ->. left. exists since, before. split; [done|]. by eapply no_two_tail.
  - intros [(since & before & -> & Hn)|Hs].
    + exists (false :: since), before. split; [done|]. destruct since; [exact I|]. split; [by intros []|done].
    + destruct h as [|[] [|[] h]]; simpl in Hs; try lia. exists [], h. split; [done|exact I].
Qed.

Lemma down_success h : down (true :: h) <-> down h /\ streak true h = 0.
Proof.
  split.
  - intros (since & before & Heq & Hn). destruct since as [|b since]; [done|]. injection Heq as <- ->.
    split; [exists since, before; split; [done|by eapply no_two_tail]|].
    destruct since as [|[] since]; [done| |done]. destruct Hn as [Hn _]. by destruct Hn.
  - intros [(since & before & -> & Hn) Hs]. exists (true :: since), before. split; [done|].
    destruct since as [|[] since]; [exact I| |].
    + pose proof (streak_nonneg true (since ++ [false; false; false] ++ before)). simpl in *. lia.
    + split; [by intros []|done].
Qed.

(** The status and the outcome history (newest first) agree. *)
Record tracks (s : HealthStatus) (h : list bool) : Prop := {
  tr_up : hs_healthy s = true -> ~ down h /\ consecutive_failures s = streak false h /\ streak false h < 3;
  tr_down : hs_healthy s = false -> down h /\ consecutive_successes s = streak true h /\ streak true h < 2;
}.

Lemma tick_tracks expected reply now s h : tracks s h ->
  tracks (tick expected reply now s) (passed expected reply :: h).
Proof.
  intros [Hup Hdown]. unfold tick, passed.
  pose proof (streak_nonneg false h) as Hf0. pose proof (streak_nonneg true h) as Ht0.
  assert (Hfail : forall e, tracks (on_failure e now s) (false :: h)).
  { intros e. unfold on_failure, unhealthy_threshold. cbn [record_failure hs_healthy consecutive_failures].
    destruct (hs_healthy s) eqn:E; cbn [andb].
    - destruct (Hup eq_refl) as (Hnd & Hc & Hlt). rewrite Hc, wrap_u32_id by word.
      destruct (Z.leb_spec 3 (streak false h + 1)) as [Hge|Hlt'].
      + split; cbn; [done|]. intros _. rewrite down_failure. split_and!; [right; lia|done|lia].
      + split; cbn; [|congruence]. intros _. rewrite down_failure, wrap_u32_id, Hc by word. split_and!; [|simpl; lia|simpl; lia].
        intros [?|?]; [done|lia].
    - destruct (Hdown eq_refl) as (Hd & _ & _). split; cbn; [congruence|]. intros _. rewrite down_failure.
      split_and!; [by left|done|lia]. }
  destruct (perform_http_check expected <$> reply) as [[[]|e|]|] eqn:Er.
  2:{ apply Hfail. }
  2:{ destruct reply as [[code|e]|]; simpl in Er; [|done|done]. injection Er as Er.
      destruct expected as [x|]; [by destruct (negb _)|]. destruct (_ || _); [done|]. by destruct (_ && _). }
  2:{ apply Hfail. }
  unfold healthy_threshold. cbn [record_success hs_healthy consecutive_successes].
  destruct (hs_healthy s) eqn:E; cbn [andb negb].
  - destruct (Hup eq_refl) as (Hnd & _ & _). split; cbn; [|congruence]. intros _. rewrite down_success.
    split_and!; [tauto|done|lia].
  - destruct (Hdown eq_refl) as (Hd & Hc & Hlt). rewrite Hc, wrap_u32_id by word.
    destruct (Z.leb_spec 2 (streak true h + 1)) as [Hge|Hlt'].
    + split; cbn; [|done]. intros _. rewrite down_success. split_and!; [|done|lia]. intros [_ ?]. lia.
    + split; cbn; [congruence|]. intros _. rewrite down_success, wrap_u32_id, Hc by word. split_and!; [done|lia|simpl; lia|simpl; lia].
Qed.

Lemma check_run_down (expected : option Z) (ticks : list (option check_reply * Z)) :
  hs_healthy (check_run expected ticks) = false <->
  down (rev ((fun tk => passed expected tk.1) <$> ticks)).
Proof.
  assert (Ht : tracks (check_run expected ticks) (rev ((fun tk => passed expected tk.1) <$> ticks))).
  { unfold check_run. induction ticks as [|tk ticks IH] using rev_ind.
    - split; [|done]. intros _. split_and!; [|done|simpl; lia].
      intros (since & before & Heq & _). by destruct since.
    - rewrite fold_left_app, fmap_app, rev_app_distr. simpl. by apply tick_tracks. }
  destruct Ht as [Hup Hdown]. destruct (hs_healthy (check_run expected ticks)) eqn:E.
  - split; [done|]. by destruct (Hup eq_refl) as [? _].
  - split; [|done]. intros _. by destruct (Hdown eq_refl) as [? _].
Qed.

(** The active checker's hysteresis, over any sequence of check results and
    however long it runs: the backend is reported unhealthy exactly when at some
    point three checks in a row failed (or timed out) and since then no two
    checks in a row have passed. *)
Theorem active_check_hysteresis (expected : option Z) (ticks : list (option check_reply * Z)) :
  hs_healthy (check_run expected ticks) = false <->
  down (rev ((fun tk => passed expected tk.1) <$> ticks)).
Proof. apply check_run_down. Qed.

(** ** Passive monitoring *)
Module Passive.
Record PassiveHealthConfig := {
  failure_threshold : Z; (* u32 *)
  success_threshold : Z; (* u32 *)
  failure_status_codes : gset Z;
  response_time_threshold_ms : option Z;
  window_duration : Z;
  recovery_interval : Z;
}.

Definition secs (n : Z) : Z := n * 10 ^ 9.

Definition default_config : PassiveHealthConfig :=
  {| failure_threshold := 5;
     success_threshold := 2;
     failure_status_codes := list_to_set (seqZ 500 100);
     response_time_threshold_ms := None;
     window_duration := secs 30;
     recovery_interval := secs 10 |}.

Record SlidingWindow := {
  duration : Z;
  entries : list (Z * bool);
}.

Definition window_new (d : Z) : SlidingWindow := {| duration := d; entries := [] |}.
(** [SlidingWindow::add] at the instant [now]. *)
Definition win_add (now : Z) (is_failure : bool) (w : SlidingWindow) : (nat * nat) * SlidingWindow :=
  let cutoff := now - duration w in
  let kept := filter (fun e => cutoff < e.1) (entries w) in
  let es := kept ++ [(now, is_failure)] in
  let failure_count := length (filter (fun e => e.2 = true) es) in
  ((failure_count, length es), {| duration := duration w; entries := es |}).

Definition win_failure_count (now : Z) (w : SlidingWindow) : nat :=
  let cutoff := now - duration w in
  length (filter (fun e => cutoff < e.1 /\ e.2 = true) (entries w)).

Record BackendState := {
  healthy : bool;
  cons_failures : Z; (* u32 *)
  cons_successes : Z; (* u32 *)
  unhealthy_since : option Z;
  window : SlidingWindow;
  total_requests : Z; (* AtomicU64 *)
  total_failures : Z; (* AtomicU64 *)
  avg_response_time_us : Z; (* AtomicU64 *)
}.

Definition backend_new (d : Z) : BackendState :=
  {| healthy := true; cons_failures := 0; cons_successes := 0; unhealthy_since := None;
     window := window_new d;
     total_requests := 0; total_failures := 0; avg_response_time_us := 0 |}.

Record Checker := {
  config : PassiveHealthConfig;
  backends : gmap string BackendState;
}.

Definition new (c : PassiveHealthConfig) : Checker := {| config := c; backends := ∅ |}.

Definition is_healthy (c : Checker) (url : string) : bool :=
  from_option healthy true (backends c !! url).

Definition can_try (c : Checker) (url : string) (now : Z) : bool :=
  from_option (fun s =>
    if healthy s then true
    else match unhealthy_since s with
         | Some t => recovery_interval (config c) <=? now - t
         | None => false
         end) true (backends c !! url).

Inductive HealthChange := NoChange | BecameHealthy | BecameUnhealthy.

(** A response: status code and elapsed time; the two clock readings taken
    while it is recorded. *)
Record response := {
  status_code : Z; (* u16 *)
  response_time : Z;
  now_window : Z;
  now_mark : Z;
}.

Definition is_failure (cfg : PassiveHealthConfig) (status_code response_time : Z) : bool :=
  if decide (status_code ∈ failure_status_codes cfg) then true
  else match response_time_threshold_ms cfg with
       | Some t => t <? wrap_u64 (response_time / 10 ^ 6)
       | None => false
       end.

(** The moving average of the response time, in microseconds. *)
Definition new_avg (prev_avg response_time : Z) : Z :=
  let response_us := wrap_u64 (response_time / 1000) in
  if prev_avg =? 0 then response_us
  else wrap_u64 (wrap_u64 (prev_avg * 9) + response_us) / 10.

(** [record_response] on the state of its backend. *)
Definition record (cfg : PassiveHealthConfig) (r : response) (s : BackendState)
    : HealthChange * BackendState :=
  let failed := is_failure cfg (status_code r) (response_time r) in
  let '((failure_count, _), w) := win_add (now_window r) failed (window s) in
  let s1 := {|
    healthy := healthy s;
    cons_failures := if failed then wrap_u32 (cons_failures s + 1) else 0;
    cons_successes := if failed then 0 else wrap_u32 (cons_successes s + 1);
    unhealthy_since := unhealthy_since s;
    window := w;
    total_requests := wrap_u64 (total_requests s + 1);
    total_failures := if failed then wrap_u64 (total_failures s + 1) else total_failures s;
    avg_response_time_us := new_avg (avg_response_time_us s) (response_time r) |} in
  if healthy s1 then
    if (failure_threshold cfg <=? cons_failures s1) || (failure_threshold cfg <=? Z.of_nat failure_count)
    then (BecameUnhealthy,
          {| healthy := false; cons_failures := cons_failures s1; cons_successes := 0;
             unhealthy_since := Some (now_mark r); window := w;
             total_requests := total_requests s1; total_failures := total_failures s1;
             avg_response_time_us := avg_response_time_us s1 |})
    else (NoChange, s1)
  else
    if success_threshold cfg <=? cons_successes s1
    then (BecameHealthy,
          {| healthy := true; cons_failures := 0; cons_successes := cons_successes s1;
             unhealthy_since := None; window := w;
             total_requests := total_requests s1; total_failures := total_failures s1;
             avg_response_time_us := avg_response_time_us s1 |})
    else (NoChange, s1).

Definition record_response (url : string) (r : response) (c : Checker) : HealthChange * Checker :=
  let s := default (backend_new (window_duration (config c))) (backends c !! url) in
  let '(change, s') := record (config c) r s in
  (change, {| config := config c; backends := <[url := s']> (backends c) |}).

Record BackendStats := {
  st_healthy : bool;
  st_total_requests : Z;
  st_total_failures : Z;
  st_avg : Z;
  st_consecutive_failures : Z;
  st_consecutive_successes : Z;
  st_recent_failure_count : nat;
}.

Definition stats_of (now : Z) (s : BackendState) : BackendStats :=
  {| st_healthy := healthy s; st_total_requests := total_requests s;
     st_total_failures := total_failures s; st_avg := avg_response_time_us s;
     st_consecutive_failures := cons_failures s; st_consecutive_successes := cons_successes s;
     st_recent_failure_count := win_failure_count now (window s) |}.

Definition get_stats (c : Checker) (url : string) (now : Z) : option BackendStats :=
  stats_of now <$> backends c !! url.
(** Every backend with its statistics, in the order of the map; the clock is read
    for each. *)
Definition all_stats (c : Checker) (now : string -> Z) : list (string * BackendStats) :=
  (fun e => (e.1, stats_of (now e.1) e.2)) <$> map_to_list (backends c).
Lemma all_stats_exact c now url st : (url, st) ∈ all_stats c now <-> get_stats c url (now url) = Some st.
Proof.
  unfold all_stats, get_stats. rewrite list_elem_of_fmap, fmap_Some. split.
  - intros ([u s] & [= -> ->] & Hin%elem_of_map_to_list). by exists s.
  - intros (s & Hs & ->). exists (url, s). split; [done|by apply elem_of_map_to_list].
Qed.

(** ** The builder of the settings *)
Definition builder_new : PassiveHealthConfig := default_config.
Definition set_failure_threshold (n : Z) (c : PassiveHealthConfig) : PassiveHealthConfig :=
  {| failure_threshold := n; success_threshold := success_threshold c; failure_status_codes := failure_status_codes c;
     response_time_threshold_ms := response_time_threshold_ms c; window_duration := window_duration c; recovery_interval := recovery_interval c |}.
Definition set_success_threshold (n : Z) (c : PassiveHealthConfig) : PassiveHealthConfig :=
  {| failure_threshold := failure_threshold c; success_threshold := n; failure_status_codes := failure_status_codes c;
     response_time_threshold_ms := response_time_threshold_ms c; window_duration := window_duration c; recovery_interval := recovery_interval c |}.
Definition set_failure_status_codes (codes : list Z) (c : PassiveHealthConfig) : PassiveHealthConfig :=
  {| failure_threshold := failure_threshold c; success_threshold := success_threshold c; failure_status_codes := list_to_set codes;
     response_time_threshold_ms := response_time_threshold_ms c; window_duration := window_duration c; recovery_interval := recovery_interval c |}.
Definition set_response_time_threshold_ms (ms : Z) (c : PassiveHealthConfig) : PassiveHealthConfig :=
  {| failure_threshold := failure_threshold c; success_threshold := success_threshold c; failure_status_codes := failure_status_codes c;
     response_time_threshold_ms := Some ms; window_duration := window_duration c; recovery_interval := recovery_interval c |}.
Definition set_window_duration (d : Z) (c : PassiveHealthConfig) : PassiveHealthConfig :=
  {| failure_threshold := failure_threshold c; success_threshold := success_threshold c; failure_status_codes := failure_status_codes c;
     response_time_threshold_ms := response_time_threshold_ms c; window_duration := d; recovery_interval := recovery_interval c |}.
Definition set_recovery_interval (d : Z) (c : PassiveHealthConfig) : PassiveHealthConfig :=
  {| failure_threshold := failure_threshold c; success_threshold := success_threshold c; failure_status_codes := failure_status_codes c;
     response_time_threshold_ms := response_time_threshold_ms c; window_duration := window_duration c; recovery_interval := d |}.
Definition builder_build (c : PassiveHealthConfig) : PassiveHealthConfig := c.

(** ** What the state records of the responses *)
Definition failed cfg (r : response) : bool := is_failure cfg (status_code r) (response_time r).

(** Responses newest first, clock readings not going back. *)
Fixpoint in_order (h : list response) : Prop :=
  match h with
  | r :: h' => Forall (fun r' => now_window r' <= now_window r) h' /\ in_order h'
  | [] => True
  end.

(** The failures among [h] in the window that ends at [now]. *)
Definition recent_failures cfg (now : Z) (h : list response) : Z :=
  Z.of_nat (length (filter (fun r => now - window_duration cfg < now_window r /\ failed cfg r = true) h)).

Definition run cfg (h : list response) : BackendState :=
  foldr (fun r s => (record cfg r s).2) (backend_new (window_duration cfg)) h.

(** The state of a backend after the responses [h], newest first. *)
Record records cfg (s : BackendState) (h : list response) : Prop := {
  rec_failures : cons_failures s = streak false (negb ∘ failed cfg <$> h);
  rec_duration : duration (window s) = window_duration cfg;
  rec_total : total_requests s = wrap_u64 (Z.of_nat (length h));
  rec_failed : total_failures s = wrap_u64 (Z.of_nat (length (filter (fun r => failed cfg r = true) h)));
  rec_window : forall now, Forall (fun r => now_window r <= now) h ->
    filter (fun e => now - window_duration cfg < e.1) (entries (window s)) =
    reverse ((fun r => (now_window r, failed cfg r)) <$>
      filter (fun r => now - window_duration cfg < now_window r) h);
}.

Lemma new_records cfg : records cfg (backend_new (window_duration cfg)) [].
Proof. by split. Qed.

Lemma streak_length v h : streak v h <= Z.of_nat (length h).
Proof. induction h as [|b h IH]; [done|]. cbn [streak length]. destruct (Bool.eqb b v); lia. Qed.

(** Entries dropped from the window stay out of every later window. *)
Lemma window_step cfg s h r : records cfg s h -> in_order (r :: h) ->
  forall now, Forall (fun r' => now_window r' <= now) (r :: h) ->
  filter (fun e => now - window_duration cfg < e.1)
    (entries (win_add (now_window r) (failed cfg r) (window s)).2) =
  reverse ((fun r => (now_window r, failed cfg r)) <$>
    filter (fun r => now - window_duration cfg < now_window r) (r :: h)).
Proof.
  intros Hrec [_ _] now Hnow. inversion_clear Hnow as [|? ? Hr Hh].
  cbn [win_add snd entries]. rewrite (rec_duration _ _ _ Hrec), filter_app.
  rewrite list_filter_filter.
  rewrite (list_filter_iff _ (fun e : Z * bool => now - window_duration cfg < e.1)) by (intros; lia).
  rewrite (rec_window _ _ _ Hrec now Hh). rewrite !filter_cons, filter_nil. cbn [fst].
  destruct (decide (now - window_duration cfg < now_window r)); [by rewrite fmap_cons, reverse_cons|].
  by rewrite app_nil_r.
Qed.

Lemma record_window cfg r s :
  window (record cfg r s).2 = (win_add (now_window r) (failed cfg r) (window s)).2.
Proof.
  unfold record. fold (failed cfg r). destruct (win_add _ _ _) as [[fc n] w]. cbn [healthy].
  destruct (healthy s); cbn [cons_failures cons_successes]; by repeat case_match; simplify_eq/=.
Qed.

Lemma record_counts cfg r s : 1 <= success_threshold cfg ->
  cons_failures (record cfg r s).2 = (if failed cfg r then wrap_u32 (cons_failures s + 1) else 0) /\
  total_requests (record cfg r s).2 = wrap_u64 (total_requests s + 1) /\
  total_failures (record cfg r s).2 =
    (if failed cfg r then wrap_u64 (total_failures s + 1) else total_failures s).
Proof.
  intros Hst. unfold record. fold (failed cfg r). destruct (win_add _ _ _) as [[fc n] w]. cbn [healthy].
  destruct (healthy s); cbn [cons_failures cons_successes total_requests total_failures];
    [by destruct (_ || _)|].
  destruct (failed cfg r); [|by destruct (_ <=? _)]. by destruct (Z.leb_spec (success_threshold cfg) 0); [lia|].
Qed.

Lemma wrap_u64_succ n : wrap_u64 (wrap_u64 (Z.of_nat n) + 1) = wrap_u64 (Z.of_nat (S n)).
Proof. unfold wrap_u64. rewrite Zplus_mod_idemp_l. f_equal. lia. Qed.

Lemma record_records cfg s h r : 1 <= success_threshold cfg -> records cfg s h -> in_order (r :: h) ->
  Z.of_nat (length h) < u32_max -> records cfg (record cfg r s).2 (r :: h).
Proof.
  intros Hst Hrec Hord Hlen. destruct (record_counts cfg r s Hst) as (H1 & H2 & H3).
  pose proof (streak_nonneg false (negb ∘ failed cfg <$> h)).
  pose proof (streak_length false (negb ∘ failed cfg <$> h)) as Hl. rewrite length_fmap in Hl.
  split.
  - rewrite H1, (rec_failures _ _ _ Hrec). cbn [fmap list_fmap streak]. unfold compose at 2.
    destruct (failed cfg r); cbn [negb Bool.eqb]; [|done]. rewrite wrap_u32_id by word. unfold fmap. lia.
  - rewrite record_window. apply (rec_duration _ _ _ Hrec).
  - rewrite H2, (rec_total _ _ _ Hrec). apply wrap_u64_succ.
  - rewrite H3, (rec_failed _ _ _ Hrec), filter_cons. destruct (failed cfg r); [|done].
    rewrite decide_True by done. apply wrap_u64_succ.
  - rewrite record_window. by apply window_step.
Qed.

Lemma run_records cfg h : 1 <= success_threshold cfg -> in_order h ->
  Z.of_nat (length h) <= u32_max -> records cfg (run cfg h) h.
Proof.
  intros Hst. induction h as [|r h IH]; [intros; apply new_records|]. intros Hord Hlen. cbn [length] in Hlen.
  apply record_records; [done| |done|lia]. apply IH; [apply Hord|lia].
Qed.

(** The failure count that [record] compares with the threshold. *)
Lemma window_count cfg s h r : records cfg s h -> in_order (r :: h) ->
  Z.of_nat (win_add (now_window r) (failed cfg r) (window s)).1.1 =
  Z.of_nat (length (filter (fun r' => failed cfg r' = true)
    (filter (fun r' => now_window r - window_duration cfg < now_window r') h))) +
  (if failed cfg r then 1 else 0).
Proof.
  intros Hrec [Hle _]. cbn [win_add fst]. rewrite (rec_duration _ _ _ Hrec), (rec_window _ _ _ Hrec (now_window r) Hle).
  rewrite filter_app, length_app, filter_cons, filter_nil. cbn [snd].
  assert (Hrev : forall l : list response,
    length (filter (fun e : Z * bool => e.2 = true) (reverse ((fun r0 => (now_window r0, failed cfg r0)) <$> l))) =
    length (filter (fun r0 => failed cfg r0 = true) l)).
  { induction l as [|x l IH]; [done|]. rewrite fmap_cons, reverse_cons, filter_app, length_app, IH, !filter_cons, filter_nil.
    cbn [snd]. destruct (failed cfg x); [rewrite !decide_True by done|rewrite !decide_False by done]; simpl; lia. }
  rewrite Hrev. destruct (failed cfg r); [rewrite decide_True by done|rewrite decide_False by done]; simpl; lia.
Qed.

Lemma recent_split cfg now h : recent_failures cfg now h =
  Z.of_nat (length (filter (fun r' => failed cfg r' = true)
    (filter (fun r' => now - window_duration cfg < now_window r') h))).
Proof.
  unfold recent_failures. rewrite list_filter_filter. do 2 f_equal.
  apply list_filter_iff. intros x. tauto.
Qed.

(** The outcomes of responses, [true] for success. *)
Definition outcomes cfg (h : list response) : list bool := negb ∘ failed cfg <$> h.

Definition ejects cfg (r : response) (h : list response) : bool :=
  (failure_threshold cfg <=? streak false (outcomes cfg (r :: h))) ||
  (failure_threshold cfg <=? recent_failures cfg (now_window r) h + (if failed cfg r then 1 else 0)).

Lemma record_healthy cfg r s : healthy s = true ->
  let eject := (failure_threshold cfg <=? (if failed cfg r then wrap_u32 (cons_failures s + 1) else 0)) ||
    (failure_threshold cfg <=? Z.of_nat (win_add (now_window r) (failed cfg r) (window s)).1.1) in
  healthy (record cfg r s).2 = negb eject /\
  (record cfg r s).1 = (if eject then BecameUnhealthy else NoChange) /\
  (eject = true -> cons_successes (record cfg r s).2 = 0).
Proof.
  intros Hh eject. unfold record. fold (failed cfg r). unfold eject.
  destruct (win_add _ _ _) as [[fc n] w]. cbn [fst snd healthy cons_failures]. rewrite Hh. by destruct (_ || _).
Qed.

Lemma record_unhealthy cfg r s : healthy s = false ->
  let recover := success_threshold cfg <=? (if failed cfg r then 0 else wrap_u32 (cons_successes s + 1)) in
  healthy (record cfg r s).2 = recover /\
  (record cfg r s).1 = (if recover then BecameHealthy else NoChange) /\
  cons_successes (record cfg r s).2 = (if failed cfg r then 0 else wrap_u32 (cons_successes s + 1)).
Proof.
  intros Hh recover. unfold record. fold (failed cfg r). unfold recover.
  destruct (win_add _ _ _) as [[fc n] w]. cbn [fst snd healthy cons_successes]. rewrite Hh. by destruct (_ <=? _).
Qed.

(** While an ejected backend has not recovered, its success count is the
    current streak of successes since the ejection. *)
Lemma successes_since cfg e h l :
  healthy (run cfg h) = true -> healthy (run cfg (e :: h)) = false ->
  (forall l' p, l = p ++ l' -> healthy (run cfg (l' ++ e :: h)) = false) ->
  Z.of_nat (length l) <= u32_max ->
  cons_successes (run cfg (l ++ e :: h)) = streak true (outcomes cfg l).
Proof.
  intros Hup Hdown. induction l as [|r l IH]; intros Hall Hlen.
  - destruct (record_healthy cfg e (run cfg h) Hup) as (H1 & _ & H3). cbn [app outcomes fmap list_fmap streak].
    apply H3. change (healthy (record cfg e (run cfg h)).2) with (healthy (run cfg (e :: h))) in H1.
    rewrite Hdown in H1. by destruct (_ || _).
  - cbn [length] in Hlen. pose proof (streak_length true (outcomes cfg l)) as Hl.
    pose proof (streak_nonneg true (outcomes cfg l)).
    unfold outcomes in Hl. rewrite length_fmap in Hl.
    destruct (record_unhealthy cfg r (run cfg (l ++ e :: h))) as (_ & _ & H3); [by apply (Hall l [r])|].
    cbn [app]. change (run cfg (r :: l ++ e :: h)) with (record cfg r (run cfg (l ++ e :: h))).2.
    rewrite H3, IH; [|intros l' p ->; by apply (Hall l' (r :: p))|lia].
    unfold outcomes in *. rewrite fmap_cons. cbn [streak].
    change ((negb ∘ failed cfg) r) with (negb (failed cfg r)). destruct (failed cfg r); [done|]. cbn [negb Bool.eqb]. rewrite wrap_u32_id by word. lia.
Qed.
End Passive.

(** C34. Passive ejection. A healthy backend is ejected by a response exactly when,
    counting it, the streak of failures reaches the threshold or the failures
    within the sliding window do; the window the code prunes incrementally holds
    exactly the responses of the window. Otherwise nothing changes. *)
Theorem passive_ejection (cfg : Passive.PassiveHealthConfig) (h : list Passive.response) (r : Passive.response) :
  1 <= Passive.success_threshold cfg -> Passive.in_order (r :: h) -> Z.of_nat (length h) < u32_max ->
  Passive.healthy (Passive.run cfg h) = true ->
  Passive.healthy (Passive.run cfg (r :: h)) = negb (Passive.ejects cfg r h) /\
  (Passive.record cfg r (Passive.run cfg h)).1 =
    (if Passive.ejects cfg r h then Passive.BecameUnhealthy else Passive.NoChange).
Proof.
  intros Hst Hord Hlen Hup.
  pose proof (Passive.run_records cfg h Hst (proj2 Hord) ltac:(lia)) as Hrec.
  destruct (Passive.record_healthy cfg r _ Hup) as (H1 & H2 & _).
  assert (He : Passive.ejects cfg r h =
    (Passive.failure_threshold cfg <=? (if Passive.failed cfg r then wrap_u32 (Passive.cons_failures (Passive.run cfg h) + 1) else 0)) ||
    (Passive.failure_threshold cfg <=? Z.of_nat (Passive.win_add (Passive.now_window r) (Passive.failed cfg r) (Passive.window (Passive.run cfg h))).1.1)).
  { unfold Passive.ejects. rewrite (Passive.window_count cfg _ h r Hrec Hord), Passive.recent_split.
    rewrite (Passive.rec_failures _ _ _ Hrec). f_equal. unfold Passive.outcomes. rewrite fmap_cons. cbn [streak].
    change ((negb ∘ Passive.failed cfg) r) with (negb (Passive.failed cfg r)). destruct (Passive.failed cfg r); [|done]. cbn [negb Bool.eqb]. f_equal.
    pose proof (Passive.streak_length false (negb ∘ Passive.failed cfg <$> h)) as Hl. rewrite length_fmap in Hl.
    pose proof (streak_nonneg false (negb ∘ Passive.failed cfg <$> h)). rewrite wrap_u32_id by word. lia. }
  rewrite He. split; [exact H1|exact H2].
Qed.

(** Passive recovery. After an ejection, the backend is reinstated by the first
    response that completes a streak of [success_threshold] successes received
    since the ejection, and not before. *)
Theorem passive_recovery (cfg : Passive.PassiveHealthConfig) (h l : list Passive.response) (e r : Passive.response) :
  1 <= Passive.success_threshold cfg ->
  Passive.healthy (Passive.run cfg h) = true -> Passive.healthy (Passive.run cfg (e :: h)) = false ->
  (forall l' p, l = p ++ l' -> Passive.healthy (Passive.run cfg (l' ++ e :: h)) = false) ->
  Z.of_nat (length l) < u32_max ->
  Passive.healthy (Passive.run cfg (r :: l ++ e :: h)) =
    (Passive.success_threshold cfg <=? streak true (Passive.outcomes cfg (r :: l))).
Proof.
  intros Hst Hup Hdown Hall Hlen.
  destruct (Passive.record_unhealthy cfg r (Passive.run cfg (l ++ e :: h))) as (H1 & _ & _); [by apply (Hall l [])|].
  rewrite (Passive.successes_since cfg e h l) in H1 by (done || lia).
  change (Passive.run cfg (r :: l ++ e :: h)) with (Passive.record cfg r (Passive.run cfg (l ++ e :: h))).2. rewrite H1.
  pose proof (Passive.streak_length true (Passive.outcomes cfg l)) as Hl. unfold Passive.outcomes in *.
  pose proof (streak_nonneg true (negb ∘ Passive.failed cfg <$> l)). rewrite length_fmap in Hl.
  f_equal. rewrite fmap_cons. cbn [streak]. change ((negb ∘ Passive.failed cfg) r) with (negb (Passive.failed cfg r)).
  destruct (Passive.failed cfg r); [done|].
  cbn [negb Bool.eqb]. rewrite wrap_u32_id by word. lia.
Qed.

(** Sample responses at second [t]. *)
Definition resp (code t : Z) : Passive.response :=
  {| Passive.status_code := code; Passive.response_time := 10 ^ 6;
     Passive.now_window := Passive.secs t; Passive.now_mark := Passive.secs t |}.
Definition four_failures : list Passive.response := [resp 503 4; resp 500 3; resp 502 2; resp 500 1].

Lemma passive_ejection_witness :
  let cfg := Passive.default_config in
  Passive.healthy (Passive.run cfg (resp 500 5 :: four_failures)) = negb (Passive.ejects cfg (resp 500 5) four_failures) /\
  Passive.ejects cfg (resp 500 5) four_failures = true /\
  Passive.ejects cfg (resp 200 5) four_failures = false.
Proof.
  intros cfg. split; [|split; vm_compute; reflexivity].
  apply (passive_ejection cfg four_failures (resp 500 5)).
  - vm_compute. discriminate.
  - repeat split; repeat constructor; vm_compute; discriminate.
  - vm_compute. reflexivity.
  - vm_compute. reflexivity.
Defined.

Lemma passive_recovery_witness :
  let cfg := Passive.default_config in
  Passive.healthy (Passive.run cfg ([resp 200 7; resp 200 6] ++ resp 500 5 :: four_failures)) = true.
Proof.
  intros cfg. change true with (Passive.success_threshold cfg <=? streak true (Passive.outcomes cfg [resp 200 7; resp 200 6])).
  apply (passive_recovery cfg four_failures [resp 200 6] (resp 500 5) (resp 200 7)).
  - vm_compute. discriminate.
  - vm_compute. reflexivity.
  - vm_compute. reflexivity.
  - intros [|x l'] p Hp; [vm_compute; reflexivity|].
    destruct p as [|y p]; [injection Hp as <- <-; vm_compute; reflexivity|].
    exfalso. injection Hp as _ Hp. by destruct p.
  - vm_compute. reflexivity.
Defined.

(** Recovery does not clear the sliding window: with the default
    configuration, a backend that failed five times and then recovered through
    two successes is ejected again by its next response although that response
    succeeds,
    because the old failures are still in the window. *)
Theorem passive_flaps_after_recovery :
  let cfg := Passive.default_config in
  let recovered := [resp 200 7; resp 200 6; resp 500 5] ++ four_failures in
  Passive.healthy (Passive.run cfg recovered) = true /\
  Passive.failed cfg (resp 200 8) = false /\
  (Passive.record cfg (resp 200 8) (Passive.run cfg recovered)).1 = Passive.BecameUnhealthy.
Proof. split_and!; vm_compute; reflexivity. Qed.
