(* ===== verification/Service.v ===== *)
(** * Services: the registry and the forwarding pipeline

    Models src/src/service/manager.rs ([ServiceManager]) and the parts of
    src/src/proxy/handler.rs that choose a backend, record its response with the
    passive health checker and mark the balancer ([forward_to_backend_inner],
    [apply_health_change]). Requests run concurrently: choosing a backend,
    recording its response and applying the resulting health change are separate
    atomic steps of the system, which interleave with those of other requests. *)
From S2P Require Import Prelude Config Balancer Weighted LoadBalancer Health.
From stdpp Require Import list.
Open Scope Z_scope.
Open Scope list_scope.

Record LoadBalancerService := { servers : list Server; health_check : bool (* configured *) }.
Record ServiceConfig := {
  load_balancer : option LoadBalancerService;
  weighted : option (list WeightedServiceRef);
  mirroring : option string; (* the primary service *)
  failover : option FailoverService;
}.

Record ServiceState := {
  config : ServiceConfig;
  balancer : option LoadBalancer;
  health_statuses : list HealthStatus;
}.

(** The body of the loop of [ServiceManager::new]. *)
Definition service_state (c : ServiceConfig) : ServiceState :=
  let '(b, hs) :=
    match load_balancer c with
    | Some lb => (Some (from_load_balancer (servers lb)), (fun _ => hs_new) <$> servers lb)
    | None => (None, []) (* weighted, mirroring, failover or nothing *)
    end in
  {| config := c; balancer := b; health_statuses := hs |}.

Abbreviation manager := (gmap string ServiceState).
Definition manager_new (cfg : list (string * ServiceConfig)) : manager :=
  fold_left (fun m nc => <[nc.1 := service_state nc.2]> m) cfg ∅.

Definition get_service (m : manager) (name : string) : option ServiceState := m !! name.
Definition get_load_balancer_config (m : manager) (name : string) : option LoadBalancerService :=
  s ← m !! name; load_balancer (config s).

(** ** Forwarding *)

(** The URL a request is sent to, and the key of its health record. *)
Definition backend_url (s : Server) : string := default (url s) (url_arc s).

Definition set_balancer (b : LoadBalancer) (s : ServiceState) : ServiceState :=
  {| config := config s; balancer := Some b; health_statuses := health_statuses s |}.

Inductive selection :=
| Selected (u : string) (parsed : option ParsedBackendUri)
| ServiceUnavailable (* 503: no such service *)
| NoHealthyBackends (* 503 *)
| NotConfigured. (* 503: no load balancer *)

(** The choice of a backend; [tls] is the thread's random state. *)
Definition select_backend (name : string) (m : manager) (tls : Z) : selection * manager * Z :=
  match get_service m name with
  | None => (ServiceUnavailable, m, tls)
  | Some s =>
      match balancer s with
      | None => (NotConfigured, m, tls)
      | Some b =>
          let '(o, b', tls') := next_server b tls in
          let m' := <[name := set_balancer b' s]> m in
          match o with
          | Some srv => (Selected (backend_url srv) (parsed_uri srv), m', tls')
          | None => (NoHealthyBackends, m', tls')
          end
      end
  end.

(** What the exchange with the backend gave, and the status recorded for it. *)
Inductive exchange := Response (status : Z) | RequestError | RequestTimeout.
Definition recorded_status (x : exchange) : Z :=
  match x with Response s => s | RequestError => 502 | RequestTimeout => 504 end.

Definition apply_health_change (change : Passive.HealthChange) (u name : string) (m : manager) : manager :=
  match change with
  | Passive.NoChange => m
  | _ =>
      match get_service m name with
      | Some s =>
          match balancer s with
          | Some b =>
              match find_server_index b u with
              | Some idx =>
                  let b' := match change with
                            | Passive.BecameUnhealthy => mark_unhealthy idx b
                            | Passive.BecameHealthy => mark_healthy idx b
                            | Passive.NoChange => b
                            end in
                  <[name := set_balancer b' s]> m
              | None => m
              end
          | None => m
          end
      | None => m
      end
  end.

(** ** The system: requests in flight and health changes not yet applied *)
Record system := {
  services : manager;
  passive : Passive.Checker;
  rng : Z;
  inflight : list (string * string); (* service, backend *)
  pending : list (Passive.HealthChange * string * string); (* change, backend, service *)
}.

Inductive event :=
| Begin (name : string)
| Reply (i : nat) (x : exchange) (elapsed now_window now_mark : Z)
| Apply (i : nat)
| Leave (i : nat). (* ends unrecorded: WebSocket upgrade, URI error, client gone *)

Definition step (e : event) (s : system) : option system :=
  match e with
  | Begin name =>
      let '(sel, m', rng') := select_backend name (services s) (rng s) in
      Some {| services := m'; passive := passive s; rng := rng';
              inflight := match sel with Selected u _ => inflight s ++ [(name, u)] | _ => inflight s end;
              pending := pending s |}
  | Reply i x elapsed nw nm =>
      '(name, u) ← inflight s !! i;
      let '(change, p') := Passive.record_response u
        {| Passive.status_code := recorded_status x; Passive.response_time := elapsed;
           Passive.now_window := nw; Passive.now_mark := nm |} (passive s) in
      Some {| services := services s; passive := p'; rng := rng s;
              inflight := delete i (inflight s);
              pending := pending s ++ [(change, u, name)] |}
  | Apply i =>
      '(change, u, name) ← pending s !! i;
      Some {| services := apply_health_change change u name (services s); passive := passive s;
              rng := rng s; inflight := inflight s; pending := delete i (pending s) |}
  | Leave i =>
      Some {| services := services s; passive := passive s; rng := rng s;
              inflight := delete i (inflight s); pending := pending s |}
  end.

Fixpoint steps (es : list event) (s : system) : option system :=
  match es with
  | [] => Some s
  | e :: es' => s' ← step e s; steps es' s'
  end.

Definition start (cfg : list (string * ServiceConfig)) (pc : Passive.PassiveHealthConfig) (seed : Z) : system :=
  {| services := manager_new cfg; passive := Passive.new pc; rng := seed; inflight := []; pending := [] |}.

(** ** What the balancers show: servers and health flags of a service *)
Definition view (m : manager) (n : string) : option (list Server * list bool) :=
  s ← m !! n; b ← balancer s; Some (lb_servers b, lb_health b).

Definition manager_wf (m : manager) : Prop :=
  forall n s b, m !! n = Some s -> balancer s = Some b -> lb_wf b.

Lemma view_Some m n ss hs : view m n = Some (ss, hs) <->
  exists s b, m !! n = Some s /\ balancer s = Some b /\ ss = lb_servers b /\ hs = lb_health b.
Proof.
  unfold view. destruct (m !! n) as [s|]; simpl; [|by split; [|intros (? & ? & ? & _)]].
  destruct (balancer s) as [b|] eqn:E; simpl; [|split; [done|]; intros (? & ? & ? & ? & _); by simplify_eq]. split; [intros; simplify_eq; eauto 6|].
  intros (s' & b' & H1 & H2 & -> & ->). by simplify_eq.
Qed.

(** Replacing a balancer by one with the same view changes no view. *)
Lemma view_replace m n s b b' : m !! n = Some s -> balancer s = Some b ->
  forall n', view (<[n := set_balancer b' s]> m) n' =
    if decide (n' = n) then Some (lb_servers b', lb_health b') else view m n'.
Proof.
  intros Hm Hb n'. unfold view. destruct (decide (n' = n)) as [->|Hne].
  - by rewrite lookup_insert_eq.
  - by rewrite lookup_insert_ne.
Qed.

Lemma wf_replace m n s b' : manager_wf m -> lb_wf b' -> manager_wf (<[n := set_balancer b' s]> m).
Proof.
  intros Hwf Hb n' s' b Hs' Hb'. destruct (decide (n' = n)) as [->|Hne].
  - rewrite lookup_insert_eq in Hs'. by simplify_eq/=.
  - rewrite lookup_insert_ne in Hs' by done. by eapply Hwf.
Qed.

(** Choosing a backend changes no server list and no flag, and the chosen URL
    is one of the service's. *)
Lemma select_backend_spec name m tls sel m' tls' : manager_wf m ->
  select_backend name m tls = (sel, m', tls') ->
  manager_wf m' /\ (forall n, view m' n = view m n) /\
  (forall u p, sel = Selected u p -> exists ss hs srv, view m name = Some (ss, hs) /\ srv ∈ ss /\ backend_url srv = u /\ parsed_uri srv = p).
Proof.
  intros Hwf. unfold select_backend, get_service. destruct (m !! name) as [s|] eqn:Hs; [|by intros; simplify_eq].
  destruct (balancer s) as [b|] eqn:Hb; [|by intros; simplify_eq].
  pose proof (Hwf _ _ _ Hs Hb) as Hbwf. destruct (next_server b tls) as [[o b'] t'] eqn:Hn.
  pose proof (law_wf_next (BalancerLaws := lb_laws) b tls Hbwf) as H1.
  pose proof (law_servers_next (BalancerLaws := lb_laws) b tls) as H2.
  pose proof (law_health_next (BalancerLaws := lb_laws) b tls) as H3.
  pose proof (law_next_member (BalancerLaws := lb_laws) b tls) as H4. rewrite Hn in H1, H2, H3, H4. cbn [fst snd] in *.
  assert (Hv : view m name = Some (lb_servers b, lb_health b)) by (apply view_Some; eauto 6).
  intros Heq. assert (m' = <[name := set_balancer b' s]> m) as -> by (destruct o; by simplify_eq).
  split; [by apply wf_replace|]. split.
  - intros n. rewrite (view_replace _ _ _ _ _ Hs Hb). case_decide as Hd; [|done]. subst n. by rewrite H2, H3.
  - intros u p Hsel. destruct o as [srv|]; simplify_eq. exists (lb_servers b), (lb_health b), srv. eauto.
Qed.

(** What a health change does to a flag. *)
Definition settle1 (c : Passive.HealthChange) (f : bool) : bool :=
  match c with
  | Passive.NoChange => f
  | Passive.BecameHealthy => true
  | Passive.BecameUnhealthy => false
  end.

(** The change that announces the flag [v]. *)
Definition change_to (v : bool) : Passive.HealthChange :=
  if v then Passive.BecameHealthy else Passive.BecameUnhealthy.

Definition mark_flag (v : bool) (i : nat) (b : LoadBalancer) : LoadBalancer :=
  if v then mark_healthy i b else mark_unhealthy i b.

Lemma mark_flag_spec v i b : lb_wf b -> lb_wf (mark_flag v i b) /\
  lb_servers (mark_flag v i b) = lb_servers b /\ lb_health (mark_flag v i b) = <[i := v]> (lb_health b).
Proof.
  intros Hwf. destruct v; cbn [mark_flag]; split_and!.
  - by apply (law_wf_healthy (BalancerLaws := lb_laws)).
  - apply (law_servers_healthy (BalancerLaws := lb_laws)).
  - apply (law_health_healthy (BalancerLaws := lb_laws)).
  - by apply (law_wf_unhealthy (BalancerLaws := lb_laws)).
  - apply (law_servers_unhealthy (BalancerLaws := lb_laws)).
  - apply (law_health_unhealthy (BalancerLaws := lb_laws)).
Qed.

Lemma apply_change_to v u name m : apply_health_change (change_to v) u name m =
  match get_service m name with
  | Some s => match balancer s with
              | Some b => match find_server_index b u with
                          | Some i => <[name := set_balancer (mark_flag v i b) s]> m
                          | None => m
                          end
              | None => m
              end
  | None => m
  end.
Proof. by destruct v. Qed.

Lemma apply_change_spec v u name m : manager_wf m ->
  manager_wf (apply_health_change (change_to v) u name m) /\
  forall n, view (apply_health_change (change_to v) u name m) n =
    if decide (n = name) then
      (fun p => (p.1, match position_url p.1 u with Some i => <[i := v]> p.2 | None => p.2 end)) <$> view m n
    else view m n.
Proof.
  intros Hwf. rewrite apply_change_to. unfold get_service.
  assert (Hnone : view m name = None -> manager_wf m /\ forall n, view m n =
    if decide (n = name) then
      (fun p => (p.1, match position_url p.1 u with Some i => <[i := v]> p.2 | None => p.2 end)) <$> view m n
    else view m n).
  { intros Hv. split; [done|]. intros n. case_decide as Hd; [|done]. by rewrite Hd, Hv. }
  destruct (m !! name) as [s|] eqn:Hs; [|apply Hnone; unfold view; by rewrite Hs].
  destruct (balancer s) as [b|] eqn:Hb; [|apply Hnone; unfold view; rewrite Hs; simpl; by rewrite Hb].
  assert (Hv : view m name = Some (lb_servers b, lb_health b)) by (apply view_Some; eauto 6).
  rewrite (law_find (BalancerLaws := lb_laws)).
  destruct (mark_flag_spec v (default O (position_url (lb_servers b) u)) b (Hwf _ _ _ Hs Hb)) as (H1 & H2 & H3).
  destruct (position_url (lb_servers b) u) as [i|] eqn:Hp; cbn [default from_option id] in *.
  - split; [by apply wf_replace|]. intros n. rewrite (view_replace _ _ _ _ _ Hs Hb).
    case_decide as Hd; [|done]. rewrite Hd, Hv. cbn [fmap option_fmap option_map fst snd]. by rewrite H2, H3, Hp.
  - split; [done|]. intros n. case_decide as Hd; [|done]. rewrite Hd, Hv. cbn [fmap option_fmap option_map fst snd].
    by rewrite Hp.
Qed.

(** Recording a response reports exactly the change it makes. *)
Lemma record_change cfg r s : Passive.healthy (Passive.record cfg r s).2 =
  settle1 (Passive.record cfg r s).1 (Passive.healthy s).
Proof.
  destruct (Passive.healthy s) eqn:E.
  - destruct (Passive.record_healthy cfg r s E) as (-> & -> & _). by destruct (_ || _).
  - destruct (Passive.record_unhealthy cfg r s E) as (-> & -> & _). by destruct (_ <=? _).
Qed.

Lemma record_response_spec u r c change c' : Passive.record_response u r c = (change, c') ->
  forall u', Passive.is_healthy c' u' =
    if decide (u' = u) then settle1 change (Passive.is_healthy c u') else Passive.is_healthy c u'.
Proof.
  unfold Passive.record_response. intros Heq u'.
  pose proof (record_change (Passive.config c) r
    (default (Passive.backend_new (Passive.window_duration (Passive.config c))) (Passive.backends c !! u))) as Hr.
  destruct (Passive.record _ _ _) as [ch s']. simplify_eq/=. unfold Passive.is_healthy. cbn [Passive.backends].
  case_decide as Hd.
  - subst u'. rewrite lookup_insert_eq. simpl. rewrite Hr. by destruct (Passive.backends c !! u).
  - by rewrite lookup_insert_ne.
Qed.

(** ** Flags and health records agree *)

(** The changes still to be applied for a backend, oldest first. *)
Definition changes_for (u : string) (p : list (Passive.HealthChange * string * string)) : list Passive.HealthChange :=
  (fun e => e.1.1) <$> filter (fun e => e.1.2 = u) p.

Definition settle (cs : list Passive.HealthChange) (f : bool) : bool := fold_left (fun f c => settle1 c f) cs f.

Section Agreement.
(** The backend whose flag is followed. *)
Context (u0 : string).

(** Requests use the server's URL, and [u0] is that of one server. *)
Record servers_ok (v : string -> option (list Server * list bool)) : Prop := {
  ok_url : forall n ss hs s, v n = Some (ss, hs) -> s ∈ ss -> backend_url s = url s;
  ok_unique : forall n1 n2 ss1 hs1 ss2 hs2 i1 i2 s1 s2,
    v n1 = Some (ss1, hs1) -> v n2 = Some (ss2, hs2) -> ss1 !! i1 = Some s1 -> ss2 !! i2 = Some s2 ->
    url s1 = u0 -> url s2 = u0 -> n1 = n2 /\ i1 = i2;
}.

Definition serves (v : string -> option (list Server * list bool)) (n u : string) : Prop :=
  exists ss hs i s, v n = Some (ss, hs) /\ ss !! i = Some s /\ url s = u.

Record sys_inv (s : system) : Prop := {
  inv_wf : manager_wf (services s);
  inv_ok : servers_ok (view (services s));
  inv_inflight : Forall (fun e => serves (view (services s)) e.1 e.2) (inflight s);
  inv_pending : Forall (fun e => serves (view (services s)) e.2 e.1.2) (pending s);
  inv_agree : forall n ss hs i srv, view (services s) n = Some (ss, hs) -> ss !! i = Some srv -> url srv = u0 ->
    exists f, hs !! i = Some f /\ settle (changes_for u0 (pending s)) f = Passive.is_healthy (passive s) u0;
}.

(** Two systems whose services look the same. *)
Lemma inv_same_view s s' : sys_inv s -> manager_wf (services s') ->
  (forall n, view (services s') n = view (services s) n) ->
  Forall (fun e => serves (view (services s)) e.1 e.2) (inflight s') ->
  Forall (fun e => serves (view (services s)) e.2 e.1.2) (pending s') ->
  (forall u f, settle (changes_for u (pending s)) f = Passive.is_healthy (passive s) u ->
     settle (changes_for u (pending s')) f = Passive.is_healthy (passive s') u) ->
  sys_inv s'.
Proof.
  intros [Hwf [Hu Huq] Hi Hp Ha] Hwf' Hv Hi' Hp' Ha'.
  assert (Hserve : forall n u, serves (view (services s)) n u -> serves (view (services s')) n u).
  { intros n u (ss & hs & i & srv & H1 & H2). exists ss, hs, i, srv. by rewrite Hv. }
  split; [done| | | |].
  - split; [intros n ss hs srv; rewrite Hv; apply Hu|]. intros n1 n2 ss1 hs1 ss2 hs2 i1 i2 s1 s2. rewrite !Hv. apply Huq.
  - eapply Forall_impl; [exact Hi'|]. intros e. apply Hserve.
  - eapply Forall_impl; [exact Hp'|]. intros e. apply Hserve.
  - intros n ss hs i srv. rewrite Hv. intros H1 H2 H3. destruct (Ha _ _ _ _ _ H1 H2 H3) as (f & Hf & Hs). eauto.
Qed.

Lemma changes_app u p q : changes_for u (p ++ q) = changes_for u p ++ changes_for u q.
Proof. unfold changes_for. by rewrite filter_app, fmap_app. Qed.

Lemma settle_snoc cs c f : settle (cs ++ [c]) f = settle1 c (settle cs f).
Proof. unfold settle. by rewrite fold_left_app. Qed.

Lemma begin_inv name s s' : sys_inv s -> step (Begin name) s = Some s' -> sys_inv s'.
Proof.
  intros Hinv. cbn [step]. destruct (select_backend _ _ _) as [[sel m'] t'] eqn:Hsel. intros [= <-].
  destruct (select_backend_spec _ _ _ _ _ _ (inv_wf _ Hinv) Hsel) as (Hwf & Hv & Hmem).
  apply (inv_same_view s); [done|done|done| |apply Hinv|done]. cbn [inflight].
  destruct sel as [u p| | |]; try apply Hinv. apply Forall_app. split; [apply Hinv|]. constructor; [|constructor].
  destruct (Hmem u p eq_refl) as (ss & hs & srv & H1 & H2 & H3 & _). cbn [fst snd].
  pose proof H2 as (i & Hi)%list_elem_of_lookup_1. exists ss, hs, i, srv. split_and!; [done|done|].
  rewrite <- H3. symmetry. by apply (ok_url _ (inv_ok _ Hinv) name ss hs).
Qed.

Lemma Forall_delete_at {A} (P : A -> Prop) i (l : list A) : Forall P l -> Forall P (delete i l).
Proof.
  intros H. rewrite delete_take_drop. apply Forall_app. split; [by apply Forall_take|by apply Forall_drop].
Qed.

Lemma reply_inv i x el nw nm s s' : sys_inv s -> step (Reply i x el nw nm) s = Some s' -> sys_inv s'.
Proof.
  intros Hinv. cbn [step]. destruct (inflight s !! i) as [[name u]|] eqn:Hi; simpl; [|done].
  destruct (Passive.record_response _ _ _) as [c p'] eqn:Hr. intros [= <-].
  apply (inv_same_view s); [done|apply Hinv|done| | |]; cbn [inflight pending passive].
  - apply Forall_delete_at, Hinv.
  - apply Forall_app. split; [apply Hinv|]. constructor; [|constructor]. cbn [fst snd].
    by apply (Forall_lookup_1 _ _ _ _ (inv_inflight _ Hinv) Hi).
  - intros u' f Hf. rewrite changes_app, (record_response_spec _ _ _ _ _ Hr u').
    unfold changes_for at 2. rewrite filter_cons, filter_nil. cbn [fst snd].
    destruct (decide (u = u')) as [->|Hne].
    + rewrite !decide_True by done. cbn [fmap list_fmap fst]. by rewrite settle_snoc, Hf.
    + rewrite decide_False by congruence. by rewrite app_nil_r, Hf.
Qed.

Lemma leave_inv i s s' : sys_inv s -> step (Leave i) s = Some s' -> sys_inv s'.
Proof.
  intros Hinv. cbn [step]. intros [= <-].
  apply (inv_same_view s); [done|apply Hinv|done|apply Forall_delete_at, Hinv|apply Hinv|done].
Qed.

End Agreement.

(** Changes for one backend are applied in the order they were recorded. *)
Definition in_sequence (e : event) (s : system) : Prop :=
  match e with
  | Apply i => forall j c u n c' n', (j < i)%nat ->
      pending s !! i = Some (c, u, n) -> pending s !! j = Some (c', u, n') -> False
  | _ => True
  end.

(** Taking the first entry of backend [u] out of the queue. *)
Lemma changes_delete p i c u n : p !! i = Some (c, u, n) ->
  (forall j c' n', (j < i)%nat -> p !! j = Some (c', u, n') -> False) ->
  forall u', changes_for u' p = (if decide (u' = u) then [c] else []) ++ changes_for u' (delete i p).
Proof.
  intros Hi Hfirst u'. rewrite delete_take_drop.
  rewrite <- (take_drop_middle p i _ Hi) at 1.
  rewrite !changes_app. change ((c, u, n) :: drop (S i) p) with ([(c, u, n)] ++ drop (S i) p). rewrite changes_app.
  assert (Hsing : changes_for u' [(c, u, n)] = if decide (u' = u) then [c] else []).
  { unfold changes_for. rewrite filter_cons, filter_nil. cbn [fst snd].
    destruct (decide (u = u')) as [->|Hne]; [by rewrite !decide_True|by rewrite !decide_False by congruence]. }
  rewrite Hsing. case_decide as Hd; [|done]. subst u'.
  assert (Hno : changes_for u (take i p) = []); [|by rewrite Hno].
  unfold changes_for. apply fmap_nil_inv with (f := id). rewrite list_fmap_id.
  destruct (filter (fun e => e.1.2 = u) (take i p)) as [|[[c' u'] n'] l] eqn:E; [done|].
  assert (Hin : (c', u', n') ∈ filter (fun e => e.1.2 = u) (take i p)) by (rewrite E; left).
  apply list_elem_of_filter in Hin as [Hu Hin]. cbn [fst snd] in Hu. subst u'.
  apply list_elem_of_lookup_1 in Hin as (j & Hj). apply lookup_take_Some in Hj as [Hj Hlt].
  by destruct (Hfirst j c' n' Hlt).
Qed.

Lemma settle_cons c cs f : settle (c :: cs) f = settle cs (settle1 c f).
Proof. done. Qed.

(** Where a change lands: at a server with its URL. *)
Lemma change_lands ss u i : position_url ss u = Some i -> exists srv, ss !! i = Some srv /\ url srv = u.
Proof. intros (srv & H1 & H2 & _)%position_url_Some. eauto. Qed.
Lemma served_position ss i srv u : ss !! i = Some srv -> url srv = u -> exists j, position_url ss u = Some j.
Proof.
  intros Hi Hu. destruct (position_url ss u) as [j|] eqn:E; [eauto|]. exfalso.
  unfold position_url in E. apply fmap_None in E. eapply (list_find_None _ _) in E. rewrite Forall_forall in E.
  apply (E srv); [by eapply list_elem_of_lookup_2|done].
Qed.

Lemma apply_inv u0 i s s' : sys_inv u0 s -> in_sequence (Apply i) s -> step (Apply i) s = Some s' -> sys_inv u0 s'.
Proof.
  intros Hinv Hseq. cbn [step in_sequence] in *. destruct (pending s !! i) as [[[c u] name]|] eqn:Hi; simpl; [|done].
  intros [= <-]. pose proof (changes_delete _ _ _ _ _ Hi (fun j c' n' Hlt Hj => Hseq j c u name c' n' Hlt eq_refl Hj)) as Hch.
  assert (Hpend : Forall (fun e => serves (view (services s)) e.2 e.1.2) (delete i (pending s))) by apply Forall_delete_at, Hinv.
  assert (Hc : c = Passive.NoChange \/ exists v, c = change_to v)
    by (destruct c; [by left|right; by exists true|right; by exists false]).
  destruct Hc as [->|[v ->]].
  { apply (inv_same_view u0 s); [done|apply Hinv|done|apply Hinv|exact Hpend|]. cbn [pending passive].
    intros u' f. rewrite Hch. by case_decide. }
  destruct (apply_change_spec v u name _ (inv_wf _ _ Hinv)) as [Hwf Hview].
  set (m' := apply_health_change (change_to v) u name (services s)) in *.
  destruct (Forall_lookup_1 _ _ _ _ (inv_pending _ _ Hinv) Hi) as (ss0 & hs0 & i0 & srv0 & Hv0 & Hs0 & Hu0). cbn [fst snd] in *.
  destruct (served_position _ _ _ _ Hs0 Hu0) as [k Hpos]. destruct (change_lands _ _ _ Hpos) as (srvk & Hk & Huk).
  assert (Hback : forall n ss hs, view m' n = Some (ss, hs) -> exists hs1, view (services s) n = Some (ss, hs1) /\
    hs = if decide (n = name) then <[k := v]> hs1 else hs1).
  { intros n ss hs. rewrite Hview. case_decide as Hd; [|by eauto]. subst n. rewrite Hv0. cbn [fmap option_fmap option_map fst snd]. rewrite Hpos.
    intros [= <- <-]. eauto. }
  assert (Hfwd : forall n u', serves (view (services s)) n u' -> serves (view m') n u').
  { intros n u' (ss & hs & j & srv & H1 & H2 & H3). unfold serves. rewrite Hview, H1. case_decide; cbn [fmap option_fmap option_map fst snd]; eauto 10. }
  split; cbn [services inflight pending passive].
  - done.
  - split.
    + intros n ss hs srv (hs1 & H1 & _)%Hback. by apply (ok_url _ _ (inv_ok _ _ Hinv) n ss hs1).
    + intros n1 n2 ss1 hs1 ss2 hs2 i1 i2 s1 s2 (hs1' & H1 & _)%Hback (hs2' & H2 & _)%Hback.
      by apply (ok_unique _ _ (inv_ok _ _ Hinv) n1 n2 ss1 hs1' ss2 hs2').
  - eapply Forall_impl; [apply Hinv|]. intros e. apply Hfwd.
  - eapply Forall_impl; [exact Hpend|]. intros e. apply Hfwd.
  - intros n ss hs j srv (hs1 & H1 & ->)%Hback Hj Hu.
    destruct (inv_agree _ _ Hinv _ _ _ _ _ H1 Hj Hu) as (f & Hf & Hs). rewrite Hch in Hs.
    destruct (decide (u0 = u)) as [->|Hne].
    + destruct (ok_unique _ _ (inv_ok _ _ Hinv) _ _ _ _ _ _ _ _ _ _ H1 Hv0 Hj Hk Hu Huk) as [-> ->].
      rewrite decide_True by done. exists v. split; [apply list_lookup_insert_eq; by eapply lookup_lt_Some|].
      rewrite <- Hs. cbn [app]. rewrite settle_cons. by destruct v.
    + exists f. split; [|exact Hs]. case_decide as Hd; [|done]. subst n.
      rewrite list_lookup_insert_ne; [done|]. intros ->. simplify_eq.
Qed.

(** ** Start *)
Definition lb_servers_of (c : ServiceConfig) : list Server :=
  from_option servers [] (load_balancer c).

(** What the machine widths ask of a configuration: weights are [u32], and at most
    2^15 servers per service. *)
Definition sizes_ok (cfg : list (string * ServiceConfig)) : Prop :=
  Forall (fun nc => Forall server_ok (lb_servers_of nc.2) /\ Z.of_nat (length (lb_servers_of nc.2)) <= 32768) cfg.
(** Servers are as they are after loading: the address that requests go to and
    health is recorded under is the one that was configured. *)
Definition keys_ok (cfg : list (string * ServiceConfig)) : Prop := Forall (fun nc => Forall (fun s => backend_url s = url s) (lb_servers_of nc.2)) cfg.
(** An address is that of one server of one service only. *)
Definition occurs_once (cfg : list (string * ServiceConfig)) (u : string) : Prop :=
  length (filter (eq u) (cfg ≫= fun nc => url <$> lb_servers_of nc.2)) = 1%nat.

Lemma manager_new_lookup cfg n s : manager_new cfg !! n = Some s ->
  exists c, (n, c) ∈ cfg /\ s = service_state c.
Proof.
  unfold manager_new.
  assert (H : forall m : manager,
    fold_left (fun (m : manager) nc => <[nc.1 := service_state nc.2]> m) cfg m !! n = Some s -> m !! n = Some s \/ exists c, (n, c) ∈ cfg /\ s = service_state c).
  { induction cfg as [|[n' c'] cfg IH]; intros m Hm; [by left|]. cbn [fold_left fst snd] in Hm.
    destruct (IH _ Hm) as [Hi|(c & Hc & ->)]; [|right; exists c; split; [by right|done]].
    destruct (decide (n' = n)) as [->|Hne].
    - rewrite lookup_insert_eq in Hi. right. exists c'. split; [left|congruence].
    - rewrite lookup_insert_ne in Hi by done. by left. }
  intros Hl. destruct (H ∅ Hl) as [He|?]; [|done]. by rewrite lookup_empty in He.
Qed.

Lemma service_state_balancer c b : balancer (service_state c) = Some b ->
  exists lb, load_balancer c = Some lb /\ b = from_load_balancer (servers lb).
Proof. unfold service_state. destruct (load_balancer c) as [lb|]; simpl; [|done]. intros [= <-]. eauto. Qed.

Lemma start_view cfg n ss hs : sizes_ok cfg -> view (manager_new cfg) n = Some (ss, hs) ->
  exists c, (n, c) ∈ cfg /\ ss = lb_servers_of c /\ hs = replicate (length ss) true.
Proof.
  intros Hs (s & b & Hm & Hb & -> & ->)%view_Some.
  apply manager_new_lookup in Hm as (c & Hc & ->). apply service_state_balancer in Hb as (lb & Hlb & ->).
  unfold sizes_ok in Hs. rewrite Forall_forall in Hs. destruct (Hs _ Hc) as [Hok Hlen]. cbn [snd] in *.
  unfold lb_servers_of in *. rewrite Hlb in *. cbn [from_option] in *.
  destruct (from_load_balancer_init (servers lb)) as (_ & H1 & H2); [done|done|].
  rewrite H1, H2. exists c. rewrite Hlb. done.
Qed.

Lemma start_wf cfg : sizes_ok cfg -> manager_wf (manager_new cfg).
Proof.
  intros Hs n s b (c & Hc & ->)%manager_new_lookup (lb & Hlb & ->)%service_state_balancer.
  unfold sizes_ok in Hs. rewrite Forall_forall in Hs. destruct (Hs _ Hc) as [Hok Hlen]. unfold lb_servers_of in *. cbn [snd] in *.
  rewrite Hlb in *. cbn [from_option] in *. by apply from_load_balancer_init.
Qed.

(** An element that occurs once in a concatenation is at one place of one part. *)
Lemma once_part {A} (f : A -> list string) (u : string) (l : list A) : (length (filter (eq u) (l ≫= f)) <= 1)%nat ->
  forall x y i j, x ∈ l -> y ∈ l -> f x !! i = Some u -> f y !! j = Some u -> x = y /\ i = j.
Proof.
  assert (Hone : forall (k : list string) i j, (length (filter (eq u) k) <= 1)%nat -> k !! i = Some u -> k !! j = Some u -> i = j).
  { induction k as [|v k IH]; intros i j; [done|]. rewrite filter_cons. destruct i as [|i], j as [|j]; cbn; [done|..].
    - intros Hl [= ->] Hj. rewrite decide_True in Hl by done. cbn in Hl. apply list_elem_of_lookup_2 in Hj.
      assert (Hin : u ∈ filter (eq u) k) by (by apply list_elem_of_filter). destruct (filter (eq u) k); [by apply elem_of_nil in Hin|cbn in Hl; lia].
    - intros Hl Hi [= ->]. rewrite decide_True in Hl by done. cbn in Hl. apply list_elem_of_lookup_2 in Hi.
      assert (Hin : u ∈ filter (eq u) k) by (by apply list_elem_of_filter). destruct (filter (eq u) k); [by apply elem_of_nil in Hin|cbn in Hl; lia].
    - intros Hl Hi Hj. f_equal. apply IH; [|done|done]. case_decide; cbn in Hl; lia. }
  assert (Hin : forall (k : list string) i, k !! i = Some u -> (1 <= length (filter (eq u) k))%nat).
  { intros k i Hi%list_elem_of_lookup_2. assert (H : u ∈ filter (eq u) k) by (by apply list_elem_of_filter).
    destruct (filter (eq u) k); [by apply elem_of_nil in H|cbn; lia]. }
  induction l as [|z l IH]; intros Hl x y i j; [by intros ?%elem_of_nil|]. rewrite bind_cons, filter_app, length_app in Hl.
  assert (Hrest : forall x i, x ∈ l -> f x !! i = Some u -> (1 <= length (filter (eq u) (l ≫= f)))%nat).
  { intros x' i' Hx Hi. destruct (proj1 (list_elem_of_lookup (l ≫= f) u)) as [m Hm]; [|by eapply Hin].
    apply list_elem_of_bind. exists x'. split; [by eapply list_elem_of_lookup_2|done]. }
  intros [->|Hx]%elem_of_cons [->|Hy]%elem_of_cons Hi Hj.
  - split; [done|]. eapply (Hone (f z)); [lia|done|done].
  - pose proof (Hin _ _ Hi). pose proof (Hrest _ _ Hy Hj). lia.
  - pose proof (Hin _ _ Hj). pose proof (Hrest _ _ Hx Hi). lia.
  - apply (IH ltac:(lia) x y i j); done.
Qed.

Lemma start_inv cfg pc seed u : sizes_ok cfg -> keys_ok cfg -> occurs_once cfg u -> sys_inv u (start cfg pc seed).
Proof.
  intros Hcfg Hk Hu. split; cbn [start services inflight pending passive]; [by apply start_wf| |constructor|constructor|].
  - split.
    + intros n ss hs s (c & Hc & -> & _)%start_view Hs; [|done]. unfold keys_ok in Hk. rewrite Forall_forall in Hk. specialize (Hk _ Hc). cbn in Hk.
      rewrite Forall_forall in Hk. by apply Hk.
    + intros n1 n2 ss1 hs1 ss2 hs2 i1 i2 s1 s2 (c1 & Hc1 & -> & _)%start_view (c2 & Hc2 & -> & _)%start_view H1 H2 Hu1 Hu2; [|done|done].
      unfold occurs_once in Hu.
      destruct (once_part (fun nc => url <$> lb_servers_of nc.2) u cfg ltac:(lia) (n1, c1) (n2, c2) i1 i2) as [[= -> ->] ->];
        [done|done|cbn; rewrite list_lookup_fmap, H1; by f_equal/=|cbn; rewrite list_lookup_fmap, H2; by f_equal/=|done].
  - intros n ss hs i srv (c & _ & _ & ->)%start_view Hi _; [|done]. exists true. split; [|done].
    apply lookup_replicate_2. by eapply lookup_lt_Some.
Qed.

(** Executions in which the changes of each backend are applied in order. *)
Inductive reaches (s0 : system) : system -> Prop :=
| reaches_refl : reaches s0 s0
| reaches_step s e s' : reaches s0 s -> in_sequence e s -> step e s = Some s' -> reaches s0 s'.

Lemma reaches_inv u s0 s : sys_inv u s0 -> reaches s0 s -> sys_inv u s.
Proof.
  intros H0. induction 1 as [|s e s' _ IH Hseq Hstep]; [done|].
  destruct e; [by eapply begin_inv|by eapply reply_inv|by eapply apply_inv|by eapply leave_inv].
Qed.


(** A service with two servers, and one failed request after the other against
    the first. *)
Definition two_backends : list (string * ServiceConfig) :=
  [("web", {| load_balancer := Some {| servers := [mk_server "http://a" 1; mk_server "http://b" 1]; health_check := false |};
              weighted := None; mirroring := None; failover := None |})].
Definition trip_once : Passive.PassiveHealthConfig :=
  {| Passive.failure_threshold := 1; Passive.success_threshold := 1; Passive.failure_status_codes := {[ 500; 502; 504 ]};
     Passive.response_time_threshold_ms := None; Passive.window_duration := 0; Passive.recovery_interval := 0 |}.

Lemma two_backends_ok : sizes_ok two_backends.
Proof. repeat constructor; vm_compute; discriminate. Qed.
Lemma two_backends_keys : keys_ok two_backends.
Proof. repeat constructor. Qed.

Fixpoint sequenced (es : list event) (s : system) : Prop :=
  match es with
  | [] => True
  | e :: es' => in_sequence e s /\ match step e s with Some s' => sequenced es' s' | None => True end
  end.

Lemma steps_reach es : forall s0 s s', reaches s0 s -> sequenced es s -> steps es s = Some s' -> reaches s0 s'.
Proof.
  induction es as [|e es IH]; cbn [sequenced steps]; intros s0 s s' Hr Hseq Hst; [by simplify_eq|].
  destruct Hseq as [He Hseq]. destruct (step e s) as [s1|] eqn:E; simpl in Hst; [|done].
  eapply IH; [by eapply reaches_step|done|done].
Qed.

Definition trip_trace : list event := [Begin "web"; Reply 0 RequestError 5 10 10; Apply 0].
Definition trip_end : system := default (start [] trip_once 0) (steps trip_trace (start two_backends trip_once 7)).
Definition web_balancer (s : system) : LoadBalancer :=
  default (from_load_balancer []) (st ← services s !! "web"; balancer st).


Definition race_trace : list event :=
  [Begin "web"; Begin "web"; Begin "web"; Reply 0 RequestError 5 10 10; Reply 1 (Response 200) 5 20 20;
   Apply 1; Apply 0].

(** Without that order the flags can be wrong for good: two requests to one
    backend, the first failing and the second succeeding, whose health changes
    are applied in reverse order leave the backend marked unhealthy with nothing
    pending although the checker considers it healthy. *)
Theorem health_change_race :
  exists s, steps race_trace (start two_backends trip_once 7) = Some s /\ pending s = [] /\
    Passive.is_healthy (passive s) "http://a" = true /\ lb_health (web_balancer s) = [false; true].
Proof.
  exists (default (start [] trip_once 0) (steps race_trace (start two_backends trip_once 7))).
  split_and!; vm_compute; reflexivity.
Qed.

(** Two services that share a backend share its health record but not their flags:
    the change is applied to the service whose request brought it about, and
    since it is reported once, the other service keeps sending to the backend. *)
Definition shared_backend : list (string * ServiceConfig) :=
  two_backends ++ [("api", {| load_balancer := Some {| servers := [mk_server "http://a" 1; mk_server "http://c" 1]; health_check := false |};
                              weighted := None; mirroring := None; failover := None |})].
Lemma shared_backend_stale :
  exists s, steps trip_trace (start shared_backend trip_once 7) = Some s /\ pending s = [] /\
    Passive.is_healthy (passive s) "http://a" = false /\ snd <$> view (services s) "web" = Some [false; true] /\ snd <$> view (services s) "api" = Some [true; true].
Proof.
  exists (default (start [] trip_once 0) (steps trip_trace (start shared_backend trip_once 7))).
  split_and!; vm_compute; reflexivity.
Qed.

(** A service without a balancer keeps none. *)
Lemma unconfigured_step name e s s' : step e s = Some s' ->
  (exists st, services s !! name = Some st /\ balancer st = None) ->
  exists st, services s' !! name = Some st /\ balancer st = None.
Proof.
  intros Hstep (st & Hst & Hb). exists st. split; [|done].
  destruct e as [n|i x el nw nm|i|i]; cbn [step] in Hstep.
  - unfold select_backend, get_service in Hstep. destruct (services s !! n) as [st'|] eqn:E; [|by simplify_eq/=].
    destruct (balancer st') as [b|] eqn:Eb; [|by simplify_eq/=]. destruct (next_server b (rng s)) as [[o b'] t'].
    assert (n <> name) by congruence. destruct o; simplify_eq/=; by rewrite lookup_insert_ne.
  - destruct (inflight s !! i) as [[n u]|]; simpl in Hstep; [|done].
    destruct (Passive.record_response _ _ _). by simplify_eq/=.
  - destruct (pending s !! i) as [[[c u] n]|]; simpl in Hstep; [|done]. simplify_eq/=.
    unfold apply_health_change, get_service. destruct (services s !! n) as [st'|] eqn:E; [|by destruct c].
    destruct (balancer st') as [b|] eqn:Eb; [|by destruct c].
    destruct (find_server_index b u); [|by destruct c]. assert (n <> name) by congruence.
    destruct c; [done| |]; by rewrite lookup_insert_ne.
  - by simplify_eq/=.
Qed.

Lemma manager_new_elem cfg name c : NoDup cfg.*1 -> (name, c) ∈ cfg -> manager_new cfg !! name = Some (service_state c).
Proof.
  unfold manager_new. intros Hnd Hin.
  assert (H : forall m : manager, fold_left (fun (m : manager) nc => <[nc.1 := service_state nc.2]> m) cfg m !! name =
    Some (service_state c)); [|apply H].
  assert (Hout : forall l (m : manager), name ∉ l.*1 ->
    fold_left (fun (m : manager) nc => <[nc.1 := service_state nc.2]> m) l m !! name = m !! name).
  { induction l as [|[n' c'] l IH]; intros m Hni; [done|]. rewrite fmap_cons, not_elem_of_cons in Hni.
    cbn [fold_left fst snd]. rewrite IH by tauto. cbn [fst] in Hni. rewrite lookup_insert_ne; [done|]. intros ->. tauto. }
  induction cfg as [|[n' c'] cfg IH]; [by apply elem_of_nil in Hin|]. intros m. cbn [fold_left fst snd].
  rewrite fmap_cons, NoDup_cons in Hnd. destruct Hnd as [Hni Hnd].
  apply elem_of_cons in Hin as [Heq|Hin]; [|by apply IH]. injection Heq as <- <-.
  rewrite Hout by done. apply lookup_insert_eq.
Qed.

(** A service that is not a plain load balancer (weighted, mirroring or
    failover) is registered without a balancer: every request routed to it is
    refused with the not-configured answer, whatever happened before. *)
Theorem composite_services_refused cfg pc seed es s name c tls :
  NoDup cfg.*1 -> (name, c) ∈ cfg -> load_balancer c = None ->
  steps es (start cfg pc seed) = Some s ->
  (select_backend name (services s) tls).1.1 = NotConfigured.
Proof.
  intros Hnd Hin Hlb Hes.
  assert (Hst : exists st, services s !! name = Some st /\ balancer st = None).
  { assert (H0 : exists st, services (start cfg pc seed) !! name = Some st /\ balancer st = None).
    { exists (service_state c). split; [by apply manager_new_elem|]. unfold service_state. by rewrite Hlb. }
    revert H0 Hes. generalize (start cfg pc seed). induction es as [|e es IH]; cbn [steps]; intros s0 H0 Hes; [by simplify_eq|].
    destruct (step e s0) as [s1|] eqn:E; simpl in Hes; [|done]. eapply IH; [|done]. by eapply unconfigured_step. }
  destruct Hst as (st & Hst & Hb). unfold select_backend, get_service. by rewrite Hst, Hb.
Qed.

Definition with_failover : list (string * ServiceConfig) :=
  two_backends ++ [("fo", {| load_balancer := None; weighted := None; mirroring := None;
    failover := Some {| fo_service := "web"; fo_fallback := "web" |} |})].

Lemma composite_services_refused_witness :
  (select_backend "fo" (services (default (start [] trip_once 0) (steps trip_trace (start with_failover trip_once 7)))) 0).1.1
    = NotConfigured.
Proof.
  apply (composite_services_refused with_failover trip_once 7 trip_trace _ "fo"
    {| load_balancer := None; weighted := None; mirroring := None;
       failover := Some {| fo_service := "web"; fo_fallback := "web" |} |}).
  - apply (bool_decide_eq_true_1 (NoDup _)). vm_compute. reflexivity.
  - right. left.
  - reflexivity.
  - vm_compute. reflexivity.
Defined.
