(* ===== verification/LocalStore.v ===== *)
(** * The in-memory state store

    Models src/src/store/mod.rs (data types) and src/src/store/local.rs
    ([LocalStore]). Instants are integers in nanoseconds and are arguments of
    the operations that read the clock; [wall] is the wall clock in
    milliseconds. Messages sent on the broadcast channels (third party) are
    kept in the order they were sent. *)
From S2P Require Import Prelude RustStr.
From stdpp Require Import list.
Open Scope Z_scope.
Open Scope list_scope.

Inductive StoreError :=
| EConnection (s : string)
| ETimeout
| ENotFound (s : string)
| ESerialization (s : string)
| EUnavailable.

(** [HealthStatus] of the store. *)
Record StoredHealth := {
  sh_healthy : bool;
  sh_last_check : Z;
  sh_consecutive_failures : Z;
  sh_last_error : option string;
}.

Inductive NodeStatus := Active | Draining | Unhealthy.
#[export] Instance NodeStatus_eq_dec : EqDecision NodeStatus.
Proof. solve_decision. Defined.

Record NodeInfo := {
  node_id : string;
  address : string;
  status : NodeStatus;
  active_connections : Z;
  last_heartbeat : Z;
  started_at : Z;
  version : string;
}.

(** What a rate limiter needs of a store: the answer is (allowed, remaining,
    reset time). *)
Class RateStore (S : Type) := {
  rs_check : string -> Z -> Z -> Z -> Z -> S -> result StoreError (bool * Z * Z) * S;
  rs_remaining : string -> Z -> S -> result StoreError Z;
}.

Record RateLimitEntry := { rl_count : Z (* AtomicU64 *); rl_window_start : Z }.
Record StickyEntry := { se_server_url : string; se_expires_at : Z }.
Record CircuitBreakerEntry := { cb_failures : Z (* AtomicU64 *); cb_window_start : Z }.
Record AcmeEntry := { ac_auth : string; ac_expires_at : Z }.
Record LeaderEntry := { le_node_id : string; le_expires_at : Z }.

Record LocalStore := {
  rate_limits : gmap string RateLimitEntry;
  sticky_sessions : gmap string StickyEntry;
  health_state : gmap string StoredHealth;
  circuit_breakers : gmap string CircuitBreakerEntry;
  nodes : gmap string NodeInfo;
  config_content : option string;
  config_version : Z; (* AtomicU64 *)
  acme_challenges : gmap string AcmeEntry;
  leaders : gmap string LeaderEntry;
  config_sent : nat;
  health_sent : list (string * string * StoredHealth);
  drain_sent : list string;
}.

Definition new : LocalStore := {|
  rate_limits := ∅; sticky_sessions := ∅; health_state := ∅; circuit_breakers := ∅; nodes := ∅;
  config_content := None; config_version := 0; acme_challenges := ∅; leaders := ∅;
  config_sent := 0; health_sent := []; drain_sent := [] |}.

(** Updates of one field. *)
Definition set_rate_limits m s := {|
  rate_limits := m; sticky_sessions := sticky_sessions s; health_state := health_state s;
  circuit_breakers := circuit_breakers s; nodes := nodes s; config_content := config_content s;
  config_version := config_version s; acme_challenges := acme_challenges s; leaders := leaders s;
  config_sent := config_sent s; health_sent := health_sent s; drain_sent := drain_sent s |}.
Definition set_sticky m s := {|
  rate_limits := rate_limits s; sticky_sessions := m; health_state := health_state s;
  circuit_breakers := circuit_breakers s; nodes := nodes s; config_content := config_content s;
  config_version := config_version s; acme_challenges := acme_challenges s; leaders := leaders s;
  config_sent := config_sent s; health_sent := health_sent s; drain_sent := drain_sent s |}.
Definition set_health m sent s := {|
  rate_limits := rate_limits s; sticky_sessions := sticky_sessions s; health_state := m;
  circuit_breakers := circuit_breakers s; nodes := nodes s; config_content := config_content s;
  config_version := config_version s; acme_challenges := acme_challenges s; leaders := leaders s;
  config_sent := config_sent s; health_sent := sent; drain_sent := drain_sent s |}.
Definition set_breakers m s := {|
  rate_limits := rate_limits s; sticky_sessions := sticky_sessions s; health_state := health_state s;
  circuit_breakers := m; nodes := nodes s; config_content := config_content s;
  config_version := config_version s; acme_challenges := acme_challenges s; leaders := leaders s;
  config_sent := config_sent s; health_sent := health_sent s; drain_sent := drain_sent s |}.
Definition set_nodes m sent s := {|
  rate_limits := rate_limits s; sticky_sessions := sticky_sessions s; health_state := health_state s;
  circuit_breakers := circuit_breakers s; nodes := m; config_content := config_content s;
  config_version := config_version s; acme_challenges := acme_challenges s; leaders := leaders s;
  config_sent := config_sent s; health_sent := health_sent s; drain_sent := sent |}.
Definition set_acme m s := {|
  rate_limits := rate_limits s; sticky_sessions := sticky_sessions s; health_state := health_state s;
  circuit_breakers := circuit_breakers s; nodes := nodes s; config_content := config_content s;
  config_version := config_version s; acme_challenges := m; leaders := leaders s;
  config_sent := config_sent s; health_sent := health_sent s; drain_sent := drain_sent s |}.
Definition set_leaders m s := {|
  rate_limits := rate_limits s; sticky_sessions := sticky_sessions s; health_state := health_state s;
  circuit_breakers := circuit_breakers s; nodes := nodes s; config_content := config_content s;
  config_version := config_version s; acme_challenges := acme_challenges s; leaders := m;
  config_sent := config_sent s; health_sent := health_sent s; drain_sent := drain_sent s |}.

Definition secs (n : Z) : Z := n * 10 ^ 9.
(** [now.duration_since(t)]: zero when [t] is later. *)
Definition duration_since (now t : Z) : Z := Z.max 0 (now - t).

Definition cleanup (now : Z) (s : LocalStore) : LocalStore := {|
  rate_limits := filter (fun e => duration_since now (rl_window_start e.2) < secs 120) (rate_limits s);
  sticky_sessions := filter (fun e => now < se_expires_at e.2) (sticky_sessions s);
  health_state := health_state s;
  circuit_breakers := filter (fun e => duration_since now (cb_window_start e.2) < secs 300) (circuit_breakers s);
  nodes := nodes s; config_content := config_content s; config_version := config_version s;
  acme_challenges := filter (fun e => now < ac_expires_at e.2) (acme_challenges s);
  leaders := filter (fun e => now < le_expires_at e.2) (leaders s);
  config_sent := config_sent s; health_sent := health_sent s; drain_sent := drain_sent s |}.

(** ** Rate limiting *)
Definition rate_limit_check (key : string) (limit window_secs now wall : Z) (s : LocalStore)
    : result StoreError (bool * Z * Z) * LocalStore :=
  let window_duration := secs window_secs in
  let entry := default {| rl_count := 0; rl_window_start := now |} (rate_limits s !! key) in
  let put c := set_rate_limits (<[key := {| rl_count := c; rl_window_start := rl_window_start entry |}]> (rate_limits s)) s in
  let elapsed := duration_since now (rl_window_start entry) in
  if window_duration <=? elapsed then
    (Ok (true, saturating_sub limit 1, wrap_u64 (wall + wrap_u64 (window_secs * 1000))), put 1)
  else
    let current := rl_count entry in
    let reset_time := wrap_u64 (wall + wrap_u64 ((window_duration - elapsed) / 10 ^ 6)) in
    if current <? limit
    then (Ok (true, saturating_sub limit (wrap_u64 (current + 1)), reset_time), put (wrap_u64 (current + 1)))
    else (Ok (false, 0, reset_time), put (wrap_u64 (wrap_u64 (current + 1) - 1))).

Definition rate_limit_remaining (key : string) (limit : Z) (s : LocalStore) : result StoreError Z :=
  match rate_limits s !! key with
  | Some entry => Ok (saturating_sub limit (rl_count entry))
  | None => Ok limit
  end.

#[export] Instance local_rate_store : RateStore LocalStore := {
  rs_check := rate_limit_check;
  rs_remaining := rate_limit_remaining;
}.

(** ** Sticky sessions *)
(** [format!("{}:{}", a, b)] *)
Definition pair_key (a b : string) : string := a +:+ ":" +:+ b.

Definition sticky_session_get (service session_id : string) (now : Z) (s : LocalStore) : option string :=
  match sticky_sessions s !! pair_key service session_id with
  | Some e => if now <? se_expires_at e then Some (se_server_url e) else None
  | None => None
  end.

Definition sticky_session_set (service session_id server_url : string) (ttl now : Z) (s : LocalStore) : LocalStore :=
  set_sticky (<[pair_key service session_id := {| se_server_url := server_url; se_expires_at := now + ttl |}]>
    (sticky_sessions s)) s.

Definition sticky_session_delete (service session_id : string) (s : LocalStore) : LocalStore :=
  set_sticky (delete (pair_key service session_id) (sticky_sessions s)) s.

(** ** Health state *)
Definition health_get (service server_url : string) (s : LocalStore) : option StoredHealth :=
  health_state s !! pair_key service server_url.

Definition health_set (service server_url : string) (st : StoredHealth) (s : LocalStore) : LocalStore :=
  set_health (<[pair_key service server_url := st]> (health_state s)) (health_sent s ++ [(service, server_url, st)]) s.

(** The loop over the entries, in any order. *)
Definition health_get_all (service : string) (s : LocalStore) : gmap string StoredHealth :=
  let prefix := service +:+ ":" in
  fold_left (fun (acc : gmap string StoredHealth) (kv : string * StoredHealth) =>
    if starts_with prefix kv.1 then <[default kv.1 (RustStr.strip_prefix prefix kv.1) := kv.2]> acc else acc)
    (map_to_list (health_state s)) ∅.

(** ** Circuit breaker counters *)
Definition circuit_breaker_fail (service : string) (window_secs now : Z) (s : LocalStore) : Z * LocalStore :=
  let entry := default {| cb_failures := 0; cb_window_start := now |} (circuit_breakers s !! service) in
  let put c := set_breakers (<[service := {| cb_failures := c; cb_window_start := cb_window_start entry |}]> (circuit_breakers s)) s in
  if secs window_secs <=? duration_since now (cb_window_start entry) then (1, put 1)
  else let new_count := wrap_u64 (cb_failures entry + 1) in (new_count, put new_count).

Definition circuit_breaker_success (service : string) (s : LocalStore) : LocalStore :=
  set_breakers (delete service (circuit_breakers s)) s.

Definition circuit_breaker_failures (service : string) (s : LocalStore) : Z :=
  from_option cb_failures 0 (circuit_breakers s !! service).

(** ** Node registry *)
Definition node_register (info : NodeInfo) (s : LocalStore) : LocalStore :=
  set_nodes (<[node_id info := info]> (nodes s)) (drain_sent s) s.

Definition heartbeat (connections wall : Z) (n : NodeInfo) : NodeInfo :=
  {| node_id := node_id n; address := address n; status := status n; active_connections := connections;
     last_heartbeat := wall; started_at := started_at n; version := version n |}.
Definition with_status (st : NodeStatus) (n : NodeInfo) : NodeInfo :=
  {| node_id := node_id n; address := address n; status := st; active_connections := active_connections n;
     last_heartbeat := last_heartbeat n; started_at := started_at n; version := version n |}.

Definition node_heartbeat (id : string) (connections wall : Z) (s : LocalStore) : LocalStore :=
  set_nodes (alter (heartbeat connections wall) id (nodes s)) (drain_sent s) s.

Definition node_set_status (id : string) (st : NodeStatus) (s : LocalStore) : LocalStore :=
  match nodes s !! id with
  | Some _ => set_nodes (alter (with_status st) id (nodes s))
                (if decide (st = Draining) then drain_sent s ++ [id] else drain_sent s) s
  | None => s
  end.

Definition node_get (id : string) (s : LocalStore) : option NodeInfo := nodes s !! id.
Definition node_list (s : LocalStore) : list NodeInfo := (map_to_list (nodes s)).*2.
Definition node_deregister (id : string) (s : LocalStore) : LocalStore :=
  set_nodes (delete id (nodes s)) (drain_sent s) s.

(** ** Configuration *)
Definition config_get (s : LocalStore) : option string := config_content s.
Definition config_set (content : string) (s : LocalStore) : Z * LocalStore :=
  let new_version := wrap_u64 (config_version s + 1) in
  (new_version, {|
    rate_limits := rate_limits s; sticky_sessions := sticky_sessions s; health_state := health_state s;
    circuit_breakers := circuit_breakers s; nodes := nodes s; config_content := Some content;
    config_version := new_version; acme_challenges := acme_challenges s; leaders := leaders s;
    config_sent := S (config_sent s); health_sent := health_sent s; drain_sent := drain_sent s |}).

(** ** ACME challenges *)
Definition acme_challenge_set (token auth : string) (ttl now : Z) (s : LocalStore) : LocalStore :=
  set_acme (<[token := {| ac_auth := auth; ac_expires_at := now + ttl |}]> (acme_challenges s)) s.
Definition acme_challenge_get (token : string) (now : Z) (s : LocalStore) : option string :=
  match acme_challenges s !! token with
  | Some e => if now <? ac_expires_at e then Some (ac_auth e) else None
  | None => None
  end.
Definition acme_challenge_delete (token : string) (s : LocalStore) : LocalStore :=
  set_acme (delete token (acme_challenges s)) s.

(** ** Leader election *)
(** The guard of [leader_acquire]: someone else leads. *)
Definition leader_blocked (task id : string) (now : Z) (s : LocalStore) : bool :=
  match leaders s !! task with
  | Some e => (now <? le_expires_at e) && negb (bool_decide (le_node_id e = id))
  | None => false
  end.
Definition leader_insert (task id : string) (ttl now : Z) (s : LocalStore) : LocalStore :=
  set_leaders (<[task := {| le_node_id := id; le_expires_at := now + ttl |}]> (leaders s)) s.
(** Taken as one access; the source checks the table and inserts in two, and what can
    happen in between is [leader_acquire_race]. *)
Definition leader_acquire (task id : string) (ttl now : Z) (s : LocalStore) : bool * LocalStore :=
  if leader_blocked task id now s then (false, s) else (true, leader_insert task id ttl now s).

Definition leader_release (task id : string) (s : LocalStore) : LocalStore :=
  match leaders s !! task with
  | Some e => if bool_decide (le_node_id e = id) then set_leaders (delete task (leaders s)) s else s
  | None => s
  end.

Definition leader_get (task : string) (now : Z) (s : LocalStore) : option string :=
  match leaders s !! task with
  | Some e => if now <? le_expires_at e then Some (le_node_id e) else None
  | None => None
  end.

(** ** Rate-limit windows *)

(** The verdicts of consecutive checks of one key; a call is its two clock
    readings. *)
Fixpoint checks (key : string) (limit window : Z) (calls : list (Z * Z)) (s : LocalStore) : list bool * LocalStore :=
  match calls with
  | [] => ([], s)
  | (now, wall) :: calls' =>
      let '(r, s') := rate_limit_check key limit window now wall s in
      let '(rs, s'') := checks key limit window calls' s' in
      (match r with Ok (b, _, _) => b | _ => false end :: rs, s'')
  end.

Definition entry_is (key : string) (count start : Z) (s : LocalStore) : Prop :=
  rate_limits s !! key = Some {| rl_count := count; rl_window_start := start |}.

(** One check inside the window, with [count] requests admitted before. *)
Lemma check_inside key limit window now wall s count start :
  default {| rl_count := 0; rl_window_start := now |} (rate_limits s !! key) =
    {| rl_count := count; rl_window_start := start |} ->
  duration_since now start < secs window -> 0 <= count < u64_max -> 
  let '(r, s') := rate_limit_check key limit window now wall s in
  (match r with Ok (b, _, _) => b | _ => false end) = (count <? limit) /\
  entry_is key (if count <? limit then count + 1 else count) start s'.
Proof.
  intros He Hin Hc. unfold rate_limit_check. rewrite He. cbn [rl_count rl_window_start].
  destruct (Z.leb_spec (secs window) (duration_since now start)); [lia|].
  rewrite (wrap_u64_id (count + 1)) by word.
  destruct (count <? limit) eqn:E; (split; [done|]); unfold entry_is; cbn [set_rate_limits rate_limits];
    rewrite lookup_insert_eq; [done|]. do 2 f_equal. rewrite wrap_u64_id by word. lia.
Qed.

Lemma checks_inside key limit window start calls : forall s count,
  entry_is key count start s -> 0 <= count -> count + Z.of_nat (length calls) <= u64_max ->
  Forall (fun c => duration_since c.1 start < secs window) calls ->
  (checks key limit window calls s).1 = (fun i => count + Z.of_nat i <? limit) <$> seq 0 (length calls).
Proof.
  induction calls as [|[now wall] calls IH]; intros s count He Hc Hlen Hin; [done|].
  inversion_clear Hin as [|? ? H1 H2]. cbn [length fst] in *. cbn [checks].
  pose proof (check_inside key limit window now wall s count start) as Hck. rewrite He in Hck. cbn [default from_option id] in Hck.
  specialize (Hck eq_refl H1 ltac:(lia)). destruct (rate_limit_check _ _ _ _ _ _) as [r s']. destruct Hck as [-> He'].
  specialize (IH s' (if count <? limit then count + 1 else count) He').
  destruct (checks key limit window calls s') as [rs s'']. cbn [fst] in *.
  cbn [seq]. rewrite fmap_cons. f_equal; [f_equal; lia|].
  rewrite IH; [|destruct (count <? limit); lia|destruct (count <? limit); lia|done].
  rewrite <- fmap_S_seq, <- list_fmap_compose. apply list_fmap_ext. intros i x _. unfold compose.
  destruct (Z.ltb_spec count limit); destruct (Z.ltb_spec (count + 1 + Z.of_nat x) limit);
    destruct (Z.ltb_spec (count + Z.of_nat (S x)) limit); try lia; try done;
    destruct (Z.ltb_spec (count + Z.of_nat x) limit); try lia; done.
Qed.

(** Local rate limiting in the first window: of the checks of a fresh key made
    within [window_secs] of the first one, exactly the first [limit] are
    admitted, however many follow. *)
Theorem local_rate_limit_first_window key limit window s now0 wall0 calls :
  rate_limits s !! key = None -> 0 < window -> Z.of_nat (length calls) < u64_max ->
  Forall (fun c => now0 <= c.1 < now0 + secs window) calls ->
  (checks key limit window ((now0, wall0) :: calls) s).1 =
    (fun i => Z.of_nat i <? limit) <$> seq 0 (S (length calls)).
Proof.
  intros Hfresh Hw Hlen Hin. cbn [checks].
  pose proof (check_inside key limit window now0 wall0 s 0 now0) as Hck. rewrite Hfresh in Hck.
  destruct (rate_limit_check key limit window now0 wall0 s) as [r s']. 
  destruct Hck as [-> He]; [done|unfold duration_since, secs; lia|word|].
  pose proof (checks_inside key limit window now0 calls s' (if 0 <? limit then 0 + 1 else 0) He) as IH.
  destruct (checks key limit window calls s') as [rs s'']. cbn [fst] in *.
  cbn [seq]. rewrite fmap_cons. f_equal. rewrite IH; [|destruct (0 <? limit); lia|destruct (0 <? limit); lia|].
  - rewrite <- fmap_S_seq, <- list_fmap_compose. apply list_fmap_ext. intros i x _. unfold compose.
    destruct (Z.ltb_spec 0 limit); destruct (Z.ltb_spec (0 + 1 + Z.of_nat x) limit);
      destruct (Z.ltb_spec (Z.of_nat (S x)) limit); try lia; try done;
      destruct (Z.ltb_spec (0 + Z.of_nat x) limit); try lia; done.
  - eapply Forall_impl; [exact Hin|]. intros [n w]. unfold duration_since, secs. simpl. lia.
Qed.

Lemma local_rate_limit_first_window_witness :
  (checks "k" 2 1 [(0, 0); (5, 0); (6, 0); (999999999, 1)] new).1 = [true; true; false; false].
Proof.
  apply (local_rate_limit_first_window "k" 2 1 new 0 0 [(5, 0); (6, 0); (999999999, 1)]).
  - reflexivity.
  - lia.
  - vm_compute. reflexivity.
  - repeat constructor; vm_compute; try discriminate; reflexivity.
Defined.

(** After that window the limiter stops limiting: the window start of an entry
    is never moved, so every check made once the first window has elapsed is
    admitted, whatever the limit and however many checks there are. *)
Theorem local_rate_limit_never_resets key limit window s count start calls :
  entry_is key count start s ->
  Forall (fun c => start + secs window <= c.1) calls -> 0 < window ->
  Forall (fun b => b = true) (checks key limit window calls s).1.
Proof.
  intros He Hin Hw. revert s count He. induction Hin as [|[now wall] calls Hnow _ IH]; intros s count He; [constructor|].
  cbn [checks]. unfold rate_limit_check. rewrite He. cbn [default from_option id rl_window_start rl_count fst] in *.
  destruct (Z.leb_spec (secs window) (duration_since now start)) as [_|Hlt];
    [|unfold duration_since, secs in *; lia].
  set (s' := set_rate_limits _ s). specialize (IH s' 1).
  destruct (checks key limit window calls s') as [rs s'']. constructor; [done|]. apply IH.
  unfold entry_is, s' in *. cbn [set_rate_limits rate_limits]. by rewrite lookup_insert_eq, He.
Qed.

Lemma local_rate_limit_never_resets_witness :
  Forall (fun b => b = true) (checks "k" 0 1 [(secs 1, 0); (secs 1, 0); (secs 1, 0)]
    (rate_limit_check "k" 0 1 0 0 new).2).1.
Proof.
  apply (local_rate_limit_never_resets "k" 0 1 (rate_limit_check "k" 0 1 0 0 new).2 0 0).
  - vm_compute. reflexivity.
  - repeat constructor; vm_compute; discriminate.
  - lia.
Defined.

(** ** Composite keys *)

(** A service name without a colon is recovered from the key. *)
Definition no_colon (s : string) : bool := str_forall (fun c => negb (Ascii.eqb c ":")) s.

Lemma pair_key_inj a b a' b' : no_colon a = true -> no_colon a' = true ->
  pair_key a b = pair_key a' b' -> a = a' /\ b = b'.
Proof.
  unfold pair_key. revert a'. induction a as [|c a IH]; intros [|c' a'] Ha Ha'; cbn; intros Heq.
  - by injection Heq.
  - injection Heq as <- _. done.
  - injection Heq as -> _. done.
  - injection Heq as -> Heq. apply andb_prop in Ha as [_ Ha]. apply andb_prop in Ha' as [_ Ha'].
    destruct (IH a' Ha Ha' Heq) as [-> ->]. done.
Qed.

(** Sticky sessions in the store: a stored session is read back until its
    time to live runs out and not after; for service names without a colon,
    storing or deleting one session changes no other; an expired session and a
    deleted one read alike. *)
Theorem sticky_store_roundtrip sv id u ttl now s :
  (forall t, sticky_session_get sv id t (sticky_session_set sv id u ttl now s) =
     if t <? now + ttl then Some u else None) /\
  (forall t, sticky_session_get sv id t (sticky_session_delete sv id s) = None) /\
  (forall sv' id' t, no_colon sv = true -> no_colon sv' = true -> (sv', id') <> (sv, id) ->
     sticky_session_get sv' id' t (sticky_session_set sv id u ttl now s) = sticky_session_get sv' id' t s /\
     sticky_session_get sv' id' t (sticky_session_delete sv id s) = sticky_session_get sv' id' t s).
Proof.
  unfold sticky_session_get, sticky_session_set, sticky_session_delete. cbn [set_sticky sticky_sessions].
  split_and!.
  - intros t. rewrite lookup_insert_eq. done.
  - intros t. by rewrite lookup_delete_eq.
  - intros sv' id' t H1 H2 Hne.
    assert (pair_key sv id <> pair_key sv' id').
    { intros Heq. apply pair_key_inj in Heq as [-> ->]; done. }
    by rewrite lookup_insert_ne, lookup_delete_ne.
Qed.

(** The colon-joined keys are ambiguous: sessions of the service [a:b] and of
    the service [a] can share a key, so storing one overwrites the other. *)
Theorem sticky_key_collision u v ttl now s :
  sticky_session_get "a" "b:c" now (sticky_session_set "a:b" "c" u ttl now (sticky_session_set "a" "b:c" v ttl now s)) =
  sticky_session_get "a:b" "c" now (sticky_session_set "a:b" "c" u ttl now s).
Proof.
  unfold sticky_session_get, sticky_session_set. cbn [set_sticky sticky_sessions].
  change (pair_key "a" "b:c") with (pair_key "a:b" "c"). by rewrite !lookup_insert_eq.
Qed.

(** ** The health table of a service *)
Definition collect (prefix : string) (acc : gmap string StoredHealth) (kv : string * StoredHealth) : gmap string StoredHealth :=
  if starts_with prefix kv.1 then <[default kv.1 (RustStr.strip_prefix prefix kv.1) := kv.2]> acc else acc.

Lemma collect_spec prefix l : NoDup l.*1 -> forall acc u v,
  fold_left (collect prefix) l acc !! u = Some v <->
  (prefix +:+ u, v) ∈ l \/ (acc !! u = Some v /\ prefix +:+ u ∉ l.*1).
Proof.
  induction l as [|[k w] l IH]; intros Hnd acc u v.
  { cbn. rewrite elem_of_nil. split; [by right; split; [|apply not_elem_of_nil]|by intros [[]|[? _]]]. }
  rewrite fmap_cons, NoDup_cons in Hnd. destruct Hnd as [Hk Hnd]. cbn [fold_left fst] in *.
  rewrite IH by done. rewrite fmap_cons, not_elem_of_cons, elem_of_cons. cbn [fst].
  unfold collect at 1. cbn [fst snd]. unfold starts_with. destruct (RustStr.strip_prefix prefix k) as [r|] eqn:E; cbn.
  - apply strip_prefix_Some in E as ->. destruct (decide (r = u)) as [->|Hne].
    + rewrite lookup_insert_eq. split; [|intros [[Heq|?]|[_ [? _]]]]; [|by simplify_eq; auto|by auto|done].
      intros [?|[? ?]]; [auto|]. simplify_eq. auto.
    + rewrite lookup_insert_ne by done. assert (prefix +:+ u <> prefix +:+ r).
      { intros Heq. apply (f_equal (RustStr.strip_prefix prefix)) in Heq. rewrite !strip_prefix_app in Heq. by simplify_eq. }
      split; [intros [?|[? ?]]; auto|]. intros [[Heq|?]|[? [_ ?]]]; [by simplify_eq|auto|auto].
  - assert (k <> prefix +:+ u). { intros ->. by rewrite strip_prefix_app in E. }
    split; [intros [?|[? ?]]; auto|]. intros [[Heq|?]|[? [_ ?]]]; [by simplify_eq|auto|auto].
Qed.

(** The health table of a service lists exactly the servers whose status can
    be read back under that service: listing and single reads agree for every
    service and server. *)
Theorem health_get_all_exact sv u s : health_get_all sv s !! u = health_get sv u s.
Proof.
  unfold health_get, pair_key. apply option_eq. intros v.
  change (health_get_all sv s) with (fold_left (collect (sv +:+ ":")) (map_to_list (health_state s)) ∅).
  rewrite collect_spec by apply NoDup_fst_map_to_list. rewrite lookup_empty, elem_of_map_to_list, str_app_assoc.
  split; [by intros [?|[? _]]|by left].
Qed.

(** ** Cleaning up *)
Lemma filter_unexpired {E} (exp : E -> Z) (now t : Z) (m : gmap string E) k : now <= t ->
  (match filter (fun e : string * E => now < exp e.2) m !! k with Some e => if t <? exp e then Some e else None | None => None end) =
  (match m !! k with Some e => if t <? exp e then Some e else None | None => None end).
Proof.
  intros Hle. destruct (m !! k) as [e|] eqn:Em.
  - destruct (decide (now < exp e)) as [Hd|Hd].
    + rewrite (map_lookup_filter_Some_2 _ m k e); done.
    + rewrite map_lookup_filter_None_2; [by destruct (Z.ltb_spec t (exp e)); [lia|]|].
      right. intros x Hx. simplify_eq. done.
  - by rewrite map_lookup_filter_None_2 by (by left).
Qed.

(** The periodic cleanup is invisible: at any later time, reading a session, an
    ACME challenge or the leader of a task gives the same answer whether or not
    the cleanup ran. *)
Theorem cleanup_transparent now t s : now <= t ->
  (forall sv id, sticky_session_get sv id t (cleanup now s) = sticky_session_get sv id t s) /\
  (forall token, acme_challenge_get token t (cleanup now s) = acme_challenge_get token t s) /\
  (forall task, leader_get task t (cleanup now s) = leader_get task t s) /\
  (forall task id ttl, (leader_acquire task id ttl t (cleanup now s)).1 = (leader_acquire task id ttl t s).1).
Proof.
  intros Hle. split_and!.
  - intros sv id. unfold sticky_session_get. cbn [cleanup sticky_sessions].
    pose proof (filter_unexpired se_expires_at now t (sticky_sessions s) (pair_key sv id) Hle) as H.
    destruct (filter _ _ !! _) as [e|], (sticky_sessions s !! _) as [e'|]; repeat case_match; by simplify_eq.
  - intros token. unfold acme_challenge_get. cbn [cleanup acme_challenges].
    pose proof (filter_unexpired ac_expires_at now t (acme_challenges s) token Hle) as H.
    destruct (filter _ _ !! _) as [e|], (acme_challenges s !! _) as [e'|]; repeat case_match; by simplify_eq.
  - intros task. unfold leader_get. cbn [cleanup leaders].
    pose proof (filter_unexpired le_expires_at now t (leaders s) task Hle) as H.
    destruct (filter _ _ !! _) as [e|], (leaders s !! _) as [e'|]; repeat case_match; by simplify_eq.
  - intros task id ttl. unfold leader_acquire, leader_blocked. cbn [cleanup leaders].
    pose proof (filter_unexpired le_expires_at now t (leaders s) task Hle) as H.
    destruct (filter _ _ !! _) as [e|], (leaders s !! _) as [e'|]; cbn in H |- *;
      repeat (destruct (_ <? _); simplify_eq; cbn); repeat case_match; done.
Qed.

Lemma sticky_store_roundtrip_witness :
  sticky_session_get "api" "y" 0 (sticky_session_set "web" "x" "http://a" 10 0 new) = sticky_session_get "api" "y" 0 new.
Proof.
  apply (sticky_store_roundtrip "web" "x" "http://a" 10 0 new); [reflexivity|reflexivity|discriminate].
Defined.

Lemma cleanup_transparent_witness :
  leader_get "t" 4 (cleanup 3 (leader_acquire "t" "n1" 5 0 new).2) = Some "n1" /\
  leader_get "t" 6 (cleanup 5 (leader_acquire "t" "n1" 5 0 new).2) = None.
Proof.
  destruct (cleanup_transparent 3 4 (leader_acquire "t" "n1" 5 0 new).2 ltac:(lia)) as (_ & _ & -> & _).
  destruct (cleanup_transparent 5 6 (leader_acquire "t" "n1" 5 0 new).2 ltac:(lia)) as (_ & _ & -> & _).
  split; vm_compute; reflexivity.
Defined.

(** ** Leader election *)
Inductive leader_op := Acquire (id : string) (ttl : Z) | Release (id : string) | Sweep.

(** The store and, per node, the end of the lease it was last granted and has
    not released. *)
Definition leader_step (task : string) (op : leader_op) (now : Z) (st : LocalStore * gmap string Z) : LocalStore * gmap string Z :=
  let '(s, leases) := st in
  match op with
  | Acquire id ttl =>
      let '(granted, s') := leader_acquire task id ttl now s in
      (s', if granted then <[id := now + ttl]> leases else leases)
  | Release id => (leader_release task id s, delete id leases)
  | Sweep => (cleanup now s, leases)
  end.

Definition leader_run (task : string) (ops : list (Z * leader_op)) (st : LocalStore * gmap string Z) : LocalStore * gmap string Z :=
  fold_left (fun st o => leader_step task o.2 o.1 st) ops st.

Definition leases_inv (task : string) (t : Z) (st : LocalStore * gmap string Z) : Prop :=
  forall n x, st.2 !! n = Some x -> t < x -> leaders st.1 !! task = Some {| le_node_id := n; le_expires_at := x |}.

Lemma leader_step_inv task op t now st : t <= now -> leases_inv task t st -> leases_inv task now (leader_step task op now st).
Proof.
  destruct st as [s leases]. intros Hle Hinv n x. unfold leases_inv in Hinv. cbn [fst snd] in Hinv.
  destruct op as [id ttl|id|]; cbn [leader_step].
  - unfold leader_acquire. destruct (leader_blocked task id now s) eqn:Hb; cbn [fst snd].
    { intros Hn Hx. apply Hinv; [done|lia]. }
    cbn [leader_insert set_leaders leaders]. rewrite lookup_insert_eq. destruct (decide (n = id)) as [->|Hne].
    { rewrite lookup_insert_eq. by intros [= <-] _. }
    rewrite lookup_insert_ne by done. intros Hn Hx. unfold leader_blocked in Hb.
    rewrite (Hinv n x Hn) in Hb by lia. cbn in Hb. destruct (Z.ltb_spec now x); [|lia].
    by rewrite bool_decide_eq_false_2 in Hb by done.
  - cbn [fst snd]. destruct (decide (n = id)) as [->|Hne]; [by rewrite lookup_delete_eq|].
    rewrite lookup_delete_ne by done. intros Hn Hx. unfold leader_release. rewrite (Hinv n x Hn) by lia. cbn [le_node_id].
    rewrite bool_decide_eq_false_2 by done. apply Hinv; [done|lia].
  - cbn [fst snd cleanup leaders]. intros Hn Hx. apply map_lookup_filter_Some_2; [apply Hinv; [done|lia]|]. done.
Qed.

(** Operations with clock readings that do not go back. *)
Fixpoint timed (t : Z) (ops : list (Z * leader_op)) : Prop :=
  match ops with
  | [] => True
  | (now, _) :: ops' => t <= now /\ timed now ops'
  end.

Definition last_time (t : Z) (ops : list (Z * leader_op)) : Z := fold_left (fun _ o => o.1) ops t.

(** Leader election is safe: over any sequence of acquisitions, renewals,
    releases and cleanups (one at a time, on a clock that does not go back), no
    two nodes hold an unexpired lease on one task at the same time, and the
    store names the holder. *)
Theorem leader_mutual_exclusion task ops t n1 n2 x1 x2 :
  timed 0 ops -> last_time 0 ops <= t ->
  let st := leader_run task ops (new, ∅) in
  st.2 !! n1 = Some x1 -> st.2 !! n2 = Some x2 -> t < x1 -> t < x2 ->
  n1 = n2 /\ leader_get task t st.1 = Some n1.
Proof.
  intros Ht Hlast st H1 H2 Hx1 Hx2.
  assert (Hinv : forall ops t0 st0, timed t0 ops -> leases_inv task t0 st0 ->
    leases_inv task (last_time t0 ops) (leader_run task ops st0)).
  { clear. induction ops as [|[now op] ops IH]; intros t0 st0 Ht H0; [done|]. destruct Ht as [Hle Ht].
    apply (IH now); [done|]. by eapply leader_step_inv. }
  assert (H0 : leases_inv task 0 (new, ∅)) by (intros n x H; cbn [snd] in H; by rewrite lookup_empty in H).
  specialize (Hinv ops 0 (new, ∅) Ht H0). fold st in Hinv.
  pose proof (Hinv n1 x1 H1 ltac:(lia)) as E1. pose proof (Hinv n2 x2 H2 ltac:(lia)) as E2.
  split; [congruence|]. unfold leader_get. rewrite E1. cbn. by destruct (Z.ltb_spec t x1); [|lia].
Qed.

Lemma leader_mutual_exclusion_witness :
  let ops := [(0, Acquire "n1" 5); (1, Acquire "n2" 5); (6, Acquire "n2" 5); (7, Sweep); (8, Acquire "n2" 10)] in
  leader_get "t" 9 (leader_run "t" ops (new, ∅)).1 = Some "n2".
Proof.
  intros ops. apply (leader_mutual_exclusion "t" ops 9 "n2" "n2" 18 18).
  - repeat split; lia.
  - vm_compute. discriminate.
  - vm_compute. reflexivity.
  - vm_compute. reflexivity.
  - lia.
  - lia.
Defined.

(** The check and the insertion of [leader_acquire] are two separate accesses
    to the table: when two nodes both pass the check before either inserts, both
    are told they lead. *)
Theorem leader_acquire_race task ttl now :
  leader_blocked task "n1" now new = false /\ leader_blocked task "n2" now new = false /\
  leader_get task now (leader_insert task "n2" ttl now (leader_insert task "n1" ttl now new)) =
    if now <? now + ttl then Some "n2" else None.
Proof.
  split_and!; [done|done|]. unfold leader_get, leader_insert. cbn [set_leaders leaders]. by rewrite lookup_insert_eq.
Qed.
