(* ===== verification/RateLimit.v ===== *)
(** * Token-bucket rate limiter

    Models src/src/middleware/builtin/rate_limit.rs. The bucket is updated
    without a lock: [tstep] is one atomic access of a thread inside
    [try_acquire], and threads interleave at that grain (sequentially consistent
    interleavings). [try_acquire] is the call of a thread that runs alone.
    Clock readings are arguments, in nanoseconds. *)
From S2P Require Import Prelude LocalStore.
From stdpp Require Import list.
Open Scope Z_scope.
Open Scope list_scope.

Record TokenBucket := {
  tokens : Z; (* AtomicU64, milli-tokens *)
  last_update : Z; (* AtomicU64, nanoseconds since [epoch] *)
  epoch : Z;
  requests_since_sync : Z; (* AtomicU64 *)
}.

Definition bucket_new (initial_tokens now : Z) : TokenBucket :=
  {| tokens := wrap_u64 (initial_tokens * 1000); last_update := 0; epoch := now; requests_since_sync := 0 |}.

Definition set_tokens v b := {| tokens := v; last_update := last_update b; epoch := epoch b;
  requests_since_sync := requests_since_sync b |}.
Definition set_last v b := {| tokens := tokens b; last_update := v; epoch := epoch b;
  requests_since_sync := requests_since_sync b |}.
Definition count_request b := {| tokens := tokens b; last_update := last_update b; epoch := epoch b;
  requests_since_sync := wrap_u64 (requests_since_sync b + 1) |}.

(** [tokens_to_add] *)
Definition credit (rate now_nanos last : Z) : Z :=
  let elapsed_millis := saturating_sub now_nanos last / 1000000 in
  wrap_u64 (elapsed_millis * rate) / 1000.

Definition refilled (rate burst now_nanos last current : Z) : Z :=
  Z.min (wrap_u64 (current + credit rate now_nanos last)) (wrap_u64 (burst * 1000)).

(** Where a thread is inside [try_acquire]; [k] attempts are left. *)
Inductive pc :=
| LoadLast (k : nat)
| LoadTokens (k : nat) (last : Z)
| Swap (k : nat) (last current new_tokens : Z)
| Stamp (last : Z)
| Count
| Done (allowed : bool).

Definition retries : nat := 8.

(** One atomic access; [spurious] is a spurious failure of the weak exchange. *)
Definition tstep (rate burst now_nanos : Z) (spurious : bool) (p : pc) (b : TokenBucket) : pc * TokenBucket :=
  match p with
  | LoadLast O => (Done false, b)
  | LoadLast (S k) => (LoadTokens k (last_update b), b)
  | LoadTokens k last =>
      let current := tokens b in
      let new_tokens := refilled rate burst now_nanos last current in
      if new_tokens <? 1000 then (Done false, b) else (Swap k last current new_tokens, b)
  | Swap k last current new_tokens =>
      if (tokens b =? current) && negb spurious
      then (Stamp last, set_tokens (new_tokens - 1000) b)
      else (LoadLast k, b)
  | Stamp last => (Count, if last_update b =? last then set_last now_nanos b else b)
  | Count => (Done true, count_request b)
  | Done r => (Done r, b)
  end.

(** A call without contention: the first exchange succeeds. *)
Definition try_acquire (rate burst now_nanos : Z) (b : TokenBucket) : bool * TokenBucket :=
  let last := last_update b in
  let new_tokens := refilled rate burst now_nanos last (tokens b) in
  if new_tokens <? 1000 then (false, b)
  else (true, count_request (set_last now_nanos (set_tokens (new_tokens - 1000) b))).

Definition bucket_remaining (b : TokenBucket) : Z := tokens b / 1000.
Definition reset_sync_counter (b : TokenBucket) : Z * TokenBucket :=
  (requests_since_sync b,
   {| tokens := tokens b; last_update := last_update b; epoch := epoch b; requests_since_sync := 0 |}).

(** ** The middleware *)
Record RateLimitConfig := { average : Z; burst : Z; period : Z (* nanoseconds *) }.

Record RateLimitMiddleware (S : Type) := {
  config : RateLimitConfig;
  buckets : gmap string TokenBucket;
  store : option S;
  sync_interval : Z;
  last_sync : gmap string Z;
}.
Arguments config {S}. Arguments buckets {S}. Arguments store {S}.
Arguments sync_interval {S}. Arguments last_sync {S}.

Section Middleware.
Context {S : Type} `{RS : RateStore S}.

Definition mw_new (c : RateLimitConfig) (st : option S) : RateLimitMiddleware S :=
  {| config := c; buckets := ∅; store := st; sync_interval := 100 * 10 ^ 6; last_sync := ∅ |}.

(** The background check spawned for a key, if any. *)
Definition sync_job : Type := string * Z * Z.

Definition window_secs (m : RateLimitMiddleware S) : Z := Z.max (period (config m) / 10 ^ 9) 1.

Definition maybe_schedule_sync (key : string) (now : Z) (m : RateLimitMiddleware S)
    : option sync_job * RateLimitMiddleware S :=
  let should_sync := match last_sync m !! key with
                     | Some last => sync_interval m <=? duration_since now last
                     | None => true
                     end in
  if should_sync then
    (match store m with Some _ => Some (key, average (config m), window_secs m) | None => None end,
     {| config := config m; buckets := buckets m; store := store m;
        sync_interval := sync_interval m; last_sync := <[key := now]> (last_sync m) |})
  else (None, m).

Definition the_bucket (key : string) (now : Z) (m : RateLimitMiddleware S) : TokenBucket :=
  default (bucket_new (Z.max (burst (config m)) (average (config m))) now) (buckets m !! key).

(** [is_allowed_by_key]: [now] when the entry is looked up, [now'] inside
    [try_acquire], [now''] in the sync test. *)
Definition is_allowed_by_key (key : string) (now now' now'' : Z) (m : RateLimitMiddleware S)
    : bool * option sync_job * RateLimitMiddleware S :=
  let b := the_bucket key now m in
  let now_nanos := wrap_u64 (duration_since now' (epoch b)) in
  let '(allowed, b') := try_acquire (average (config m)) (Z.max (burst (config m)) 1) now_nanos b in
  let m' := {| config := config m; buckets := <[key := b']> (buckets m); store := store m;
               sync_interval := sync_interval m; last_sync := last_sync m |} in
  match store m' with
  | Some _ => let '(job, m'') := maybe_schedule_sync key now'' m' in (allowed, job, m'')
  | None => (allowed, None, m')
  end.

(** [is_allowed_distributed_by_key]: the local answer, then the store's. *)
Definition is_allowed_distributed_by_key (key : string) (now now' now'' wall : Z) (m : RateLimitMiddleware S)
    : bool * option sync_job * RateLimitMiddleware S :=
  let '(local_allowed, job, m') := is_allowed_by_key key now now' now'' m in
  if negb local_allowed then (false, job, m')
  else match store m' with
       | Some st =>
           let '(r, st') := rs_check key (average (config m')) (window_secs m') now'' wall st in
           let m'' := {| config := config m'; buckets := buckets m'; store := Some st';
                         sync_interval := sync_interval m'; last_sync := last_sync m' |} in
           match r with
           | Ok (allowed, _, _) => (allowed, job, m'')
           | _ => (local_allowed, job, m'')
           end
       | None => (local_allowed, job, m')
       end.

Definition remaining_by_key (key : string) (m : RateLimitMiddleware S) : Z :=
  match buckets m !! key with Some b => bucket_remaining b | None => burst (config m) end.

Definition remaining_distributed (key : string) (m : RateLimitMiddleware S) : Z :=
  match store m with
  | Some st => match rs_remaining key (average (config m)) st with Ok r => r | _ => remaining_by_key key m end
  | None => remaining_by_key key m
  end.

Definition mw_cleanup (max_age now : Z) (m : RateLimitMiddleware S) : RateLimitMiddleware S :=
  {| config := config m;
     buckets := filter (fun e => duration_since now (epoch e.2 + last_update e.2) < max_age) (buckets m);
     store := store m; sync_interval := sync_interval m;
     last_sync := filter (fun e => duration_since now e.2 < max_age) (last_sync m) |}.

Definition bucket_count (m : RateLimitMiddleware S) : nat := size (buckets m).
End Middleware.

(** [DistributedRateLimiter::is_allowed] *)
Record RateLimitResult := { rr_allowed : bool; rr_remaining : Z; rr_reset_time : Z; rr_limit : Z }.
Definition distributed_is_allowed {S} `{RateStore S} (key : string) (limit window now wall : Z) (st : S)
    : result StoreError RateLimitResult * S :=
  let '(r, st') := rs_check key limit window now wall st in
  (res_map (fun a => {| rr_allowed := a.1.1; rr_remaining := a.1.2; rr_reset_time := a.2; rr_limit := limit |}) r, st').

(** ** One caller at a time *)
Fixpoint acquires (rate burst : Z) (times : list Z) (b : TokenBucket) : list bool * TokenBucket :=
  match times with
  | [] => ([], b)
  | now :: times' =>
      let '(r, b') := try_acquire rate burst now b in
      let '(rs, b'') := acquires rate burst times' b' in (r :: rs, b'')
  end.

Definition admitted (rs : list bool) : Z := Z.of_nat (length (filter (fun b => b = true) rs)).

Fixpoint nondecreasing (t : Z) (times : list Z) : Prop :=
  match times with
  | [] => True
  | now :: times' => t <= now /\ nondecreasing now times'
  end.

Definition latest (t : Z) (times : list Z) : Z := fold_left (fun _ x => x) times t.

Lemma wrap_u64_le x : 0 <= x -> 0 <= wrap_u64 x <= x.
Proof. intros. unfold wrap_u64. pose proof (Z.mod_pos_bound x (2 ^ 64)). pose proof (Z.mod_le x (2 ^ 64)). lia. Qed.

Lemma credit_bound rate now last : 0 <= rate -> 0 <= last <= now ->
  0 <= credit rate now last /\ 10 ^ 9 * credit rate now last <= rate * (now - last).
Proof.
  intros Hr Hl. unfold credit, saturating_sub. rewrite Z.max_r by lia.
  set (ms := (now - last) / 1000000).
  assert (Hms : 0 <= ms /\ 1000000 * ms <= now - last).
  { unfold ms. split; [apply Z.div_pos; lia|]. apply Z.mul_div_le. lia. }
  destruct (wrap_u64_le (ms * rate)) as [H0 H1]; [nia|].
  pose proof (Z.mul_div_le (wrap_u64 (ms * rate)) 1000 ltac:(lia)).
  split; [apply Z.div_pos; lia|]. nia.
Qed.

Lemma refilled_bound rate burst now last cur : 0 <= rate -> 0 <= last <= now -> 0 <= cur ->
  refilled rate burst now last cur <= cur + credit rate now last.
Proof.
  intros Hr Hl Hc. destruct (credit_bound rate now last Hr Hl) as [H0 _]. unfold refilled.
  destruct (wrap_u64_le (cur + credit rate now last)); lia.
Qed.

Lemma acquires_bound rate burst times : forall b t, 0 <= rate -> 0 <= tokens b -> 0 <= last_update b <= t ->
  nondecreasing t times ->
  10 ^ 12 * admitted (acquires rate burst times b).1 <= 10 ^ 9 * tokens b + rate * (latest t times - last_update b).
Proof.
  induction times as [|now times IH]; intros b t Hr Htok Hlast Hnd.
  { cbn. unfold admitted. cbn. nia. }
  destruct Hnd as [Hle Hnd]. cbn [acquires]. unfold try_acquire.
  destruct (Z.ltb_spec (refilled rate burst now (last_update b) (tokens b)) 1000) as [Hlt|Hge].
  - specialize (IH b now Hr Htok ltac:(lia) Hnd). destruct (acquires rate burst times b) as [rs b'].
    unfold admitted in *. cbn [fst]. rewrite filter_cons, decide_False by done. exact IH.
  - set (b1 := count_request _). specialize (IH b1 now Hr). cbn [b1 count_request set_last set_tokens tokens last_update] in IH.
    specialize (IH ltac:(lia) ltac:(lia) Hnd). fold b1 in IH.
    pose proof (refilled_bound rate burst now (last_update b) (tokens b) Hr ltac:(lia) Htok).
    destruct (credit_bound rate now (last_update b) Hr ltac:(lia)) as [_ Hc].
    destruct (acquires rate burst times b1) as [rs b']. unfold admitted in *. cbn [fst] in *.
    rewrite filter_cons, decide_True by done. cbn [length]. change (latest t (now :: times)) with (latest now times).
    nia.
Qed.

(** Until the first admission nothing is admitted; from it on the bucket holds less than
    the burst. *)
Lemma period_bound rate burst times : forall b t, 0 <= rate -> 0 <= burst -> 0 <= t -> nondecreasing t times ->
  10 ^ 12 * admitted (acquires rate burst times b).1 <= 10 ^ 12 * burst + rate * (latest t times - t).
Proof.
  induction times as [|now times IH]; intros b t Hr Hb Ht Hnd; [cbn; unfold admitted; cbn; lia|].
  destruct Hnd as [Hle Hnd]. change (latest t (now :: times)) with (latest now times). cbn [acquires]. unfold try_acquire.
  assert (Hlate : now <= latest now times).
  { clear -Hnd. revert now Hnd. induction times as [|x times IH]; intros now Hnd; [cbn; lia|]. destruct Hnd as [Hx Hnd].
    change (latest now (x :: times)) with (latest x times). specialize (IH x Hnd). lia. }
  destruct (Z.ltb_spec (refilled rate burst now (last_update b) (tokens b)) 1000) as [Hlt|Hge].
  - specialize (IH b now Hr Hb ltac:(lia) Hnd). destruct (acquires rate burst times b) as [rs b'].
    unfold admitted in *. cbn [fst] in *. rewrite filter_cons, decide_False by done. nia.
  - set (b1 := count_request _). assert (Hcap : refilled rate burst now (last_update b) (tokens b) <= burst * 1000).
    { unfold refilled. destruct (wrap_u64_le (burst * 1000)); lia. }
    pose proof (acquires_bound rate burst times b1 now Hr) as H. cbn [b1 count_request set_last set_tokens tokens last_update] in H.
    specialize (H ltac:(lia) ltac:(lia) Hnd). fold b1 in H. destruct (acquires rate burst times b1) as [rs b']. unfold admitted in *.
    cbn [fst] in *. rewrite filter_cons, decide_True by done. cbn [length]. nia.
Qed.

(** A request that comes late enough is admitted. *)
Lemma late_admitted rate burst now b : let ms := (now - last_update b) / 1000000 in
  0 <= tokens b -> 0 <= last_update b <= now -> 10 ^ 6 <= ms * rate <= u64_max ->
  tokens b + ms * rate / 1000 <= u64_max -> 1 <= burst -> burst * 1000 <= u64_max ->
  (try_acquire rate burst now b).1 = true.
Proof.
  intros ms Ht Hl Hms Hc Hb1 Hb. unfold try_acquire, refilled, credit, saturating_sub. rewrite Z.max_r by lia. fold ms.
  rewrite (wrap_u64_id (ms * rate)) by word.
  assert (Hq : 1000 <= ms * rate / 1000) by (apply Z.div_le_lower_bound; lia).
  rewrite !wrap_u64_id by word. destruct (Z.ltb_spec (Z.min (tokens b + ms * rate / 1000) (burst * 1000)) 1000); [lia|done].
Qed.

(** C20. The rate of the limiter, for callers that come one after the other on a clock
    that does not go back. In any period, whatever the state of the bucket at its
    first request, at most [burst] requests and [average * T / 10^12] more are
    admitted, where [T] is the time in nanoseconds from the first request of the
    period to the last, also when the 64-bit products wrap. And a request that
    comes when [average] times the whole milliseconds since the last admission is
    a million or more is admitted, as long as nothing wraps. With [T] in seconds the
    sustained rate is [average * T / 1000]: the refill adds whole tokens to a count
    kept in thousandths, so it is a thousandth of the configured one. *)
Theorem token_bucket_rate_bound rate burst b :
  0 <= rate -> 0 <= burst ->
  (forall first times, 0 <= first -> nondecreasing first times ->
     10 ^ 12 * admitted (acquires rate burst (first :: times) b).1 <= 10 ^ 12 * burst + rate * (latest first times - first)) /\
  (forall now, let ms := (now - last_update b) / 1000000 in
     0 <= tokens b -> 0 <= last_update b <= now -> 10 ^ 6 <= ms * rate <= u64_max ->
     tokens b + ms * rate / 1000 <= u64_max -> 1 <= burst -> burst * 1000 <= u64_max ->
     (try_acquire rate burst now b).1 = true).
Proof.
  intros Hr Hb. split; [|intros now ms ? ? ? ? ? ?; by apply late_admitted].
  intros first times Hf Hnd. apply (period_bound rate burst (first :: times) b first); [done|done|done|]. by split.
Qed.

(** A limiter of 100 requests per second, burst 2, asked twice at once and then
    once a second: after the burst nothing is admitted for nine seconds. *)
Definition slow_refill : list Z := [0; 0] ++ ((fun i => Z.of_nat i * 10 ^ 9) <$> seq 1 10).

Lemma token_bucket_rate_bound_witness :
  let b := (acquires 100 2 slow_refill (bucket_new 2 0)).2 in
  10 ^ 12 * admitted (acquires 100 2 [11 * 10 ^ 9; 25 * 10 ^ 9; 25 * 10 ^ 9] b).1 <= 10 ^ 12 * 2 + 100 * (14 * 10 ^ 9) /\
  (acquires 100 2 slow_refill (bucket_new 2 0)).1 = [true; true] ++ replicate 9 false ++ [true] /\
  (try_acquire 100 2 (25 * 10 ^ 9) b).1 = true.
Proof.
  intros b. split; [|split; [vm_compute; reflexivity|]].
  - apply (proj1 (token_bucket_rate_bound 100 2 b ltac:(lia) ltac:(lia)) (11 * 10 ^ 9) [25 * 10 ^ 9; 25 * 10 ^ 9]); [lia|].
    cbn. repeat split; lia.
  - apply (proj2 (token_bucket_rate_bound 100 2 b ltac:(lia) ltac:(lia)) (25 * 10 ^ 9)); vm_compute; repeat split; discriminate.
Defined.

(** Early enough, elapsed time earns nothing. *)
Definition early (rate now : Z) : Prop := 0 <= now /\ now * rate < 10 ^ 9.

Lemma credit_zero rate now last : 0 <= rate -> 0 <= last -> early rate now -> credit rate now last = 0.
Proof.
  intros Hr Hl [Hn Hlt]. unfold credit, saturating_sub.
  set (ms := Z.max 0 (now - last) / 1000000).
  assert (Hms : 0 <= ms /\ 1000000 * ms <= now).
  { unfold ms. split; [apply Z.div_pos; lia|]. etransitivity; [apply Z.mul_div_le; lia|lia]. }
  destruct (wrap_u64_le (ms * rate)) as [H0 H1]; [nia|]. apply Z.div_small. nia.
Qed.

(** With no time credit a bucket gives out exactly the whole tokens it holds. *)
Lemma acquires_no_credit rate burst times : forall b n, 0 <= rate -> Forall (early rate) times ->
  0 <= last_update b -> 0 <= tokens b <= u64_max -> 0 <= burst * 1000 <= u64_max ->
  0 <= n -> n = Z.min (tokens b / 1000) burst ->
  (acquires rate burst times b).1 = (fun i => Z.of_nat i <? n) <$> seq 0 (length times).
Proof.
  intros b n Hr Hearly. revert b n. induction Hearly as [|now times He Hearly IH]; intros b n Hl Ht Hb Hn Hmin; [done|].
  cbn [acquires]. unfold try_acquire, refilled. rewrite credit_zero, Z.add_0_r, !wrap_u64_id by (done || word).
  pose proof (Z.div_mod (tokens b) 1000 ltac:(lia)). pose proof (Z.mod_pos_bound (tokens b) 1000 ltac:(lia)).
  destruct (Z.ltb_spec (Z.min (tokens b) (burst * 1000)) 1000) as [Hlt|Hge].
  - assert (n = 0) as -> by nia. specialize (IH b 0 Hl Ht Hb ltac:(lia) Hmin).
    destruct (acquires rate burst times b) as [rs b']. cbn [fst] in *. cbn [length seq]. rewrite fmap_cons. f_equal.
    rewrite IH, <- fmap_S_seq, <- list_fmap_compose. apply list_fmap_ext. intros i x _. unfold compose.
    destruct (Z.ltb_spec (Z.of_nat x) 0), (Z.ltb_spec (Z.of_nat (S x)) 0); lia || done.
  - set (b1 := count_request _).
    assert (Hb1 : tokens b1 = Z.min (tokens b) (burst * 1000) - 1000 /\ last_update b1 = now) by done.
    destruct Hb1 as [Ht1 Hl1]. destruct He as [He0 _].
    assert (Hdiv : Z.min (tokens b1 / 1000) burst = n - 1).
    { rewrite Ht1. replace (Z.min (tokens b) (burst * 1000) - 1000) with (Z.min (tokens b) (burst * 1000) + (-1) * 1000) by lia.
      rewrite Z.div_add by lia. destruct (Z.min_spec (tokens b) (burst * 1000)) as [[? ->]|[? ->]]; [|rewrite Z.div_mul by lia]; lia. }
    assert (0 < n) by nia.
    specialize (IH b1 (n - 1) ltac:(lia) ltac:(lia) Hb ltac:(lia) ltac:(lia)).
    destruct (acquires rate burst times b1) as [rs b']. cbn [fst] in *. cbn [length seq]. rewrite fmap_cons.
    f_equal; [symmetry; by apply Z.ltb_lt|].
    rewrite IH, <- fmap_S_seq, <- list_fmap_compose. apply list_fmap_ext. intros i x _. unfold compose.
    destruct (Z.ltb_spec (Z.of_nat x) (n - 1)), (Z.ltb_spec (Z.of_nat (S x)) n); lia || done.
Qed.

(** The burst allowance is exact: of the first requests of a client, made
    before elapsed time earns a token, exactly the first [burst] are admitted
    (the middleware starts a bucket with the larger of [burst] and [average]
    and caps it at [burst]). *)
Theorem token_bucket_burst_exact rate burst epoch times :
  0 <= rate -> 1 <= burst -> 1000 * Z.max burst rate <= u64_max -> Forall (early rate) times ->
  (acquires rate burst times (bucket_new (Z.max burst rate) epoch)).1 =
    (fun i => Z.of_nat i <? burst) <$> seq 0 (length times).
Proof.
  intros Hr Hb Hmax He. apply acquires_no_credit; cbn [bucket_new tokens last_update]; try (done || lia).
  - rewrite wrap_u64_id by word. word.
  - rewrite wrap_u64_id by word. rewrite Z.div_mul by lia. lia.
Qed.

Lemma token_bucket_burst_exact_witness :
  (acquires 5 2 [0; 1000; 2000; 199999999] (bucket_new 5 0)).1 = [true; true; false; false].
Proof.
  apply (token_bucket_burst_exact 5 2 0 [0; 1000; 2000; 199999999]); try lia.
  - vm_compute. discriminate.
  - repeat constructor; vm_compute; try discriminate; reflexivity.
Defined.

(** ** Concurrent callers *)

(** A thread inside [try_acquire]: its clock reading and where it is. *)
Record thread := { th_now : Z; th_pc : pc }.
Definition call (now : Z) : thread := {| th_now := now; th_pc := LoadLast retries |}.

(** Thread [i] makes one access. *)
Definition cstep (rate burst : Z) (ev : nat * bool) (st : TokenBucket * list thread) : TokenBucket * list thread :=
  match st.2 !! ev.1 with
  | Some th =>
      let '(p, b) := tstep rate burst (th_now th) ev.2 (th_pc th) st.1 in
      (b, <[ev.1 := {| th_now := th_now th; th_pc := p |}]> st.2)
  | None => st
  end.
Definition csteps (rate burst : Z) (evs : list (nat * bool)) (st : TokenBucket * list thread) : TokenBucket * list thread :=
  fold_left (fun st ev => cstep rate burst ev st) evs st.

(** Threads past the exchange: their request is or will be admitted. *)
Definition granted (p : pc) : bool :=
  match p with Stamp _ | Count | Done true => true | _ => false end.
Definition grants (ths : list thread) : Z := zsum ((fun th => if granted (th_pc th) then 1 else 0) <$> ths).

(** The thousandths of tokens that the time since [m] is worth at [now]. *)
Definition allowance (rate m now : Z) : Z := rate * Z.max 0 (now - m) / 10 ^ 9.
Definition allowances (rate m : Z) (ths : list thread) : Z :=
  zsum ((fun th => if granted (th_pc th) then allowance rate m (th_now th) else 0) <$> ths).

Lemma credit_allowance rate m now last : 0 <= rate -> 0 <= m <= last -> 0 <= credit rate now last <= allowance rate m now.
Proof.
  intros Hr Hm. unfold allowance. destruct (Z.le_gt_cases last now) as [Hl|Hl].
  - destruct (credit_bound rate now last Hr ltac:(lia)) as [H0 H1]. split; [done|]. apply Z.div_le_lower_bound; nia.
  - unfold credit, saturating_sub. rewrite Z.max_l by lia. change (wrap_u64 (0 / 1000000 * rate) / 1000) with 0.
    split; [done|]. apply Z.div_pos; nia.
Qed.

(** What a thread knows when it is about to exchange. *)
Definition pc_ok (rate burst m : Z) (th : thread) : Prop :=
  match th_pc th with
  | LoadTokens _ last => m <= last
  | Swap _ last current new_tokens => m <= last /\ 1000 <= new_tokens <= current + allowance rate m (th_now th) /\ new_tokens <= burst * 1000
  | _ => True
  end.

Definition no_overdraft (rate burst m initial : Z) (st : TokenBucket * list thread) : Prop :=
  0 <= tokens st.1 /\ m <= last_update st.1 /\ Forall (fun th => m <= th_now th /\ pc_ok rate burst m th) st.2 /\
  1000 * grants st.2 + tokens st.1 <= initial + allowances rate m st.2 /\
  0 <= grants st.2 /\ (0 < grants st.2 -> tokens st.1 <= (burst - 1) * 1000).

(** A sum over threads after one of them moved. *)
Lemma zsum_insert (f : thread -> Z) i th th' ths : ths !! i = Some th ->
  zsum (f <$> <[i := th']> ths) = zsum (f <$> ths) - f th + f th'.
Proof.
  revert i. induction ths as [|t ths IH]; intros [|i]; [done|done| |].
  - intros [= ->]. change (<[0%nat := th']> (th :: ths)) with (th' :: ths). rewrite !fmap_cons, !zsum_cons. lia.
  - intros Hi. change (<[S i := th']> (t :: ths)) with (t :: <[i := th']> ths).
    rewrite !fmap_cons, !zsum_cons, (IH i Hi). lia.
Qed.

(** One access: either it admits the request and takes a token, or it leaves the count. *)
Lemma tstep_ok rate burst m sp th b p b' : 0 <= rate -> 0 <= burst -> 0 <= m <= th_now th ->
  0 <= tokens b -> m <= last_update b -> pc_ok rate burst m th ->
  tstep rate burst (th_now th) sp (th_pc th) b = (p, b') ->
  0 <= tokens b' /\ m <= last_update b' /\ pc_ok rate burst m {| th_now := th_now th; th_pc := p |} /\
  ((granted p = granted (th_pc th) /\ tokens b' = tokens b) \/
   (granted p = true /\ granted (th_pc th) = false /\ tokens b' + 1000 <= tokens b + allowance rate m (th_now th) /\ tokens b' <= (burst - 1) * 1000)).
Proof.
  intros Hr Hb Hm Ht Hl Hok. unfold pc_ok in *. destruct (th_pc th) as [[|k]|k last|k last cur nt|last| |[]]; cbn [tstep].
  - intros [= <- <-]. cbn. auto 10.
  - intros [= <- <-]. cbn. auto 10.
  - destruct (credit_allowance rate m (th_now th) last Hr ltac:(lia)) as [Hc0 Hc1].
    destruct (Z.ltb_spec (refilled rate burst (th_now th) last (tokens b)) 1000) as [|Hge]; intros [= <- <-]; cbn; [by auto 10|].
    unfold refilled in *. pose proof (wrap_u64_le (tokens b + credit rate (th_now th) last) ltac:(lia)).
    pose proof (wrap_u64_le (burst * 1000) ltac:(lia)). split_and!; lia.
  - destruct (Z.eqb_spec (tokens b) cur), sp; cbn [andb negb]; intros [= <- <-]; cbn; split_and!; try lia; auto.
  - destruct (last_update b =? last); intros [= <- <-]; cbn; split_and!; try lia; auto.
  - intros [= <- <-]. cbn. auto 10.
  - intros [= <- <-]. cbn. auto 10.
  - intros [= <- <-]. cbn. auto 10.
Qed.

Lemma cstep_no_overdraft rate burst m initial ev st : 0 <= rate -> 0 <= burst -> 0 <= m ->
  no_overdraft rate burst m initial st -> no_overdraft rate burst m initial (cstep rate burst ev st).
Proof.
  intros Hr Hb Hm (Ht & Hl & Hths & Hsum & Hg & Hcap). destruct st as [b ths], ev as [i sp]. unfold cstep. cbn [fst snd] in *.
  destruct (ths !! i) as [th|] eqn:Hi; [|by split_and!]. destruct (tstep _ _ _ _ _ _) as [p b'] eqn:E.
  destruct (Forall_lookup_1 _ _ _ _ Hths Hi) as [Hn Hok].
  destruct (tstep_ok rate burst m sp th b p b' Hr Hb ltac:(lia) Ht Hl Hok E) as (H1 & H2 & H3 & H4).
  unfold no_overdraft, grants, allowances in *. cbn [fst snd]. rewrite !(zsum_insert _ i th) by done. cbn [th_pc th_now].
  split_and!; [done|done|by apply Forall_insert| | |];
    destruct H4 as [[-> H4]|(-> & -> & H5 & H6)]; try lia; destruct (granted (th_pc th)); lia.
Qed.

(** C10. No over-admission under contention. Any number of threads race on one bucket,
    interleaved at every atomic access and with spurious failures of the exchange;
    no clock reading and not the bucket's last update is before [m]. Then the
    tokens given out and those left are together at most the tokens held at first
    and, for each admitted request, what the time from [m] to that request's clock
    reading is worth: no token is given out twice, and time is credited at most
    once per admitted request (that it can be credited to several requests is
    shown by [token_bucket_double_credit]). In particular, as long as the elapsed
    time has not earned a token, the threads are admitted at most as often as the
    bucket holds whole tokens. The count never underflows, and after an admission
    it stays below the burst. *)
Theorem token_bucket_no_overdraft rate burst m b times evs :
  0 <= rate -> 0 <= burst -> 0 <= m <= last_update b -> 0 <= tokens b -> Forall (fun now => m <= now) times ->
  let st := csteps rate burst evs (b, call <$> times) in
  1000 * grants st.2 + tokens st.1 <= tokens b + allowances rate m st.2 /\
  (Forall (fun now => rate * (now - m) < 10 ^ 9) times -> 1000 * grants st.2 <= tokens b) /\
  0 <= tokens st.1 /\ (0 < grants st.2 -> tokens st.1 <= (burst - 1) * 1000).
Proof.
  intros Hr Hb Hm Ht He st.
  assert (H0 : forall times, Forall (fun now => m <= now) times -> no_overdraft rate burst m (tokens b) (b, call <$> times)).
  { clear times He st. intros times He. unfold no_overdraft. cbn [fst snd].
    assert (Hg : grants (call <$> times) = 0 /\ allowances rate m (call <$> times) = 0).
    { unfold grants, allowances. clear. induction times as [|t times [IH1 IH2]]; [done|]. rewrite !fmap_cons, !zsum_cons, IH1, IH2. done. }
    destruct Hg as [-> ->]. split_and!; try lia. apply Forall_fmap. eapply Forall_impl; [exact He|]. intros now Hn. by split. }
  assert (Hnow : th_now <$> st.2 = times /\ no_overdraft rate burst m (tokens b) st).
  { unfold st, csteps. specialize (H0 times He). assert (H1 : th_now <$> (b, call <$> times).2 = times).
    { cbn. rewrite <- list_fmap_compose. apply list_fmap_id. }
    revert H0 H1. generalize (b, call <$> times). induction evs as [|ev evs IH]; intros s0 H0 H1; [done|].
    cbn [fold_left]. apply IH; [by apply cstep_no_overdraft; try lia|]. rewrite <- H1. unfold cstep.
    destruct (s0.2 !! ev.1) as [th|] eqn:Ei; [|done]. destruct (tstep _ _ _ _ _ _). cbn [snd]. rewrite list_fmap_insert. cbn [th_now].
    apply list_insert_id. by rewrite list_lookup_fmap, Ei. }
  destruct Hnow as (Hnow & H1 & _ & _ & H2 & H3 & H4). split_and!; try done.
  intros Hearly. assert (Hz : allowances rate m st.2 = 0); [|lia]. rewrite <- Hnow in He, Hearly. clear -Hr He Hearly.
  unfold allowances. induction st.2 as [|th ths IH]; [done|]. rewrite fmap_cons in He, Hearly. apply Forall_cons in He as [He1 He2], Hearly as [H1 H2].
  rewrite fmap_cons, zsum_cons, IH by done. unfold allowance. rewrite Z.max_r by lia.
  rewrite Z.div_small by nia. by destruct (granted _).
Qed.

(** Two threads interleaved on a bucket with one token. *)
Definition contention : list (nat * bool) :=
  [(0, false); (1, false); (0, false); (1, false); (0, false); (1, false); (1, false); (1, false); (0, false); (0, false)]%nat.

Lemma token_bucket_no_overdraft_witness :
  (th_pc <$> (csteps 10 5 contention (bucket_new 1 0, call <$> [0; 5])).2) = [Done true; Done false] /\
  1000 * grants (csteps 10 5 contention (bucket_new 1 0, call <$> [0; 5])).2 <= tokens (bucket_new 1 0).
Proof.
  split; [vm_compute; reflexivity|].
  destruct (token_bucket_no_overdraft 10 5 0 (bucket_new 1 0) [0; 5] contention) as (_ & H & _).
  - lia.
  - lia.
  - vm_compute. split; discriminate.
  - vm_compute. discriminate.
  - repeat constructor; lia.
  - apply H. repeat constructor; lia.
Defined.

(** Accesses a thread still makes. *)
Definition remaining_accesses (p : pc) : nat :=
  match p with
  | LoadLast k => 3 * k + 3
  | LoadTokens k _ => 3 * k + 5
  | Swap k _ _ _ => 3 * k + 4
  | Stamp _ => 2
  | Count => 1
  | Done _ => 0
  end.

Lemma tstep_progress rate burst now sp p b :
  (remaining_accesses (tstep rate burst now sp p b).1 <= pred (remaining_accesses p))%nat.
Proof.
  destruct p as [[|k]|k last|k last cur nt|last| |r]; cbn [tstep]; try (cbn; lia).
  - destruct (_ <? 1000); cbn; lia.
  - destruct (_ && _); cbn; lia.
Qed.

(** The accesses made by thread [i]. *)
Definition accesses_of (i : nat) (evs : list (nat * bool)) : nat := length (filter (fun ev => ev.1 = i) evs).

Lemma csteps_progress rate burst i evs : forall st th, st.2 !! i = Some th ->
  exists th', (csteps rate burst evs st).2 !! i = Some th' /\
    (remaining_accesses (th_pc th') <= remaining_accesses (th_pc th) - accesses_of i evs)%nat.
Proof.
  induction evs as [|[j sp] evs IH]; intros st th Hi; [exists th; split; [done|unfold accesses_of; cbn; lia]|].
  unfold csteps. cbn [fold_left]. unfold accesses_of. rewrite filter_cons. cbn [fst].
  destruct (decide (j = i)) as [->|Hne].
  - pose proof (tstep_progress rate burst (th_now th) sp (th_pc th) st.1) as Hp.
    destruct (IH (cstep rate burst (i, sp) st) {| th_now := th_now th; th_pc := (tstep rate burst (th_now th) sp (th_pc th) st.1).1 |})
      as (th' & H1 & H2).
    { unfold cstep. cbn [fst snd]. rewrite Hi. destruct (tstep _ _ _ _ _ _). cbn [fst snd].
      apply list_lookup_insert_eq. by eapply lookup_lt_Some. }
    exists th'. split; [exact H1|]. cbn [length th_pc] in *. unfold accesses_of in H2. lia.
  - destruct (IH (cstep rate burst (j, sp) st) th) as (th' & H1 & H2).
    { unfold cstep. cbn [fst snd]. destruct (st.2 !! j) as [tj|]; [|done]. destruct (tstep _ _ _ _ _ _). cbn [fst snd].
      by rewrite list_lookup_insert_ne. }
    exists th'. split; [exact H1|exact H2].
Qed.

(** [try_acquire] is wait-free: whatever the other threads do and however often
    the weak exchange fails, a call is over after at most 27 accesses of its own
    thread. *)
Theorem try_acquire_wait_free rate burst b times evs i now :
  times !! i = Some now -> (27 <= accesses_of i evs)%nat ->
  exists r, th_pc <$> (csteps rate burst evs (b, call <$> times)).2 !! i = Some (Done r).
Proof.
  intros Hi Hev. destruct (csteps_progress rate burst i evs (b, call <$> times) (call now)) as (th & Hth & Hm).
  { cbn [snd]. by rewrite list_lookup_fmap, Hi. }
  cbn [call th_pc remaining_accesses retries] in Hm. rewrite Hth. destruct th as [n p]. cbn in *.
  destruct p; cbn in Hm; try lia. eauto.
Qed.

Lemma try_acquire_wait_free_witness :
  exists r, th_pc <$> (csteps 10 5 (replicate 27 (0%nat, true)) (bucket_new 1 0, call <$> [0])).2 !! 0%nat = Some (Done r).
Proof.
  apply (try_acquire_wait_free 10 5 (bucket_new 1 0) [0] (replicate 27 (0%nat, true)) 0 0); [reflexivity|].
  vm_compute. lia.
Defined.

(** Elapsed time can be credited twice: a thread that read the timestamp
    before another one refilled the bucket adds the same interval again. Two
    seconds at 1000 per second are worth two requests; the same four callers are
    admitted twice one after another, and four times when interleaved. *)
Theorem token_bucket_double_credit :
  let b := bucket_new 0 0 in
  let t := 2 * 10 ^ 9 in
  let solo i := replicate 5 (i, false) in
  (acquires 1000 10 [t; t; t; t] b).1 = [true; true; false; false] /\
  (th_pc <$> (csteps 1000 10 ([(0%nat, false)] ++ solo 1%nat ++ replicate 4 (0%nat, false) ++ solo 2%nat ++ solo 3%nat)
     (b, call <$> [t; t; t; t])).2) = [Done true; Done true; Done true; Done true].
Proof. split; vm_compute; reflexivity. Qed.

(** The access-by-access code of a thread that runs alone computes the
    one-step function [try_acquire]: same verdict, same final bucket. *)
Theorem try_acquire_alone rate burst now b :
  csteps rate burst (replicate 5 (0%nat, false)) (b, [call now]) =
    ((try_acquire rate burst now b).2, [{| th_now := now; th_pc := Done (try_acquire rate burst now b).1 |}]).
Proof.
  unfold try_acquire, csteps, call, retries. cbn [replicate fold_left].
  unfold cstep at 5. cbn [snd fst lookup list_lookup th_now th_pc tstep insert list_insert].
  unfold cstep at 4. cbn [snd fst lookup list_lookup th_now th_pc tstep insert list_insert].
  destruct (refilled rate burst now (last_update b) (tokens b) <? 1000).
  - done.
  - unfold cstep at 3. cbn [snd fst lookup list_lookup th_now th_pc tstep insert list_insert].
    rewrite Z.eqb_refl. cbn [andb negb]. unfold cstep at 2.
    cbn [snd fst lookup list_lookup th_now th_pc tstep insert list_insert set_tokens last_update].
    rewrite Z.eqb_refl. done.
Qed.

(** Eviction refills: a client whose last admitted request is [max_age] old
    loses its bucket at the next cleanup, and then starts over with a full one,
    even if it kept asking and being refused all along. *)
Theorem eviction_refills {S} `{RateStore S} key b (m : RateLimitMiddleware S) max_age now t1 t2 t3 :
  buckets m !! key = Some b -> max_age <= duration_since now (epoch b + last_update b) ->
  1 <= burst (config m) -> 1000 * Z.max (burst (config m)) (average (config m)) <= u64_max ->
  0 <= average (config m) -> t1 <= t2 -> t2 - t1 < 1000000 ->
  (is_allowed_by_key key t1 t2 t3 (mw_cleanup max_age now m)).1.1 = true /\
  remaining_by_key key (is_allowed_by_key key t1 t2 t3 (mw_cleanup max_age now m)).2 = burst (config m) - 1.
Proof.
  intros Hb Hage H1 Hmax Havg Ht Hms. unfold is_allowed_by_key, the_bucket. cbn [mw_cleanup buckets config store].
  rewrite map_lookup_filter_None_2.
  2:{ right. intros x Hx. simplify_eq. cbn. lia. }
  cbn [default from_option id]. unfold try_acquire. cbn [bucket_new last_update tokens epoch].
  assert (Hcr : credit (average (config m)) (wrap_u64 (duration_since t2 t1)) 0 = 0).
  { unfold credit, duration_since, saturating_sub. rewrite (Z.max_r 0 (t2 - t1)) by lia.
    rewrite (wrap_u64_id (t2 - t1)) by word.
    rewrite Z.sub_0_r, (Z.max_r 0 (t2 - t1)) by lia. rewrite (Z.div_small (t2 - t1)) by lia. done. }
  unfold refilled. rewrite Hcr, Z.add_0_r, (Z.max_l (burst (config m)) 1) by lia.
  rewrite !wrap_u64_id by (rewrite ?wrap_u64_id by word; word).
  replace (Z.min _ _) with (burst (config m) * 1000) by lia.
  destruct (Z.ltb_spec (burst (config m) * 1000) 1000); [lia|].
  assert (Hrem : (burst (config m) * 1000 - 1000) / 1000 = burst (config m) - 1).
  { replace (burst (config m) * 1000 - 1000) with ((burst (config m) - 1) * 1000) by lia. apply Z.div_mul. lia. }
  unfold maybe_schedule_sync. cbn [store last_sync sync_interval].
  repeat case_match; simplify_eq/=; (split; [done|]); unfold remaining_by_key; cbn [buckets];
    rewrite lookup_insert_eq; exact Hrem.
Qed.

Definition starved : RateLimitMiddleware LocalStore :=
  {| config := {| average := 10; burst := 2; period := 10 ^ 9 |};
     buckets := {[ "ip" := {| tokens := 0; last_update := 0; epoch := 0; requests_since_sync := 2 |} ]};
     store := None; sync_interval := 0; last_sync := ∅ |}.

Lemma eviction_refills_witness :
  (is_allowed_by_key "ip" (secs 50) (secs 50) 0 starved).1.1 = false /\
  (is_allowed_by_key "ip" (secs 121) (secs 121) 0 (mw_cleanup (secs 120) (secs 120) starved)).1.1 = true.
Proof.
  split; [vm_compute; reflexivity|].
  apply (eviction_refills "ip" {| tokens := 0; last_update := 0; epoch := 0; requests_since_sync := 2 |}
    starved (secs 120) (secs 120) (secs 121) (secs 121) 0);
    [reflexivity|vm_compute; discriminate|vm_compute; discriminate|vm_compute; discriminate|vm_compute; discriminate|lia|lia].
Defined.
