(* ===== verification/Sticky.v ===== *)
(** * Sticky sessions

    Models src/src/balancer/sticky.rs: session identifiers, the session cookie,
    the local cache in front of the (optional) distributed store. The request's
    [Cookie] header is passed as the text [to_str] gives, if any. The store is
    reached through the interface [SessionStore]; the local store implements
    it. *)
From S2P Require Import Prelude Config Balancer RustStr LocalStore.
From stdpp Require Import list pretty.
Open Scope Z_scope.
Open Scope list_scope.

Class SessionStore (S : Type) := {
  ss_get : string -> string -> Z -> S -> result StoreError (option string);
  ss_set : string -> string -> string -> Z -> Z -> S -> result StoreError unit * S;
  ss_delete : string -> string -> S -> result StoreError unit * S;
}.

(** What the session manager relies on: a stored session is read back until it
    expires. *)
Class SessionStoreLaws (S : Type) `{SessionStore S} := {
  ss_get_set sv id u ttl now t st :
    ss_get sv id t (ss_set sv id u ttl now st).2 = Ok (if t <? now + ttl then Some u else None);
}.

#[export] Instance local_session_store : SessionStore LocalStore := {
  ss_get sv id now s := Ok (sticky_session_get sv id now s);
  ss_set sv id u ttl now s := (Ok tt, sticky_session_set sv id u ttl now s);
  ss_delete sv id s := (Ok tt, sticky_session_delete sv id s);
}.

#[export] Instance local_session_laws : SessionStoreLaws LocalStore.
Proof.
  split. intros sv id u ttl now t s. cbn. unfold sticky_session_get, sticky_session_set.
  cbn [set_sticky sticky_sessions]. by rewrite lookup_insert_eq.
Qed.

Record LocalCacheEntry := { server_url : string; cached_at : Z }.

Record StickySessionManager (S : Type) := {
  cookie_config : StickyCookie;
  local_cache : gmap string LocalCacheEntry;
  servers : list Server;
  service_name : string;
  store : option S;
  session_ttl : Z;
  local_cache_ttl : Z;
  last_cleanup : Z;
}.
Arguments cookie_config {S}. Arguments local_cache {S}. Arguments servers {S}. Arguments service_name {S}.
Arguments store {S}. Arguments session_ttl {S}. Arguments local_cache_ttl {S}. Arguments last_cleanup {S}.

(** ** Session identifiers *)
Definition hex_digit (n : Z) : ascii :=
  if n <? 10 then ascii_of_nat (Z.to_nat (48 + n)) else ascii_of_nat (Z.to_nat (87 + n)).

(** [format!("{:032x}", x)] for a 128-bit [x]: [digits] hexadecimal digits. *)
Fixpoint hex (digits : nat) (x : Z) : string :=
  match digits with
  | O => ""
  | S d => hex d (x / 16) +:+ String (hex_digit (x mod 16)) ""
  end.

(** The thread's generator state before and after. *)
Definition generate_session_id (timestamp tls : Z) : string * Z :=
  let random1 := xorshift32 tls in
  let random2 := xorshift32 random1 in
  let combined := Z.lxor (Z.lxor timestamp (wrap_u128 (Z.shiftl random1 32))) random2 in
  (hex 32 combined, random2).

Definition initial_state : Z := 0xBEEFCAFE.

(** ** Cookies *)
Definition set_cookie_header (c : StickyCookie) (session_id : string) : string :=
  Config.name c +:+ "=" +:+ session_id +:+
  match Config.path c with Some p => "; Path=" +:+ p | None => "; Path=/" end +:+
  match Config.max_age c with Some a => "; Max-Age=" +:+ pretty a | None => "" end +:+
  (if Config.http_only c then "; HttpOnly" else "") +:+
  (if Config.secure c then "; Secure" else "") +:+
  match Config.same_site c with Some s => "; SameSite=" +:+ s | None => "" end.

(** The loop over the cookies; a segment without [=] ends the search. *)
Fixpoint find_cookie (name : string) (cookies : list string) : option string :=
  match cookies with
  | [] => None
  | c :: cookies' =>
      match split_once "=" (trim c) with
      | None => None
      | Some (n, value) => if bool_decide (trim n = name) then Some value else find_cookie name cookies'
      end
  end.

Definition extract_session_cookie (c : StickyCookie) (cookie_header : option string) : option string :=
  cookies ← cookie_header; find_cookie (Config.name c) (split_on ";" cookies).

Section Manager.
Context {S : Type} `{SS : SessionStore S}.

(** [new] (no store) and [with_store]. *)
Definition manager_new (sticky : Sticky) (ss : list Server) (name : string) (st : option S) (now : Z)
    : option (StickySessionManager S) :=
  c ← Config.cookie sticky;
  let max_age_secs := wrap_u64 (default 86400 (Config.max_age c)) in
  Some {| cookie_config := c; local_cache := ∅; servers := ss; service_name := name; store := st;
          session_ttl := secs max_age_secs; local_cache_ttl := secs (Z.min max_age_secs 300);
          last_cleanup := now |}.

Definition find_server_index (m : StickySessionManager S) (u : string) : option nat :=
  position_url (servers m) u.

Definition set_cache (c : gmap string LocalCacheEntry) (m : StickySessionManager S) : StickySessionManager S :=
  {| cookie_config := cookie_config m; local_cache := c; servers := servers m; service_name := service_name m;
     store := store m; session_ttl := session_ttl m; local_cache_ttl := local_cache_ttl m; last_cleanup := last_cleanup m |}.
Definition set_store (st : option S) (m : StickySessionManager S) : StickySessionManager S :=
  {| cookie_config := cookie_config m; local_cache := local_cache m; servers := servers m; service_name := service_name m;
     store := st; session_ttl := session_ttl m; local_cache_ttl := local_cache_ttl m; last_cleanup := last_cleanup m |}.

(** The cached entry of a session, while it is fresh. *)
Definition cached (m : StickySessionManager S) (id : string) (now : Z) : option string :=
  match local_cache m !! id with
  | Some e => if duration_since now (cached_at e) <? local_cache_ttl m then Some (server_url e) else None
  | None => None
  end.

Definition get_sticky_server (m : StickySessionManager S) (cookie_header : option string) (now : Z) : option nat :=
  session_id ← extract_session_cookie (cookie_config m) cookie_header;
  match cached m session_id now with
  | Some u => find_server_index m u
  | None => None
  end.

Definition get_sticky_server_distributed (m : StickySessionManager S) (cookie_header : option string) (now : Z)
    : option nat * StickySessionManager S :=
  match extract_session_cookie (cookie_config m) cookie_header with
  | None => (None, m)
  | Some session_id =>
      match cached m session_id now with
      | Some u => (find_server_index m u, m)
      | None =>
          match store m with
          | Some st =>
              match ss_get (service_name m) session_id now st with
              | Ok (Some u) =>
                  (find_server_index m u,
                   set_cache (<[session_id := {| server_url := u; cached_at := now |}]> (local_cache m)) m)
              | _ => (None, m)
              end
          | None => (None, m)
          end
      end
  end.

Definition maybe_cleanup (now : Z) (m : StickySessionManager S) : StickySessionManager S :=
  let cleanup_interval := local_cache_ttl m / 10 in
  if duration_since now (last_cleanup m) <? cleanup_interval then m
  else {| cookie_config := cookie_config m;
          local_cache := filter (fun e => duration_since now (cached_at e.2) < local_cache_ttl m) (local_cache m);
          servers := servers m; service_name := service_name m; store := store m; session_ttl := session_ttl m;
          local_cache_ttl := local_cache_ttl m; last_cleanup := now |}.

(** The write to the store that [create_session] leaves to a spawned task. *)
Record store_job := { job_service : string; job_session : string; job_url : string; job_ttl : Z }.
Definition run_job (j : store_job) (now : Z) (m : StickySessionManager S) : StickySessionManager S :=
  match store m with
  | Some st => set_store (Some (ss_set (job_service j) (job_session j) (job_url j) (job_ttl j) now st).2) m
  | None => m
  end.

(** [create_session]: identifier, spawned store write, manager, generator. *)
Definition create_session (m : StickySessionManager S) (server_index : nat) (timestamp now tls : Z)
    : option string * option store_job * StickySessionManager S * Z :=
  match servers m !! server_index with
  | None => (None, None, m, tls)
  | Some srv =>
      let '(session_id, tls') := generate_session_id timestamp tls in
      let m1 := set_cache (<[session_id := {| server_url := url srv; cached_at := now |}]> (local_cache m)) m in
      let job := match store m1 with
                 | Some _ => Some {| job_service := service_name m; job_session := session_id;
                                     job_url := url srv; job_ttl := session_ttl m |}
                 | None => None
                 end in
      (Some session_id, job, maybe_cleanup now m1, tls')
  end.

Definition create_session_sync (m : StickySessionManager S) (server_index : nat) (timestamp now tls : Z)
    : option string * StickySessionManager S * Z :=
  match servers m !! server_index with
  | None => (None, m, tls)
  | Some srv =>
      let '(session_id, tls') := generate_session_id timestamp tls in
      let m1 := set_cache (<[session_id := {| server_url := url srv; cached_at := now |}]> (local_cache m)) m in
      let m2 := match store m1 with
                | Some st => set_store (Some (ss_set (service_name m1) session_id (url srv) (session_ttl m1) now st).2) m1
                | None => m1
                end in
      (Some session_id, m2, tls')
  end.

Definition delete_session (session_id : string) (m : StickySessionManager S) : StickySessionManager S :=
  let m1 := set_cache (delete session_id (local_cache m)) m in
  match store m1 with
  | Some st => set_store (Some (ss_delete (service_name m1) session_id st).2) m1
  | None => m1
  end.

Definition local_session_count (m : StickySessionManager S) : nat := size (local_cache m).
End Manager.

(** ** Cookie lookup *)
Lemma split_on_first sep a b : str_forall (fun c => negb (Ascii.eqb c sep)) a = true ->
  split_on sep (a +:+ String sep b) = a :: split_on sep b.
Proof. intros Ha. by rewrite split_on_app, split_on_single. Qed.

Lemma trim_space_l c s d : is_plain c = true -> last_byte (String c s) = Some d -> is_plain d = true ->
  trim (String " " (String c s)) = String c s.
Proof.
  intros Hc Hl Hd. unfold trim, trim_start. cbn [String.length strip_all].
  change (strip_any white_space (String " " (String c s))) with (Some (String c s)).
  apply andb_prop in Hc as [Hc _]. cbn [strip_all]. rewrite strip_any_plain by done. by apply (trim_end_plain _ d).
Qed.

(** Characters of cookie names and values: no separator, no white space. *)
Definition value_char (c : ascii) : bool := is_plain c && negb (Ascii.eqb c ";").
Definition name_char (c : ascii) : bool := value_char c && negb (Ascii.eqb c "=").

Definition good_cookie (kv : string * string) : bool :=
  negb (bool_decide (kv.1 = "")) && str_forall name_char kv.1 && str_forall value_char kv.2.

Definition render_cookie (kv : string * string) : string := kv.1 +:+ String "=" kv.2.
Fixpoint render_cookies (l : list (string * string)) : string :=
  match l with
  | [] => ""
  | [kv] => render_cookie kv
  | kv :: l' => render_cookie kv +:+ String ";" (String " " (render_cookies l'))
  end.

Lemma name_char_value c : name_char c = true -> value_char c = true.
Proof. by intros [? _]%andb_prop. Qed.

(** The piece of one cookie, with or without the space before it. *)
Lemma cookie_piece name kv rest pre : good_cookie kv = true -> pre = "" \/ pre = " " ->
  find_cookie name ((pre +:+ render_cookie kv) :: rest) =
    if bool_decide (kv.1 = name) then Some kv.2 else find_cookie name rest.
Proof.
  destruct kv as [k v]. unfold good_cookie, render_cookie. cbn [fst snd]. intros Hg Hpre.
  apply andb_prop in Hg as [[Hne%negb_true_iff%bool_decide_eq_false Hk]%andb_prop Hv].
  destruct k as [|c k]; [done|].
  assert (Hc : is_plain c = true) by (cbn in Hk; by apply andb_prop in Hk as [[[? _]%andb_prop _]%andb_prop _]).
  assert (Hlast : exists d, last_byte (String c k +:+ String "=" v) = Some d /\ is_plain d = true).
  { destruct (last_byte_some c (k +:+ String "=" v)) as [d Hd]. change (String c (k +:+ String "=" v)) with (String c k +:+ String "=" v) in Hd. exists d. split; [done|].
    apply (last_byte_forall is_plain _ _) in Hd; [done|]. rewrite str_forall_app.
    rewrite (str_forall_impl name_char is_plain (String c k)); [|by intros x [[? _]%andb_prop _]%andb_prop|done].
    cbn [str_forall andb]. rewrite (str_forall_impl value_char is_plain v); [done|by intros x [? _]%andb_prop|done]. }
  destruct Hlast as (d & Hd & Hpd).
  assert (Htrim : trim (pre +:+ (String c k +:+ String "=" v)) = String c k +:+ String "=" v).
  { destruct Hpre as [-> | ->]; [by apply (trim_plain c _ d)|by apply (trim_space_l c _ d)]. }
  cbn [find_cookie]. rewrite Htrim, split_once_app.
  2:{ eapply str_forall_impl; [|exact Hk]. by intros x [_ ?]%andb_prop. }
  assert (Hkt : trim (String c k) = String c k).
  { destruct (last_byte_some c k) as [e He]. apply (trim_plain c k e); [done|done|].
    apply (last_byte_forall name_char) in He; [|done]. by apply andb_prop in He as [[? _]%andb_prop _]. }
  by rewrite Hkt.
Qed.

Lemma render_no_semi kv : good_cookie kv = true ->
  str_forall (fun c => negb (Ascii.eqb c ";")) (render_cookie kv) = true.
Proof.
  destruct kv as [k v]. unfold good_cookie, render_cookie. cbn [fst snd]. intros [[_ Hk]%andb_prop Hv]%andb_prop.
  rewrite str_forall_app. cbn [str_forall]. change (negb (Ascii.eqb "=" ";")) with true.
  rewrite (str_forall_impl name_char _ k), (str_forall_impl value_char _ v); try done.
  - by intros x [_ ?]%andb_prop.
  - by intros x [[_ ?]%andb_prop _]%andb_prop.
Qed.

Lemma find_rendered name l : forallb good_cookie l = true -> l <> [] -> forall pre, pre = "" \/ pre = " " ->
  find_cookie name (split_on ";" (pre +:+ render_cookies l)) =
    snd <$> find (fun kv => bool_decide (kv.1 = name)) l.
Proof.
  induction l as [|kv l IH]; [done|]. cbn [forallb]. intros [Hkv Hl]%andb_prop _ pre Hpre.
  assert (Hps : str_forall (fun c => negb (Ascii.eqb c ";")) (pre +:+ render_cookie kv) = true).
  { rewrite str_forall_app, render_no_semi by done. by destruct Hpre as [-> | ->]. }
  destruct l as [|kv' l].
  - cbn [render_cookies]. rewrite split_on_single by done. rewrite cookie_piece by done. cbn [find find_cookie].
    by destruct (bool_decide _).
  - change (render_cookies (kv :: kv' :: l)) with (render_cookie kv +:+ String ";" (" " +:+ render_cookies (kv' :: l))).
    rewrite <- str_app_assoc, split_on_first by done. rewrite cookie_piece by done.
    rewrite IH by (done || by right). cbn [find]. by destruct (bool_decide (kv.1 = name)).
Qed.

(** The session cookie is found: on a request whose [Cookie] header lists
    well-formed cookies, the value read is that of the first cookie with the
    configured name, wherever it stands, and nothing when there is none. *)
Theorem cookie_lookup_exact (c : StickyCookie) (l : list (string * string)) :
  forallb good_cookie l = true -> l <> [] ->
  extract_session_cookie c (Some (render_cookies l)) =
    snd <$> find (fun kv => bool_decide (kv.1 = Config.name c)) l.
Proof. intros Hl Hne. exact (find_rendered (Config.name c) l Hl Hne "" (or_introl eq_refl)). Qed.

Definition sample_cookie : StickyCookie :=
  {| Config.name := "sid"; Config.secure := true; Config.http_only := true; Config.same_site := None;
     Config.max_age := Some 3600; Config.path := None |}.

Lemma cookie_lookup_exact_witness :
  extract_session_cookie sample_cookie (Some "a=1; sid=ab=c; sid=2") = Some "ab=c".
Proof.
  apply (cookie_lookup_exact sample_cookie [("a", "1"); ("sid", "ab=c"); ("sid", "2")]); [vm_compute; reflexivity|discriminate].
Defined.

(** A cookie segment without [=] hides every cookie after it: the session
    cookie is then not found and the client loses its affinity. *)
Theorem cookie_search_stops :
  extract_session_cookie sample_cookie (Some "sid=abc") = Some "abc" /\
  extract_session_cookie sample_cookie (Some "flag; sid=abc") = None.
Proof. split; vm_compute; reflexivity. Qed.

(** ** Session identifiers *)
Lemma hex_length d x : String.length (hex d x) = d.
Proof. revert x. induction d as [|d IH]; intros x; [done|]. cbn [hex]. rewrite str_length_app, IH. cbn. lia. Qed.

Lemma hex_digit_inj a b : 0 <= a < 16 -> 0 <= b < 16 -> hex_digit a = hex_digit b -> a = b.
Proof.
  intros Ha Hb.
  assert (Hin : forall z, 0 <= z < 16 -> z ∈ seqZ 0 16) by (intros z Hz; apply elem_of_seqZ; lia).
  assert (Hall : forallb (fun x => forallb (fun y => negb (Ascii.eqb (hex_digit x) (hex_digit y)) || (x =? y)) (seqZ 0 16)) (seqZ 0 16) = true)
    by (vm_compute; reflexivity).
  rewrite forallb_forall in Hall. specialize (Hall a (proj1 (list_elem_of_In _ _) (Hin a Ha))).
  rewrite forallb_forall in Hall. specialize (Hall b (proj1 (list_elem_of_In _ _) (Hin b Hb))).
  intros Heq. rewrite Heq, Ascii.eqb_refl in Hall. by apply Z.eqb_eq.
Qed.

Lemma str_app_last_inj a b c d : a +:+ String c "" = b +:+ String d "" -> a = b /\ c = d.
Proof.
  revert b. induction a as [|x a IH]; intros [|y b] H; cbn in H.
  - by injection H.
  - injection H as -> H. by destruct b.
  - injection H as -> H. by destruct a.
  - injection H as -> H. destruct (IH b H) as [-> ->]. done.
Qed.

Lemma hex_inj d x y : 0 <= x < 16 ^ Z.of_nat d -> 0 <= y < 16 ^ Z.of_nat d -> hex d x = hex d y -> x = y.
Proof.
  revert x y. induction d as [|d IH]; intros x y Hx Hy; [cbn in *; lia|].
  rewrite Nat2Z.inj_succ, Z.pow_succ_r in Hx, Hy by lia. cbn [hex]. intros [H1 H2]%str_app_last_inj.
  apply hex_digit_inj in H2; [|apply Z.mod_pos_bound; lia|apply Z.mod_pos_bound; lia].
  apply IH in H1; [| |].
  - rewrite (Z.div_mod x 16), (Z.div_mod y 16) by lia. lia.
  - split; [apply Z.div_pos; lia|apply Z.div_lt_upper_bound; lia].
  - split; [apply Z.div_pos; lia|apply Z.div_lt_upper_bound; lia].
Qed.

Lemma hex_chars d x : str_forall value_char (hex d x) = true.
Proof.
  revert x. induction d as [|d IH]; intros x; [done|]. cbn [hex]. rewrite str_forall_app, IH. cbn [str_forall andb].
  rewrite andb_true_r. pose proof (Z.mod_pos_bound x 16 ltac:(lia)) as Hm.
  assert (Hall : forallb (fun z => value_char (hex_digit z)) (seqZ 0 16) = true) by (vm_compute; reflexivity).
  rewrite forallb_forall in Hall. apply Hall, list_elem_of_In, elem_of_seqZ. lia.
Qed.

(** Session identifiers: always 32 hexadecimal digits that can stand in a
    cookie, and on one thread state two identifiers agree only if their
    timestamps do. *)
Theorem session_id_format timestamp tls :
  String.length (generate_session_id timestamp tls).1 = 32%nat /\
  str_forall value_char (generate_session_id timestamp tls).1 = true /\
  forall timestamp', 0 <= timestamp <= u128_max -> 0 <= timestamp' <= u128_max -> in_u32 tls ->
    (generate_session_id timestamp' tls).1 = (generate_session_id timestamp tls).1 -> timestamp' = timestamp.
Proof.
  unfold generate_session_id. cbn [fst]. split; [apply hex_length|]. split; [apply hex_chars|].
  intros ts' H1 H2 Htls Heq.
  pose proof (xorshift32_range _ Htls) as Hr1. pose proof (xorshift32_range _ Hr1) as Hr2.
  set (r1 := xorshift32 tls) in *. set (r2 := xorshift32 r1) in *.
  assert (Hb : forall t, 0 <= t <= u128_max -> 0 <= Z.lxor (Z.lxor t (wrap_u128 (Z.shiftl r1 32))) r2 < 16 ^ Z.of_nat 32).
  { intros t Ht. change (16 ^ Z.of_nat 32) with (2 ^ 128).
    assert (Hx : forall a b, 0 <= a < 2 ^ 128 -> 0 <= b < 2 ^ 128 -> 0 <= Z.lxor a b < 2 ^ 128).
    { intros a b Ha Hb. split; [apply Z.lxor_nonneg; lia|].
      destruct (Z.eq_dec (Z.lxor a b) 0) as [->|Hne]; [lia|]. apply Z.log2_lt_pow2; [assert (0 <= Z.lxor a b) by (apply Z.lxor_nonneg; lia); lia|].
      eapply Z.le_lt_trans; [apply Z.log2_lxor; lia|]. destruct (Z.eq_dec a 0) as [->|], (Z.eq_dec b 0) as [->|];
        try (cbn; lia); try (apply Z.max_lub_lt; apply Z.log2_lt_pow2 || (cbn; lia); lia);
        apply Z.max_lub_lt; try (apply Z.log2_lt_pow2; lia); cbn; lia. }
    apply Hx; [apply Hx; [unfold u128_max in *; lia|unfold wrap_u128; apply Z.mod_pos_bound; lia]|word]. }
  apply hex_inj in Heq; [|by apply Hb|by apply Hb].
  apply (f_equal (fun z => Z.lxor z r2)) in Heq. rewrite !Z.lxor_assoc, Z.lxor_nilpotent, !Z.lxor_0_r in Heq.
  apply (f_equal (fun z => Z.lxor z (wrap_u128 (Z.shiftl r1 32)))) in Heq.
  by rewrite !Z.lxor_assoc, Z.lxor_nilpotent, !Z.lxor_0_r in Heq.
Qed.

Lemma session_id_format_witness :
  (generate_session_id 1 7).1 <> (generate_session_id 2 7).1.
Proof.
  intros Heq. destruct (session_id_format 2 7) as (_ & _ & H).
  assert (Hf : 1 = 2); [|discriminate Hf].
  apply (H 1); [vm_compute; split; discriminate|vm_compute; split; discriminate|vm_compute; split; discriminate|exact Heq].
Defined.

(** Identifiers are not random: every thread starts its generator from the
    same constant, so the first identifier a thread issues is the wall clock
    combined with a fixed mask. *)
Theorem session_id_predictable timestamp :
  (generate_session_id timestamp initial_state).1 =
    hex 32 (Z.lxor (Z.lxor timestamp (2981432806 * 2 ^ 32)) 288455074).
Proof. reflexivity. Qed.

(** ** Affinity *)

(** The name/value pair a client sends back for a [Set-Cookie] header. *)
Definition client_cookie (set_cookie : string) : string := hd "" (split_on ";" set_cookie).

Lemma client_cookie_spec c id : good_cookie (Config.name c, id) = true ->
  client_cookie (set_cookie_header c id) = render_cookie (Config.name c, id).
Proof.
  intros Hg. unfold client_cookie.
  assert (H : exists rest, set_cookie_header c id = render_cookie (Config.name c, id) +:+ String ";" rest).
  { unfold set_cookie_header, render_cookie. cbn [fst snd]. destruct (Config.path c) as [p|]; eexists;
      rewrite ?str_app_assoc; cbn [String.append]; reflexivity. }
  destruct H as [rest ->]. by rewrite split_on_first by (by apply render_no_semi).
Qed.

Lemma extract_client_cookie c id : good_cookie (Config.name c, id) = true ->
  extract_session_cookie c (Some (client_cookie (set_cookie_header c id))) = Some id.
Proof.
  intros Hg. rewrite client_cookie_spec by done.
  transitivity (snd <$> find (fun kv => bool_decide (kv.1 = Config.name c)) [(Config.name c, id)]).
  - apply (find_rendered (Config.name c) [(Config.name c, id)]) with (pre := ""); [|done|by left].
    cbn [forallb]. by rewrite Hg.
  - cbn [find fst]. by rewrite bool_decide_eq_true_2.
Qed.

Section Affinity.
Context {S : Type} `{SS : SessionStore S} `{SL : !SessionStoreLaws S}.
Implicit Types m : StickySessionManager S.

Lemma maybe_cleanup_fields m now :
  cookie_config (maybe_cleanup now m) = cookie_config m /\ servers (maybe_cleanup now m) = servers m /\
  service_name (maybe_cleanup now m) = service_name m /\ store (maybe_cleanup now m) = store m /\
  local_cache_ttl (maybe_cleanup now m) = local_cache_ttl m.
Proof. unfold maybe_cleanup. by destruct (_ <? _). Qed.

(** The cleanup never changes what a fresh lookup finds. *)
Lemma maybe_cleanup_cached m now id t : now <= t -> cached (maybe_cleanup now m) id t = cached m id t.
Proof.
  intros Hle. unfold cached, maybe_cleanup. destruct (_ <? local_cache_ttl m / 10); [done|]. cbn [local_cache local_cache_ttl].
  destruct (local_cache m !! id) as [e|] eqn:E.
  - destruct (decide (duration_since now (cached_at e) < local_cache_ttl m)) as [Hd|Hd].
    + by rewrite (map_lookup_filter_Some_2 _ _ id e).
    + rewrite map_lookup_filter_None_2 by (right; intros x Hx; simplify_eq; done).
      destruct (Z.ltb_spec (duration_since t (cached_at e)) (local_cache_ttl m)); [|done].
      unfold duration_since in *. lia.
  - by rewrite map_lookup_filter_None_2 by (by left).
Qed.

Lemma created_cached m srv id now t : now <= t ->
  cached (maybe_cleanup now (set_cache (<[id := {| server_url := url srv; cached_at := now |}]> (local_cache m)) m)) id t =
    if t <? now + local_cache_ttl m then Some (url srv) else None.
Proof.
  intros Hle. rewrite maybe_cleanup_cached by done. unfold cached. cbn [set_cache local_cache local_cache_ttl].
  rewrite lookup_insert_eq. cbn [cached_at server_url]. unfold duration_since.
  destruct (Z.ltb_spec (Z.max 0 (t - now)) (local_cache_ttl m)), (Z.ltb_spec t (now + local_cache_ttl m)); (done || lia).
Qed.

Lemma distinct_position m idx srv : NoDup (url <$> servers m) -> servers m !! idx = Some srv ->
  position_url (servers m) (url srv) = Some idx.
Proof.
  intros Hnd Hi. apply position_url_Some. exists srv. split_and!; [done|done|]. intros j t Hj Hlt Heq.
  assert (j = idx); [|lia]. eapply (NoDup_lookup _ _ _ (url srv) Hnd); rewrite list_lookup_fmap; [by rewrite Hj, <- Heq|by rewrite Hi].
Qed.
End Affinity.


Definition sample_manager : StickySessionManager LocalStore :=
  {| cookie_config := sample_cookie; local_cache := ∅; servers := [mk_server "http://a" 1; mk_server "http://b" 1];
     service_name := "web"; store := Some new; session_ttl := secs 3600; local_cache_ttl := secs 300; last_cleanup := 0 |}.

