(* ===== verification/Duration.v ===== *)
(** * Go-style durations

    Models src/src/config/duration.rs: [parse_go_duration] and the [Display]
    implementation, over the total number of nanoseconds. The numbers of the
    text are parsed as [f64] and multiplied in [f64]: [f64_of] rounds a rational
    to the nearest 53-bit float, ties to even. The exponent is unbounded: a
    value that would be subnormal ends as zero nanoseconds and one that would be
    infinite saturates the conversion to [u128], with or without the bounds. *)
From S2P Require Import Prelude RustStr.
From stdpp Require Import list.
Open Scope Z_scope.
Open Scope list_scope.

(** ** Double-precision floats *)

(** A non-negative float [m * 2 ^ e]. *)
Record f64 := { mant : Z; expo : Z }.

Definition round_half_even (a b : Z) : Z :=
  let d := a / b in
  let r := a mod b in
  if 2 * r <? b then d else if b <? 2 * r then d + 1 else if Z.even d then d else d + 1.

(** The rational [p / (q * 2 ^ e)] as a fraction. *)
Definition scale (p q e : Z) : Z * Z := if 0 <=? e then (p, q * 2 ^ e) else (p * 2 ^ (- e), q).

(** The float nearest to [p / q], for [0 <= p] and [0 < q]. *)
Definition f64_of (p q : Z) : f64 :=
  if p =? 0 then {| mant := 0; expo := 0 |}
  else
    let e0 := Z.log2 p - Z.log2 q - 53 in
    let '(a, b) := scale p q e0 in
    let e := if 2 ^ 53 <=? a / b then e0 + 1 else e0 in
    let '(a, b) := scale p q e in
    {| mant := round_half_even a b; expo := e |}.

(** [x * n as f64], for an integer [n] that is itself a float. *)
Definition f64_mul (x : f64) (n : Z) : f64 :=
  if 0 <=? expo x then f64_of (mant x * 2 ^ expo x * n) 1 else f64_of (mant x * n) (2 ^ (- expo x)).

(** [x as u128]: truncation, saturating. *)
Definition f64_to_u128 (x : f64) : Z :=
  Z.min u128_max (if 0 <=? expo x then mant x * 2 ^ expo x else mant x / 2 ^ (- expo x)).

(** ** Parsing *)
Inductive ParseDurationError :=
| EmptyText
| InvalidFormat (s : string)
| MissingUnit (s : string)
| InvalidNumber (num : string)
| UnknownUnit (unit : string).

Definition is_digit (c : ascii) : bool :=
  let n := nat_of_ascii c in ((48 <=? n) && (n <=? 57))%nat.
Definition num_char (c : ascii) : bool := is_digit c || Ascii.eqb c ".".

(** The longest prefix of characters that satisfy [p], and the rest. *)
Fixpoint span (p : ascii -> bool) (s : string) : string * string :=
  match s with
  | EmptyString => ("", "")
  | String c s' => if p c then let '(a, b) := span p s' in (String c a, b) else ("", s)
  end.

Definition digit_val (c : ascii) : Z := Z.of_nat (nat_of_ascii c) - 48.

(** The digits of a decimal number: their value, and how many of them follow
    the point. *)
Fixpoint dec_scan (s : string) (acc : Z) : Z :=
  match s with
  | EmptyString => acc
  | String c s' => dec_scan s' (10 * acc + digit_val c)
  end.

(** [num_str.parse::<f64>()] on text made of digits and points: at least one
    digit, at most one point. *)
Definition parse_f64 (s : string) : option f64 :=
  match split_once "." s with
  | None => if bool_decide (s = "") then None else Some (f64_of (dec_scan s 0) 1)
  | Some (whole, frac) =>
      if str_forall is_digit frac && negb (bool_decide (whole = "" /\ frac = "")) then
        Some (f64_of (dec_scan frac (dec_scan whole 0)) (10 ^ Z.of_nat (String.length frac)))
      else None
  end.

(** The micro sign and the Greek letter mu, as UTF-8. *)
Definition micro_sign : string := String (ascii_of_nat 194) (String (ascii_of_nat 181) "s").
Definition greek_mu : string := String (ascii_of_nat 206) (String (ascii_of_nat 188) "s").

Definition nanos_per_unit (u : string) : option Z :=
  if bool_decide (u = "ns") then Some 1
  else if bool_decide (u = "us" \/ u = micro_sign \/ u = greek_mu) then Some 1000
  else if bool_decide (u = "ms") then Some 1000000
  else if bool_decide (u = "s") then Some 1000000000
  else if bool_decide (u = "m") then Some (60 * 1000000000)
  else if bool_decide (u = "h") then Some (60 * 60 * 1000000000)
  else None.

(** The loop; [None] when the fuel runs out. *)
Fixpoint parse_loop (fuel : nat) (s remaining : string) (total : Z) : option (result ParseDurationError Z) :=
  match remaining with
  | EmptyString => Some (Ok total)
  | _ =>
      match fuel with
      | O => None
      | S fuel' =>
          let '(num_str, rest) := span num_char remaining in
          if bool_decide (num_str = "") then Some (Err (InvalidFormat s))
          else
            let '(unit, rest') := span (fun c => negb (num_char c)) rest in
            if bool_decide (unit = "") then Some (Err (MissingUnit s))
            else
              match parse_f64 num_str with
              | None => Some (Err (InvalidNumber num_str))
              | Some value =>
                  match nanos_per_unit unit with
                  | None => Some (Err (UnknownUnit unit))
                  | Some n => parse_loop fuel' s rest' (wrap_u128 (total + f64_to_u128 (f64_mul value n)))
                  end
              end
      end
  end.

(** [StdDuration::new(secs as u64, nanos)], as nanoseconds. *)
Definition of_total (total : Z) : Z := wrap_u64 (total / 10 ^ 9) * 10 ^ 9 + total mod 10 ^ 9.

Definition parse_go_duration (s : string) : option (result ParseDurationError Z) :=
  let s := trim s in
  if bool_decide (s = "") then Some (Err EmptyText)
  else if bool_decide (s = "0") then Some (Ok 0)
  else match parse_loop (String.length s) s s 0 with
       | Some r => Some (res_map of_total r)
       | None => None
       end.

(** ** Display *)
Definition digit_char (d : Z) : ascii := ascii_of_nat (Z.to_nat (48 + d)).
Fixpoint dec_go (fuel : nat) (n : Z) : string :=
  match fuel with
  | O => ""
  | S fuel' => (if n <? 10 then "" else dec_go fuel' (n / 10)) +:+ String (digit_char (n mod 10)) ""
  end.
(** Decimal text of a natural number. *)
Definition dec (n : Z) : string := dec_go (S (Z.to_nat (Z.log2 n))) n.

Definition display (total_nanos : Z) : string :=
  if total_nanos =? 0 then "0s"
  else
    let hours := total_nanos / (60 * 60 * 1000000000) in
    let remaining := total_nanos mod (60 * 60 * 1000000000) in
    let minutes := remaining / (60 * 1000000000) in
    let remaining := remaining mod (60 * 1000000000) in
    let seconds := remaining / 1000000000 in
    let remaining := remaining mod 1000000000 in
    let millis := remaining / 1000000 in
    let remaining := remaining mod 1000000 in
    let micros := remaining / 1000 in
    let nanos := remaining mod 1000 in
    let h := 0 <? hours in
    let m := 0 <? minutes in
    let w := h || m in
    let s := (0 <? seconds) || (negb w && (millis =? 0) && (micros =? 0) && (nanos =? 0)) in
    let w1 := w || s in
    let ms := (0 <? millis) && negb w1 in
    let w2 := w1 || ms in
    let us := (0 <? micros) && negb w2 in
    let w3 := w2 || us in
    let ns := (0 <? nanos) && negb w3 in
    (if h then dec hours +:+ "h" else "") +:+ (if m then dec minutes +:+ "m" else "") +:+
    (if s then dec seconds +:+ "s" else "") +:+ (if ms then dec millis +:+ "ms" else "") +:+
    (if us then dec micros +:+ "us" else "") +:+ (if ns then dec nanos +:+ "ns" else "").

(** ** Reading from a configuration *)
Definition from_millis (millis : Z) : Z := millis * 10 ^ 6.
Definition from_secs (secs : Z) : Z := secs * 10 ^ 9.
Definition as_millis (d : Z) : Z := d / 10 ^ 6.
Definition as_secs (d : Z) : Z := d / 10 ^ 9.

(** What the deserializer of a document hands to the visitor. *)
Inductive float := Finite (negative : bool) (x : f64) | Infinite (negative : bool) | NaN.
Inductive scalar := SStr (s : string) | SInt (n : Z) (* i64 *) | SUInt (n : Z) (* u64 *) | SFloat (x : float).
Inductive visit_error := Negative | ParseError (e : ParseDurationError).
Definition visit_str (s : string) : option (result visit_error Z) :=
  (fun r => match r with Ok d => Ok d | Err e => Err (ParseError e) | Panic => Panic end) <$> parse_go_duration s.
Definition visit_i64 (n : Z) : result visit_error Z := if n <? 0 then Err Negative else Ok (from_secs n).
Definition visit_u64 (n : Z) : result visit_error Z := Ok (from_secs n).
(** [(value * 1000.0) as u64] saturates, and gives 0 for not a number. *)
Definition visit_f64 (x : float) : result visit_error Z :=
  match x with
  | Finite neg v =>
      if neg && negb (mant v =? 0) then Err Negative
      else Ok (from_millis (Z.min u64_max (f64_to_u128 (f64_mul v 1000))))
  | Infinite true => Err Negative
  | Infinite false => Ok (from_millis u64_max)
  | NaN => Ok (from_millis 0)
  end.
Definition deserialize (v : scalar) : option (result visit_error Z) :=
  match v with
  | SStr s => visit_str s
  | SInt n => Some (visit_i64 n)
  | SUInt n => Some (visit_u64 n)
  | SFloat x => Some (visit_f64 x)
  end.
Definition serialize (d : Z) : scalar := SStr (display d).

Example parse_examples :
  parse_go_duration "300ms" = Some (Ok 300000000) /\ parse_go_duration "1.5s" = Some (Ok 1500000000) /\
  parse_go_duration "1h30m5s" = Some (Ok 5405000000000) /\ parse_go_duration ".5m" = Some (Ok 30000000000) /\
  parse_go_duration "1.2.3s" = Some (Err (InvalidNumber "1.2.3")) /\ parse_go_duration "5" = Some (Err (MissingUnit "5")) /\
  parse_go_duration "1.1s" = Some (Ok 1100000000) /\
  display 5405000000000 = "1h30m5s" /\ display 1500000000 = "1s" /\ display 7 = "7ns".
Proof. vm_compute. repeat split. Qed.

(** ** Exact floats *)
Definition f64_is (x : f64) (v : Z) : Prop :=
  if 0 <=? expo x then mant x * 2 ^ expo x = v else mant x = v * 2 ^ (- expo x).

Lemma round_exact c b : 0 < b -> round_half_even (c * b) b = c.
Proof.
  intros Hb. unfold round_half_even. rewrite Z.div_mul, Z.mod_mul by lia.
  by destruct (Z.ltb_spec (2 * 0) b); [|lia].
Qed.

(** An integer with at most 53 significant bits is a float. *)
Lemma f64_exact b k j : 0 <= b < 2 ^ 53 -> 0 <= k -> 0 <= j -> f64_is (f64_of (b * 2 ^ k * 2 ^ j) (2 ^ j)) (b * 2 ^ k).
Proof.
  intros Hb Hk Hj. unfold f64_of. destruct (Z.eqb_spec (b * 2 ^ k * 2 ^ j) 0) as [Hz|Hnz].
  { unfold f64_is. cbn. pose proof (Z.pow_pos_nonneg 2 j ltac:(lia) Hj). nia. }
  assert (Hb0 : 0 < b) by (destruct (Z.eq_dec b 0) as [->|]; [lia|lia]).
  assert (Hp : 0 < b * 2 ^ k) by (pose proof (Z.pow_pos_nonneg 2 k ltac:(lia) Hk); nia).
  rewrite (Z.log2_mul_pow2 (b * 2 ^ k) j), Z.log2_pow2 by lia.
  replace (j + Z.log2 (b * 2 ^ k) - j - 53) with (Z.log2 (b * 2 ^ k) - 53) by lia.
  set (e0 := Z.log2 (b * 2 ^ k) - 53).
  assert (He0 : e0 + 1 <= k).
  { unfold e0. rewrite Z.log2_mul_pow2 by lia. assert (Z.log2 b < 53) by (apply Z.log2_lt_pow2; lia). lia. }
  destruct (scale (b * 2 ^ k * 2 ^ j) (2 ^ j) e0) as [a1 b1].
  set (e := if 2 ^ 53 <=? a1 / b1 then e0 + 1 else e0).
  assert (He : e <= k) by (unfold e; destruct (_ <=? _); lia). clearbody e. clear e0 He0 a1 b1.
  unfold scale. destruct (Z.leb_spec 0 e) as [Hpos|Hneg]; unfold f64_is; cbn [expo mant].
  - replace (b * 2 ^ k * 2 ^ j) with (b * 2 ^ (k - e) * (2 ^ j * 2 ^ e)).
    2:{ replace k with ((k - e) + e) at 2 by lia. rewrite Z.pow_add_r by lia. lia. }
    rewrite round_exact by (apply Z.mul_pos_pos; apply Z.pow_pos_nonneg; lia).
    destruct (Z.leb_spec 0 e); [|lia]. rewrite <- Z.mul_assoc, <- Z.pow_add_r by lia. do 2 f_equal. lia.
  - replace (b * 2 ^ k * 2 ^ j * 2 ^ (- e)) with (b * 2 ^ k * 2 ^ (- e) * 2 ^ j) by lia.
    rewrite round_exact by (apply Z.pow_pos_nonneg; lia). by destruct (Z.leb_spec 0 e); [lia|].
Qed.

Lemma f64_is_int v : 0 <= v < 2 ^ 53 -> f64_is (f64_of v 1) v.
Proof. intros Hv. pose proof (f64_exact v 0 0 Hv ltac:(lia) ltac:(lia)) as H. by rewrite !Z.mul_1_r in H. Qed.

Lemma f64_mul_exact x v n b k : f64_is x v -> v * n = b * 2 ^ k -> 0 <= b < 2 ^ 53 -> 0 <= k ->
  f64_is (f64_mul x n) (v * n).
Proof.
  unfold f64_is at 1, f64_mul. intros Hx Hvn Hb Hk. destruct (Z.leb_spec 0 (expo x)) as [He|He].
  - rewrite Hx, Hvn. pose proof (f64_exact b k 0 Hb Hk ltac:(lia)) as H. by rewrite Z.pow_0_r, Z.mul_1_r in H.
  - rewrite Hx. replace (v * 2 ^ (- expo x) * n) with (v * n * 2 ^ (- expo x)) by lia. rewrite Hvn.
    apply f64_exact; lia.
Qed.

Lemma f64_is_to_u128 x v : f64_is x v -> 0 <= v <= u128_max -> f64_to_u128 x = v.
Proof.
  unfold f64_is, f64_to_u128. intros Hx Hv. destruct (Z.leb_spec 0 (expo x)) as [He|He]; rewrite Hx; [lia|].
  rewrite Z.div_mul; [lia|]. pose proof (Z.pow_pos_nonneg 2 (- expo x)). lia.
Qed.

(** ** Decimal text *)
Lemma dec_scan_app a b acc : dec_scan (a +:+ b) acc = dec_scan b (dec_scan a acc).
Proof. revert acc. induction a as [|c a IH]; intros acc; cbn; [done|apply IH]. Qed.

Lemma digit_char_ok d : 0 <= d < 10 -> digit_val (digit_char d) = d /\ is_digit (digit_char d) = true.
Proof.
  intros Hd. assert (Hin : d ∈ seqZ 0 10) by (apply elem_of_seqZ; lia).
  assert (Hall : forallb (fun d => (digit_val (digit_char d) =? d) && is_digit (digit_char d)) (seqZ 0 10) = true)
    by (vm_compute; reflexivity).
  rewrite forallb_forall in Hall. specialize (Hall d (proj1 (list_elem_of_In _ _) Hin)).
  apply andb_prop in Hall as [H1%Z.eqb_eq H2]. done.
Qed.

Lemma dec_go_ok fuel : forall n, 0 <= n < 10 ^ Z.of_nat fuel -> (0 < fuel)%nat ->
  dec_scan (dec_go fuel n) 0 = n /\ str_forall is_digit (dec_go fuel n) = true /\ dec_go fuel n <> "".
Proof.
  induction fuel as [|fuel IH]; intros n Hn Hf; [lia|]. cbn [dec_go].
  rewrite Nat2Z.inj_succ, Z.pow_succ_r in Hn by lia.
  pose proof (Z.mod_pos_bound n 10 ltac:(lia)) as Hm. destruct (digit_char_ok (n mod 10) Hm) as [Hv Hd].
  rewrite dec_scan_app, str_forall_app. cbn [dec_scan str_forall]. rewrite Hv, Hd.
  destruct (Z.ltb_spec n 10) as [Hlt|Hge].
  - cbn [dec_scan str_forall String.append andb]. rewrite Z.mod_small by lia. done.
  - assert (0 < fuel)%nat by (destruct fuel; [cbn in Hn; lia|lia]).
    destruct (IH (n / 10)) as (H1 & H2 & H3); [|done|].
    { split; [apply Z.div_pos; lia|]. apply Z.div_lt_upper_bound; lia. }
    rewrite H1, H2. split; [|split; [done|]].
    + pose proof (Z.div_mod n 10). lia.
    + by destruct (dec_go fuel (n / 10)).
Qed.

Lemma dec_ok n : 0 <= n -> dec_scan (dec n) 0 = n /\ str_forall is_digit (dec n) = true /\ dec n <> "".
Proof.
  intros Hn. apply dec_go_ok; [|lia]. split; [done|]. rewrite Nat2Z.inj_succ, Z2Nat.id by apply Z.log2_nonneg.
  destruct (Z.eq_dec n 0) as [->|]; [cbn; lia|].
  pose proof (Z.log2_spec n ltac:(lia)) as [_ H]. eapply Z.lt_le_trans; [exact H|].
  apply Z.pow_le_mono_l. lia.
Qed.

Lemma span_app p a rest : str_forall p a = true ->
  match rest with String c _ => p c = false | EmptyString => True end -> span p (a +:+ rest) = (a, rest).
Proof.
  intros Ha Hr. induction a as [|c a IH].
  - destruct rest as [|c rest]; cbn; [done|]. by rewrite Hr.
  - cbn [str_forall] in Ha. apply andb_prop in Ha as [Hc Ha]. cbn [String.append span]. by rewrite Hc, IH.
Qed.

(** Decimal text has no character that is not a digit. *)
Lemma dec_no_char n c : 0 <= n -> is_digit c = false -> str_forall (fun d => negb (Ascii.eqb d c)) (dec n) = true.
Proof.
  intros Hn Hc. destruct (dec_ok n Hn) as (_ & Hd & _). revert Hd. induction (dec n) as [|d s IH]; [done|]. cbn [str_forall].
  intros [Hd Hs]%andb_prop. rewrite IH by done. destruct (Ascii.eqb_spec d c) as [->|]; [congruence|done].
Qed.
Lemma dec_plain n : 0 <= n -> str_forall is_plain (dec n) = true.
Proof.
  intros Hn. destruct (dec_ok n Hn) as (_ & Hd & _). revert Hd. induction (dec n) as [|c s IH]; [done|]. cbn [str_forall].
  intros [Hc Hs]%andb_prop. rewrite IH by done. assert (Hp : is_plain c = true); [|by rewrite Hp].
  revert Hc. destruct c as [[] [] [] [] [] [] [] []]; vm_compute; congruence.
Qed.
Lemma dec_inj n k : 0 <= n -> 0 <= k -> dec n = dec k -> n = k.
Proof. intros Hn Hk He. destruct (dec_ok n Hn) as [<- _], (dec_ok k Hk) as [<- _]. by rewrite He. Qed.

Lemma digits_no_point s : str_forall is_digit s = true -> split_once "." s = None /\ str_forall num_char s = true.
Proof.
  induction s as [|c s IH]; [done|]. cbn [str_forall split_once]. intros [Hc Hs]%andb_prop.
  destruct (IH Hs) as [H1 H2]. rewrite H1, H2. unfold num_char. rewrite Hc. split; [|done].
  destruct (Ascii.eqb_spec c "."); [subst; discriminate Hc|done].
Qed.

Lemma parse_f64_dec n : 0 <= n -> parse_f64 (dec n) = Some (f64_of n 1).
Proof.
  intros Hn. destruct (dec_ok n Hn) as (H1 & H2 & H3). unfold parse_f64.
  destruct (digits_no_point _ H2) as [-> _]. by rewrite bool_decide_eq_false_2, H1.
Qed.

(** ** Printed durations parse back *)
Definition render (l : list (Z * string)) : string :=
  foldr (fun p s => dec p.1 +:+ p.2 +:+ s) "" l.

(** A term of a printed duration: a count whose product with its unit is a
    float. *)
Definition term_ok (p : Z * string) : Prop :=
  exists n b k, nanos_per_unit p.2 = Some n /\ 0 <= p.1 < 2 ^ 53 /\ p.1 * n = b * 2 ^ k /\
    0 <= b < 2 ^ 53 /\ 0 <= k /\ p.1 * n <= u128_max /\ 0 <= n /\
    str_forall (fun c => negb (num_char c)) p.2 = true /\ p.2 <> "".

Definition term_nanos (p : Z * string) : Z := p.1 * default 0 (nanos_per_unit p.2).

Lemma render_head l : match render l with String c _ => num_char c = true | EmptyString => l = [] end \/
  ~ Forall term_ok l.
Proof.
  destruct l as [|p l]; [by left|].
  destruct (decide (0 <= p.1)) as [Hp|Hp].
  - left. cbn [render foldr]. destruct (dec_ok p.1 Hp) as (_ & Hd & Hne). destruct (dec p.1) as [|c d]; [done|].
    cbn [str_forall] in Hd. apply andb_prop in Hd as [Hc _]. cbn [String.append]. unfold num_char. by rewrite Hc.
  - right. intros H. inversion_clear H as [|? ? (n & b & k & _ & ? & _) _]. lia.
Qed.

Lemma parse_render s l : forall fuel total, Forall term_ok l -> (length l <= fuel)%nat ->
  0 <= total -> total + zsum (term_nanos <$> l) <= u128_max ->
  parse_loop fuel s (render l) total = Some (Ok (total + zsum (term_nanos <$> l))).
Proof.
  induction l as [|p l IH]; intros fuel total Hok Hfuel H0 Hmax.
  { cbn. destruct fuel; cbn; f_equal; f_equal; unfold zsum; cbn; lia. }
  pose proof Hok as Hall. apply Forall_cons in Hok as [(n & b & k & Hn & Hp & Hb & Hb' & Hk & Hm & Hn0 & Hu & Hune) Hl].
  destruct fuel as [|fuel]; [cbn in Hfuel; lia|].
  destruct (dec_ok p.1 (proj1 Hp)) as (_ & Hd & Hne). destruct (digits_no_point _ Hd) as [_ Hnum].
  assert (Hspan1 : span num_char (dec p.1 +:+ (p.2 +:+ render l)) = (dec p.1, p.2 +:+ render l)).
  { apply span_app; [done|]. destruct p.2 as [|c u]; [done|]. cbn [str_forall String.append] in *.
    apply andb_prop in Hu as [Hc _]. by apply negb_true_iff. }
  assert (Hspan2 : span (fun c => negb (num_char c)) (p.2 +:+ render l) = (p.2, render l)).
  { apply span_app; [done|]. destruct (render_head l) as [Hh|Hh]; [|done].
    destruct (render l); [done|]. by rewrite Hh. }
  assert (Hterm : term_nanos p = p.1 * n) by (unfold term_nanos; by rewrite Hn).
  assert (Hpn : 0 <= p.1 * n) by (apply Z.mul_nonneg_nonneg; lia).
  assert (Hval : f64_to_u128 (f64_mul (f64_of p.1 1) n) = p.1 * n).
  { apply f64_is_to_u128; [|lia]. eapply f64_mul_exact; [by apply f64_is_int|exact Hb|done|done]. }
  assert (Hrest : 0 <= zsum (term_nanos <$> l)).
  { clear - Hl. induction Hl as [|q l (n & b & k & Hn & Hq & Hqn & Hb & Hk & _) _ IH]; [done|].
    rewrite fmap_cons, zsum_cons. assert (0 <= term_nanos q); [|lia]. unfold term_nanos. rewrite Hn. cbn. rewrite Hqn.
    pose proof (Z.pow_pos_nonneg 2 k ltac:(lia) Hk). nia. }
  rewrite fmap_cons, zsum_cons, Hterm in Hmax |- *.
  change (render (p :: l)) with (dec p.1 +:+ (p.2 +:+ render l)).
  cbn [parse_loop]. rewrite Hspan1. cbv iota beta. rewrite bool_decide_eq_false_2 by done.
  rewrite Hspan2. cbv iota beta. rewrite bool_decide_eq_false_2 by done. rewrite parse_f64_dec, Hn, Hval by lia.
  destruct (dec p.1 +:+ p.2 +:+ render l) eqn:E.
  { by destruct (dec p.1). }
  assert (Hw : wrap_u128 (total + p.1 * n) = total + p.1 * n).
  { unfold wrap_u128. apply Z.mod_small. unfold u128_max in *. lia. }
  rewrite Hw, IH; [|done|cbn in Hfuel; lia|lia|lia]. do 2 f_equal. lia.
Qed.

(** What [display] keeps of a duration: whole seconds, or below one second the
    largest unit. *)
Definition coarsen (t : Z) : Z :=
  if 10 ^ 9 <=? t then t - t mod 10 ^ 9
  else if 10 ^ 6 <=? t then t - t mod 10 ^ 6
  else if 10 ^ 3 <=? t then t - t mod 10 ^ 3
  else t.

Definition pieces (t : Z) : list (Z * string) :=
  let hours := t / 3600000000000 in
  let minutes := t mod 3600000000000 / 60000000000 in
  let seconds := t mod 60000000000 / 1000000000 in
  if 10 ^ 9 <=? t then
    filter (fun p => 0 < p.1) [(hours, "h"); (minutes, "m"); (seconds, "s")]
  else if 10 ^ 6 <=? t then [(t / 1000000, "ms")]
  else if 10 ^ 3 <=? t then [(t / 1000, "us")]
  else [(t, "ns")].

(** The fields of a positive duration. *)
Lemma fields t : 0 < t ->
  exists h m s ms us ns, t = h * 3600000000000 + m * 60000000000 + s * 1000000000 + ms * 1000000 + us * 1000 + ns /\
    0 <= h /\ 0 <= m < 60 /\ 0 <= s < 60 /\ 0 <= ms < 1000 /\ 0 <= us < 1000 /\ 0 <= ns < 1000 /\
    t / 3600000000000 = h /\ t mod 3600000000000 / 60000000000 = m /\
    t mod 3600000000000 mod 60000000000 / 1000000000 = s /\ t mod 60000000000 / 1000000000 = s /\
    t mod 3600000000000 mod 60000000000 mod 1000000000 / 1000000 = ms /\
    t mod 3600000000000 mod 60000000000 mod 1000000000 mod 1000000 / 1000 = us /\
    t mod 3600000000000 mod 60000000000 mod 1000000000 mod 1000000 mod 1000 = ns.
Proof.
  intros Ht.
  pose proof (Z.div_mod t 3600000000000 ltac:(lia)) as E1. pose proof (Z.mod_pos_bound t 3600000000000 ltac:(lia)) as B1.
  set (r1 := t mod 3600000000000) in *. pose proof (Z.div_pos t 3600000000000 ltac:(lia) ltac:(lia)).
  pose proof (Z.div_mod r1 60000000000 ltac:(lia)) as E2. pose proof (Z.mod_pos_bound r1 60000000000 ltac:(lia)) as B2.
  set (r2 := r1 mod 60000000000) in *. pose proof (Z.div_pos r1 60000000000 ltac:(lia) ltac:(lia)).
  pose proof (Z.div_mod r2 1000000000 ltac:(lia)) as E3. pose proof (Z.mod_pos_bound r2 1000000000 ltac:(lia)) as B3.
  set (r3 := r2 mod 1000000000) in *. pose proof (Z.div_pos r2 1000000000 ltac:(lia) ltac:(lia)).
  pose proof (Z.div_mod r3 1000000 ltac:(lia)) as E4. pose proof (Z.mod_pos_bound r3 1000000 ltac:(lia)) as B4.
  set (r4 := r3 mod 1000000) in *. pose proof (Z.div_pos r3 1000000 ltac:(lia) ltac:(lia)).
  pose proof (Z.div_mod r4 1000 ltac:(lia)) as E5. pose proof (Z.mod_pos_bound r4 1000 ltac:(lia)) as B5.
  pose proof (Z.div_pos r4 1000 ltac:(lia) ltac:(lia)).
  assert (Hr2 : t mod 60000000000 = r2).
  { symmetry. apply (Z.mod_unique t 60000000000 (60 * (t / 3600000000000) + r1 / 60000000000)); lia. }
  exists (t / 3600000000000), (r1 / 60000000000), (r2 / 1000000000), (r3 / 1000000), (r4 / 1000), (r4 mod 1000).
  rewrite Hr2. split_and!; try reflexivity; lia.
Qed.

(** A sum of fields is at least a unit exactly when a field at or above the
    unit is positive. *)
Lemma display_render t : 0 < t -> display t = render (pieces t).
Proof.
  intros Ht. unfold display, pieces. destruct (Z.eqb_spec t 0); [lia|].
  change (60 * 60 * 1000000000) with 3600000000000. change (60 * 1000000000) with 60000000000.
  destruct (fields t Ht) as (h & m & s & ms & us & ns & Ht' & Hh & Hm & Hs & Hms & Hus & Hns & -> & -> & -> & -> & -> & -> & ->).
  destruct (Z.leb_spec (10 ^ 9) t) as [H9|H9].
  - assert (Hw : (0 <? h) || (0 <? m) || (0 <? s) = true).
    { destruct (Z.ltb_spec 0 h), (Z.ltb_spec 0 m), (Z.ltb_spec 0 s); try done. lia. }
    rewrite !filter_cons, filter_nil. cbn [fst].
    destruct (Z.ltb_spec 0 h), (Z.ltb_spec 0 m), (Z.ltb_spec 0 s); try done;
      repeat first [rewrite decide_True by done|rewrite decide_False by lia];
      cbn [orb negb andb]; rewrite ?andb_false_r; cbn [render foldr fst snd String.append];
      rewrite ?str_app_nil_r, ?str_app_assoc; reflexivity.
  - assert (h = 0 /\ m = 0 /\ s = 0) as (-> & -> & ->) by lia. cbn [Z.ltb Z.compare orb negb andb].
    destruct (Z.leb_spec (10 ^ 6) t) as [H6|H6].
    + assert (0 < ms) by lia. destruct (Z.ltb_spec 0 ms); [|lia]. destruct (Z.eqb_spec ms 0); [lia|].
      replace (t / 1000000) with ms by (apply (Z.div_unique t 1000000 ms (us * 1000 + ns)); lia).
      cbn [orb negb andb]. rewrite !andb_false_r. cbn [render foldr fst snd String.append]. by rewrite ?str_app_nil_r, ?str_app_assoc.
    + assert (ms = 0) as -> by lia. cbn [Z.ltb Z.eqb Z.compare orb negb andb].
      destruct (Z.leb_spec (10 ^ 3) t) as [H3|H3].
      * assert (0 < us) by lia. destruct (Z.ltb_spec 0 us); [|lia]. destruct (Z.eqb_spec us 0); [lia|].
        replace (t / 1000) with us by (apply (Z.div_unique t 1000 us ns); lia).
        cbn [orb negb andb]. rewrite !andb_false_r. cbn [render foldr fst snd String.append]. by rewrite ?str_app_nil_r, ?str_app_assoc.
      * assert (us = 0) as -> by lia. assert (ns = t) as -> by lia. cbn [Z.ltb Z.eqb Z.compare orb negb andb].
        destruct (Z.ltb_spec 0 t); [|lia]. destruct (Z.eqb_spec t 0); [lia|].
        cbn [orb negb andb render foldr fst snd String.append]. by rewrite ?str_app_nil_r.
Qed.

Lemma Forall_filter_sub {A} (P Q : A -> Prop) `{forall x, Decision (Q x)} l : Forall P l -> Forall P (filter Q l).
Proof. rewrite !Forall_forall. intros Hl x [_ Hx]%list_elem_of_filter. by apply Hl. Qed.

Lemma term_ok_intro v u n c k : nanos_per_unit u = Some n -> n = c * 2 ^ k -> 0 < c -> 0 <= k ->
  0 <= v -> v * c < 2 ^ 53 -> v * n <= u128_max ->
  str_forall (fun x => negb (num_char x)) u = true -> u <> "" -> term_ok (v, u).
Proof.
  intros Hn Hc Hc0 Hk Hv Hvc Hm Hu Hne. exists n, (v * c), k. cbn [fst snd].
  pose proof (Z.pow_pos_nonneg 2 k ltac:(lia) Hk). split_and!; try done; try nia.
Qed.

Lemma pieces_ok t : 0 < t < 2 ^ 66 -> Forall term_ok (pieces t) /\ zsum (term_nanos <$> pieces t) = coarsen t /\ pieces t <> [].
Proof.
  intros Ht. unfold pieces, coarsen.
  destruct (fields t ltac:(lia)) as (h & m & s & ms & us & ns & Ht' & Hh & Hm & Hs & Hms & Hus & Hns & -> & -> & _ & -> & _).
  assert (Hhour : term_ok (h, "h")) by (apply (term_ok_intro h "h" 3600000000000 439453125 13); (done || unfold u128_max; lia)).
  assert (Hmin : term_ok (m, "m")) by (apply (term_ok_intro m "m" 60000000000 60000000000 0); (done || unfold u128_max; lia)).
  assert (Hsec : term_ok (s, "s")) by (apply (term_ok_intro s "s" 1000000000 1000000000 0); (done || unfold u128_max; lia)).
  destruct (Z.leb_spec (10 ^ 9) t) as [H9|H9].
  - replace (t mod 10 ^ 9) with (ms * 1000000 + us * 1000 + ns)
      by (apply (Z.mod_unique t (10 ^ 9) (h * 3600 + m * 60 + s)); lia).
    split_and!.
    + apply Forall_filter_sub. by repeat constructor.
    + assert (Hsum : forall l, Forall (fun p => 0 <= p.1) l ->
        zsum (term_nanos <$> filter (fun p : Z * string => 0 < p.1) l) = zsum (term_nanos <$> l)).
      { clear. induction l as [|p l IH]; intros Hl; [done|]. apply Forall_cons in Hl as [Hp Hl].
        rewrite filter_cons. case_decide; rewrite !fmap_cons, !zsum_cons, IH by done; [done|].
        unfold term_nanos. replace p.1 with 0 by lia. lia. }
      rewrite Hsum by (repeat constructor; cbn; lia).
      change (h * 3600000000000 + (m * 60000000000 + (s * 1000000000 + 0)) = t - (ms * 1000000 + us * 1000 + ns)). lia.
    + rewrite !filter_cons, filter_nil. cbn [fst]. repeat case_decide; try done. lia.
  - destruct (Z.leb_spec (10 ^ 6) t) as [H6|H6]; [|destruct (Z.leb_spec (10 ^ 3) t) as [H3|H3]].
    + replace (t / 1000000) with ms by (apply (Z.div_unique t 1000000 ms (us * 1000 + ns)); lia).
      replace (t mod 10 ^ 6) with (us * 1000 + ns) by (apply (Z.mod_unique t (10 ^ 6) ms); lia).
      split_and!; [|change (ms * 1000000 + 0 = t - (us * 1000 + ns)); lia|done].
      repeat constructor. apply (term_ok_intro ms "ms" 1000000 1000000 0); (done || unfold u128_max; lia).
    + replace (t / 1000) with us by (apply (Z.div_unique t 1000 us ns); lia).
      replace (t mod 10 ^ 3) with ns by (apply (Z.mod_unique t (10 ^ 3) us); lia).
      split_and!; [|change (us * 1000 + 0 = t - ns); lia|done].
      repeat constructor. apply (term_ok_intro us "us" 1000 1000 0); (done || unfold u128_max; lia).
    + split_and!; [|change (t * 1 + 0 = t); lia|done].
      repeat constructor. apply (term_ok_intro t "ns" 1 1 0); (done || unfold u128_max; lia).
Qed.

(** Printed terms start with a digit and end with a unit letter. *)
Lemma render_trim l : l <> [] -> Forall term_ok l -> Forall (fun p => exists a c, p.2 = a +:+ String c "" /\ is_plain c = true) l ->
  trim (render l) = render l /\ render l <> "" /\ render l <> "0" /\ (length l <= String.length (render l))%nat.
Proof.
  intros Hne Hok Hunits.
  assert (Hend : exists a c, render l = a +:+ String c "" /\ is_plain c = true /\ a <> "" /\ (length l <= String.length (render l))%nat).
  { clear - Hne Hok Hunits. induction l as [|p l IH]; [done|].
    apply Forall_cons in Hok as [(n & b & k & _ & Hp & _) Hl]. apply Forall_cons in Hunits as [(a & c & Hu & Hc) Hus].
    destruct (dec_ok p.1 (proj1 Hp)) as (_ & _ & Hd). cbn [render foldr]. fold (render l).
    assert (Hdl : (1 <= String.length (dec p.1))%nat) by (destruct (dec p.1); [done|cbn; lia]).
    destruct l as [|q l].
    - exists (dec p.1 +:+ a), c. cbn [render foldr length]. rewrite str_app_nil_r, Hu, <- str_app_assoc, str_length_app.
      split_and!; [done|done|by destruct (dec p.1)|rewrite str_length_app; lia].
    - destruct IH as (a' & c' & Hr & Hc' & Hne' & Hlen); [done|done|done|].
      exists (dec p.1 +:+ p.2 +:+ a'), c'. rewrite !str_length_app. rewrite Hr, <- !str_app_assoc.
      split_and!; [done|done|by destruct (dec p.1)|]. rewrite Hr in Hlen. cbn [length] in *. lia. }
  destruct Hend as (a & c & Hr & Hc & Ha & Hlen). split_and!; [| | |done].
  - destruct (render_head l) as [Hh|Hh]; [|done]. destruct (render l) as [|d r] eqn:E; [by destruct a|].
    apply (trim_plain d r c); [|rewrite Hr; apply last_byte_app|done].
    revert Hh. clear. destruct d as [[] [] [] [] [] [] [] []]; intros H; try discriminate H; reflexivity.
  - rewrite Hr. by destruct a.
  - intros H0. rewrite H0 in Hr. destruct a as [|x a]; [done|]. injection Hr as _ Hr. by destruct a.
Qed.

Lemma pieces_units t : Forall (fun p => exists a c, p.2 = a +:+ String c "" /\ is_plain c = true) (pieces t).
Proof.
  assert (H : forall u : string, u ∈ ["h"; "m"; "s"; "ms"; "us"; "ns"] -> exists a c, u = a +:+ String c "" /\ is_plain c = true).
  { intros u Hu. repeat (apply elem_of_cons in Hu as [->|Hu]); [exists "", "h"%char|exists "", "m"%char|exists "", "s"%char|
      exists "m", "s"%char|exists "u", "s"%char|exists "n", "s"%char|by apply elem_of_nil in Hu]; done. }
  unfold pieces. destruct (_ <=? t); [apply Forall_filter_sub|destruct (_ <=? t); [|destruct (_ <=? t)]];
    repeat constructor; apply H; rewrite !elem_of_cons; tauto.
Qed.

(** Durations survive printing up to the precision the printer keeps. For
    every duration below 2^66 ns (some 2300 years), parsing the printed text
    gives the duration rounded down to whole seconds, or below one second to its
    largest unit; the [f64] arithmetic of the parser loses nothing. Durations
    that are whole seconds come back exactly, [1500ms] comes back as one second. *)
Theorem duration_display_parse t : 0 <= t < 2 ^ 66 -> parse_go_duration (display t) = Some (Ok (coarsen t)).
Proof.
  intros Ht. destruct (decide (t = 0)) as [->|Hnz]; [vm_compute; reflexivity|].
  destruct (pieces_ok t ltac:(lia)) as (Hok & Hsum & Hne). rewrite display_render by lia.
  destruct (render_trim (pieces t) Hne Hok (pieces_units t)) as (Htrim & Hemp & Hz & Hlen).
  unfold parse_go_duration. rewrite Htrim, !bool_decide_eq_false_2 by done.
  assert (Hc : 0 <= coarsen t <= t).
  { unfold coarsen. pose proof (Z.mod_pos_bound t (10 ^ 9) ltac:(lia)). pose proof (Z.mod_pos_bound t (10 ^ 6) ltac:(lia)).
    pose proof (Z.mod_pos_bound t (10 ^ 3) ltac:(lia)).
    destruct (Z.leb_spec (10 ^ 9) t), (Z.leb_spec (10 ^ 6) t), (Z.leb_spec (10 ^ 3) t);
      pose proof (Z.mod_le t (10 ^ 9)); pose proof (Z.mod_le t (10 ^ 6)); pose proof (Z.mod_le t (10 ^ 3)); lia. }
  rewrite parse_render; [|done|done|lia|unfold u128_max; lia]. rewrite Z.add_0_l, Hsum. cbn [res_map res_bind].
  do 2 f_equal. unfold of_total. rewrite wrap_u64_id.
  - pose proof (Z.div_mod (coarsen t) (10 ^ 9)). lia.
  - split; [apply Z.div_pos; lia|]. unfold u64_max. apply Z.lt_succ_r, Z.div_lt_upper_bound; lia.
Qed.

Lemma duration_display_parse_witness :
  parse_go_duration (display 5405000000000) = Some (Ok 5405000000000) /\
  parse_go_duration (display 1500000000) = Some (Ok 1000000000).
Proof.
  split.
  - exact (duration_display_parse 5405000000000 ltac:(lia)).
  - exact (duration_display_parse 1500000000 ltac:(lia)).
Defined.

Lemma span_length p s a b : span p s = (a, b) -> String.length s = (String.length a + String.length b)%nat.
Proof.
  revert a b. induction s as [|c s IH]; intros a b; cbn [span]; [by intros [= <- <-]|].
  destruct (p c); [|by intros [= <- <-]]. destruct (span p s) as [a' b'] eqn:E. intros [= <- <-].
  cbn [String.length]. rewrite (IH a' b' eq_refl). lia.
Qed.

Lemma parse_loop_total s fuel : forall remaining total, (String.length remaining <= fuel)%nat -> 
  exists r, parse_loop fuel s remaining total = Some r /\ r <> Panic.
Proof.
  induction fuel as [|fuel IH]; intros [|c rem] total Hlen; cbn [parse_loop];
    try (eexists; split; [reflexivity|done]); [cbn in Hlen; lia|].
  destruct (span num_char (String c rem)) as [num rest] eqn:E1. apply span_length in E1.
  case_bool_decide as Hn; [eexists; split; [reflexivity|done]|].
  destruct (span (fun c0 => negb (num_char c0)) rest) as [u rest'] eqn:E2. apply span_length in E2.
  case_bool_decide; [eexists; split; [reflexivity|done]|].
  destruct (parse_f64 num); [|eexists; split; [reflexivity|done]].
  destruct (nanos_per_unit u); [|eexists; split; [reflexivity|done]].
  apply IH. assert (0 < String.length num)%nat by (destruct num; [done|cbn; lia]). cbn [String.length] in *. lia.
Qed.

(** The duration parser terminates on every text with a duration or an error
    (the loop consumes at least one character per round), and never aborts. *)
Theorem duration_parser_total s : exists r, parse_go_duration s = Some r /\ r <> Panic.
Proof.
  unfold parse_go_duration. case_bool_decide; [eexists; split; [reflexivity|done]|].
  case_bool_decide; [eexists; split; [reflexivity|done]|].
  destruct (parse_loop_total (trim s) (String.length (trim s)) (trim s) 0 (le_n _)) as (r & -> & Hr).
  exists (res_map of_total r). split; [done|]. by destruct r.
Qed.

(** A bare number means seconds: it reads like the same number with that unit. *)
Lemma number_is_seconds n : 0 <= n < 2 ^ 32 -> deserialize (SInt n) = deserialize (SStr (dec n +:+ "s")).
Proof.
  intros Hn. assert (Hok : term_ok (n, "s")) by (apply (term_ok_intro n "s" 1000000000 1953125 9); (done || unfold u128_max; lia)).
  destruct (dec_ok n) as (_ & Hd & Hne); [lia|]. cbn [deserialize]. unfold visit_str, parse_go_duration, visit_i64.
  rewrite trim_all_plain by (rewrite str_forall_app, dec_plain by lia; done).
  assert (Hc : exists c d, dec n = String c d) by (destruct (dec n) as [|c d]; [done|by eexists _, _]). destruct Hc as (c & d & Hc).
  rewrite (bool_decide_eq_false_2 (_ = "")) by (by rewrite Hc).
  rewrite (bool_decide_eq_false_2 (_ = "0")) by (rewrite Hc; cbn [String.append]; intros [= _ E]; by destruct d).
  assert (Hr : dec n +:+ "s" = render [(n, "s")]) by (cbn [render foldr fst snd]; by rewrite str_app_nil_r). rewrite Hr at 2.
  assert (Hz : zsum (term_nanos <$> [(n, "s")]) = from_secs n) by (rewrite fmap_cons, zsum_cons; change (term_nanos (n, "s")) with (n * 1000000000); unfold from_secs, zsum; cbn [fmap list_fmap foldr]; lia).
  rewrite (parse_render _ [(n, "s")] _ 0); [|by repeat constructor|rewrite str_length_app; cbn; lia|done|rewrite Hz; unfold from_secs, u128_max; lia].
  rewrite Hz, Z.add_0_l. destruct (Z.ltb_spec n 0); [lia|]. cbn [res_map fmap option_fmap option_map]. do 2 f_equal. unfold of_total, from_secs.
  rewrite Z.div_mul, Z.mod_mul by done. unfold wrap_u64. rewrite Z.mod_small by lia. lia.
Qed.
