(* ===== verification/ConfigTypes.v ===== *)
(** * The configuration file

    Every structure of src/src/config/types.rs, one module each: its fields, and
    [new], the value a file that gives only the mandatory fields is read as (the
    defaults of the source's [serde] attributes). A hash map is the list of its
    entries in iteration order; a duration is a number of nanoseconds; integers
    are at the width noted. Structures that other components read throughout are
    in [Config]. *)
From S2P Require Import Prelude Config Duration.
From stdpp Require Import list.
Open Scope Z_scope.
Open Scope list_scope.

(** [Duration::from_secs] and [Duration::from_millis] *)
Definition secs (n : Z) : Z := n * 10 ^ 9.
Definition millis (n : Z) : Z := n * 10 ^ 6.

(** ** Default values *)
Definition default_tcp_health_interval : Z := secs 10.
Definition default_tcp_health_timeout : Z := secs 5.
Definition default_udp_health_interval : Z := secs 30.
Definition default_udp_health_timeout : Z := secs 5.
Definition default_metrics_address : string := ":9090".
Definition default_watch : bool := true.
Definition default_https_scheme : string := "https".
Definition default_true : bool := true.
Definition default_read_timeout : Z := secs 60.
Definition default_idle_timeout : Z := secs 180.
Definition default_grace_timeout : Z := secs 10.
Definition default_health_path : string := "/".
Definition default_health_interval : Z := secs 30.
Definition default_health_timeout : Z := secs 5.
Definition default_mirror_percent : Z := 100.
Definition default_max_idle_conns : Z := 200.
Definition default_dial_timeout : Z := secs 30.
Definition default_idle_conn_timeout : Z := secs 90.
Definition default_rate_period : Z := secs 1.
Definition default_jwt_algorithm : string := "HS256".
Definition default_jwt_header : string := "Authorization".
Definition default_jwt_prefix : string := "Bearer ".
Definition default_compress_min_size : Z := 1024.
Definition default_encodings : list string := ["zstd"; "br"; "gzip"].
Definition default_retry_attempts : Z := 3.
Definition default_retry_initial_interval : Z := millis 100.
Definition default_cb_check_period : Z := millis 100.
Definition default_cb_fallback_duration : Z := secs 10.
Definition default_cb_recovery_duration : Z := secs 10.
Definition default_cb_response_code : Z := 503.
Definition default_acme_storage : string := "acme.json".
Definition default_heartbeat_interval : Z := secs 10.
Definition default_node_timeout : Z := secs 30.
Definition default_drain_timeout : Z := secs 30.
Definition default_leader_ttl : Z := secs 15.
Definition default_key_prefix : string := "trafficcop".
Definition default_redis_timeout : Z := secs 5.
Definition default_poll_interval : Z := secs 30.
Definition default_http_timeout : Z := secs 10.

(** ** Structures *)
(** Active health check configuration for backend servers. *)
Module HealthCheck.
Record t := mk {
  path : string;
  interval : Z; (* Duration *)
  timeout : Z; (* Duration *)
  scheme : option string;
  mode : option string;
  method : option string;
  status : option Z; (* u16 *)
  port : option Z; (* u16 *)
  hostname : option string;
  headers : list (string * string);
  follow_redirects : bool;
}.
Definition new : t := {|
  path := default_health_path;
  interval := default_health_interval;
  timeout := default_health_timeout;
  scheme := None;
  mode := None;
  method := None;
  status := None;
  port := None;
  hostname := None;
  headers := [];
  follow_redirects := false |}.
End HealthCheck.

(** Response forwarding settings (flush interval for streaming). *)
Module ResponseForwarding.
Record t := mk {
  flush_interval : option Z; (* Duration *)
}.
Definition new : t := {|
  flush_interval := None |}.
End ResponseForwarding.

(** Load balancer service with backend servers, stickiness, and health checks. *)
Module LoadBalancerService.
Record t := mk {
  servers : list Config.Server;
  pass_host_header : bool;
  sticky : option Config.Sticky;
  health_check : option HealthCheck.t;
  servers_transport : option string;
  response_forwarding : option ResponseForwarding.t;
}.
Definition new (servers0 : list Config.Server) : t := {|
  servers := servers0;
  pass_host_header := default_true;
  sticky := None;
  health_check := None;
  servers_transport := None;
  response_forwarding := None |}.
End LoadBalancerService.

(** Weighted service for traffic splitting across multiple backend services. *)
Module WeightedService.
Record t := mk {
  services : list Config.WeightedServiceRef;
  sticky : option Config.Sticky;
  health_check : option HealthCheck.t;
}.
Definition new (services0 : list Config.WeightedServiceRef) : t := {|
  services := services0;
  sticky := None;
  health_check := None |}.
End WeightedService.

(** Reference to a mirror target service with a sampling percentage. *)
Module MirrorRef.
Record t := mk {
  name : string;
  percent : Z; (* u32 *)
}.
Definition new (name0 : string) : t := {|
  name := name0;
  percent := default_mirror_percent |}.
End MirrorRef.

(** Traffic mirroring service (sends copies of requests to additional backends). *)
Module MirroringService.
Record t := mk {
  service : string;
  mirrors : list MirrorRef.t;
  max_body_size : option Z; (* i64 *)
  mirror_body : bool;
}.
Definition new (service0 : string) : t := {|
  service := service0;
  mirrors := [];
  max_body_size := None;
  mirror_body := default_true |}.
End MirroringService.

(** Service configuration - in Traefik format, exactly one of these should be set *)
Module Service.
Record t := mk {
  load_balancer : option LoadBalancerService.t;
  weighted : option WeightedService.t;
  mirroring : option MirroringService.t;
  failover : option Config.FailoverService;
}.
Definition new : t := {|
  load_balancer := None;
  weighted := None;
  mirroring := None;
  failover := None |}.
End Service.

(** Timeouts for backend connections (dial, response header, idle). *)
Module ForwardingTimeouts.
Record t := mk {
  dial_timeout : Z; (* Duration *)
  response_header_timeout : Z; (* Duration *)
  idle_conn_timeout : Z; (* Duration *)
  read_idle_timeout : Z; (* Duration *)
  ping_timeout : Z; (* Duration *)
}.
Definition new : t := {|
  dial_timeout := default_dial_timeout;
  response_header_timeout := 0;
  idle_conn_timeout := default_idle_conn_timeout;
  read_idle_timeout := 0;
  ping_timeout := 0 |}.
End ForwardingTimeouts.

(** TLS certificate and key file pair. *)
Module TlsCertificate.
Record t := mk {
  cert_file : string;
  key_file : string;
  stores : list string;
}.
Definition new (cert_file0 : string) (key_file0 : string) : t := {|
  cert_file := cert_file0;
  key_file := key_file0;
  stores := [] |}.
End TlsCertificate.

(** Backend connection transport settings (TLS, connection pooling, timeouts). *)
Module ServersTransport.
Record t := mk {
  server_name : option string;
  insecure_skip_verify : bool;
  root_cas : list string;
  certificates : list TlsCertificate.t;
  max_idle_conns_per_host : Z; (* i32 *)
  forwarding_timeouts : option ForwardingTimeouts.t;
  disable_http2 : bool;
  peer_cert_uri : option string;
}.
Definition new : t := {|
  server_name := None;
  insecure_skip_verify := false;
  root_cas := [];
  certificates := [];
  max_idle_conns_per_host := default_max_idle_conns;
  forwarding_timeouts := None;
  disable_http2 := false;
  peer_cert_uri := None |}.
End ServersTransport.

(** TLS domain with a main domain and optional Subject Alternative Names. *)
Module TlsDomain.
Record t := mk {
  main : string;
  sans : list string;
}.
Definition new (main0 : string) : t := {|
  main := main0;
  sans := [] |}.
End TlsDomain.

(** TLS settings for an HTTP router (cert resolver, domains, options). *)
Module RouterTls.
Record t := mk {
  cert_resolver : option string;
  domains : list TlsDomain.t;
  options : option string;
}.
Definition new : t := {|
  cert_resolver := None;
  domains := [];
  options := None |}.
End RouterTls.

(** Per-router observability toggles (access logs, tracing, metrics). *)
Module RouterObservability.
Record t := mk {
  access_logs : bool;
  tracing : bool;
  metrics : bool;
}.
Definition new : t := {|
  access_logs := default_true;
  tracing := default_true;
  metrics := default_true |}.
End RouterObservability.

(** HTTP router: matches requests by rule and routes to a service through middlewares. *)
Module Router.
Record t := mk {
  entry_points : list string;
  rule : string;
  rule_syntax : option string;
  service : string;
  middlewares : list string;
  priority : Z; (* i32 *)
  tls : option RouterTls.t;
  observability : option RouterObservability.t;
}.
Definition new (rule0 : string) (service0 : string) : t := {|
  entry_points := [];
  rule := rule0;
  rule_syntax := None;
  service := service0;
  middlewares := [];
  priority := 0;
  tls := None;
  observability := None |}.
End Router.

(** Strategy for extracting client IP from X-Forwarded-For headers. *)
Module IpStrategy.
Record t := mk {
  depth : Z; (* u32 *)
  excluded_ips : list string;
  ipv6_subnet : option Z; (* u32 *)
}.
Definition new : t := {|
  depth := 0;
  excluded_ips := [];
  ipv6_subnet := None |}.
End IpStrategy.

(** Criterion for identifying the rate-limit source (IP, header, or host). *)
Module SourceCriterion.
Record t := mk {
  ip_strategy : option IpStrategy.t;
  request_header_name : option string;
  request_host : bool;
}.
Definition new : t := {|
  ip_strategy := None;
  request_header_name := None;
  request_host := false |}.
End SourceCriterion.

(** Rate limiting middleware configuration (token bucket per source). *)
Module RateLimitConfig.
Record t := mk {
  average : Z; (* u64 *)
  burst : Z; (* u64 *)
  period : Z; (* Duration *)
  source_criterion : option SourceCriterion.t;
}.
Definition new (average0 : Z) : t := {|
  average := average0;
  burst := 0;
  period := default_rate_period;
  source_criterion := None |}.
End RateLimitConfig.

(** IP allowlist middleware (permit only listed CIDR ranges). *)
Module IpAllowListConfig.
Record t := mk {
  source_range : list string;
  ip_strategy : option IpStrategy.t;
  reject_status_code : option Z; (* u16 *)
}.
Definition new (source_range0 : list string) : t := {|
  source_range := source_range0;
  ip_strategy := None;
  reject_status_code := None |}.
End IpAllowListConfig.

(** IP denylist middleware (block listed CIDR ranges). *)
Module IpDenyListConfig.
Record t := mk {
  source_range : list string;
  ip_strategy : option IpStrategy.t;
}.
Definition new (source_range0 : list string) : t := {|
  source_range := source_range0;
  ip_strategy := None |}.
End IpDenyListConfig.

(** Headers middleware (custom headers, CORS, security headers, HSTS). *)
Module HeadersConfig.
Record t := mk {
  custom_request_headers : list (string * string);
  custom_response_headers : list (string * string);
  access_control_allow_credentials : bool;
  access_control_allow_headers : list string;
  access_control_allow_methods : list string;
  access_control_allow_origin_list : list string;
  access_control_allow_origin_list_regex : list string;
  access_control_expose_headers : list string;
  access_control_max_age : option Z; (* i64 *)
  add_vary_header : bool;
  frame_deny : bool;
  custom_frame_options_value : option string;
  content_type_nosniff : bool;
  browser_xss_filter : bool;
  custom_browser_xss_value : option string;
  content_security_policy : option string;
  content_security_policy_report_only : option string;
  public_key : option string;
  referrer_policy : option string;
  permissions_policy : option string;
  sts_seconds : Z; (* i64 *)
  sts_include_subdomains : bool;
  sts_preload : bool;
  force_sts_header : bool;
  allowed_hosts : list string;
  hosts_proxy_headers : list string;
  ssl_redirect : bool;
  ssl_temporary_redirect : bool;
  ssl_host : option string;
  ssl_proxy_headers : list (string * string);
  ssl_force_host : bool;
  is_development : bool;
}.
Definition new : t := {|
  custom_request_headers := [];
  custom_response_headers := [];
  access_control_allow_credentials := false;
  access_control_allow_headers := [];
  access_control_allow_methods := [];
  access_control_allow_origin_list := [];
  access_control_allow_origin_list_regex := [];
  access_control_expose_headers := [];
  access_control_max_age := None;
  add_vary_header := false;
  frame_deny := false;
  custom_frame_options_value := None;
  content_type_nosniff := false;
  browser_xss_filter := false;
  custom_browser_xss_value := None;
  content_security_policy := None;
  content_security_policy_report_only := None;
  public_key := None;
  referrer_policy := None;
  permissions_policy := None;
  sts_seconds := 0;
  sts_include_subdomains := false;
  sts_preload := false;
  force_sts_header := false;
  allowed_hosts := [];
  hosts_proxy_headers := [];
  ssl_redirect := false;
  ssl_temporary_redirect := false;
  ssl_host := None;
  ssl_proxy_headers := [];
  ssl_force_host := false;
  is_development := false |}.
End HeadersConfig.

(** HTTP Basic authentication middleware. *)
Module BasicAuthConfig.
Record t := mk {
  users : list string;
  users_file : option string;
  realm : option string;
  header_field : option string;
  remove_header : bool;
}.
Definition new : t := {|
  users := [];
  users_file := None;
  realm := None;
  header_field := None;
  remove_header := false |}.
End BasicAuthConfig.

(** HTTP Digest authentication middleware. *)
Module DigestAuthConfig.
Record t := mk {
  users : list string;
  users_file : option string;
  realm : option string;
  header_field : option string;
  remove_header : bool;
}.
Definition new : t := {|
  users := [];
  users_file := None;
  realm := None;
  header_field := None;
  remove_header := false |}.
End DigestAuthConfig.

(** TLS settings for the forward auth upstream connection. *)
Module ForwardAuthTls.
Record t := mk {
  ca : option string;
  cert : option string;
  key : option string;
  insecure_skip_verify : bool;
}.
Definition new : t := {|
  ca := None;
  cert := None;
  key := None;
  insecure_skip_verify := false |}.
End ForwardAuthTls.

(** Forward authentication middleware (delegates auth to an external service). *)
Module ForwardAuthConfig.
Record t := mk {
  address : string;
  trust_forward_header : bool;
  auth_response_headers : list string;
  auth_response_headers_regex : option string;
  auth_request_headers : list string;
  tls : option ForwardAuthTls.t;
  add_auth_cookies_to_response : list string;
}.
Definition new (address0 : string) : t := {|
  address := address0;
  trust_forward_header := false;
  auth_response_headers := [];
  auth_response_headers_regex := None;
  auth_request_headers := [];
  tls := None;
  add_auth_cookies_to_response := [] |}.
End ForwardAuthConfig.

(** JWT validation middleware (HMAC/RSA/EC, header/cookie/query extraction). *)
Module JwtConfig.
Record t := mk {
  secret : option string;
  public_key : option string;
  algorithm : string;
  issuer : option string;
  audience : option string;
  header_name : string;
  header_prefix : string;
  query_param : option string;
  cookie_name : option string;
  forward_claims : list (string * string);
  strip_authorization_header : bool;
}.
Definition new : t := {|
  secret := None;
  public_key := None;
  algorithm := default_jwt_algorithm;
  issuer := None;
  audience := None;
  header_name := default_jwt_header;
  header_prefix := default_jwt_prefix;
  query_param := None;
  cookie_name := None;
  forward_claims := [];
  strip_authorization_header := false |}.
End JwtConfig.

(** Response compression middleware (gzip, brotli, zstd). *)
Module CompressConfig.
Record t := mk {
  excluded_content_types : list string;
  included_content_types : list string;
  min_response_body_bytes : Z; (* u64 *)
  default_encoding : option string;
  encodings : list string;
}.
Definition new : t := {|
  excluded_content_types := [];
  included_content_types := [];
  min_response_body_bytes := default_compress_min_size;
  default_encoding := None;
  encodings := default_encodings |}.
End CompressConfig.

(** Automatic retry middleware with exponential backoff. *)
Module RetryConfig.
Record t := mk {
  attempts : Z; (* u32 *)
  initial_interval : Z; (* Duration *)
}.
Definition new : t := {|
  attempts := default_retry_attempts;
  initial_interval := default_retry_initial_interval |}.
End RetryConfig.

(** Circuit breaker middleware (trips on error threshold, auto-recovers). *)
Module CircuitBreakerConfig.
Record t := mk {
  expression : string;
  check_period : Z; (* Duration *)
  fallback_duration : Z; (* Duration *)
  recovery_duration : Z; (* Duration *)
  response_code : Z; (* u16 *)
}.
Definition new (expression0 : string) : t := {|
  expression := expression0;
  check_period := default_cb_check_period;
  fallback_duration := default_cb_fallback_duration;
  recovery_duration := default_cb_recovery_duration;
  response_code := default_cb_response_code |}.
End CircuitBreakerConfig.

(** Scheme redirect middleware (e.g., HTTP to HTTPS). *)
Module RedirectSchemeConfig.
Record t := mk {
  scheme : string;
  permanent : bool;
  port : option string;
}.
Definition new : t := {|
  scheme := default_https_scheme;
  permanent := false;
  port := None |}.
End RedirectSchemeConfig.

(** Regex-based URL redirect middleware. *)
Module RedirectRegexConfig.
Record t := mk {
  regex : string;
  replacement : string;
  permanent : bool;
}.
Definition new (regex0 : string) (replacement0 : string) : t := {|
  regex := regex0;
  replacement := replacement0;
  permanent := false |}.
End RedirectRegexConfig.

(** Strip path prefix middleware (removes prefix before forwarding). *)
Module StripPrefixConfig.
Record t := mk {
  prefixes : list string;
  force_slash : bool;
}.
Definition new (prefixes0 : list string) : t := {|
  prefixes := prefixes0;
  force_slash := false |}.
End StripPrefixConfig.

(** Regex-based path prefix stripping middleware. *)
Module StripPrefixRegexConfig.
Record t := mk {
  regex : list string;
}.
Definition new (regex0 : list string) : t := {|
  regex := regex0 |}.
End StripPrefixRegexConfig.

(** Add path prefix middleware (prepends prefix before forwarding). *)
Module AddPrefixConfig.
Record t := mk {
  prefix : string;
}.
Definition new (prefix0 : string) : t := {|
  prefix := prefix0 |}.
End AddPrefixConfig.

(** Replace entire request path middleware. *)
Module ReplacePathConfig.
Record t := mk {
  path : string;
}.
Definition new (path0 : string) : t := {|
  path := path0 |}.
End ReplacePathConfig.

(** Regex-based path replacement middleware. *)
Module ReplacePathRegexConfig.
Record t := mk {
  regex : string;
  replacement : string;
}.
Definition new (regex0 : string) (replacement0 : string) : t := {|
  regex := regex0;
  replacement := replacement0 |}.
End ReplacePathRegexConfig.

(** Middleware chain (composes multiple middlewares into one). *)
Module ChainConfig.
Record t := mk {
  middlewares : list string;
}.
Definition new (middlewares0 : list string) : t := {|
  middlewares := middlewares0 |}.
End ChainConfig.

(** Request/response buffering middleware (memory and disk limits). *)
Module BufferingConfig.
Record t := mk {
  max_request_body_bytes : Z; (* i64 *)
  mem_request_body_bytes : Z; (* i64 *)
  max_response_body_bytes : Z; (* i64 *)
  mem_response_body_bytes : Z; (* i64 *)
  retry_expression : option string;
}.
Definition new : t := {|
  max_request_body_bytes := 0;
  mem_request_body_bytes := 0;
  max_response_body_bytes := 0;
  mem_response_body_bytes := 0;
  retry_expression := None |}.
End BufferingConfig.

(** In-flight request limiter middleware (concurrent request cap). *)
Module InFlightReqConfig.
Record t := mk {
  amount : Z; (* i64 *)
  source_criterion : option SourceCriterion.t;
}.
Definition new (amount0 : Z) : t := {|
  amount := amount0;
  source_criterion := None |}.
End InFlightReqConfig.

(** TLS client certificate subject fields to extract. *)
Module TlsClientCertSubject.
Record t := mk {
  country : bool;
  province : bool;
  locality : bool;
  organization : bool;
  organizational_unit : bool;
  common_name : bool;
  serial_number : bool;
  domain_component : bool;
}.
Definition new : t := {|
  country := false;
  province := false;
  locality := false;
  organization := false;
  organizational_unit := false;
  common_name := false;
  serial_number := false;
  domain_component := false |}.
End TlsClientCertSubject.

(** TLS client certificate issuer fields to extract. *)
Module TlsClientCertIssuer.
Record t := mk {
  country : bool;
  province : bool;
  locality : bool;
  organization : bool;
  common_name : bool;
  serial_number : bool;
  domain_component : bool;
}.
Definition new : t := {|
  country := false;
  province := false;
  locality := false;
  organization := false;
  common_name := false;
  serial_number := false;
  domain_component := false |}.
End TlsClientCertIssuer.

(** Which TLS client certificate fields to forward as headers. *)
Module TlsClientCertInfo.
Record t := mk {
  not_after : bool;
  not_before : bool;
  sans : bool;
  serial_number : bool;
  subject : option TlsClientCertSubject.t;
  issuer : option TlsClientCertIssuer.t;
}.
Definition new : t := {|
  not_after := false;
  not_before := false;
  sans := false;
  serial_number := false;
  subject := None;
  issuer := None |}.
End TlsClientCertInfo.

(** Pass TLS client certificate info to backend via headers. *)
Module PassTlsClientCertConfig.
Record t := mk {
  pem : bool;
  info : option TlsClientCertInfo.t;
}.
Definition new : t := {|
  pem := false;
  info := None |}.
End PassTlsClientCertConfig.

(** Content-Type auto-detection middleware. *)
Module ContentTypeConfig.
Record t := mk {
  auto_detect : bool;
}.
Definition new : t := {|
  auto_detect := false |}.
End ContentTypeConfig.

(** gRPC-Web protocol bridge middleware. *)
Module GrpcWebConfig.
Record t := mk {
  allow_origins : list string;
}.
Definition new : t := {|
  allow_origins := [] |}.
End GrpcWebConfig.

(** Errors middleware configuration - custom error pages *)
Module ErrorsConfig.
Record t := mk {
  status : list string;
  service : string;
  query : string;
}.
Definition new (status0 : list string) (service0 : string) (query0 : string) : t := {|
  status := status0;
  service := service0;
  query := query0 |}.
End ErrorsConfig.

(** Middleware configuration - in Traefik format, exactly one of these should be set *)
Module MiddlewareConfig.
Record t := mk {
  rate_limit : option RateLimitConfig.t;
  ip_allow_list : option IpAllowListConfig.t;
  ip_deny_list : option IpDenyListConfig.t;
  headers : option HeadersConfig.t;
  basic_auth : option BasicAuthConfig.t;
  digest_auth : option DigestAuthConfig.t;
  forward_auth : option ForwardAuthConfig.t;
  compress : option CompressConfig.t;
  retry : option RetryConfig.t;
  circuit_breaker : option CircuitBreakerConfig.t;
  redirect_scheme : option RedirectSchemeConfig.t;
  redirect_regex : option RedirectRegexConfig.t;
  strip_prefix : option StripPrefixConfig.t;
  strip_prefix_regex : option StripPrefixRegexConfig.t;
  add_prefix : option AddPrefixConfig.t;
  replace_path : option ReplacePathConfig.t;
  replace_path_regex : option ReplacePathRegexConfig.t;
  chain : option ChainConfig.t;
  buffering : option BufferingConfig.t;
  in_flight_req : option InFlightReqConfig.t;
  pass_tls_client_cert : option PassTlsClientCertConfig.t;
  content_type : option ContentTypeConfig.t;
  grpc_web : option GrpcWebConfig.t;
  jwt : option JwtConfig.t;
  errors : option ErrorsConfig.t;
  ip_white_list : option IpAllowListConfig.t;
}.
Definition new : t := {|
  rate_limit := None;
  ip_allow_list := None;
  ip_deny_list := None;
  headers := None;
  basic_auth := None;
  digest_auth := None;
  forward_auth := None;
  compress := None;
  retry := None;
  circuit_breaker := None;
  redirect_scheme := None;
  redirect_regex := None;
  strip_prefix := None;
  strip_prefix_regex := None;
  add_prefix := None;
  replace_path := None;
  replace_path_regex := None;
  chain := None;
  buffering := None;
  in_flight_req := None;
  pass_tls_client_cert := None;
  content_type := None;
  grpc_web := None;
  jwt := None;
  errors := None;
  ip_white_list := None |}.
End MiddlewareConfig.

(** HTTP routing configuration: routers, services, middlewares, and transports. *)
Module HttpConfig.
Record t := mk {
  routers : list (string * Router.t);
  services : list (string * Service.t);
  middlewares : list (string * MiddlewareConfig.t);
  servers_transports : list (string * ServersTransport.t);
}.
Definition new : t := {|
  routers := [];
  services := [];
  middlewares := [];
  servers_transports := [] |}.
End HttpConfig.

(** TCP router TLS configuration *)
Module TcpRouterTls.
Record t := mk {
  passthrough : bool;
  cert_resolver : option string;
  domains : list TlsDomain.t;
  options : option string;
}.
Definition new : t := {|
  passthrough := false;
  cert_resolver := None;
  domains := [];
  options := None |}.
End TcpRouterTls.

(** TCP router configuration *)
Module TcpRouter.
Record t := mk {
  entry_points : list string;
  rule : string;
  rule_syntax : option string;
  service : string;
  middlewares : list string;
  priority : Z; (* i32 *)
  tls : option TcpRouterTls.t;
}.
Definition new (rule0 : string) (service0 : string) : t := {|
  entry_points := [];
  rule := rule0;
  rule_syntax := None;
  service := service0;
  middlewares := [];
  priority := 0;
  tls := None |}.
End TcpRouter.

(** TCP backend server *)
Module TcpServer.
Record t := mk {
  address : string;
  weight : Z; (* u32 *)
  tls : bool;
}.
Definition new (address0 : string) : t := {|
  address := address0;
  weight := default_weight;
  tls := false |}.
End TcpServer.

(** TCP health check configuration *)
Module TcpHealthCheck.
Record t := mk {
  interval : Z; (* Duration *)
  timeout : Z; (* Duration *)
}.
Definition new : t := {|
  interval := default_tcp_health_interval;
  timeout := default_tcp_health_timeout |}.
End TcpHealthCheck.

(** TCP load balancer configuration *)
Module TcpLoadBalancer.
Record t := mk {
  servers : list TcpServer.t;
  health_check : option TcpHealthCheck.t;
  servers_transport : option string;
  proxy_protocol : option Z; (* u8 *)
  termination_delay : option Z; (* Duration *)
}.
Definition new (servers0 : list TcpServer.t) : t := {|
  servers := servers0;
  health_check := None;
  servers_transport := None;
  proxy_protocol := None;
  termination_delay := None |}.
End TcpLoadBalancer.

(** Reference to a TCP service with weight *)
Module TcpWeightedServiceRef.
Record t := mk {
  name : string;
  weight : Z; (* u32 *)
}.
Definition new (name0 : string) : t := {|
  name := name0;
  weight := default_weight |}.
End TcpWeightedServiceRef.

(** TCP weighted service for traffic splitting *)
Module TcpWeightedService.
Record t := mk {
  services : list TcpWeightedServiceRef.t;
}.
Definition new (services0 : list TcpWeightedServiceRef.t) : t := {|
  services := services0 |}.
End TcpWeightedService.

(** TCP service configuration *)
Module TcpService.
Record t := mk {
  load_balancer : option TcpLoadBalancer.t;
  weighted : option TcpWeightedService.t;
}.
Definition new : t := {|
  load_balancer := None;
  weighted := None |}.
End TcpService.

(** TCP IP allowlist middleware *)
Module TcpIpAllowList.
Record t := mk {
  source_range : list string;
}.
Definition new (source_range0 : list string) : t := {|
  source_range := source_range0 |}.
End TcpIpAllowList.

(** TCP IP denylist middleware *)
Module TcpIpDenyList.
Record t := mk {
  source_range : list string;
}.
Definition new (source_range0 : list string) : t := {|
  source_range := source_range0 |}.
End TcpIpDenyList.

(** TCP in-flight connection limit middleware *)
Module TcpInFlightConn.
Record t := mk {
  amount : Z; (* i64 *)
}.
Definition new (amount0 : Z) : t := {|
  amount := amount0 |}.
End TcpInFlightConn.

(** TCP middleware configuration *)
Module TcpMiddlewareConfig.
Record t := mk {
  ip_allow_list : option TcpIpAllowList.t;
  ip_deny_list : option TcpIpDenyList.t;
  in_flight_conn : option TcpInFlightConn.t;
}.
Definition new : t := {|
  ip_allow_list := None;
  ip_deny_list := None;
  in_flight_conn := None |}.
(** The first kind that is set. *)
Definition middleware_type (m : t) : string :=
  if ip_allow_list m is Some _ then "ipAllowList" else if ip_deny_list m is Some _ then "ipDenyList"
  else if in_flight_conn m is Some _ then "inFlightConn" else "unknown".
End TcpMiddlewareConfig.

(** TLS configuration for TCP backend connections *)
Module TcpTransportTls.
Record t := mk {
  server_name : option string;
  insecure_skip_verify : bool;
  root_cas : list string;
  certificates : list TlsCertificate.t;
}.
Definition new : t := {|
  server_name := None;
  insecure_skip_verify := false;
  root_cas := [];
  certificates := [] |}.
End TcpTransportTls.

(** TCP servers transport configuration *)
Module TcpServersTransport.
Record t := mk {
  tls : option TcpTransportTls.t;
  dial_timeout : Z; (* Duration *)
  dial_keep_alive : option Z; (* Duration *)
}.
Definition new : t := {|
  tls := None;
  dial_timeout := default_dial_timeout;
  dial_keep_alive := None |}.
End TcpServersTransport.

(** TCP routing configuration (similar to Traefik's TCP config) *)
Module TcpConfig.
Record t := mk {
  routers : list (string * TcpRouter.t);
  services : list (string * TcpService.t);
  middlewares : list (string * TcpMiddlewareConfig.t);
  servers_transports : list (string * TcpServersTransport.t);
}.
Definition new : t := {|
  routers := [];
  services := [];
  middlewares := [];
  servers_transports := [] |}.
End TcpConfig.

(** UDP router configuration *)
Module UdpRouter.
Record t := mk {
  entry_points : list string;
  rule : string;
  service : string;
  middlewares : list string;
  priority : Z; (* i32 *)
}.
Definition new (rule0 : string) (service0 : string) : t := {|
  entry_points := [];
  rule := rule0;
  service := service0;
  middlewares := [];
  priority := 0 |}.
End UdpRouter.

(** UDP backend server *)
Module UdpServer.
Record t := mk {
  address : string;
  weight : Z; (* u32 *)
}.
Definition new (address0 : string) : t := {|
  address := address0;
  weight := default_weight |}.
End UdpServer.

(** UDP health check configuration *)
Module UdpHealthCheck.
Record t := mk {
  interval : Z; (* Duration *)
  timeout : Z; (* Duration *)
  payload : option string;
  expected_response : option string;
}.
Definition new : t := {|
  interval := default_udp_health_interval;
  timeout := default_udp_health_timeout;
  payload := None;
  expected_response := None |}.
End UdpHealthCheck.

(** UDP load balancer configuration *)
Module UdpLoadBalancer.
Record t := mk {
  servers : list UdpServer.t;
  health_check : option UdpHealthCheck.t;
}.
Definition new (servers0 : list UdpServer.t) : t := {|
  servers := servers0;
  health_check := None |}.
End UdpLoadBalancer.

(** Reference to a UDP service with weight *)
Module UdpWeightedServiceRef.
Record t := mk {
  name : string;
  weight : Z; (* u32 *)
}.
Definition new (name0 : string) : t := {|
  name := name0;
  weight := default_weight |}.
End UdpWeightedServiceRef.

(** UDP weighted service for traffic splitting *)
Module UdpWeightedService.
Record t := mk {
  services : list UdpWeightedServiceRef.t;
}.
Definition new (services0 : list UdpWeightedServiceRef.t) : t := {|
  services := services0 |}.
End UdpWeightedService.

(** UDP service configuration *)
Module UdpService.
Record t := mk {
  load_balancer : option UdpLoadBalancer.t;
  weighted : option UdpWeightedService.t;
}.
Definition new : t := {|
  load_balancer := None;
  weighted := None |}.
End UdpService.

(** UDP IP allowlist middleware *)
Module UdpIpAllowList.
Record t := mk {
  source_range : list string;
}.
Definition new (source_range0 : list string) : t := {|
  source_range := source_range0 |}.
End UdpIpAllowList.

(** UDP IP denylist middleware *)
Module UdpIpDenyList.
Record t := mk {
  source_range : list string;
}.
Definition new (source_range0 : list string) : t := {|
  source_range := source_range0 |}.
End UdpIpDenyList.

(** UDP rate limit middleware *)
Module UdpRateLimit.
Record t := mk {
  average : Z; (* u64 *)
  burst : Z; (* u64 *)
  period : Z; (* Duration *)
}.
Definition new (average0 : Z) : t := {|
  average := average0;
  burst := 0;
  period := default_rate_period |}.
End UdpRateLimit.

(** UDP middleware configuration *)
Module UdpMiddlewareConfig.
Record t := mk {
  ip_allow_list : option UdpIpAllowList.t;
  ip_deny_list : option UdpIpDenyList.t;
  rate_limit : option UdpRateLimit.t;
}.
Definition new : t := {|
  ip_allow_list := None;
  ip_deny_list := None;
  rate_limit := None |}.
(** The first kind that is set. *)
Definition middleware_type (m : t) : string :=
  if ip_allow_list m is Some _ then "ipAllowList" else if ip_deny_list m is Some _ then "ipDenyList"
  else if rate_limit m is Some _ then "rateLimit" else "unknown".
End UdpMiddlewareConfig.

(** UDP routing configuration (similar to TCP config) *)
Module UdpConfig.
Record t := mk {
  routers : list (string * UdpRouter.t);
  services : list (string * UdpService.t);
  middlewares : list (string * UdpMiddlewareConfig.t);
}.
Definition new : t := {|
  routers := [];
  services := [];
  middlewares := [] |}.
End UdpConfig.

(** Prometheus metrics endpoint configuration. *)
Module PrometheusConfig.
Record t := mk {
  address : string;
  add_entry_points_labels : bool;
  add_services_labels : bool;
  add_routers_labels : bool;
  entry_point : option string;
  buckets : list f64;
}.
Definition new : t := {|
  address := default_metrics_address;
  add_entry_points_labels := false;
  add_services_labels := false;
  add_routers_labels := false;
  entry_point := None;
  buckets := [] |}.
End PrometheusConfig.

(** Metrics export configuration. *)
Module MetricsConfig.
Record t := mk {
  prometheus : option PrometheusConfig.t;
}.
Definition new : t := {|
  prometheus := None |}.
End MetricsConfig.

(** Admin API and dashboard configuration. *)
Module ApiConfig.
Record t := mk {
  dashboard : bool;
  insecure : bool;
  debug : bool;
  base_path : option string;
  disable_dashboard_ad : bool;
}.
Definition new : t := {|
  dashboard := false;
  insecure := false;
  debug := false;
  base_path := None;
  disable_dashboard_ad := false |}.
End ApiConfig.

(** Application logging configuration (level, format, output file). *)
Module LogConfig.
Record t := mk {
  level : option string;
  format : option string;
  file_path : option string;
}.
Definition new : t := {|
  level := None;
  format := None;
  file_path := None |}.
End LogConfig.

(** Access log configuration (per-request logging). *)
Module AccessLogConfig.
Record t := mk {
  file_path : option string;
  format : option string;
  bufferingsize : option Z; (* u64 *)
}.
Definition new : t := {|
  file_path := None;
  format := None;
  bufferingsize := None |}.
End AccessLogConfig.

(** File-based dynamic configuration provider. *)
Module FileProviderConfig.
Record t := mk {
  filename : option string;
  directory : option string;
  watch : bool;
}.
Definition new : t := {|
  filename := None;
  directory := None;
  watch := default_watch |}.
End FileProviderConfig.

(** Dynamic configuration providers (file, etc.). *)
Module ProvidersConfig.
Record t := mk {
  file : option FileProviderConfig.t;
}.
Definition new : t := {|
  file := None |}.
End ProvidersConfig.

(** Redirect to another entrypoint (target, scheme, permanent flag). *)
Module RedirectEntryPoint.
Record t := mk {
  to : string;
  scheme : string;
  permanent : bool;
  priority : option Z; (* i32 *)
}.
Definition new (to0 : string) : t := {|
  to := to0;
  scheme := default_https_scheme;
  permanent := default_true;
  priority := None |}.
End RedirectEntryPoint.

(** Entrypoint-level HTTP redirections (e.g., HTTP to HTTPS). *)
Module EntryPointRedirections.
Record t := mk {
  entry_point : option RedirectEntryPoint.t;
}.
Definition new : t := {|
  entry_point := None |}.
End EntryPointRedirections.

(** TLS settings for an entrypoint (cert resolver, domains, options reference). *)
Module EntryPointTls.
Record t := mk {
  options : option string;
  cert_resolver : option string;
  domains : list TlsDomain.t;
}.
Definition new : t := {|
  options := None;
  cert_resolver := None;
  domains := [] |}.
End EntryPointTls.

(** HTTP-specific entrypoint settings (redirections, TLS, default middlewares). *)
Module EntryPointHttp.
Record t := mk {
  redirections : option EntryPointRedirections.t;
  tls : option EntryPointTls.t;
  middlewares : list string;
}.
Definition new : t := {|
  redirections := None;
  tls := None;
  middlewares := [] |}.
End EntryPointHttp.

(** Forwarded headers trust configuration (trusted IPs, hop-by-hop headers). *)
Module ForwardedHeaders.
Record t := mk {
  trusted_ips : list string;
  insecure : bool;
  connection : list string;
}.
Definition new : t := {|
  trusted_ips := [];
  insecure := false;
  connection := [] |}.
End ForwardedHeaders.

(** Timeouts for reading requests, writing responses, and idle connections. *)
Module RespondingTimeouts.
Record t := mk {
  read_timeout : Z; (* Duration *)
  write_timeout : Z; (* Duration *)
  idle_timeout : Z; (* Duration *)
}.
Definition new : t := {|
  read_timeout := default_read_timeout;
  write_timeout := 0;
  idle_timeout := default_idle_timeout |}.
End RespondingTimeouts.

(** Graceful shutdown lifecycle timeouts. *)
Module LifeCycle.
Record t := mk {
  grace_time_out : Z; (* Duration *)
  request_accept_grace_timeout : Z; (* Duration *)
}.
Definition new : t := {|
  grace_time_out := default_grace_timeout;
  request_accept_grace_timeout := 0 |}.
End LifeCycle.

(** Transport-layer settings for an entrypoint (timeouts, keep-alive limits). *)
Module EntryPointTransport.
Record t := mk {
  responding_timeouts : option RespondingTimeouts.t;
  life_cycle : option LifeCycle.t;
  keep_alive_max_requests : option Z; (* i64 *)
  keep_alive_max_time : option Z; (* Duration *)
}.
Definition new : t := {|
  responding_timeouts := None;
  life_cycle := None;
  keep_alive_max_requests := None;
  keep_alive_max_time := None |}.
End EntryPointTransport.

(** PROXY protocol configuration (trusted IPs for client address extraction). *)
Module ProxyProtocol.
Record t := mk {
  trusted_ips : list string;
  insecure : bool;
}.
Definition new : t := {|
  trusted_ips := [];
  insecure := false |}.
End ProxyProtocol.

(** Network entrypoint (listen address, TLS, proxy protocol, timeouts). *)
Module EntryPoint.
Record t := mk {
  address : string;
  as_default : bool;
  http : option EntryPointHttp.t;
  forwarded_headers : option ForwardedHeaders.t;
  transport : option EntryPointTransport.t;
  proxy_protocol : option ProxyProtocol.t;
}.
Definition new (address0 : string) : t := {|
  address := address0;
  as_default := false;
  http := None;
  forwarded_headers := None;
  transport := None;
  proxy_protocol := None |}.
End EntryPoint.

(** Mutual TLS client authentication settings. *)
Module ClientAuth.
Record t := mk {
  ca_files : list string;
  client_auth_type : option string;
}.
Definition new : t := {|
  ca_files := [];
  client_auth_type := None |}.
End ClientAuth.

(** TLS protocol options (versions, ciphers, client auth, ALPN). *)
Module TlsOptions.
Record t := mk {
  min_version : option string;
  max_version : option string;
  cipher_suites : list string;
  curve_preferences : list string;
  client_auth : option ClientAuth.t;
  sni_strict : bool;
  alpn_protocols : list string;
  prefer_server_cipher_suites : bool;
}.
Definition new : t := {|
  min_version := None;
  max_version := None;
  cipher_suites := [];
  curve_preferences := [];
  client_auth := None;
  sni_strict := false;
  alpn_protocols := [];
  prefer_server_cipher_suites := false |}.
End TlsOptions.

(** Auto-generated default certificate using a cert resolver. *)
Module DefaultGeneratedCert.
Record t := mk {
  resolver : string;
  domain : option TlsDomain.t;
}.
Definition new (resolver0 : string) : t := {|
  resolver := resolver0;
  domain := None |}.
End DefaultGeneratedCert.

(** Named TLS certificate store with default certificate configuration. *)
Module TlsStore.
Record t := mk {
  default_certificate : option TlsCertificate.t;
  default_generated_cert : option DefaultGeneratedCert.t;
}.
Definition new : t := {|
  default_certificate := None;
  default_generated_cert := None |}.
End TlsStore.

(** Global TLS configuration (certificates, options, stores). *)
Module TlsConfig.
Record t := mk {
  certificates : list TlsCertificate.t;
  options : list (string * TlsOptions.t);
  stores : list (string * TlsStore.t);
}.
Definition new : t := {|
  certificates := [];
  options := [];
  stores := [] |}.
End TlsConfig.

(** ACME External Account Binding (EAB) credentials. *)
Module ExternalAccountBinding.
Record t := mk {
  kid : string;
  hmac_encoded : string;
}.
Definition new (kid0 : string) (hmac_encoded0 : string) : t := {|
  kid := kid0;
  hmac_encoded := hmac_encoded0 |}.
End ExternalAccountBinding.

(** ACME HTTP-01 challenge configuration. *)
Module HttpChallenge.
Record t := mk {
  entry_point : string;
}.
Definition new (entry_point0 : string) : t := {|
  entry_point := entry_point0 |}.
End HttpChallenge.

(** ACME TLS-ALPN-01 challenge configuration. *)
Module TlsChallenge.
Record t := mk {}.
Definition new : t := mk.
End TlsChallenge.

(** ACME DNS-01 challenge configuration. *)
Module DnsChallenge.
Record t := mk {
  provider : string;
  delay_before_check : option Z; (* Duration *)
  resolvers : list string;
  disable_propagation_check : bool;
}.
Definition new (provider0 : string) : t := {|
  provider := provider0;
  delay_before_check := None;
  resolvers := [];
  disable_propagation_check := false |}.
End DnsChallenge.

(** ACME (Let's Encrypt) automatic certificate configuration. *)
Module AcmeConfig.
Record t := mk {
  email : string;
  storage : string;
  ca_server : option string;
  key_type : option string;
  eab : option ExternalAccountBinding.t;
  certificate_duration : option Z; (* Duration *)
  preferred_chain : option string;
  http_challenge : option HttpChallenge.t;
  tls_challenge : option TlsChallenge.t;
  dns_challenge : option DnsChallenge.t;
}.
Definition new (email0 : string) : t := {|
  email := email0;
  storage := default_acme_storage;
  ca_server := None;
  key_type := None;
  eab := None;
  certificate_duration := None;
  preferred_chain := None;
  http_challenge := None;
  tls_challenge := None;
  dns_challenge := None |}.
End AcmeConfig.

(** Certificate resolver (currently supports ACME/Let's Encrypt). *)
Module CertificateResolver.
Record t := mk {
  acme : option AcmeConfig.t;
}.
Definition new : t := {|
  acme := None |}.
End CertificateResolver.

(** Redis TLS configuration *)
Module RedisTlsConfig.
Record t := mk {
  ca : option string;
  cert : option string;
  key : option string;
  insecure_skip_verify : bool;
}.
Definition new : t := {|
  ca := None;
  cert := None;
  key := None;
  insecure_skip_verify := false |}.
End RedisTlsConfig.

(** Redis Sentinel configuration *)
Module RedisSentinelConfig.
Record t := mk {
  master_name : string;
  password : option string;
}.
Definition new (master_name0 : string) : t := {|
  master_name := master_name0;
  password := None |}.
End RedisSentinelConfig.

(** Redis/Valkey store configuration Compatible with Traefik's redis provider format *)
Module RedisStoreConfig.
Record t := mk {
  endpoints : list string;
  password : option string;
  username : option string;
  db : Z; (* i64 *)
  root_key : string;
  tls : option RedisTlsConfig.t;
  sentinel : option RedisSentinelConfig.t;
  timeout : Z; (* Duration *)
}.
Definition new (endpoints0 : list string) : t := {|
  endpoints := endpoints0;
  password := None;
  username := None;
  db := 0;
  root_key := default_key_prefix;
  tls := None;
  sentinel := None;
  timeout := default_redis_timeout |}.
End RedisStoreConfig.

(** TLS settings for the HTTP configuration provider connection. *)
Module HttpProviderTls.
Record t := mk {
  ca : option string;
  cert : option string;
  key : option string;
  insecure_skip_verify : bool;
}.
Definition new : t := {|
  ca := None;
  cert := None;
  key := None;
  insecure_skip_verify := false |}.
End HttpProviderTls.

(** Basic auth credentials for HTTP provider authentication. *)
Module BasicAuthCredentials.
Record t := mk {
  username : string;
  password : string;
}.
Definition new (username0 : string) (password0 : string) : t := {|
  username := username0;
  password := password0 |}.
End BasicAuthCredentials.

(** HTTP configuration provider *)
Module HttpProviderConfig.
Record t := mk {
  endpoint : string;
  poll_interval : Z; (* Duration *)
  timeout : Z; (* Duration *)
  headers : list (string * string);
  tls : option HttpProviderTls.t;
  basic_auth : option BasicAuthCredentials.t;
}.
Definition new (endpoint0 : string) : t := {|
  endpoint := endpoint0;
  poll_interval := default_poll_interval;
  timeout := default_http_timeout;
  headers := [];
  tls := None;
  basic_auth := None |}.
End HttpProviderConfig.

(** AWS credentials for S3 configuration provider access. *)
Module AwsCredentials.
Record t := mk {
  access_key_id : string;
  secret_access_key : string;
  session_token : option string;
}.
Definition new (access_key_id0 : string) (secret_access_key0 : string) : t := {|
  access_key_id := access_key_id0;
  secret_access_key := secret_access_key0;
  session_token := None |}.
End AwsCredentials.

(** S3 configuration provider *)
Module S3ProviderConfig.
Record t := mk {
  bucket : string;
  key : string;
  region : string;
  poll_interval : Z; (* Duration *)
  endpoint : option string;
  credentials : option AwsCredentials.t;
}.
Definition new (bucket0 : string) (key0 : string) (region0 : string) : t := {|
  bucket := bucket0;
  key := key0;
  region := region0;
  poll_interval := default_poll_interval;
  endpoint := None;
  credentials := None |}.
End S3ProviderConfig.

(** Consul configuration provider *)
Module ConsulProviderConfig.
Record t := mk {
  endpoint : string;
  key : string;
  token : option string;
  datacenter : option string;
  watch : bool;
  tls : option HttpProviderTls.t;
}.
Definition new (endpoint0 : string) (key0 : string) : t := {|
  endpoint := endpoint0;
  key := key0;
  token := None;
  datacenter := None;
  watch := default_true;
  tls := None |}.
End ConsulProviderConfig.

Inductive StoreConfig := Local | Redis (c : RedisStoreConfig.t).

Inductive ConfigProviderConfig := Http (c : HttpProviderConfig.t) | S3 (c : S3ProviderConfig.t) | Consul (c : ConsulProviderConfig.t).

(** Cluster configuration for high availability *)
Module ClusterConfig.
Record t := mk {
  enabled : bool;
  node_id : option string;
  advertise_address : option string;
  store : option StoreConfig;
  heartbeat_interval : Z; (* Duration *)
  node_timeout : Z; (* Duration *)
  drain_timeout : Z; (* Duration *)
  leader_ttl : Z; (* Duration *)
  config_providers : list ConfigProviderConfig;
}.
Definition new : t := {|
  enabled := false;
  node_id := None;
  advertise_address := None;
  store := None;
  heartbeat_interval := default_heartbeat_interval;
  node_timeout := default_node_timeout;
  drain_timeout := default_drain_timeout;
  leader_ttl := default_leader_ttl;
  config_providers := [] |}.
End ClusterConfig.

(** Root configuration - can be static config (traefik.yml) or combined *)
Module Config.
Record t := mk {
  entry_points : list (string * EntryPoint.t);
  http : option HttpConfig.t;
  tcp : option TcpConfig.t;
  udp : option UdpConfig.t;
  tls : option TlsConfig.t;
  certificates_resolvers : list (string * CertificateResolver.t);
  providers : option ProvidersConfig.t;
  metrics : option MetricsConfig.t;
  api : option ApiConfig.t;
  log : option LogConfig.t;
  access_log : option AccessLogConfig.t;
  cluster : option ClusterConfig.t;
}.
Definition new : t := {|
  entry_points := [];
  http := None;
  tcp := None;
  udp := None;
  tls := None;
  certificates_resolvers := [];
  providers := None;
  metrics := None;
  api := None;
  log := None;
  access_log := None;
  cluster := None |}.
End Config.

