(* ===== verification/Resilience.v ===== *)
(** * Failover, retries and mirroring

    Models src/src/service/failover.rs ([FailoverServiceRouter]), service/mirroring.rs and
    src/src/middleware/builtin/retry.rs ([RetryMiddleware], [RetryIterator]).
    Durations are in nanoseconds. The delay is computed in [f64]; the floats of
    [Duration] represent it exactly. Request methods and error texts are taken
    as ASCII, where Rust's Unicode case mappings are the ASCII ones. *)
From S2P Require Import Prelude Config Balancer RustStr Health Duration.
From stdpp Require Import list.
Open Scope Z_scope.
Open Scope list_scope.

(** ** Failover *)
Module Failover.
Record t := {
  primary : string;
  fallback : string;
  primary_healthy : bool;
  health_status : option HealthStatus; (* shared with a health checker *)
}.

Definition new (c : FailoverService) : t :=
  {| primary := fo_service c; fallback := fo_fallback c; primary_healthy := true; health_status := None |}.
Definition with_health_status (c : FailoverService) (s : HealthStatus) : t :=
  {| primary := fo_service c; fallback := fo_fallback c; primary_healthy := true; health_status := Some s |}.

Definition active_service (r : t) : string :=
  match health_status r with
  | Some s => if hs_healthy s then primary r else fallback r
  | None => if primary_healthy r then primary r else fallback r
  end.

Definition mark_primary (v : bool) (r : t) : t :=
  {| primary := primary r; fallback := fallback r; primary_healthy := v; health_status := health_status r |}.

Definition is_using_primary (r : t) : bool :=
  match health_status r with Some s => hs_healthy s | None => primary_healthy r end.

Definition service_names (r : t) : string * string := (primary r, fallback r).

(** The router sees the status its checker updates. *)
Definition checked (expected : option Z) (ticks : list (option check_reply * Z)) (c : FailoverService) : t :=
  with_health_status c (check_run expected ticks).
End Failover.

(** ** Retry *)
Record RetryConfig := { attempts : Z (* u32 *); initial_interval : Z }.

Record RetryMiddleware := {
  max_attempts : Z; (* u32 *)
  rm_initial_interval : Z;
  max_interval : Z;
}.

Definition retry_new (c : RetryConfig) : RetryMiddleware :=
  {| max_attempts := Z.max (attempts c) 1; rm_initial_interval := initial_interval c; max_interval := 30 * 10 ^ 9 |}.

(** [x as i32] of a [u32]. *)
Definition as_i32 (x : Z) : Z := if x <=? 2 ^ 31 - 1 then x else x - 2 ^ 32.

(** [x * 2.0.powi(k)]: the exponent moves, the mantissa stays. *)
Definition f64_powi2 (x : f64) (k : Z) : f64 := {| mant := mant x; expo := expo x + k |}.

(** [x as u64]: truncation, saturating. *)
Definition f64_to_u64 (x : f64) : Z :=
  Z.min u64_max (if 0 <=? expo x then mant x * 2 ^ expo x else mant x / 2 ^ (- expo x)).

Definition delay_for_attempt (m : RetryMiddleware) (attempt : Z) : Z :=
  if attempt =? 0 then 0
  else
    let initial_ms := f64_of (rm_initial_interval m / 10 ^ 6) 1 in
    let delay_ms := f64_powi2 initial_ms (as_i32 (saturating_sub attempt 1)) in
    Z.min (f64_to_u64 delay_ms * 10 ^ 6) (max_interval m).

Definition is_retryable_status (status : Z) : bool :=
  bool_decide (status = 502 \/ status = 503 \/ status = 504 \/ status = 408 \/ status = 429).

Definition is_retryable_error (error : string) : bool :=
  let error_lower := to_ascii_lowercase error in
  contains "connection" error_lower || contains "timeout" error_lower || contains "reset" error_lower ||
  contains "refused" error_lower || contains "broken pipe" error_lower.

Definition upper_ascii (c : ascii) : ascii :=
  let n := nat_of_ascii c in
  if ((97 <=? n) && (n <=? 122))%nat then ascii_of_nat (n - 32) else c.
Definition to_ascii_uppercase (s : string) : string := str_map upper_ascii s.

Definition is_idempotent_method (method : string) : bool :=
  let m := to_ascii_uppercase method in
  bool_decide (m = "GET" \/ m = "HEAD" \/ m = "OPTIONS" \/ m = "PUT" \/ m = "DELETE").

Definition should_retry (m : RetryMiddleware) (attempt status : Z) (method : string) : bool :=
  (attempt <? max_attempts m) && is_retryable_status status && is_idempotent_method method.
Definition should_retry_error (m : RetryMiddleware) (attempt : Z) (error method : string) : bool :=
  (attempt <? max_attempts m) && is_retryable_error error && is_idempotent_method method.

(** [RetryIterator]: the current attempt, then the next delay and state. *)
Definition retry_next (m : RetryMiddleware) (current_attempt : Z) : option (Z * Z) :=
  if max_attempts m <=? current_attempt then None
  else Some (delay_for_attempt m current_attempt, wrap_u32 (current_attempt + 1)).

(** The delays of the first [n] calls of [next]. *)
Fixpoint retry_take (m : RetryMiddleware) (n : nat) (current_attempt : Z) : list (option Z) :=
  match n with
  | O => []
  | S n' => match retry_next m current_attempt with
            | Some (d, a) => Some d :: retry_take m n' a
            | None => None :: retry_take m n' current_attempt
            end
  end.

(** Failover over health checks: a failover router that watches a checked
    service sends traffic to the fallback exactly while the checker's rule holds
    (three failed checks in a row and no two passed checks in a row since), for
    any sequence of check results. *)
Theorem failover_follows_checks expected ticks c :
  fo_service c <> fo_fallback c ->
  Failover.active_service (Failover.checked expected ticks c) = fo_fallback c <->
  down (rev ((fun tk => passed expected tk.1) <$> ticks)).
Proof.
  intros Hne. rewrite <- check_run_down. unfold Failover.active_service, Failover.checked. cbn.
  destruct (hs_healthy (check_run expected ticks)); split; done.
Qed.

Lemma failover_follows_checks_witness :
  Failover.active_service (Failover.checked None [(None, 1); (Some (ReplyStatus 500), 2); (None, 3); (Some (ReplyStatus 200), 4)]
    {| fo_service := "a"; fo_fallback := "b" |}) = "b".
Proof.
  apply (failover_follows_checks None [(None, 1); (Some (ReplyStatus 500), 2); (None, 3); (Some (ReplyStatus 200), 4)]
    {| fo_service := "a"; fo_fallback := "b" |}); [discriminate|].
  exists [true], []. split; [vm_compute; reflexivity|exact I].
Defined.

Lemma f64_powi2_is x v k : f64_is x v -> 0 <= k -> f64_to_u64 (f64_powi2 x k) = Z.min u64_max (v * 2 ^ k).
Proof.
  unfold f64_is, f64_to_u64, f64_powi2. cbn [mant expo]. intros Hx Hk. f_equal.
  destruct (Z.leb_spec 0 (expo x)) as [He|He].
  - destruct (Z.leb_spec 0 (expo x + k)); [|lia]. rewrite Z.pow_add_r by lia. rewrite <- Hx. lia.
  - rewrite Hx. destruct (Z.leb_spec 0 (expo x + k)).
    + rewrite <- Z.mul_assoc, <- Z.pow_add_r by lia. do 2 f_equal. lia.
    + replace (- expo x) with (k + - (expo x + k)) by lia. rewrite Z.pow_add_r by lia. rewrite Z.mul_assoc.
      apply Z.div_mul. pose proof (Z.pow_pos_nonneg 2 (- (expo x + k))). lia.
Qed.

(** The delay before attempt [i]: none before the first, then the initial
    interval doubled each time, capped at 30 seconds. *)
Definition backoff (interval : Z) (i : nat) : Z :=
  match i with
  | O => 0
  | S k => Z.min (interval / 10 ^ 6 * 2 ^ Z.of_nat k * 10 ^ 6) (30 * 10 ^ 9)
  end.

Lemma delay_backoff c i : 0 <= initial_interval c -> initial_interval c / 10 ^ 6 < 2 ^ 53 -> Z.of_nat i <= 2 ^ 31 ->
  delay_for_attempt (retry_new c) (Z.of_nat i) = backoff (initial_interval c) i.
Proof.
  intros H0 Hi Hn. unfold delay_for_attempt. destruct i as [|k]; [done|].
  destruct (Z.eqb_spec (Z.of_nat (S k)) 0); [lia|]. cbn [retry_new rm_initial_interval max_interval backoff].
  assert (Hms : 0 <= initial_interval c / 10 ^ 6) by (apply Z.div_pos; lia).
  unfold saturating_sub, as_i32. rewrite Z.max_r by lia. replace (Z.of_nat (S k) - 1) with (Z.of_nat k) by lia.
  destruct (Z.leb_spec (Z.of_nat k) (2 ^ 31 - 1)); [|lia].
  rewrite (f64_powi2_is _ (initial_interval c / 10 ^ 6)) by (lia || by apply f64_is_int).
  unfold u64_max. lia.
Qed.

(** Retry schedule: the retry iterator yields exactly [max_attempts] delays
    (at least one), the first zero and each later one the configured interval
    doubled once more, never above 30 seconds, and then stops; the [f64]
    arithmetic is exact for intervals below 2^53 milliseconds. *)
Theorem retry_schedule c n :
  0 <= initial_interval c -> initial_interval c / 10 ^ 6 < 2 ^ 53 -> attempts c <= 2 ^ 31 ->
  retry_take (retry_new c) n 0 =
    (fun i => if Z.of_nat i <? Z.max (attempts c) 1 then Some (backoff (initial_interval c) i) else None) <$> seq 0 n.
Proof.
  intros H0 Hi Ha.
  assert (Hstop : forall n a k, Z.max (attempts c) 1 <= a -> Z.max (attempts c) 1 <= Z.of_nat k ->
    retry_take (retry_new c) n a =
    (fun i => if Z.of_nat i <? Z.max (attempts c) 1 then Some (backoff (initial_interval c) i) else None) <$> seq k n).
  { clear n. induction n as [|n IH]; intros a k Hk Hk'; [done|]. cbn [retry_take seq]. rewrite fmap_cons.
    unfold retry_next. cbn [retry_new max_attempts]. destruct (Z.leb_spec (Z.max (attempts c) 1) a); [|lia].
    destruct (Z.ltb_spec (Z.of_nat k) (Z.max (attempts c) 1)); [lia|]. f_equal. apply IH; lia. }
  assert (Hgo : forall n k, retry_take (retry_new c) n (Z.of_nat k) =
    (fun i => if Z.of_nat i <? Z.max (attempts c) 1 then Some (backoff (initial_interval c) i) else None) <$> seq k n).
  { clear n. induction n as [|n IH]; intros k; [done|].
    destruct (decide (Z.max (attempts c) 1 <= Z.of_nat k)) as [Hge|Hlt]; [by apply Hstop|].
    cbn [retry_take seq]. rewrite fmap_cons. unfold retry_next. cbn [retry_new max_attempts].
    destruct (Z.leb_spec (Z.max (attempts c) 1) (Z.of_nat k)); [lia|].
    destruct (Z.ltb_spec (Z.of_nat k) (Z.max (attempts c) 1)); [|lia].
    change {| max_attempts := Z.max (attempts c) 1; rm_initial_interval := initial_interval c; max_interval := 30 * 10 ^ 9 |}
      with (retry_new c).
    rewrite delay_backoff by lia. f_equal. rewrite wrap_u32_id by word.
    replace (Z.of_nat k + 1) with (Z.of_nat (S k)) by lia. apply IH. }
  exact (Hgo n 0%nat).
Qed.

Lemma retry_schedule_witness :
  retry_take (retry_new {| attempts := 4; initial_interval := 100 * 10 ^ 6 |}) 5 0 =
    [Some 0; Some (100 * 10 ^ 6); Some (200 * 10 ^ 6); Some (400 * 10 ^ 6); None].
Proof.
  apply (retry_schedule {| attempts := 4; initial_interval := 100 * 10 ^ 6 |} 5); vm_compute; (discriminate || reflexivity).
Defined.

(** ** Mirroring (src/src/service/mirroring.rs) *)
Module Mirroring.
Record MirrorRef := { name : string; percent : Z (* u32 *) }.
Record MirroringService := { service : string; mirrors_cfg : list MirrorRef; max_body_size_cfg : option Z }.

Record t := { main_service : string; mirrors : list MirrorRef; max_body_size : option Z (* i64 *) }.

Definition new (c : MirroringService) : t :=
  {| main_service := service c;
     mirrors := (fun m => {| name := name m; percent := Z.min (percent m) 100 |}) <$> mirrors_cfg c;
     max_body_size := max_body_size_cfg c |}.

(** One draw per mirror; [tls] is the thread's generator. *)
Fixpoint roll (ms : list MirrorRef) (tls : Z) : list string * Z :=
  match ms with
  | [] => ([], tls)
  | m :: ms' =>
      let tls := xorshift32 tls in
      let '(rest, tls') := roll ms' tls in
      (if tls mod 100 <? percent m then name m :: rest else rest, tls')
  end.
Definition mirrors_for_request (m : t) (tls : Z) : list string * Z := roll (mirrors m) tls.

Definition body_within_limit (m : t) (size : Z) : bool :=
  match max_body_size m with Some max => if 0 <? max then size <=? max else true | None => true end.
Definition all_mirrors (m : t) : list string := name <$> mirrors m.
Definition has_mirrors (m : t) : bool := match mirrors m with [] => false | _ => true end.
End Mirroring.

Lemma roll_spec ms : forall tls,
  (Mirroring.roll ms tls).1 `sublist_of` (Mirroring.name <$> ms) /\
  (forall m, m ∈ ms -> 100 <= Mirroring.percent m -> Mirroring.name m ∈ (Mirroring.roll ms tls).1) /\
  (Mirroring.roll ms tls).1 `sublist_of` (Mirroring.name <$> filter (fun m => 0 < Mirroring.percent m) ms).
Proof.
  induction ms as [|m ms IH]; intros tls; cbn [Mirroring.roll].
  { split_and!; [constructor|by intros m []%elem_of_nil|constructor]. }
  destruct (IH (xorshift32 tls)) as (H1 & H2 & H3). destruct (Mirroring.roll ms (xorshift32 tls)) as [rest tls'].
  cbn [fst] in *. pose proof (Z.mod_pos_bound (xorshift32 tls) 100 ltac:(lia)) as Hr.
  rewrite fmap_cons, filter_cons. destruct (Z.ltb_spec (xorshift32 tls mod 100) (Mirroring.percent m)) as [Hlt|Hge].
  - split_and!; [by apply sublist_skip| |].
    + intros m' [->|Hm]%elem_of_cons Hp; [left|right; auto].
    + rewrite decide_True by lia. rewrite fmap_cons. by apply sublist_skip.
  - split_and!; [by apply sublist_cons| |].
    + intros m' [->|Hm]%elem_of_cons Hp; [lia|auto].
    + case_decide; [rewrite fmap_cons; by apply sublist_cons|done].
Qed.

(** Mirroring: whatever the random draws, a request is copied to a selection
    of the configured mirrors in their order, to every mirror of 100 percent or
    more, and to none of 0 percent. *)
Theorem mirroring_selection c tls :
  let sel := (Mirroring.mirrors_for_request (Mirroring.new c) tls).1 in
  sel `sublist_of` (Mirroring.name <$> filter (fun m => 0 < Mirroring.percent m) (Mirroring.mirrors_cfg c)) /\
  (forall m, m ∈ Mirroring.mirrors_cfg c -> 100 <= Mirroring.percent m -> Mirroring.name m ∈ sel).
Proof.
  cbn zeta. unfold Mirroring.mirrors_for_request.
  destruct (roll_spec (Mirroring.mirrors (Mirroring.new c)) tls) as (_ & H2 & H3). split.
  - etransitivity; [exact H3|]. apply reflexive_eq. cbn [Mirroring.new Mirroring.mirrors]. clear H2 H3.
    induction (Mirroring.mirrors_cfg c) as [|m ms IH]; [done|]. rewrite fmap_cons, !filter_cons. cbn [Mirroring.percent].
    destruct (decide (0 < Mirroring.percent m)).
    + rewrite decide_True by lia. rewrite !fmap_cons, IH. done.
    + by rewrite decide_False by lia.
  - intros m Hm Hp. apply (H2 {| Mirroring.name := Mirroring.name m; Mirroring.percent := Z.min (Mirroring.percent m) 100 |}).
    + cbn [Mirroring.new Mirroring.mirrors]. apply list_elem_of_fmap. by exists m.
    + cbn [Mirroring.percent]. lia.
Qed.

Lemma mirroring_selection_witness :
  "b" ∈ (Mirroring.mirrors_for_request (Mirroring.new {| Mirroring.service := "m";
    Mirroring.mirrors_cfg := [{| Mirroring.name := "a"; Mirroring.percent := 0 |}; {| Mirroring.name := "b"; Mirroring.percent := 150 |}];
    Mirroring.max_body_size_cfg := None |}) 7).1.
Proof.
  apply (proj2 (mirroring_selection {| Mirroring.service := "m";
    Mirroring.mirrors_cfg := [{| Mirroring.name := "a"; Mirroring.percent := 0 |}; {| Mirroring.name := "b"; Mirroring.percent := 150 |}];
    Mirroring.max_body_size_cfg := None |} 7) {| Mirroring.name := "b"; Mirroring.percent := 150 |}).
  - right. left.
  - vm_compute. discriminate.
Defined.
