(* ===== verification/L4.v ===== *)
(** * TCP and UDP services and routers

    Models src/src/tcp/service.rs, src/src/tcp/router.rs, src/src/udp/service.rs
    and src/src/udp/router.rs. The two protocols share their code shape, so the
    service is parameterised by the server type and the router by the rule
    type. IP networks ([ipnetwork], third party) are the interface [IpLib] of [Net]. *)
From Stdlib Require Import Sorting.Sorted.
From S2P Require Import Prelude Balancer RustStr Order Net.
From stdpp Require Import list.
Open Scope Z_scope.
Open Scope list_scope.

(** ** Services *)
Record TcpBackendServer := { tcp_address : string; tcp_weight : Z; use_tls : bool }.
Record UdpBackendServer := { udp_address : string; udp_weight : Z }.

Record L4Service (A : Type) := {
  l4_name : string;
  servers : list A;
  rr_counter : Z; (* AtomicUsize *)
  healthy : list bool;
}.
Arguments l4_name {A}. Arguments servers {A}. Arguments rr_counter {A}. Arguments healthy {A}.

Section Service.
Context {A : Type}.

Definition l4_new (name : string) (ss : list A) : L4Service A :=
  {| l4_name := name; servers := ss; rr_counter := 0; healthy := replicate (length ss) true |}.

Definition healthy_count (s : L4Service A) : nat := length (filter (fun h => h = true) (healthy s)).

(** The loop: [rem] attempts are left, [ticket k] is what the [k]-th
    [fetch_add] of this call returned. Gives the server and the number of
    tickets taken. *)
Fixpoint rr_loop (ticket : nat -> Z) (hs : list bool) (ss : list A) (rem k : nat) : option A * nat :=
  match rem with
  | O => (head ss, k)
  | S rem' =>
      let idx := Z.to_nat (ticket k mod Z.of_nat (length ss)) in
      if load_flag hs idx then (ss !! idx, S k) else rr_loop ticket hs ss rem' (S k)
  end.

Definition next_with (ticket : nat -> Z) (s : L4Service A) : option A * nat :=
  match servers s with
  | [] => (None, O)
  | _ =>
      if (healthy_count s =? 0)%nat then (head (servers s), O)
      else rr_loop ticket (healthy s) (servers s) (length (servers s)) 0
  end.

Definition advance (n : nat) (s : L4Service A) : L4Service A :=
  {| l4_name := l4_name s; servers := servers s; rr_counter := wrap_u64 (rr_counter s + Z.of_nat n); healthy := healthy s |}.

(** A call that nobody interferes with takes consecutive tickets. *)
Definition next_server (s : L4Service A) : option A * L4Service A :=
  let '(o, n) := next_with (fun k => wrap_u64 (rr_counter s + Z.of_nat k)) s in (o, advance n s).

Definition get_server_by_hash (hash : Z) (s : L4Service A) : option A * L4Service A :=
  match servers s with
  | [] => (None, s)
  | _ =>
      let idx := Z.to_nat (hash mod Z.of_nat (length (servers s))) in
      if load_flag (healthy s) idx then (servers s !! idx, s) else next_server s
  end.

Definition mark (v : bool) (index : nat) (s : L4Service A) : L4Service A :=
  {| l4_name := l4_name s; servers := servers s; rr_counter := rr_counter s;
     healthy := if decide (index < length (servers s))%nat then <[index := v]> (healthy s) else healthy s |}.

(** ** Selection *)
Record l4_wf (s : L4Service A) : Prop := {
  l4_len : length (healthy s) = length (servers s);
  l4_ctr : in_u64 (rr_counter s);
}.

Lemma l4_mark_wf v i s : l4_wf s -> l4_wf (mark v i s).
Proof. intros [H1 H2]. split; cbn; [|done]. case_decide; [by rewrite length_insert|done]. Qed.

Lemma rr_loop_scan start hs ss rem : forall k,
  rr_loop (fun k => wrap_u64 (start + Z.of_nat k)) hs ss rem k =
  match RoundRobin.scan hs start (length ss) (seq k rem) with
  | Some idx => (ss !! idx, (rr_loop (fun k => wrap_u64 (start + Z.of_nat k)) hs ss rem k).2)
  | None => (head ss, (k + rem)%nat)
  end.
Proof.
  induction rem as [|rem IH]; intros k; cbn [rr_loop seq RoundRobin.scan]; [f_equal; lia|].
  unfold RoundRobin.slot at 1. destruct (load_flag hs _); [done|]. rewrite IH at 1.
  destruct (RoundRobin.scan _ _ _ _); [done|]. f_equal. lia.
Qed.

Lemma rr_loop_elem ticket hs ss rem : forall k b, (rr_loop ticket hs ss rem k).1 = Some b -> b ∈ ss.
Proof.
  induction rem as [|rem IH]; intros k b; cbn [rr_loop]; [destruct ss; [done|]; cbn; intros [= ->]; by left|].
  destruct (load_flag _ _); [|apply IH]. cbn. apply list_elem_of_lookup_2.
Qed.
Lemma next_server_elem s b : (next_server s).1 = Some b -> b ∈ servers s.
Proof.
  unfold next_server. destruct (next_with _ s) as [o n] eqn:E. cbn. intros ->. unfold next_with in E.
  destruct (servers s) as [|a ss]; [done|]. destruct (healthy_count s =? 0)%nat; [injection E as <- _; by left|].
  eapply rr_loop_elem. by rewrite E.
Qed.
Lemma hash_server_elem hash s b : (get_server_by_hash hash s).1 = Some b -> b ∈ servers s.
Proof.
  unfold get_server_by_hash. destruct (servers s) as [|a ss] eqn:E; [done|]. destruct (load_flag _ _).
  - apply list_elem_of_lookup_2.
  - rewrite <- E. apply next_server_elem.
Qed.

Lemma healthy_count_pos s : (0 < healthy_count s)%nat <-> true ∈ healthy s.
Proof.
  unfold healthy_count. induction (healthy s) as [|h hs IH]; [split; [cbn; lia|by intros ?%elem_of_nil]|].
  rewrite filter_cons, elem_of_cons. destruct h.
  - rewrite decide_True by done. split; [by left|cbn; lia].
  - rewrite decide_False by done. rewrite IH. split; [by right|by intros [?|?]].
Qed.
End Service.

(** TCP and UDP selection without interference: when some backend is marked
    healthy, the one returned is healthy, it is the first healthy one at or after
    the counter in cyclic order, and the search ends within one round; the hash
    lookup likewise returns a healthy server. (The counter is at least one round
    short of its 64-bit wrap-around.) *)
Theorem l4_selects_healthy {A} (s : L4Service A) :
  l4_wf s -> true ∈ healthy s -> rr_counter s + Z.of_nat (length (servers s)) <= u64_max ->
  exists i k srv, (i < length (servers s))%nat /\
    k = Z.to_nat ((rr_counter s + Z.of_nat i) mod Z.of_nat (length (servers s))) /\
    servers s !! k = Some srv /\ healthy s !! k = Some true /\ (next_server s).1 = Some srv /\
    (forall j, (j < i)%nat -> healthy s !! Z.to_nat ((rr_counter s + Z.of_nat j) mod Z.of_nat (length (servers s))) = Some false) /\
    (forall hash, 0 <= hash -> exists k' srv', (get_server_by_hash hash s).1 = Some srv' /\
       servers s !! k' = Some srv' /\ healthy s !! k' = Some true).
Proof.
  intros [Hlen Hc] Hex Hov. pose proof Hex as (k0 & Hk0)%list_elem_of_lookup_1.
  pose proof (lookup_lt_Some _ _ _ Hk0) as Hlt. rewrite Hlen in Hlt.
  set (n := length (servers s)) in *.
  assert (Hflag : forall j, (j < n)%nat -> healthy s !! j = Some (load_flag (healthy s) j)).
  { intros j Hj. unfold load_flag. destruct (lookup_lt_is_Some_2 (healthy s) j) as [x Hx]; [lia|]. by rewrite Hx. }
  assert (Hsel : (next_server s).1 = (rr_loop (fun k => wrap_u64 (rr_counter s + Z.of_nat k)) (healthy s) (servers s) n 0).1).
  { unfold next_server, next_with. destruct (servers s) as [|a ss] eqn:E; [unfold n in Hlt; cbn in Hlt; lia|].
    apply healthy_count_pos in Hex. destruct (Nat.eqb_spec (healthy_count s) 0); [lia|].
    fold n. by destruct (rr_loop _ _ _ _ _). }
  rewrite rr_loop_scan in Hsel. destruct (RoundRobin.scan _ _ _ _) as [idx|] eqn:E.
  - apply RoundRobin.scan_first in E as (i & Hi & -> & Hf & Hj). fold n in Hf, Hj, Hsel.
    assert (Hil : (RoundRobin.slot (rr_counter s) n i < n)%nat) by (apply RoundRobin.slot_lt; lia).
    destruct (lookup_lt_is_Some_2 (servers s) _ Hil) as [srv Hs].
    assert (Hnext : (next_server s).1 = Some srv) by (rewrite Hsel; cbn; exact Hs).
    exists i, (RoundRobin.slot (rr_counter s) n i), srv. split_and!.
    + lia.
    + apply RoundRobin.slot_exact; word.
    + done.
    + by rewrite Hflag, Hf.
    + done.
    + intros j Hji. rewrite <- RoundRobin.slot_exact by word.
      rewrite Hflag by (apply RoundRobin.slot_lt; lia). by rewrite Hj by lia.
    + intros hash Hh. unfold get_server_by_hash. destruct (servers s) as [|a ss] eqn:Es; [unfold n in Hlt; cbn in Hlt; lia|].
      fold n. set (kh := Z.to_nat (hash mod Z.of_nat n)).
      assert (Hkh : (kh < n)%nat) by (unfold kh; pose proof (Z.mod_pos_bound hash (Z.of_nat n)); lia).
      destruct (load_flag (healthy s) kh) eqn:Ef.
      * destruct (lookup_lt_is_Some_2 (a :: ss) kh) as [srv' Hs']; [exact Hkh|].
        exists kh, srv'. split_and!; [done|done|]. by rewrite Hflag, Ef.
      * exists (RoundRobin.slot (rr_counter s) n i), srv. split_and!; [done|done|]. by rewrite Hflag, Hf.
  - destruct (RoundRobin.slot_onto (rr_counter s) n k0) as (i & Hi & Hik); try word.
    pose proof (RoundRobin.scan_None _ _ _ _ E i) as HN. fold n in HN. rewrite Hik in HN.
    rewrite elem_of_seq in HN. specialize (HN ltac:(lia)). unfold load_flag in HN. by rewrite Hk0 in HN.
Qed.

Definition demo_service : L4Service UdpBackendServer :=
  mark false 0 (l4_new "dns" [{| udp_address := "a:53"; udp_weight := 1 |}; {| udp_address := "b:53"; udp_weight := 1 |}]).

Lemma l4_selects_healthy_witness :
  exists i k srv, (i < 2)%nat /\ k = Z.to_nat ((0 + Z.of_nat i) mod 2) /\ servers demo_service !! k = Some srv /\
    healthy demo_service !! k = Some true /\ (next_server demo_service).1 = Some srv.
Proof.
  destruct (l4_selects_healthy demo_service) as (i & k & srv & H1 & H2 & H3 & H4 & H5 & _).
  - apply l4_mark_wf. split; [reflexivity|vm_compute; split; discriminate].
  - right. left.
  - vm_compute. discriminate.
  - exists i, k, srv. split_and!; [exact H1|exact H2|exact H3|exact H4|exact H5].
Defined.

(** Under contention the search can miss: when other connections take every
    second ticket, a call on a service with one healthy backend out of two sees
    only the unhealthy one and returns it. *)
Theorem l4_contention_misses_healthy :
  true ∈ healthy demo_service /\
  next_with (fun k => Z.of_nat (2 * k)) demo_service = (head (servers demo_service), 2%nat) /\
  healthy demo_service !! 0%nat = Some false.
Proof. split_and!; [right; left|vm_compute; reflexivity|vm_compute; reflexivity]. Qed.

(** ** Rules *)
Definition dquote : ascii := ascii_of_nat 34.

(** Pieces of a comma-separated argument list, unquoted. *)
Definition arg_list (inner : string) : list string :=
  (fun s => trim_matches dquote (trim_matches "'" (trim_matches "`" s))) <$>
    filter (fun s => s <> "") (trim <$> split_on "," inner).

(** [&rule[n..rule.len().saturating_sub(1)]]: aborts when the start is beyond
    the end. The bytes at both ends are checked to be character boundaries. *)
Definition inner_of (n : nat) (rule : string) : result Empty_set string :=
  let stop := pred (String.length rule) in
  if (n <=? stop)%nat && is_char_boundary rule n && is_char_boundary rule stop
  then Ok (str_take (stop - n) (str_drop n rule)) else Panic.

Definition extract_hostsni (rule : string) : result Empty_set (option (list string)) :=
  if starts_with "hostsni(" (to_ascii_lowercase rule) then
    res_bind (inner_of 8 rule) (fun inner =>
      let hosts := filter (fun s => s <> "" /\ s <> "*") (arg_list inner) in
      Ok (match hosts with [] => None | _ => Some hosts end))
  else Ok None.

Definition extract_clientip (rule : string) : result Empty_set (option (list string)) :=
  if starts_with "clientip(" (to_ascii_lowercase rule) then
    res_bind (inner_of 9 rule) (fun inner =>
      let ips := arg_list inner in
      Ok (match ips with [] => None | _ => Some ips end))
  else Ok None.

Section Rules.
Context `{IL : IpLib}.

Inductive TcpRule :=
| CatchAll
| HostSNI (hosts : list string)
| ClientIP (networks : list IpNetwork).

(** The [ClientIP] part of both parsers. *)
Definition parse_clientip (rule : string) : result Empty_set TcpRule :=
  res_bind (extract_clientip rule) (fun o =>
    match o with
    | Some ips => match omap parse_network ips with [] => Ok CatchAll | nets => Ok (ClientIP nets) end
    | None => Ok CatchAll
    end).

Definition tcp_parse (rule : string) : result Empty_set TcpRule :=
  let rule := trim rule in
  if bool_decide (rule = "*" \/ to_ascii_lowercase rule = "hostsni(`*`)") then Ok CatchAll
  else
    res_bind (extract_hostsni rule) (fun o =>
      match o with
      | Some hosts => Ok (HostSNI hosts)
      | None => parse_clientip rule
      end).

(** UDP rules are the TCP rules without [HostSNI]. *)
Definition udp_parse (rule : string) : result Empty_set TcpRule :=
  let rule := trim rule in
  if bool_decide (rule = "*") then Ok CatchAll else parse_clientip rule.

(** [sni.ends_with(suffix)] *)
Definition ends_with (suffix s : string) : bool := starts_with (str_rev suffix) (str_rev s).

Definition host_matches (sni h : string) : bool :=
  if starts_with "*." h then ends_with (str_drop 1 h) sni || bool_decide (sni = str_drop 2 h)
  else eq_ignore_ascii_case h sni.

Definition tcp_matches (r : TcpRule) (sni : option string) (client : option IpAddr) : bool :=
  match r with
  | CatchAll => true
  | HostSNI hosts => match sni with Some s => existsb (host_matches s) hosts | None => false end
  | ClientIP nets => match client with Some a => existsb (fun n => network_contains n a) nets | None => false end
  end.

Definition is_catch_all (r : TcpRule) : bool := match r with CatchAll => true | _ => false end.
End Rules.

(** ** Routers *)
Record L4RouterConfig := {
  l4_entry_points : list string;
  l4_rule : string;
  l4_service : string;
  l4_middlewares : list string;
  l4_priority : Z; (* i32 *)
  l4_tls_passthrough : option bool; (* TCP only *)
}.

Section Routers.
Context `{IL : IpLib}.

Record L4Route := { rt_name : string; rt_config : L4RouterConfig; rt_rule : TcpRule }.
Definition rt_priority (r : L4Route) : Z := l4_priority (rt_config r).

Record L4Router := {
  l4_routers : gmap string (list L4Route);
  l4_catch_all : gmap string L4Route;
}.

(** The body of the inner loop over entry points. *)
Definition bind_entrypoint (r : L4Route) (rt : L4Router) (ep : string) : L4Router :=
  if is_catch_all (rt_rule r) then
    match l4_catch_all rt !! ep with
    | Some existing =>
        if rt_priority existing <? rt_priority r
        then {| l4_routers := l4_routers rt; l4_catch_all := <[ep := r]> (l4_catch_all rt) |}
        else rt
    | None => {| l4_routers := l4_routers rt; l4_catch_all := <[ep := r]> (l4_catch_all rt) |}
    end
  else {| l4_routers := <[ep := default [] (l4_routers rt !! ep) ++ [r]]> (l4_routers rt);
          l4_catch_all := l4_catch_all rt |}.

Definition entrypoints_of (all : list string) (c : L4RouterConfig) : list string :=
  match l4_entry_points c with [] => all | eps => eps end.

Definition l4_match (rt : L4Router) (ep : string) (sni : option string) (client : option IpAddr) : option L4Route :=
  match find (fun r => tcp_matches (rt_rule r) sni client) (default [] (l4_routers rt !! ep)) with
  | Some r => Some r
  | None => l4_catch_all rt !! ep
  end.

Definition has_routes_for (rt : L4Router) (ep : string) : bool :=
  bool_decide (is_Some (l4_routers rt !! ep)) || bool_decide (is_Some (l4_catch_all rt !! ep)).
Definition is_tls_passthrough (r : L4Route) : bool := default false (l4_tls_passthrough (rt_config r)).

(** What the tables hold, given the (entry point, route) pairs bound so far. *)
Record bound (ps : list (string * L4Route)) (rt : L4Router) : Prop := {
  bd_routes : forall ep r, r ∈ default [] (l4_routers rt !! ep) <-> (ep, r) ∈ ps /\ is_catch_all (rt_rule r) = false;
  bd_some : forall ep r, l4_catch_all rt !! ep = Some r -> (ep, r) ∈ ps /\ is_catch_all (rt_rule r) = true /\
    forall r', (ep, r') ∈ ps -> is_catch_all (rt_rule r') = true -> rt_priority r' <= rt_priority r;
  bd_none : forall ep, l4_catch_all rt !! ep = None -> forall r, (ep, r) ∈ ps -> is_catch_all (rt_rule r) = false;
}.

Lemma bound_empty : bound [] {| l4_routers := ∅; l4_catch_all := ∅ |}.
Proof.
  split; cbn.
  - intros e r. rewrite lookup_empty. cbn. rewrite !elem_of_nil. tauto.
  - intros e r. by rewrite lookup_empty.
  - by intros e _ r ?%elem_of_nil.
Qed.

Lemma snoc_elem {X} (x y : X) l : x ∈ l ++ [y] <-> x ∈ l \/ x = y.
Proof. by rewrite elem_of_app, list_elem_of_singleton. Qed.

(** A new catch-all route that takes the entry point. *)
Lemma bound_take ps rt r ep : bound ps rt -> is_catch_all (rt_rule r) = true ->
  (forall r', (ep, r') ∈ ps -> is_catch_all (rt_rule r') = true -> rt_priority r' <= rt_priority r) ->
  bound (ps ++ [(ep, r)]) {| l4_routers := l4_routers rt; l4_catch_all := <[ep := r]> (l4_catch_all rt) |}.
Proof.
  intros [Hr Hs Hn] Hc Hmax. split; cbn [l4_routers l4_catch_all].
  - intros ep' r'. rewrite Hr, snoc_elem. split; [intros [? ?]; auto|]. intros [[?|Heq] Hf]; [done|]. simplify_eq. congruence.
  - intros ep' r'. destruct (decide (ep' = ep)) as [->|Hne].
    + rewrite lookup_insert_eq. intros [= <-]. rewrite snoc_elem. split_and!; [by right|done|].
      intros r' [?|Heq]%snoc_elem Hc'; [by apply Hmax|]. simplify_eq. lia.
    + rewrite lookup_insert_ne by done. intros (H1 & H2 & H3)%Hs. rewrite snoc_elem. split_and!; [by left|done|].
      intros r'' [?|Heq]%snoc_elem Hc'; [by apply H3|]. by simplify_eq.
  - intros ep'. destruct (decide (ep' = ep)) as [->|Hne]; [by rewrite lookup_insert_eq|].
    rewrite lookup_insert_ne by done. intros Hnone r' [Hin|Heq]%snoc_elem; [by apply (Hn ep')|by simplify_eq].
Qed.

Lemma bind_bound ps rt r ep : bound ps rt -> bound (ps ++ [(ep, r)]) (bind_entrypoint r rt ep).
Proof.
  intros Hb. pose proof Hb as [Hr Hs Hn]. unfold bind_entrypoint. destruct (is_catch_all (rt_rule r)) eqn:Hc.
  - destruct (l4_catch_all rt !! ep) as [ex|] eqn:Hex.
    + destruct (Hs _ _ Hex) as (Hexin & Hexc & Hmax). destruct (Z.ltb_spec (rt_priority ex) (rt_priority r)) as [Hlt|Hge].
      * apply bound_take; [done|done|]. intros r' Hr' Hc'. specialize (Hmax r' Hr' Hc'). lia.
      * split.
        -- intros ep' r'. rewrite Hr, snoc_elem. split; [intros [? ?]; auto|]. intros [[?|Heq] Hf]; [done|]. simplify_eq. congruence.
        -- intros ep' r' Hx. destruct (Hs _ _ Hx) as (H1 & H2 & H3). rewrite snoc_elem. split_and!; [by left|done|].
           intros r'' [?|Heq]%snoc_elem Hc'; [by apply H3|]. simplify_eq. lia.
        -- intros ep' Hx r' [Hin|Heq]%snoc_elem; [by apply (Hn ep')|]. simplify_eq.
    + apply bound_take; [done|done|]. intros r' Hr' Hc'. rewrite (Hn ep Hex r' Hr') in Hc'. done.
  - split; cbn [l4_routers l4_catch_all].
    + intros ep' r'. rewrite snoc_elem. destruct (decide (ep' = ep)) as [->|Hne].
      * rewrite lookup_insert_eq. cbn [default from_option id]. rewrite snoc_elem, Hr. split.
        -- intros [[? ?]| ->]; auto.
        -- intros [[?|Heq] ?]; [by left|simplify_eq; by right].
      * rewrite lookup_insert_ne by done. rewrite Hr. split; [intros [? ?]; auto|]. intros [[?|Heq] ?]; [done|by simplify_eq].
    + intros ep' r' Hx. destruct (Hs _ _ Hx) as (H1 & H2 & H3). rewrite snoc_elem. split_and!; [by left|done|].
      intros r'' [?|Heq]%snoc_elem Hc'; [by apply H3|]. simplify_eq. congruence.
    + intros ep' Hx r' [Hin|Heq]%snoc_elem; [by apply (Hn ep')|]. by simplify_eq.
Qed.

Lemma bind_fold r eps : forall ps rt, bound ps rt ->
  bound (ps ++ ((fun ep => (ep, r)) <$> eps)) (foldl (bind_entrypoint r) rt eps).
Proof.
  induction eps as [|ep eps IH]; intros ps rt Hb; cbn [foldl]; [by rewrite app_nil_r|].
  rewrite fmap_cons. replace (ps ++ (ep, r) :: ((fun ep => (ep, r)) <$> eps))
    with ((ps ++ [(ep, r)]) ++ ((fun ep => (ep, r)) <$> eps)) by (by rewrite <- app_assoc).
  by apply IH, bind_bound.
Qed.

(** Rules are parsed with [tcp_parse] or [udp_parse]. *)
Context (parse_rule : string -> result Empty_set TcpRule).

Fixpoint bind_all (all : list string) (cfg : list (string * L4RouterConfig)) (rt : L4Router) : option L4Router :=
  match cfg with
  | [] => Some rt
  | (name, c) :: cfg' =>
      match parse_rule (l4_rule c) with
      | Ok rule => bind_all all cfg' (foldl (bind_entrypoint {| rt_name := name; rt_config := c; rt_rule := rule |}) rt (entrypoints_of all c))
      | _ => None (* aborts *)
      end
  end.

Definition l4_from_config (all : list string) (cfg : list (string * L4RouterConfig)) : option L4Router :=
  (fun rt => {| l4_routers := sort_desc rt_priority <$> l4_routers rt; l4_catch_all := l4_catch_all rt |}) <$>
    bind_all all cfg {| l4_routers := ∅; l4_catch_all := ∅ |}.

(** The routes the configuration binds to an entry point. *)
Definition serves_ep (all : list string) (cfg : list (string * L4RouterConfig)) (ep : string) (r : L4Route) : Prop :=
  exists name c rule, (name, c) ∈ cfg /\ parse_rule (l4_rule c) = Ok rule /\ ep ∈ entrypoints_of all c /\
    r = {| rt_name := name; rt_config := c; rt_rule := rule |}.

Lemma bind_all_bound all cfg : forall ps rt rt', bound ps rt -> bind_all all cfg rt = Some rt' ->
  exists qs, bound (ps ++ qs) rt' /\ forall ep r, (ep, r) ∈ qs <-> serves_ep all cfg ep r.
Proof.
  induction cfg as [|[name c] cfg IH]; intros ps rt rt' Hb; cbn [bind_all].
  { intros [= <-]. exists []. rewrite app_nil_r. split; [done|]. intros ep r. rewrite elem_of_nil. split; [done|].
    by intros (? & ? & ? & []%elem_of_nil & _). }
  destruct (parse_rule (l4_rule c)) as [rule|e|] eqn:Ep; [|done|done]. intros Hrest.
  set (r0 := {| rt_name := name; rt_config := c; rt_rule := rule |}) in *.
  destruct (IH _ _ _ (bind_fold r0 (entrypoints_of all c) ps rt Hb) Hrest) as (qs & Hq & Hin).
  exists (((fun ep => (ep, r0)) <$> entrypoints_of all c) ++ qs). rewrite app_assoc. split; [done|].
  intros ep r. rewrite elem_of_app, Hin, list_elem_of_fmap. split.
  - intros [(ep' & Heq & Hep)|(n & c' & ru & Hc & Hp & He & ->)]; [simplify_eq; exists name, c, rule|exists n, c', ru];
      rewrite elem_of_cons; auto.
  - intros (n & c' & ru & [Heq|Hc]%elem_of_cons & Hp & He & ->); [left|right; by exists n, c', ru].
    simplify_eq. exists ep. rewrite Ep in Hp. by simplify_eq.
Qed.
End Routers.

(** Connection routing (TCP and UDP). The router built from a configuration
    returns, for an entry point, a route bound to it whose rule accepts the
    connection: the highest-priority specific route if one accepts it, else the
    highest-priority catch-all; it returns nothing only when the entry point has
    no accepting route. *)
Theorem l4_match_spec `{IpLib} parse_rule all cfg rt ep sni client :
  l4_from_config parse_rule all cfg = Some rt ->
  match l4_match rt ep sni client with
  | Some r => serves_ep parse_rule all cfg ep r /\ tcp_matches (rt_rule r) sni client = true /\
      forall r', serves_ep parse_rule all cfg ep r' -> tcp_matches (rt_rule r') sni client = true ->
        is_catch_all (rt_rule r') = false \/ is_catch_all (rt_rule r) = true -> rt_priority r' <= rt_priority r
  | None => forall r', serves_ep parse_rule all cfg ep r' -> tcp_matches (rt_rule r') sni client = false
  end.
Proof.
  unfold l4_from_config. intros (rt0 & Hrt0 & ->)%fmap_Some.
  destruct (bind_all_bound parse_rule all cfg [] _ _ bound_empty Hrt0) as (qs & [Hr Hs Hn] & Hq). cbn [app] in *.
  unfold l4_match. cbn [l4_routers l4_catch_all]. rewrite lookup_fmap.
  assert (Hlist : forall r, r ∈ default [] (sort_desc rt_priority <$> l4_routers rt0 !! ep) <->
    serves_ep parse_rule all cfg ep r /\ is_catch_all (rt_rule r) = false).
  { intros r. rewrite <- Hq, <- Hr. destruct (l4_routers rt0 !! ep); cbn; [apply sort_desc_elem|done]. }
  assert (Hsorted : descending rt_priority (default [] (sort_desc rt_priority <$> l4_routers rt0 !! ep))).
  { destruct (l4_routers rt0 !! ep); cbn; [apply sort_desc_sorted|constructor]. }
  pose proof (find_descending rt_priority (fun r => tcp_matches (rt_rule r) sni client) _ Hsorted) as Hf.
  destruct (find _ _) as [r|].
  - destruct Hf as (Hin & Hok & Hmax). apply Hlist in Hin as [Hin Hca]. split_and!; [done|done|].
    intros r' Hr' Hok' [Hc|Hc]; [|congruence]. apply Hmax; [by apply Hlist|done].
  - destruct (l4_catch_all rt0 !! ep) as [r|] eqn:Hca.
    + destruct (Hs _ _ Hca) as (Hin & Hc & Hmax). split_and!; [by apply Hq|by destruct (rt_rule r)|].
      intros r' Hr' Hok' _. destruct (is_catch_all (rt_rule r')) eqn:Hc'.
      * apply Hmax; [by apply Hq|done].
      * rewrite (Hf r') in Hok'; [done|by apply Hlist].
    + intros r' Hr'. apply Hf, Hlist. split; [done|]. apply (Hn ep Hca), Hq, Hr'.
Qed.

(** ** Managers *)
Record L4ServiceConfig (S : Type) := {
  l4_load_balancer : option (list S);
  l4_weighted : option (list (string * Z));
}.
Arguments l4_load_balancer {S}. Arguments l4_weighted {S}.

(** [TcpServiceManager::new] and [UdpServiceManager::new]; [conv] copies a
    configured server. Services without a load balancer are dropped. *)
Definition l4_manager_new {S A} (conv : S -> A) (cfg : gmap string (L4ServiceConfig S)) : gmap string (L4Service A) :=
  map_imap (fun name sc => l4_new name <$> (fmap conv <$> l4_load_balancer sc)) cfg.
Definition l4_get_service {A} (m : gmap string (L4Service A)) (name : string) : option (L4Service A) := m !! name.

(** The two protocols' routers. A datagram has no server name. *)
Definition tcp_from_config `{IpLib} := l4_from_config tcp_parse.
Definition udp_from_config `{IpLib} := l4_from_config udp_parse.
Definition match_datagram `{IpLib} (rt : L4Router) (ep : string) (client : option IpAddr) : option L4Route :=
  l4_match rt ep None client.

(** ** Rule texts *)
Lemma lower_length s : String.length (to_ascii_lowercase s) = String.length s.
Proof. induction s as [|c s IH]; [done|]. cbn. f_equal. exact IH. Qed.

Lemma inner_of_ascii n rule : is_ascii rule = true ->
  inner_of n rule = Panic <-> (String.length rule <= n)%nat /\ (0 < n)%nat.
Proof.
  intros Ha. unfold inner_of. destruct (Nat.leb_spec n (pred (String.length rule))) as [H|H].
  - rewrite !is_ascii_boundary by (done || lia). cbn. split; [done|lia].
  - cbn. split; [lia|done].
Qed.

Lemma prefix_length p s : starts_with p s = true -> (String.length p <= String.length s)%nat.
Proof. intros (r & ->)%starts_with_spec. rewrite str_length_app. lia. Qed.

(** A text that starts with [p] and is no longer than [p] is [p]. *)
Lemma prefix_exact p s : starts_with p s = true -> (String.length s <= String.length p)%nat -> s = p.
Proof.
  intros (r & ->)%starts_with_spec. rewrite str_length_app. intros H. destruct r; [apply str_app_nil_r|cbn in H; lia].
Qed.

Section RuleTexts.
Context `{IL : IpLib}.

Lemma parse_clientip_aborts rule : is_ascii rule = true ->
  parse_clientip rule = Panic <-> to_ascii_lowercase rule = "clientip(".
Proof.
  intros Ha. unfold parse_clientip, extract_clientip.
  destruct (starts_with "clientip(" (to_ascii_lowercase rule)) eqn:E; cbn [res_bind].
  - pose proof (inner_of_ascii 9 rule Ha) as Hi. pose proof (prefix_length _ _ E) as Hl. rewrite lower_length in Hl. cbn in Hl.
    destruct (inner_of 9 rule) as [inner|[]|]; cbn [res_bind].
    + split; [destruct (arg_list inner); [done|]; by destruct (omap _ _)|]. intros Hx.
      assert (Hlen : String.length rule = 9%nat) by (by rewrite <- lower_length, Hx). by specialize (proj2 Hi ltac:(lia)).
    + split; [|done]. intros _. apply prefix_exact; [done|]. rewrite lower_length. cbn. destruct (proj1 Hi eq_refl); lia.
  - split; [done|]. intros Hx. rewrite Hx in E. done.
Qed.

Lemma tcp_parse_aborts rule : is_ascii rule = true ->
  tcp_parse rule = Panic <-> to_ascii_lowercase (trim rule) = "hostsni(" \/ to_ascii_lowercase (trim rule) = "clientip(".
Proof.
  intros Ha. apply (trim_forall _ _) in Ha. unfold tcp_parse. set (r := trim rule) in *.
  case_bool_decide as Hc.
  { split; [done|]. destruct Hc as [-> | ->]; [by intros [?|?]|by intros [?|?]]. }
  unfold extract_hostsni. destruct (starts_with "hostsni(" (to_ascii_lowercase r)) eqn:E.
  - pose proof (inner_of_ascii 8 r Ha) as Hi. pose proof (prefix_length _ _ E) as Hl. rewrite lower_length in Hl. cbn in Hl.
    assert (Hcl : to_ascii_lowercase r <> "clientip(") by (intros Hx; rewrite Hx in E; done).
    destruct (inner_of 8 r) as [inner|[]|]; cbn [res_bind].
    + assert (Hh : to_ascii_lowercase r <> "hostsni(").
      { intros Hx. assert (Hlen : String.length r = 8%nat) by (by rewrite <- lower_length, Hx). by specialize (proj2 Hi ltac:(lia)). }
      destruct (filter _ _); [rewrite parse_clientip_aborts by done|]; split; (done || by intros [?|?]) || auto.
    + split; [|done]. intros _. left. apply prefix_exact; [done|]. rewrite lower_length. cbn. destruct (proj1 Hi eq_refl); lia.
  - cbn [res_bind]. rewrite parse_clientip_aborts by done. split; [auto|]. intros [Hx|Hx]; [rewrite Hx in E; done|done].
Qed.
End RuleTexts.

(** Rule texts: on ASCII text the TCP rule parser aborts exactly on an opened
    and unclosed [HostSNI(] or [ClientIP(] (any case, surrounding blanks
    ignored), and a text with neither prefix is accepted as a catch-all rule. *)
Theorem l4_rule_outcomes `{IpLib} rule :
  is_ascii rule = true ->
  (tcp_parse rule = Panic <->
     to_ascii_lowercase (trim rule) = "hostsni(" \/ to_ascii_lowercase (trim rule) = "clientip(") /\
  (starts_with "hostsni(" (to_ascii_lowercase (trim rule)) = false ->
   starts_with "clientip(" (to_ascii_lowercase (trim rule)) = false -> tcp_parse rule = Ok CatchAll).
Proof.
  intros Ha. split; [by apply tcp_parse_aborts|]. intros H1 H2.
  unfold tcp_parse, extract_hostsni, parse_clientip, extract_clientip. rewrite H1, H2. by case_bool_decide.
Qed.

(** Networks as address prefixes, for concrete runs. *)
Definition prefix_ip : IpLib :=
  {| IpAddr := string; IpNetwork := string; parse_addr := Some; show_addr s := s; parse_network := Some;
     single_host := Some; network_contains := starts_with |}.

Lemma l4_rule_outcomes_witness :
  @tcp_parse prefix_ip " HostSNI(" = Panic /\ @tcp_parse prefix_ip "!ClientIP(`10.`)" = Ok CatchAll.
Proof.
  split.
  - apply (@l4_rule_outcomes prefix_ip " HostSNI("); [reflexivity|left; vm_compute; reflexivity].
  - apply (@l4_rule_outcomes prefix_ip "!ClientIP(`10.`)"); reflexivity.
Defined.

Definition demo_tcp_routers : list (string * L4RouterConfig) :=
  [("any", {| l4_entry_points := []; l4_rule := "*"; l4_service := "s0"; l4_middlewares := []; l4_priority := 9; l4_tls_passthrough := None |});
   ("lan", {| l4_entry_points := ["tcp"]; l4_rule := "ClientIP(`10.`, `192.168.`)"; l4_service := "s1"; l4_middlewares := []; l4_priority := 1; l4_tls_passthrough := None |});
   ("sni", {| l4_entry_points := ["tcp"]; l4_rule := "HostSNI(`*.example.com`)"; l4_service := "s2"; l4_middlewares := []; l4_priority := 5; l4_tls_passthrough := Some true |})].

Lemma l4_match_spec_witness :
  exists rt r, @l4_from_config prefix_ip tcp_parse ["tcp"] demo_tcp_routers = Some rt /\
    l4_match rt "tcp" (Some "a.example.com") (Some "10.1.2.3") = Some r /\ rt_name r = "sni" /\
    serves_ep tcp_parse ["tcp"] demo_tcp_routers "tcp" r.
Proof.
  destruct (@l4_from_config prefix_ip tcp_parse ["tcp"] demo_tcp_routers) as [rt|] eqn:E; [|vm_compute in E; discriminate].
  pose proof (@l4_match_spec prefix_ip tcp_parse ["tcp"] demo_tcp_routers rt "tcp" (Some "a.example.com") (Some "10.1.2.3") E) as H.
  destruct (l4_match rt "tcp" (Some "a.example.com") (Some "10.1.2.3")) as [r|] eqn:Em.
  - exists rt, r. destruct H as (H1 & _ & _). split; [reflexivity|]. split; [exact Em|]. split; [|exact H1].
    vm_compute in E. injection E as <-. vm_compute in Em. by injection Em as <-.
  - vm_compute in E. injection E as <-. vm_compute in Em. discriminate.
Defined.
