(* ===== verification/Encoding.v ===== *)
(** * Bytes and their encodings

    What the middlewares that authenticate requests share: [String::from_utf8]
    (standard library, written out), the loop of the hand-written base64
    decoders, which occurs in the source once per alphabet, and the comparison of
    secrets. The decoder is proved against the encoding of RFC 4648 over any
    alphabet that satisfies [B64Alphabet]. *)
From S2P Require Import Prelude RustStr.
From stdpp Require Import list.
Open Scope Z_scope.
Open Scope list_scope.

(** ** UTF-8 *)
Definition in_range (lo hi : Z) (c : ascii) : bool := (lo <=? byte_of c) && (byte_of c <=? hi).
Definition cont (c : ascii) : bool := in_range 128 191 c.

(** [String::from_utf8(bytes).is_ok()] *)
Fixpoint utf8_valid (s : string) : bool :=
  match s with
  | EmptyString => true
  | String a s1 =>
      if in_range 0 127 a then utf8_valid s1
      else match s1 with
      | EmptyString => false
      | String b s2 =>
          if in_range 194 223 a then cont b && utf8_valid s2
          else match s2 with
          | EmptyString => false
          | String c s3 =>
              if in_range 224 239 a then
                (if byte_of a =? 224 then in_range 160 191 b else if byte_of a =? 237 then in_range 128 159 b else cont b) &&
                cont c && utf8_valid s3
              else match s3 with
              | EmptyString => false
              | String d s4 =>
                  in_range 240 244 a &&
                  (if byte_of a =? 240 then in_range 144 191 b else if byte_of a =? 244 then in_range 128 143 b else cont b) &&
                  cont c && cont d && utf8_valid s4
              end
          end
      end
  end.

(** ** Comparison in constant time *)
Fixpoint xor_loop (a b : string) (result : Z) : Z :=
  match a, b with
  | String x a', String y b' => xor_loop a' b' (Z.lor result (Z.lxor (byte_of x) (byte_of y)))
  | _, _ => result
  end.
Definition constant_time_compare (a b : string) : bool :=
  if negb (String.length a =? String.length b)%nat then false else xor_loop a b 0 =? 0.

(** [x as u8] *)
Definition as_u8 (x : Z) : ascii := ascii_of_nat (Z.to_nat (x mod 256)).

(** ** Lemmas on bytes *)
Lemma byte_of_range c : 0 <= byte_of c < 256.
Proof. unfold byte_of. pose proof (nat_ascii_bounded c). lia. Qed.

Lemma byte_of_inj a b : byte_of a = byte_of b -> a = b.
Proof. unfold byte_of. intros H%Nat2Z.inj. by rewrite <- (ascii_nat_embedding a), H, ascii_nat_embedding. Qed.

Lemma xor_loop_zero a : forall b r, String.length a = String.length b -> xor_loop a b r = 0 <-> r = 0 /\ a = b.
Proof.
  induction a as [|x a IH]; intros [|y b] r; cbn [xor_loop String.length]; [by intros _; intuition|done|done|].
  intros [= Hl]. rewrite IH by done. rewrite Z.lor_eq_0_iff, Z.lxor_eq_0_iff. split.
  - intros [[-> ->%byte_of_inj] ->]. done.
  - intros [-> [= -> ->]]. done.
Qed.

Lemma constant_time_compare_eq a b : constant_time_compare a b = bool_decide (a = b).
Proof.
  unfold constant_time_compare. destruct (Nat.eqb_spec (String.length a) (String.length b)) as [Hl|Hl]; cbn [negb].
  - apply eq_bool_prop_intro. rewrite bool_decide_spec, Is_true_true, Z.eqb_eq, xor_loop_zero by done. intuition.
  - symmetry. apply bool_decide_eq_false. by intros ->.
Qed.

Lemma land_3 b : 0 <= b -> Z.land b 3 = b mod 4.
Proof. intros. change 3 with (Z.ones 2). by rewrite Z.land_ones. Qed.
Lemma land_15 b : 0 <= b -> Z.land b 15 = b mod 16.
Proof. intros. change 15 with (Z.ones 4). by rewrite Z.land_ones. Qed.
Lemma land_63 b : 0 <= b -> Z.land b 63 = b mod 64.
Proof. intros. change 63 with (Z.ones 6). by rewrite Z.land_ones. Qed.

(** Low bits below a multiple of a power of two. *)
Lemma lor_low k x v : 0 <= k -> 0 <= v < 2 ^ k -> Z.lor (x * 2 ^ k) v = x * 2 ^ k + v.
Proof.
  intros Hk Hv. assert (Hl : Z.land (x * 2 ^ k) v = 0).
  { apply Z.bits_inj'. intros n Hn. rewrite Z.land_spec, Z.bits_0. destruct (Z.ltb_spec n k).
    - by rewrite Z.mul_pow2_bits_low.
    - rewrite <- (Z.mod_small v (2 ^ k)) by lia. by rewrite Z.mod_pow2_bits_high, andb_false_r by lia. }
  rewrite <- Z.lxor_lor by done. symmetry. by apply Z.add_nocarry_lxor.
Qed.

Lemma as_u8_byte x c : x mod 256 = byte_of c -> as_u8 x = c.
Proof.
  intros H. unfold as_u8. rewrite H. unfold byte_of. rewrite Nat2Z.id. apply ascii_nat_embedding.
Qed.

(** Induction three bytes at a time. *)
Lemma string_ind3 (P : string -> Prop) : P "" -> (forall a, P (String a "")) -> (forall a b, P (String a (String b ""))) ->
  (forall a b c s, P s -> P (String a (String b (String c s)))) -> forall s, P s.
Proof.
  intros H0 H1 H2 H3. fix IH 1. intros [|a [|b [|c s]]]; [exact H0|apply H1|apply H2|apply H3, IH].
Qed.

(** Quotients and remainders of one byte or two, by linear arithmetic. *)
Ltac byte_arith :=
  repeat match goal with |- context [byte_of ?c] => lazymatch goal with
    | H : 0 <= byte_of c < 256 |- _ => fail
    | |- _ => pose proof (byte_of_range c) end end;
  Z.to_euclidean_division_equations; lia.

Lemma strip_head_none c s : str_forall (fun d => negb (Ascii.eqb d c)) s = true -> strip_head c s = s.
Proof. destruct s as [|d s]; cbn; [done|]. by destruct (Ascii.eqb d c). Qed.

Lemma str_forall_rev p s : str_forall p (str_rev s) = str_forall p s.
Proof.
  induction s as [|c s IH]; [done|]. rewrite str_rev_cons, str_forall_app, IH. cbn. by rewrite andb_true_r, andb_comm.
Qed.

(** ** Base64 *)
Section Base64.
Context (alphabet : string).

Definition char_to_val (c : ascii) : option Z := Z.of_nat <$> find_byte c alphabet.

Fixpoint decode_loop (bytes : string) (buffer bits_collected : Z) : option string :=
  match bytes with
  | EmptyString => Some EmptyString
  | String byte bytes' =>
      val ← char_to_val byte;
      let buffer := Z.lor (wrap_u32 (Z.shiftl buffer 6)) val in
      let bits := bits_collected + 6 in
      if 8 <=? bits then
        let bits := bits - 8 in
        result ← decode_loop bytes' (Z.land buffer (Z.shiftl 1 bits - 1)) bits;
        Some (String (as_u8 (Z.shiftr buffer bits)) result)
      else decode_loop bytes' buffer bits
  end.

(** The encoding of RFC 4648. *)
Definition enc (v : Z) : ascii := default "A"%char (String.get (Z.to_nat v) alphabet).

Fixpoint b64_body (s : string) : string :=
  match s with
  | EmptyString => EmptyString
  | String a EmptyString => String (enc (byte_of a / 4)) (String (enc (byte_of a mod 4 * 16)) "")
  | String a (String b EmptyString) =>
      String (enc (byte_of a / 4)) (String (enc (byte_of a mod 4 * 16 + byte_of b / 16))
        (String (enc (byte_of b mod 16 * 4)) ""))
  | String a (String b (String c s')) =>
      String (enc (byte_of a / 4)) (String (enc (byte_of a mod 4 * 16 + byte_of b / 16))
        (String (enc (byte_of b mod 16 * 4 + byte_of c / 64)) (String (enc (byte_of c mod 64)) (b64_body s'))))
  end.

(** Padding to a multiple of four characters. *)
Definition b64_pad (s : string) : string :=
  match (String.length s mod 3)%nat with O => "" | 1%nat => "==" | _ => "=" end.
Definition base64_encode (s : string) : string := b64_body s +:+ b64_pad s.

Lemma b64_pad_three a b c s : b64_pad (String a (String b (String c s))) = b64_pad s.
Proof.
  unfold b64_pad. cbn [String.length]. replace (S (S (S (String.length s)))) with (String.length s + 1 * 3)%nat by lia.
  by rewrite Nat.Div0.mod_add.
Qed.

(** What the decoder needs of an alphabet. *)
Class B64Alphabet := {
  enc_val : forall v, 0 <= v < 64 -> char_to_val (enc v) = Some v;
  enc_not_pad : forall v, 0 <= v < 64 -> enc v <> "="%char;
}.

Context `{B64Alphabet}.
#[local] Set Default Proof Using "Type*".

Lemma decode_enc v rest buf bits : 0 <= v < 64 -> 0 <= buf < 64 -> 0 <= bits ->
  decode_loop (String (enc v) rest) buf bits =
    if 8 <=? bits + 6 then
      result ← decode_loop rest ((buf * 64 + v) mod 2 ^ (bits - 2)) (bits - 2);
      Some (String (as_u8 ((buf * 64 + v) / 2 ^ (bits - 2))) result)
    else decode_loop rest (buf * 64 + v) (bits + 6).
Proof.
  intros Hv Hb Hbits. cbn [decode_loop]. rewrite enc_val by done. cbn [mbind option_bind].
  assert (Hor : Z.lor (wrap_u32 (Z.shiftl buf 6)) v = buf * 64 + v).
  { rewrite Z.shiftl_mul_pow2 by lia. rewrite wrap_u32_id by word. by apply (lor_low 6).  }
  rewrite Hor. destruct (Z.leb_spec 8 (bits + 6)); [|done].
  replace (bits + 6 - 8) with (bits - 2) by lia.
  rewrite Z.shiftr_div_pow2 by lia. rewrite Z.shiftl_1_l.
  replace (2 ^ (bits - 2) - 1) with (Z.ones (bits - 2)) by (rewrite Z.ones_equiv; lia).
  by rewrite Z.land_ones by lia.
Qed.

(** Decode one character of an encoded text. *)
Ltac sextet :=
  rewrite decode_enc by byte_arith;
  match goal with |- context [8 <=? ?n] => let v := eval vm_compute in (8 <=? n) in change (8 <=? n) with v end; cbv iota.

Lemma decode_body s : decode_loop (b64_body s) 0 0 = Some s.
Proof.
  induction s as [|a|a b|a b c s IH] using string_ind3; cbn [b64_body].
  - done.
  - sextet. sextet. cbn [decode_loop mbind option_bind]. do 2 f_equal. apply as_u8_byte. byte_arith.
  - sextet. sextet. sextet. cbn [decode_loop mbind option_bind].
    f_equal. f_equal; [|f_equal]; apply as_u8_byte; byte_arith.
  - sextet. sextet. sextet. sextet. change (0 + 6 - 2 - 2 - 2) with 0. rewrite Z.pow_0_r, Z.mod_1_r, IH.
    cbn [mbind option_bind]. f_equal. f_equal; [|f_equal; [|f_equal]]; apply as_u8_byte; byte_arith.
Qed.

(** Every character of the body is one of the alphabet. *)
Lemma body_forall q s : (forall v, 0 <= v < 64 -> q (enc v) = true) -> str_forall q (b64_body s) = true.
Proof using Type.
  intros He. induction s as [|a|a b|a b c s IH] using string_ind3; cbn [b64_body str_forall]; [done| | |rewrite IH];
    rewrite !He by byte_arith; done.
Qed.

Lemma body_no_pad s : str_forall (fun c => negb (Ascii.eqb c "=")) (b64_body s) = true.
Proof.
  apply body_forall. intros v Hv. destruct (Ascii.eqb_spec (enc v) "="); [|done]. by destruct (enc_not_pad v Hv).
Qed.

(** A decoder drops the padding before its loop. *)
Lemma trim_encoded s : trim_end_matches "=" (base64_encode s) = b64_body s.
Proof.
  unfold base64_encode, trim_end_matches. rewrite str_rev_append.
  assert (Hp : strip_head "=" (str_rev (b64_pad s) +:+ str_rev (b64_body s)) = str_rev (b64_body s)).
  { assert (Hb := body_no_pad s). rewrite <- str_forall_rev in Hb.
    unfold b64_pad. destruct (String.length s mod 3)%nat as [|[|]]; cbn; by apply strip_head_none. }
  by rewrite Hp, str_rev_involutive.
Qed.

Lemma trim_body s : trim_end_matches "=" (b64_body s) = b64_body s.
Proof.
  unfold trim_end_matches. assert (Hb := body_no_pad s). rewrite <- str_forall_rev in Hb.
  by rewrite strip_head_none, str_rev_involutive.
Qed.

Lemma body_empty s : b64_body s = "" -> s = "".
Proof. intros He. pose proof (decode_body s) as Hd. rewrite He in Hd. cbn in Hd. congruence. Qed.
End Base64.

(** An alphabet of 64 characters is checked by running the decoder's table. *)
Lemma alphabet_check alphabet :
  forallb (fun k => bool_decide (char_to_val alphabet (enc alphabet (Z.of_nat k)) = Some (Z.of_nat k)) &&
                    negb (Ascii.eqb (enc alphabet (Z.of_nat k)) "=")) (seq 0 64) = true ->
  B64Alphabet alphabet.
Proof.
  rewrite forallb_forall. intros Hall.
  assert (Hv : forall v, 0 <= v < 64 -> char_to_val alphabet (enc alphabet v) = Some v /\ enc alphabet v <> "="%char).
  { intros v Hv. specialize (Hall (Z.to_nat v)). rewrite Z2Nat.id in Hall by lia.
    destruct (andb_prop _ _ (Hall ltac:(apply in_seq; lia))) as [H1 H2]. split; [by apply bool_decide_eq_true in H1|].
    intros He. by rewrite He in H2. }
  split; apply Hv.
Qed.
