(* ===== verification/Hash.v ===== *)
(** * Hash functions

    Models the hand-written hash functions of src/src/middleware/builtin/jwt.rs
    (SHA-256, the SHA-512 family and HMAC) and digest_auth.rs (MD5). Bytes and
    words are integers kept at their width; a message is the list of its bytes.
    SHA-256 and SHA-512 are two instances of one definition, [sha2], over the
    parameters in which the two routines of the source differ. *)
From S2P Require Import Prelude RustStr Encoding.
From stdpp Require Import list.
Open Scope Z_scope.
Open Scope list_scope.

(** ** Bytes and words *)
Definition bytes_of (s : string) : list Z := byte_of <$> String.list_ascii_of_string s.
Definition string_of (l : list Z) : string := String.string_of_list_ascii (as_u8 <$> l).

(** [from_be_bytes] and [to_be_bytes]; the little-endian ones reverse them. *)
Definition from_be_bytes (l : list Z) : Z := foldl (fun acc b => acc * 256 + b) 0 l.
Fixpoint to_be_bytes (n : nat) (x : Z) : list Z :=
  match n with
  | O => []
  | S n' => x / 256 ^ Z.of_nat n' mod 256 :: to_be_bytes n' x
  end.
Definition from_le_bytes (l : list Z) : Z := from_be_bytes (reverse l).
Definition to_le_bytes (n : nat) (x : Z) : list Z := reverse (to_be_bytes n x).

(** [slice.chunks(n)] for [n > 0]; the length is enough fuel. *)
Fixpoint chunks_loop {A} (fuel n : nat) (l : list A) : list (list A) :=
  match fuel, l with
  | S fuel', _ :: _ => take n l :: chunks_loop fuel' n (drop n l)
  | _, _ => []
  end.
Definition chunks {A} (n : nat) (l : list A) : list (list A) := chunks_loop (length l) n l.

(** ** Padding

    The three routines append 0x80, zeros until the length is [block - tail]
    modulo [block], and the length of the message in bits. *)
Fixpoint pad_loop (fuel block stop : nat) (padded : list Z) : list Z :=
  match fuel with
  | O => padded
  | S fuel' =>
      if (length padded mod block =? stop)%nat then padded else pad_loop fuel' block stop (padded ++ [0])
  end.
Definition pad (block tail : nat) (to_bytes : nat -> Z -> list Z) (message : list Z) : list Z :=
  pad_loop block block (block - tail) (message ++ [0x80]) ++
  to_bytes tail ((Z.of_nat (length message) * 8) mod 256 ^ Z.of_nat tail).

(** ** Words of [w] bits *)
Section Words.
Context (w : Z).
Definition wadd (x y : Z) : Z := (x + y) mod 2 ^ w. (* [wrapping_add] *)
Definition rotate_right (x n : Z) : Z := Z.lor (Z.shiftr x n) (Z.shiftl x (w - n) mod 2 ^ w).
Definition rotate_left (x n : Z) : Z := Z.lor (Z.shiftl x n mod 2 ^ w) (Z.shiftr x (w - n)).
Definition wnot (x : Z) : Z := 2 ^ w - 1 - x.
End Words.

(** ** SHA-2 *)
Record sha2_params := {
  bits : Z;                       (* width of a word *)
  K : list Z;                     (* round constants, one per round *)
  schedule0 : Z * Z * Z;          (* rotations and shift of [w[i-15]] *)
  schedule1 : Z * Z * Z;          (* ... of [w[i-2]] *)
  round1 : Z * Z * Z;             (* rotations of [e] *)
  round0 : Z * Z * Z;             (* rotations of [a] *)
}.

Section Sha2.
Context (p : sha2_params).

Definition word_bytes : nat := Z.to_nat (bits p / 8).
Definition block_bytes : nat := (16 * word_bytes)%nat.
#[local] Notation "x +w y" := (wadd (bits p) x y) (at level 50, left associativity).

Definition rot3 (r : Z * Z * Z) (x : Z) : Z :=
  let '(i, j, k) := r in
  Z.lxor (Z.lxor (rotate_right (bits p) x i) (rotate_right (bits p) x j)) (rotate_right (bits p) x k).
Definition rot2_shift (r : Z * Z * Z) (x : Z) : Z :=
  let '(i, j, k) := r in
  Z.lxor (Z.lxor (rotate_right (bits p) x i) (rotate_right (bits p) x j)) (Z.shiftr x k).

(** The message schedule: an array of zeros, filled from the chunk and then from
    its own earlier entries. *)
Definition load (chunk : list Z) : list Z :=
  let words := from_be_bytes <$> chunks word_bytes chunk in
  words ++ replicate (length (K p) - length words) 0.
Definition extend (w : list Z) (i : nat) : list Z :=
  let s0 := rot2_shift (schedule0 p) (w !!! (i - 15)%nat) in
  let s1 := rot2_shift (schedule1 p) (w !!! (i - 2)%nat) in
  <[i := w !!! (i - 16)%nat +w s0 +w w !!! (i - 7)%nat +w s1]> w.
Definition schedule (chunk : list Z) : list Z := foldl extend (load chunk) (seq 16 (length (K p) - 16)).

(** The working variables [a] to [hh]. *)
Definition regs : Type := Z * Z * Z * Z * Z * Z * Z * Z.

Definition round (w : list Z) (r : regs) (i : nat) : regs :=
  let '(a, b, c, d, e, f, g, hh) := r in
  let s1 := rot3 (round1 p) e in
  let ch := Z.lxor (Z.land e f) (Z.land (wnot (bits p) e) g) in
  let temp1 := hh +w s1 +w ch +w K p !!! i +w w !!! i in
  let s0 := rot3 (round0 p) a in
  let maj := Z.lxor (Z.lxor (Z.land a b) (Z.land a c)) (Z.land b c) in
  let temp2 := s0 +w maj in
  (temp1 +w temp2, a, b, c, d +w temp1, e, f, g).

Definition compress (h : regs) (chunk : list Z) : regs :=
  let w := schedule chunk in
  let '(a, b, c, d, e, f, g, hh) := foldl (round w) h (seq 0 (length (K p))) in
  let '(h0, h1, h2, h3, h4, h5, h6, h7) := h in
  (h0 +w a, h1 +w b, h2 +w c, h3 +w d, h4 +w e, h5 +w f, h6 +w g, h7 +w hh).

Definition digest (h : regs) : list Z :=
  let '(a, b, c, d, e, f, g, hh) := h in
  [a; b; c; d; e; f; g; hh] ≫= to_be_bytes word_bytes.

Definition sha2 (h : regs) (message : list Z) : list Z :=
  digest (foldl compress h (chunks block_bytes (pad block_bytes (2 * word_bytes) to_be_bytes message))).
End Sha2.

Definition sha256_params : sha2_params := {|
  bits := 32;
  K := concat [
   [0x428a2f98; 0x71374491; 0xb5c0fbcf; 0xe9b5dba5]; [0x3956c25b; 0x59f111f1; 0x923f82a4; 0xab1c5ed5];
   [0xd807aa98; 0x12835b01; 0x243185be; 0x550c7dc3]; [0x72be5d74; 0x80deb1fe; 0x9bdc06a7; 0xc19bf174];
   [0xe49b69c1; 0xefbe4786; 0x0fc19dc6; 0x240ca1cc]; [0x2de92c6f; 0x4a7484aa; 0x5cb0a9dc; 0x76f988da];
   [0x983e5152; 0xa831c66d; 0xb00327c8; 0xbf597fc7]; [0xc6e00bf3; 0xd5a79147; 0x06ca6351; 0x14292967];
   [0x27b70a85; 0x2e1b2138; 0x4d2c6dfc; 0x53380d13]; [0x650a7354; 0x766a0abb; 0x81c2c92e; 0x92722c85];
   [0xa2bfe8a1; 0xa81a664b; 0xc24b8b70; 0xc76c51a3]; [0xd192e819; 0xd6990624; 0xf40e3585; 0x106aa070];
   [0x19a4c116; 0x1e376c08; 0x2748774c; 0x34b0bcb5]; [0x391c0cb3; 0x4ed8aa4a; 0x5b9cca4f; 0x682e6ff3];
   [0x748f82ee; 0x78a5636f; 0x84c87814; 0x8cc70208]; [0x90befffa; 0xa4506ceb; 0xbef9a3f7; 0xc67178f2]];
  schedule0 := (7, 18, 3); schedule1 := (17, 19, 10);
  round1 := (6, 11, 25); round0 := (2, 13, 22) |}.
Definition sha256_init : regs :=
  (0x6a09e667, 0xbb67ae85, 0x3c6ef372, 0xa54ff53a, 0x510e527f, 0x9b05688c, 0x1f83d9ab, 0x5be0cd19).

Definition sha512_params : sha2_params := {|
  bits := 64;
  K := [
   0x428a2f98d728ae22; 0x7137449123ef65cd; 0xb5c0fbcfec4d3b2f; 0xe9b5dba58189dbbc;
   0x3956c25bf348b538; 0x59f111f1b605d019; 0x923f82a4af194f9b; 0xab1c5ed5da6d8118;
   0xd807aa98a3030242; 0x12835b0145706fbe; 0x243185be4ee4b28c; 0x550c7dc3d5ffb4e2;
   0x72be5d74f27b896f; 0x80deb1fe3b1696b1; 0x9bdc06a725c71235; 0xc19bf174cf692694;
   0xe49b69c19ef14ad2; 0xefbe4786384f25e3; 0x0fc19dc68b8cd5b5; 0x240ca1cc77ac9c65;
   0x2de92c6f592b0275; 0x4a7484aa6ea6e483; 0x5cb0a9dcbd41fbd4; 0x76f988da831153b5;
   0x983e5152ee66dfab; 0xa831c66d2db43210; 0xb00327c898fb213f; 0xbf597fc7beef0ee4;
   0xc6e00bf33da88fc2; 0xd5a79147930aa725; 0x06ca6351e003826f; 0x142929670a0e6e70;
   0x27b70a8546d22ffc; 0x2e1b21385c26c926; 0x4d2c6dfc5ac42aed; 0x53380d139d95b3df;
   0x650a73548baf63de; 0x766a0abb3c77b2a8; 0x81c2c92e47edaee6; 0x92722c851482353b;
   0xa2bfe8a14cf10364; 0xa81a664bbc423001; 0xc24b8b70d0f89791; 0xc76c51a30654be30;
   0xd192e819d6ef5218; 0xd69906245565a910; 0xf40e35855771202a; 0x106aa07032bbd1b8;
   0x19a4c116b8d2d0c8; 0x1e376c085141ab53; 0x2748774cdf8eeb99; 0x34b0bcb5e19b48a8;
   0x391c0cb3c5c95a63; 0x4ed8aa4ae3418acb; 0x5b9cca4f7763e373; 0x682e6ff3d6b2b8a3;
   0x748f82ee5defb2fc; 0x78a5636f43172f60; 0x84c87814a1f0ab72; 0x8cc702081a6439ec;
   0x90befffa23631e28; 0xa4506cebde82bde9; 0xbef9a3f7b2c67915; 0xc67178f2e372532b;
   0xca273eceea26619c; 0xd186b8c721c0c207; 0xeada7dd6cde0eb1e; 0xf57d4f7fee6ed178;
   0x06f067aa72176fba; 0x0a637dc5a2c898a6; 0x113f9804bef90dae; 0x1b710b35131c471b;
   0x28db77f523047d84; 0x32caab7b40c72493; 0x3c9ebe0a15c9bebc; 0x431d67c49c100d4c;
   0x4cc5d4becb3e42b6; 0x597f299cfc657e2a; 0x5fcb6fab3ad6faec; 0x6c44198c4a475817];
  schedule0 := (1, 8, 7); schedule1 := (19, 61, 6);
  round1 := (14, 18, 41); round0 := (28, 34, 39) |}.
Definition sha384_init : regs :=
  (0xcbbb9d5dc1059ed8, 0x629a292a367cd507, 0x9159015a3070dd17, 0x152fecd8f70e5939,
   0x67332667ffc00b31, 0x8eb44a8768581511, 0xdb0c2e0d64f98fa7, 0x47b5481dbefa4fa4).
Definition sha512_init : regs :=
  (0x6a09e667f3bcc908, 0xbb67ae8584caa73b, 0x3c6ef372fe94f82b, 0xa54ff53a5f1d36f1,
   0x510e527fade682d1, 0x9b05688c2b3e6c1f, 0x1f83d9abfb41bd6b, 0x5be0cd19137e2179).

Definition sha256 (message : list Z) : list Z := sha2 sha256_params sha256_init message.
Definition sha512_family (message : list Z) (is_384 : bool) : list Z :=
  let full := sha2 sha512_params (if is_384 then sha384_init else sha512_init) message in
  if is_384 then take 48 full else full.
Definition sha384 (message : list Z) : list Z := sha512_family message true.
Definition sha512 (message : list Z) : list Z := sha512_family message false.

(** ** HMAC *)

(** [resize] (of the list library) cuts or extends like [Vec::resize];
    [result[..hash_size]] aborts on a shorter digest. *)
Definition hmac {E} (key message : list Z) (hash_fn : list Z -> list Z) (block_size hash_size : nat) : result E (list Z) :=
  let key := if (block_size <? length key)%nat then hash_fn key else key in
  let key_padded := resize block_size 0 key in
  let i_key_pad := zip_with Z.lxor (replicate block_size 0x36) key_padded in
  let o_key_pad := zip_with Z.lxor (replicate block_size 0x5c) key_padded in
  let inner_hash := hash_fn (i_key_pad ++ message) in
  let result := hash_fn (o_key_pad ++ inner_hash) in
  if (hash_size <=? length result)%nat then Ok (take hash_size result) else Panic.

Definition hmac_sha256 {E} (key message : list Z) : result E (list Z) := hmac key message sha256 64 32.
Definition hmac_sha384 {E} (key message : list Z) : result E (list Z) := hmac key message sha384 128 48.
Definition hmac_sha512 {E} (key message : list Z) : result E (list Z) := hmac key message sha512 128 64.

(** ** MD5 *)
Module Md5.
Definition S : list Z := [
   7; 12; 17; 22; 7; 12; 17; 22; 7; 12; 17; 22; 7; 12; 17; 22;
   5; 9; 14; 20; 5; 9; 14; 20; 5; 9; 14; 20; 5; 9; 14; 20;
   4; 11; 16; 23; 4; 11; 16; 23; 4; 11; 16; 23; 4; 11; 16; 23;
   6; 10; 15; 21; 6; 10; 15; 21; 6; 10; 15; 21; 6; 10; 15; 21].
Definition K : list Z := [
   0xd76aa478; 0xe8c7b756; 0x242070db; 0xc1bdceee; 0xf57c0faf; 0x4787c62a; 0xa8304613; 0xfd469501;
   0x698098d8; 0x8b44f7af; 0xffff5bb1; 0x895cd7be; 0x6b901122; 0xfd987193; 0xa679438e; 0x49b40821;
   0xf61e2562; 0xc040b340; 0x265e5a51; 0xe9b6c7aa; 0xd62f105d; 0x02441453; 0xd8a1e681; 0xe7d3fbc8;
   0x21e1cde6; 0xc33707d6; 0xf4d50d87; 0x455a14ed; 0xa9e3e905; 0xfcefa3f8; 0x676f02d9; 0x8d2a4c8a;
   0xfffa3942; 0x8771f681; 0x6d9d6122; 0xfde5380c; 0xa4beea44; 0x4bdecfa9; 0xf6bb4b60; 0xbebfbc70;
   0x289b7ec6; 0xeaa127fa; 0xd4ef3085; 0x04881d05; 0xd9d4d039; 0xe6db99e5; 0x1fa27cf8; 0xc4ac5665;
   0xf4292244; 0x432aff97; 0xab9423a7; 0xfc93a039; 0x655b59c3; 0x8f0ccc92; 0xffeff47d; 0x85845dd1;
   0x6fa87e4f; 0xfe2ce6e0; 0xa3014314; 0x4e0811a1; 0xf7537e82; 0xbd3af235; 0x2ad7d2bb; 0xeb86d391].

Definition step (m : list Z) (r : Z * Z * Z * Z) (i : nat) : Z * Z * Z * Z :=
  let '(a, b, c, d) := r in
  let '(f, g) :=
    if (i <=? 15)%nat then (Z.lor (Z.land b c) (Z.land (wnot 32 b) d), i)
    else if (i <=? 31)%nat then (Z.lor (Z.land d b) (Z.land (wnot 32 d) c), ((5 * i + 1) mod 16)%nat)
    else if (i <=? 47)%nat then (Z.lxor (Z.lxor b c) d, ((3 * i + 5) mod 16)%nat)
    else (Z.lxor c (Z.lor b (wnot 32 d)), ((7 * i) mod 16)%nat) in
  let f := wadd 32 (wadd 32 (wadd 32 f a) (K !!! i)) (m !!! g) in
  (d, wadd 32 b (rotate_left 32 f (S !!! i)), b, c).

Definition chunk_step (h : Z * Z * Z * Z) (chunk : list Z) : Z * Z * Z * Z :=
  let m := from_le_bytes <$> chunks 4 chunk in
  let '(a, b, c, d) := foldl (step m) h (seq 0 64) in
  let '(a0, b0, c0, d0) := h in
  (wadd 32 a0 a, wadd 32 b0 b, wadd 32 c0 c, wadd 32 d0 d).

Definition md5_compute (message : list Z) : list Z :=
  let '(a0, b0, c0, d0) :=
    foldl chunk_step (0x67452301, 0xefcdab89, 0x98badcfe, 0x10325476) (chunks 64 (pad 64 8 to_le_bytes message)) in
  to_le_bytes 4 a0 ++ to_le_bytes 4 b0 ++ to_le_bytes 4 c0 ++ to_le_bytes 4 d0.
End Md5.

(** [format!("{:02x}", b)] of each byte *)
Definition hex_digit (n : Z) : ascii :=
  ascii_of_nat (Z.to_nat (if n <? 10 then n + 48 else n + 87)).
Definition hex_of (l : list Z) : string :=
  String.string_of_list_ascii (l ≫= fun b => [hex_digit (b / 16); hex_digit (b mod 16)]).
Definition md5_hex (input : string) : string := hex_of (Md5.md5_compute (bytes_of input)).
