(* ===== verification/HashProofs.v ===== *)
(** * Hash functions: padding, digests, constants

    The padding is whole blocks and injective, digests have their length and
    consist of bytes, HMAC never aborts, the in-place message schedule is the
    recurrence of FIPS 180-4, and the tables of constants are the roots of primes
    the standard prescribes. *)
From S2P Require Import Prelude RustStr Encoding Hash.
From stdpp Require Import list.
Open Scope Z_scope.
Open Scope list_scope.

(** ** Words as bytes *)
Definition is_byte (b : Z) : Prop := 0 <= b < 256.

Lemma to_be_bytes_length n x : length (to_be_bytes n x) = n.
Proof. induction n as [|n IH]; cbn; [done|]. by rewrite IH. Qed.

Lemma to_be_bytes_bytes n x : Forall is_byte (to_be_bytes n x).
Proof. induction n as [|n IH]; cbn [to_be_bytes]; constructor; [|done]. apply Z.mod_pos_bound. lia. Qed.

Lemma from_be_acc l : forall acc, foldl (fun acc b => acc * 256 + b) acc l = acc * 256 ^ Z.of_nat (length l) + from_be_bytes l.
Proof.
  unfold from_be_bytes. induction l as [|b l IH]; intros acc; cbn [foldl length]; [cbn; lia|].
  rewrite IH, (IH (0 * 256 + b)). rewrite Nat2Z.inj_succ, Z.pow_succ_r by lia. lia.
Qed.

Lemma from_to_be_bytes n x : from_be_bytes (to_be_bytes n x) = x mod 256 ^ Z.of_nat n.
Proof.
  induction n as [|n IH]; [cbn; by rewrite Z.mod_1_r|]. unfold from_be_bytes in *. cbn [to_be_bytes foldl].
  rewrite from_be_acc. unfold from_be_bytes. rewrite IH, to_be_bytes_length.
  rewrite Nat2Z.inj_succ, Z.pow_succ_r by lia. set (q := 256 ^ Z.of_nat n).
  assert (0 < q) by (apply Z.pow_pos_nonneg; lia). rewrite (Z.mul_comm 256 q), Z.rem_mul_r by lia. lia.
Qed.

(** Both byte orders write [n] bytes that determine the number. *)
Class ByteOrder (to_bytes : nat -> Z -> list Z) := {
  to_bytes_length : forall n x, length (to_bytes n x) = n;
  to_bytes_inj : forall n x y, 0 <= x < 256 ^ Z.of_nat n -> 0 <= y < 256 ^ Z.of_nat n -> to_bytes n x = to_bytes n y -> x = y;
}.

#[export] Instance be_order : ByteOrder to_be_bytes.
Proof.
  split; [apply to_be_bytes_length|]. intros n x y Hx Hy He%(f_equal from_be_bytes).
  rewrite !from_to_be_bytes, !Z.mod_small in He by done. done.
Qed.

#[export] Instance le_order : ByteOrder to_le_bytes.
Proof.
  split; unfold to_le_bytes; intros n x; [by rewrite length_reverse, to_be_bytes_length|].
  intros y Hx Hy He%(inj reverse). by apply (to_bytes_inj n).
Qed.

(** ** Chunks *)
Section Chunks.
Context {A : Type} (n : nat) (Hn : (0 < n)%nat).
#[local] Set Default Proof Using "Type*".

Lemma chunks_whole q : forall (l : list A) fuel, length l = (q * n)%nat -> (length l <= fuel)%nat ->
  Forall (fun c => length c = n) (chunks_loop fuel n l) /\ concat (chunks_loop fuel n l) = l /\ length (chunks_loop fuel n l) = q.
Proof.
  induction q as [|q IH]; intros l fuel Hl Hf.
  - apply nil_length_inv in Hl as ->. by destruct fuel.
  - destruct fuel as [|fuel]; [lia|]. destruct l as [|x l]; [cbn in Hl; lia|].
    set (l' := x :: l) in *. change (chunks_loop (S fuel) n l') with (take n l' :: chunks_loop fuel n (drop n l')).
    destruct (IH (drop n l') fuel) as (H1 & H2 & H3); [rewrite length_drop; lia|rewrite length_drop; lia|].
    split_and!; [constructor; [rewrite length_take; lia|done]| |cbn; by rewrite H3].
    cbn [concat]. by rewrite H2, take_drop.
Qed.
End Chunks.

(** ** Padding *)
Section Padding.
Context (blk tail : nat) (to_bytes : nat -> Z -> list Z) `{ByteOrder to_bytes} (Htail : (0 < tail <= blk)%nat).
#[local] Set Default Proof Using "Type*".

(** The loop ends within a block's worth of steps. *)
Lemma pad_loop_spec stop k : forall fuel l, (k <= fuel)%nat -> ((length l + k) mod blk = stop)%nat ->
  exists j, pad_loop fuel blk stop l = l ++ replicate j 0 /\ ((length l + j) mod blk = stop)%nat /\ (j <= k)%nat.
Proof.
  induction k as [|k IH]; intros fuel l Hf Hk.
  - exists 0%nat. rewrite Nat.add_0_r in Hk. cbn [replicate]. rewrite app_nil_r, Nat.add_0_r. split_and!; [|done|done].
    destruct fuel; cbn [pad_loop]; [done|]. by rewrite Hk, Nat.eqb_refl.
  - destruct fuel as [|fuel]; [lia|]. cbn [pad_loop]. destruct (Nat.eqb_spec (length l mod blk) stop) as [E|E].
    + exists 0%nat. cbn [replicate]. rewrite app_nil_r, Nat.add_0_r. split_and!; [done|done|lia].
    + destruct (IH fuel (l ++ [0])) as (j & H1 & H2 & H3); [lia|rewrite length_app; cbn; by rewrite <- Hk; f_equal; lia|].
      exists (Datatypes.S j). rewrite H1, <- app_assoc. split_and!; [done| |lia].
      rewrite <- H2, length_app. cbn. f_equal. lia.
Qed.

Lemma pad_form message : exists j,
  pad blk tail to_bytes message =
    message ++ [0x80] ++ replicate j 0 ++ to_bytes tail ((Z.of_nat (length message) * 8) mod 256 ^ Z.of_nat tail) /\
  ((length message + 1 + j + tail) mod blk = 0)%nat /\ (j < blk)%nat.
Proof.
  set (l := message ++ [0x80]). set (stop := (blk - tail)%nat).
  set (k := ((stop + (blk - length l mod blk)) mod blk)%nat).
  assert (Hb : (blk <> 0)%nat) by lia. assert (Hstop : (stop < blk)%nat) by (unfold stop; lia).
  pose proof (Nat.mod_upper_bound (length l) blk Hb) as Hm.
  assert (Hk : ((length l + k) mod blk = stop)%nat).
  { unfold k. rewrite Nat.Div0.add_mod_idemp_r, <- Nat.Div0.add_mod_idemp_l.
    replace (length l mod blk + (stop + (blk - length l mod blk)))%nat with (stop + 1 * blk)%nat by lia.
    rewrite Nat.Div0.mod_add. by apply Nat.mod_small. }
  assert (Hkb : (k < blk)%nat) by (apply Nat.mod_upper_bound; lia).
  destruct (pad_loop_spec stop k blk l ltac:(lia) Hk) as (j & H1 & H2 & H3).
  exists j. unfold pad. fold l stop. rewrite H1. unfold l in *. rewrite <- !app_assoc. split_and!; [done| |lia].
  rewrite length_app in H2. cbn [length] in H2.
  rewrite <- Nat.Div0.add_mod_idemp_l, H2. unfold stop. replace (blk - tail + tail)%nat with blk by lia. apply Nat.Div0.mod_same.
Qed.

Lemma pad_aligned message : exists q, length (pad blk tail to_bytes message) = (q * blk)%nat.
Proof.
  destruct (pad_form message) as (j & -> & Hm & _). apply Nat.Lcm0.mod_divide in Hm as [q Hq].
  exists q. rewrite <- Hq, !length_app, length_replicate, to_bytes_length. cbn. lia.
Qed.

Lemma pad_inj m1 m2 : Z.of_nat (length m1) * 8 < 256 ^ Z.of_nat tail -> Z.of_nat (length m2) * 8 < 256 ^ Z.of_nat tail ->
  pad blk tail to_bytes m1 = pad blk tail to_bytes m2 -> m1 = m2.
Proof.
  intros H1 H2. destruct (pad_form m1) as (j1 & -> & _ & _), (pad_form m2) as (j2 & -> & _ & _).
  rewrite !Z.mod_small by lia. intros He.
  assert (Hlen : to_bytes tail (Z.of_nat (length m1) * 8) = to_bytes tail (Z.of_nat (length m2) * 8)).
  { rewrite !app_assoc in He. eapply app_inj_2; [|exact He]. by rewrite !to_bytes_length. }
  apply to_bytes_inj in Hlen; [|lia..]. eapply app_inj_1 in He as [He _]; [done|lia].
Qed.
End Padding.

(** Padding. SHA-256 and MD5 (64-byte blocks, 8 bytes of length) and the
    SHA-512 family (128-byte blocks, 16 bytes of length): the padding loop ends,
    the padded message is whole blocks whose concatenation it is, at least the
    message and at most a block and the trailer longer, and two messages whose
    length in bits fits the trailer have the same padding only if they are equal. *)
Theorem hash_padding_injective (order : bool) m1 m2 :
  let check blk tail to_bytes :=
    (exists q, length (chunks blk (pad blk tail to_bytes m1)) = q /\ length (pad blk tail to_bytes m1) = (q * blk)%nat) /\
    Forall (fun c => length c = blk) (chunks blk (pad blk tail to_bytes m1)) /\
    concat (chunks blk (pad blk tail to_bytes m1)) = pad blk tail to_bytes m1 /\
    take (length m1) (pad blk tail to_bytes m1) = m1 /\
    (length (pad blk tail to_bytes m1) <= length m1 + blk + tail)%nat /\
    (Z.of_nat (length m1) * 8 < 256 ^ Z.of_nat tail -> Z.of_nat (length m2) * 8 < 256 ^ Z.of_nat tail ->
     pad blk tail to_bytes m1 = pad blk tail to_bytes m2 -> m1 = m2) in
  check 64%nat 8%nat (if order then to_be_bytes else to_le_bytes) /\ check 128%nat 16%nat to_be_bytes.
Proof.
  assert (Hgen : forall blk tail to_bytes `{ByteOrder to_bytes}, (0 < tail <= blk)%nat ->
    (exists q, length (chunks blk (pad blk tail to_bytes m1)) = q /\ length (pad blk tail to_bytes m1) = (q * blk)%nat) /\
    Forall (fun c => length c = blk) (chunks blk (pad blk tail to_bytes m1)) /\
    concat (chunks blk (pad blk tail to_bytes m1)) = pad blk tail to_bytes m1 /\
    take (length m1) (pad blk tail to_bytes m1) = m1 /\
    (length (pad blk tail to_bytes m1) <= length m1 + blk + tail)%nat).
  { intros blk tail to_bytes HB Ht. destruct (pad_aligned blk tail to_bytes Ht m1) as [q Hq].
    destruct (chunks_whole blk ltac:(lia) q _ _ Hq (le_n _)) as (H1 & H2 & H3).
    split_and!; [by exists q|done|done| |];
      destruct (pad_form blk tail to_bytes Ht m1) as (j & -> & _ & Hj); [by rewrite take_app_length|].
    rewrite !length_app, length_replicate, to_bytes_length. cbn. lia. }
  cbn zeta. split.
  - assert (ByteOrder (if order then to_be_bytes else to_le_bytes)) by (destruct order; apply _).
    assert (H0 := Hgen 64%nat 8%nat (if order then to_be_bytes else to_le_bytes) _ ltac:(lia)).
    split_and!; [apply H0..|]. apply pad_inj; [done|lia].
  - assert (H := Hgen 128%nat 16%nat to_be_bytes _ ltac:(lia)).
    split_and!; [apply H..|]. apply pad_inj; [apply _|lia].
Qed.

Lemma hash_padding_injective_witness :
  bytes_of "ab" = [97; 98] /\ pad 64 8 to_be_bytes [97; 98] <> pad 64 8 to_be_bytes [97; 98; 128].
Proof.
  split; [vm_compute; reflexivity|]. intros He.
  destruct (hash_padding_injective true [97; 98] [97; 98; 128]) as [(_ & _ & _ & _ & _ & Hi) _].
  specialize (Hi ltac:(cbn; lia) ltac:(cbn; lia) He). discriminate.
Defined.

(** ** Digests *)
Lemma digest_length p h : length (digest p h) = (8 * word_bytes p)%nat.
Proof. destruct h as [[[[[[[a b] c] d] e] f] g] hh]. cbn [digest mbind list_bind]. rewrite !length_app, !to_be_bytes_length. cbn [length]. lia. Qed.

Lemma digest_bytes p h : Forall is_byte (digest p h).
Proof.
  destruct h as [[[[[[[a b] c] d] e] f] g] hh]. cbn [digest]. apply Forall_forall. intros x (y & Hx & _)%list_elem_of_bind.
  pose proof (to_be_bytes_bytes (word_bytes p) y) as HF. rewrite Forall_forall in HF. by apply HF.
Qed.

Lemma sha256_length m : length (sha256 m) = 32%nat.
Proof. apply digest_length. Qed.
Lemma sha512_length m : length (sha512 m) = 64%nat.
Proof. apply digest_length. Qed.
Lemma sha384_length m : length (sha384 m) = 48%nat.
Proof. unfold sha384, sha512_family. rewrite length_take. unfold sha2. by rewrite digest_length. Qed.

Lemma sha512_family_bytes m b : Forall is_byte (sha512_family m b).
Proof. unfold sha512_family. destruct b; [apply Forall_take|]; apply digest_bytes. Qed.

Create HintDb hash.
#[export] Hint Resolve sha256_length sha384_length sha512_length : hash.

(** ** HMAC *)
(** The two padded keys, entry by entry. *)
Lemma pad_xor n c l : zip_with Z.lxor (replicate n c) (resize n 0 l) = Z.lxor c <$> resize n 0 l.
Proof.
  pose proof (length_resize l n 0) as Hl. revert Hl. generalize (resize n 0 l). clear l.
  induction n as [|n IH]; intros [|x l] Hl; cbn in *; try done. by rewrite IH by lia.
Qed.

(** The construction of RFC 2104, for a key that is first brought to the size of
    a block. *)
Definition hmac_spec (H : list Z -> list Z) (blk : nat) (key message : list Z) : list Z :=
  let k0 := (if decide (length key <= blk)%nat then key else H key) in
  let k := k0 ++ replicate (blk - length k0) 0 in
  H ((Z.lxor 0x5c <$> k) ++ H ((Z.lxor 0x36 <$> k) ++ message)).

Lemma hmac_eq {E} H blk n key message : (forall m, length (H m) = n) -> (n <= blk)%nat ->
  @hmac E key message H blk n = Ok (hmac_spec H blk key message).
Proof.
  intros HH Hn. unfold hmac, hmac_spec. rewrite !pad_xor, !HH, Nat.leb_refl. f_equal.
  rewrite (take_ge (H _)) by by rewrite HH.
  assert (Hk : resize blk 0 (if (blk <? length key)%nat then H key else key) =
    (if decide (length key <= blk)%nat then key else H key) ++
    replicate (blk - length (if decide (length key <= blk)%nat then key else H key)) 0).
  { destruct (Nat.ltb_spec blk (length key)); [rewrite decide_False by lia|rewrite decide_True by lia];
      apply resize_ge; rewrite ?HH; lia. }
  by rewrite Hk.
Qed.

(** HMAC. Whatever the key and the message, the three HMAC routines return
    (their final slice never aborts) the value of RFC 2104 over the respective
    hash function, and it consists of 32, 48 and 64 bytes. *)
Theorem hmac_rfc2104 (key message : list Z) :
  hmac_sha256 (E := Empty_set) key message = Ok (hmac_spec sha256 64 key message) /\
  hmac_sha384 (E := Empty_set) key message = Ok (hmac_spec sha384 128 key message) /\
  hmac_sha512 (E := Empty_set) key message = Ok (hmac_spec sha512 128 key message) /\
  length (hmac_spec sha256 64 key message) = 32%nat /\ length (hmac_spec sha384 128 key message) = 48%nat /\
  length (hmac_spec sha512 128 key message) = 64%nat /\
  Forall is_byte (hmac_spec sha256 64 key message) /\ Forall is_byte (hmac_spec sha384 128 key message) /\
  Forall is_byte (hmac_spec sha512 128 key message).
Proof.
  split_and!; try (apply hmac_eq; [auto with hash|lia]); try (unfold hmac_spec; auto with hash; fail).
  - apply digest_bytes.
  - apply sha512_family_bytes.
  - apply sha512_family_bytes.
Qed.

(** ** The message schedule *)
Section Schedule.
Context (p : sha2_params).
#[local] Notation "x +w y" := (wadd (bits p) x y) (at level 50, left associativity).

Definition recurrence (w : list Z) (i : nat) : Z :=
  w !!! (i - 16)%nat +w rot2_shift p (schedule0 p) (w !!! (i - 15)%nat) +w w !!! (i - 7)%nat +w
  rot2_shift p (schedule1 p) (w !!! (i - 2)%nat).

Lemma extend_lookup w i j : j <> i -> extend p w i !!! j = w !!! j.
Proof. intros. unfold extend. by rewrite list_lookup_total_insert_ne. Qed.

Lemma extend_steps n : forall k w, (16 <= k)%nat -> length w = (k + n)%nat ->
  (forall i, (16 <= i < k)%nat -> w !!! i = recurrence w i) ->
  let w' := foldl (extend p) w (seq k n) in
  length w' = (k + n)%nat /\ (forall i, (i < k)%nat -> w' !!! i = w !!! i) /\
  (forall i, (16 <= i < k + n)%nat -> w' !!! i = recurrence w' i).
Proof.
  induction n as [|n IH]; intros k w Hk Hl Hw; cbn [seq foldl]; [split_and!; [done|done|]; intros i Hi; apply Hw; lia|].
  destruct (IH (S k) (extend p w k)) as (H1 & H2 & H3).
  - lia.
  - unfold extend. rewrite length_insert. lia.
  - intros i Hi. assert (Hr : recurrence (extend p w k) i = recurrence w i).
    { unfold recurrence. by rewrite !extend_lookup by lia. }
    rewrite Hr. destruct (decide (i = k)) as [->|Hne]; [|rewrite extend_lookup by done; apply Hw; lia].
    unfold extend. by rewrite list_lookup_total_insert_eq by lia.
  - split_and!; [lia| |].
    + intros i Hi. rewrite H2 by lia. apply extend_lookup. lia.
    + intros i Hi. apply H3. lia.
Qed.

Lemma load_lookup chunk : (16 <= length (K p))%nat -> (0 < word_bytes p)%nat -> length chunk = block_bytes p ->
  length (load p chunk) = length (K p) /\ forall i, (i < 16)%nat -> load p chunk !!! i = from_be_bytes (chunks (word_bytes p) chunk !!! i).
Proof.
  intros HK Hw Hc. destruct (chunks_whole (word_bytes p) Hw 16 chunk (length chunk)) as (_ & _ & Hl); [done|done|].
  fold (chunks (word_bytes p) chunk) in Hl. unfold load. split.
  - rewrite length_app, length_replicate, length_fmap. lia.
  - intros i Hi. rewrite lookup_total_app_l by (rewrite length_fmap; lia). apply list_lookup_total_fmap. lia.
Qed.

Lemma schedule_spec chunk : (16 <= length (K p))%nat -> (0 < word_bytes p)%nat -> length chunk = block_bytes p ->
  length (schedule p chunk) = length (K p) /\
  (forall i, (i < 16)%nat -> schedule p chunk !!! i = from_be_bytes (chunks (word_bytes p) chunk !!! i)) /\
  (forall i, (16 <= i < length (K p))%nat -> schedule p chunk !!! i = recurrence (schedule p chunk) i).
Proof.
  intros HK Hw Hc. destruct (load_lookup chunk HK Hw Hc) as [Hl Hi].
  destruct (extend_steps (length (K p) - 16) 16 (load p chunk)) as (H1 & H2 & H3); [lia|lia|intros; lia|].
  replace (16 + (length (K p) - 16))%nat with (length (K p)) in * by lia. unfold schedule. split_and!; [done| |done].
  intros i Hlt. rewrite H2 by lia. by apply Hi.
Qed.
End Schedule.

(** The message schedules, computed in place, are those of FIPS 180-4: the
    first sixteen entries are the big-endian words of the chunk, and every later
    entry is the recurrence over the entries 2, 7, 15 and 16 places before it. *)
Theorem sha2_schedule_recurrence chunk256 chunk512 :
  length chunk256 = 64%nat -> length chunk512 = 128%nat ->
  let w := schedule sha256_params chunk256 in
  let v := schedule sha512_params chunk512 in
  length w = 64%nat /\ length v = 80%nat /\
  (forall i, (i < 16)%nat -> w !!! i = from_be_bytes (chunks 4 chunk256 !!! i) /\ v !!! i = from_be_bytes (chunks 8 chunk512 !!! i)) /\
  (forall i, (16 <= i < 64)%nat -> w !!! i = recurrence sha256_params w i) /\
  (forall i, (16 <= i < 80)%nat -> v !!! i = recurrence sha512_params v i).
Proof.
  intros H1 H2. cbn zeta.
  destruct (schedule_spec sha256_params chunk256) as (L1 & A1 & B1); [cbn; lia|vm_compute; lia|done|].
  destruct (schedule_spec sha512_params chunk512) as (L2 & A2 & B2); [cbn; lia|vm_compute; lia|done|].
  split_and!; try done. intros i Hi. split; [by apply A1|by apply A2].
Qed.

Lemma sha2_schedule_recurrence_witness :
  schedule sha256_params (replicate 64 1) !!! 16%nat = recurrence sha256_params (schedule sha256_params (replicate 64 1)) 16.
Proof.
  destruct (sha2_schedule_recurrence (replicate 64 1) (replicate 128 1) eq_refl eq_refl) as (_ & _ & _ & H & _).
  apply H. lia.
Defined.

(** ** Constants *)
Definition primes : list Z :=
  List.filter (fun n => forallb (fun d => negb (n mod d =? 0)) (Z.of_nat <$> seq 2 (Z.to_nat n - 2))) (Z.of_nat <$> seq 2 408).

(** [k] is the first [w] bits of the fractional part of the [e]-th root of [n]. *)
Definition root_fraction (e w n k : Z) : Prop :=
  0 <= k < 2 ^ w /\ exists c, let r := c * 2 ^ w + k in 0 <= c /\ r ^ e <= n * 2 ^ (e * w) < (r + 1) ^ e.

Definition root_check (e w n k : Z) : bool :=
  (0 <=? k) && (k <? 2 ^ w) &&
  existsb (fun c => let r := c * 2 ^ w + k in (r ^ e <=? n * 2 ^ (e * w)) && (n * 2 ^ (e * w) <? (r + 1) ^ e)) (Z.of_nat <$> seq 0 21).

Lemma root_check_sound e w n k : root_check e w n k = true -> root_fraction e w n k.
Proof.
  unfold root_check. rewrite !andb_true_iff, Z.leb_le, Z.ltb_lt, existsb_exists. intros [[Hl Hu] (c & Hc & Hr)].
  rewrite andb_true_iff, Z.leb_le, Z.ltb_lt in Hr. split; [done|]. exists c. split; [|exact Hr].
  apply list_elem_of_In, list_elem_of_fmap in Hc as (m & -> & _). lia.
Qed.

Lemma roots_check e w ns ks : length ns = length ks -> forallb (fun x => root_check e w x.1 x.2) (zip ns ks) = true ->
  Forall2 (root_fraction e w) ns ks.
Proof.
  revert ks. induction ns as [|n ns IH]; intros [|k ks]; cbn [length zip zip_with forallb fst snd];
    [by constructor|done|done|]. rewrite andb_true_iff. intros [= Hl] [Hc Hr].
  constructor; [by apply root_check_sound|by apply IH].
Qed.

Definition regs_list (r : regs) : list Z :=
  let '(a, b, c, d, e, f, g, h) := r in [a; b; c; d; e; f; g; h].

(** The constants are those of FIPS 180-4, recomputed: the round constants
    are the first 32 (64) bits of the fractional parts of the cube roots of the
    first 64 (80) primes, and the initial values those of the square roots of the
    first eight primes, for SHA-384 of the ninth to sixteenth. *)
Theorem sha2_constants :
  Forall2 (root_fraction 3 32) (take 64 primes) (K sha256_params) /\
  Forall2 (root_fraction 3 64) primes (K sha512_params) /\
  Forall2 (root_fraction 2 32) (take 8 primes) (regs_list sha256_init) /\
  Forall2 (root_fraction 2 64) (take 8 primes) (regs_list sha512_init) /\
  Forall2 (root_fraction 2 64) (take 8 (drop 8 primes)) (regs_list sha384_init).
Proof. split_and!; apply roots_check; vm_compute; reflexivity. Qed.

(** Published test vectors (FIPS 180-4, RFC 1321, RFC 4231). *)
Example sha2_vectors :
  hex_of (sha256 (bytes_of "abc")) = "ba7816bf8f01cfea414140de5dae2223b00361a396177a9cb410ff61f20015ad" /\
  hex_of (sha256 (bytes_of "abcdbcdecdefdefgefghfghighijhijkijkljklmklmnlmnomnopnopq")) =
    "248d6a61d20638b8e5c026930c3e6039a33ce45964ff2167f6ecedd419db06c1" /\
  hex_of (sha384 (bytes_of "abc")) =
    "cb00753f45a35e8bb5a03d699ac65007272c32ab0eded1631a8b605a43ff5bed8086072ba1e7cc2358baeca134c825a7" /\
  hex_of (sha512 (bytes_of "abc")) =
    "ddaf35a193617abacc417349ae20413112e6fa4e89a97ea20a9eeee64b55d39a2192992a274fc1a836ba3c23a3feebbd454d4423643ce80e2a9ac94fa54ca49f".
Proof. vm_compute. auto. Qed.

Example hmac_vector :
  res_map hex_of (hmac_sha256 (E := Empty_set) (bytes_of "Jefe") (bytes_of "what do ya want for nothing?")) =
    Ok "5bdcc146bf60754e6a042426089575c75a003f089d2739839dec58b964ec3843".
Proof. vm_compute. reflexivity. Qed.

Example md5_vectors :
  md5_hex "" = "d41d8cd98f00b204e9800998ecf8427e" /\ md5_hex "a" = "0cc175b9c0f1b6a831c399e269772661" /\
  md5_hex "abc" = "900150983cd24fb0d6963f7d28e17f72" /\ md5_hex "message digest" = "f96b697d7cb7938d525a2f31aaf161d0".
Proof. vm_compute. auto. Qed.
