(* ===== verification/Http.v ===== *)
(** * Requests, responses and header maps

    The types of the [http] crate the middlewares work on. Header maps are the
    interface [HttpOps] (an extension of [HttpLib] of [Rule]) and URIs the
    interface [UriLib], each with the documented laws the theorems use. Header
    names are in lower case, the form the header map stores. *)
From S2P Require Import Prelude RustStr Rule Net.
From stdpp Require Import list.
Open Scope Z_scope.
Open Scope list_scope.
#[local] Set Default Proof Using "Type*".

Class HttpOps := {
  ops_http :: HttpLib;
  hm_empty : HeaderMap;
  hm_insert : string -> HeaderValue -> HeaderMap -> HeaderMap; (* replaces all values *)
  hm_remove : string -> HeaderMap -> HeaderMap;
  hv_from_str : string -> option HeaderValue; (* [HeaderValue::from_str(s).ok()] *)
  header_name : string -> option string; (* [HeaderName::try_from(s).ok()] *)
}.

Class HttpLaws `{HttpOps} := {
  get_empty : forall k, hm_get hm_empty k = None;
  get_insert : forall k k' v h, hm_get (hm_insert k v h) k' = if decide (k = k') then Some v else hm_get h k';
  get_remove : forall k k' h, hm_get (hm_remove k h) k' = if decide (k = k') then None else hm_get h k';
  from_visible : forall s, str_forall visible_byte s = true -> exists v, hv_from_str s = Some v /\ hv_to_str v = Some s;
  to_str_visible : forall v s, hv_to_str v = Some s -> str_forall visible_byte s = true;
}.

Section Maps.
Context `{HL : HttpLaws}.

Lemma get_insert_eq k v h : hm_get (hm_insert k v h) k = Some v.
Proof. rewrite get_insert. by rewrite decide_True. Qed.
Lemma get_insert_ne k k' v h : k <> k' -> hm_get (hm_insert k v h) k' = hm_get h k'.
Proof. intros. rewrite get_insert. by rewrite decide_False. Qed.

(** [headers.remove(name)] for each name of a list. *)
Definition remove_all (ks : list string) (h : HeaderMap) : HeaderMap := foldl (fun h k => hm_remove k h) h ks.

Lemma get_remove_all ks : forall k h, hm_get (remove_all ks h) k = if decide (k ∈ ks) then None else hm_get h k.
Proof.
  unfold remove_all. induction ks as [|k0 ks IH]; intros k h; cbn [foldl]; [by rewrite decide_False by apply not_elem_of_nil|].
  rewrite IH, get_remove. destruct (decide (k ∈ ks)) as [Hin|Hni].
  - by rewrite decide_True by by right.
  - destruct (decide (k0 = k)) as [->|Hne]; [by rewrite decide_True by left|].
    rewrite decide_False; [done|]. intros [?|?]%elem_of_cons; congruence.
Qed.
End Maps.

(** ** A concrete header map, for runs

    Header values are texts of visible ASCII characters, spaces, tabs and bytes
    from 128 on; [to_str] succeeds without the latter. *)
Definition value_byte (c : ascii) : bool := visible_byte c || (128 <=? byte_of c).

Definition text_value := { s : string | str_forall value_byte s = true }.

Definition to_value (s : string) : option text_value :=
  match decide (str_forall value_byte s = true) with left p => Some (s ↾ p) | right _ => None end.
Definition of_value (v : text_value) : option string := if str_forall visible_byte (`v) then Some (`v) else None.

Definition map_http : HttpOps :=
  {| ops_http := {| HeaderMap := gmap string text_value; HeaderValue := text_value; hm_get h k := h !! k; hv_to_str := of_value |};
     hm_empty := ∅ : gmap string text_value;
     hm_insert k v h := <[k := v]> h;
     hm_remove k h := delete k h;
     hv_from_str := to_value;
     header_name s := Some (to_ascii_lowercase s) |}.

#[export] Instance map_http_laws : @HttpLaws map_http.
Proof.
  split; cbn [map_http ops_http HeaderMap HeaderValue hm_get hv_to_str hm_empty hm_insert hm_remove hv_from_str].
  - done.
  - intros k k' v h. apply lookup_insert.
  - intros k k' h. apply lookup_delete.
  - unfold to_value, of_value. intros s Hs. destruct (decide (str_forall value_byte s = true)) as [Hv|Hv].
    + exists (s ↾ Hv). cbn [proj1_sig]. by rewrite Hs.
    + destruct Hv. revert Hs. induction s as [|c s IH]; cbn; [done|]. unfold value_byte at 1.
      intros [-> H]%andb_prop. by rewrite (IH H).
  - unfold of_value. intros [s Hs] t. cbn [proj1_sig]. destruct (str_forall visible_byte s) eqn:Ha; [|done]. by intros [= <-].
Qed.

(** ** URIs *)
Class UriLib := {
  Uri : Type;
  uri_scheme : Uri -> option string;
  uri_authority : Uri -> option string;
  uri_path : Uri -> string;
  uri_query : Uri -> option string;
  uri_path_and_query : Uri -> option string;
  (** [Uri::builder()] with the given parts and [build().ok()] *)
  uri_build : option string -> option string -> string -> option Uri;
}.

(** A built URI has the parts it was built from: the path ends at the first
    question mark, and nothing is cut off unless there is a [#]. *)
Class UriLaws `{UriLib} := {
  build_scheme : forall s a pq u, uri_build s a pq = Some u -> uri_scheme u = s;
  build_authority : forall s a pq u, uri_build s a pq = Some u -> uri_authority u = a;
  build_path : forall s a pq u, uri_build s a pq = Some u -> str_forall (fun c => negb (Ascii.eqb c "#")) pq = true ->
    starts_with "/" pq = true ->
    (uri_path u, uri_query u) = match split_once "?" pq with Some (p, q) => (p, Some q) | None => (pq, None) end;
}.

(** ** Messages *)
Record RequestContext `{IpLib} := { remote_addr : IpAddr; is_tls : bool }.

Record Request `{HttpOps} `{UriLib} `{IpLib} := {
  rq_method : string;
  rq_uri : Uri;
  rq_headers : HeaderMap;
  rq_context : option RequestContext; (* request extension *)
}.

(** Locally produced bodies are texts; those of backends are streamed. *)
Inductive Body := Text (s : string) | Streamed.

Record Response `{HttpOps} := {
  rs_status : Z;
  rs_headers : HeaderMap;
  rs_body : Body;
}.

Section Messages.
Context `{HO : HttpOps} `{UL : UriLib} `{IL : IpLib}.

Definition with_headers (h : HeaderMap) (r : Request) : Request :=
  {| rq_method := rq_method r; rq_uri := rq_uri r; rq_headers := h; rq_context := rq_context r |}.
Definition with_uri (u : Uri) (r : Request) : Request :=
  {| rq_method := rq_method r; rq_uri := u; rq_headers := rq_headers r; rq_context := rq_context r |}.
Definition with_rs_headers (h : HeaderMap) (r : Response) : Response :=
  {| rs_status := rs_status r; rs_headers := h; rs_body := rs_body r |}.

(** [Response::builder().header(name, text)]: an illegal text makes the later
    [unwrap] abort. *)
Definition build_header {E} (k s : string) (h : HeaderMap) : result E HeaderMap :=
  match hv_from_str s with Some v => Ok (hm_insert k v h) | None => Panic end.

(** [get(name).and_then(|v| v.to_str().ok())] *)
Definition header_text (h : HeaderMap) (k : string) : option string := v ← hm_get h k; hv_to_str v.
End Messages.

(** ** Concrete URIs, for runs: scheme, authority, path and query *)
Definition text_uri : UriLib :=
  {| Uri := option string * option string * string;
     uri_scheme u := u.1.1;
     uri_authority u := u.1.2;
     uri_path u := match split_once "?" u.2 with Some (p, _) => p | None => u.2 end;
     uri_query u := snd <$> split_once "?" u.2;
     uri_path_and_query u := Some u.2;
     uri_build s a pq := if starts_with "/" pq then Some (s, a, pq) else None |}.

#[export] Instance text_uri_laws : @UriLaws text_uri.
Proof.
  split; cbn [text_uri uri_scheme uri_authority uri_path uri_query uri_build]; intros s a pq u.
  - destruct (starts_with _ _); [|done]. by intros [= <-].
  - destruct (starts_with _ _); [|done]. by intros [= <-].
  - destruct (starts_with _ _); [|done]. intros [= <-] _ _. cbn [snd]. by destruct (split_once "?" pq) as [[]|].
Qed.
