(* ===== verification/Middleware.v ===== *)
(** * Middlewares: IP filters, headers, CORS, scheme redirection and paths

    Models, of src/src/middleware/builtin/, ip_filter.rs, headers.rs, cors.rs,
    redirect_scheme.rs and path.rs. A configuration's hash map of headers is the
    list of its entries in iteration order. Texts that Rust lower-cases by
    Unicode rules (schemes, header names) are taken as ASCII. *)
From S2P Require Import Prelude RustStr Rule Net Http.
From stdpp Require Import list pretty.
Open Scope Z_scope.
Open Scope list_scope.
#[local] Set Default Proof Using "Type*".

(** [s.join(sep)] *)
Fixpoint join (sep : string) (l : list string) : string :=
  match l with
  | [] => ""
  | [s] => s
  | s :: l' => s +:+ sep +:+ join sep l'
  end.

(** ** IP filters *)
Module IpFilter.
Section IpFilter.
Context `{IL : IpLib}.

Record IpStrategy := { depth : Z (* u32 *); excluded_ips : list string }.

Definition parse_network (s : string) : option IpNetwork :=
  match Net.parse_network s with
  | Some network => Some network
  | None => ip ← parse_addr s; single_host ip
  end.

(** Both filters: [ip_strategy], ranges and excluded networks. *)
Record t := {
  source_range : list IpNetwork;
  ip_strategy : option IpStrategy;
  excluded_networks : list IpNetwork;
  reject_status_code : Z; (* u16; only the allowlist's is configurable *)
}.

Definition new (ranges : list string) (strategy : option IpStrategy) (reject : option Z) : t :=
  {| source_range := omap parse_network ranges;
     ip_strategy := strategy;
     excluded_networks := from_option (fun s => omap parse_network (excluded_ips s)) [] strategy;
     reject_status_code := default 403 reject |}.

Definition in_range (f : t) (ip : IpAddr) : bool := existsb (fun n => network_contains n ip) (source_range f).

Definition is_allowed (f : t) (ip : IpAddr) : bool :=
  match source_range f with [] => true | _ => in_range f ip end.
Definition is_denied (f : t) (ip : IpAddr) : bool := in_range f ip.
Definition has_rules (f : t) : bool := match source_range f with [] => false | _ => true end.

Definition get_client_ip (f : t) (forwarded_for : option string) (remote : IpAddr) : IpAddr :=
  match ip_strategy f, forwarded_for with
  | Some strategy, Some xff =>
      let ips := trim <$> split_on "," xff in
      let d := Z.to_nat (depth strategy) in
      if (d <? length ips)%nat then
        match ips !! (length ips - 1 - d)%nat ≫= parse_addr with
        | Some ip => if existsb (fun n => network_contains n ip) (excluded_networks f) then remote else ip
        | None => remote
        end
      else remote
  | _, _ => remote
  end.
End IpFilter.
End IpFilter.

(** ** Custom headers *)
Module Headers.
Section Headers.
Context `{HO : HttpOps}.

Record t := {
  request_headers : list (string * HeaderValue);
  response_headers : list (string * HeaderValue);
  remove_request : list string;
  remove_response : list string;
}.

(** One configured table: the headers to set and the names to remove. *)
Definition sort_out (custom : list (string * string)) : list (string * HeaderValue) * list string :=
  foldl (fun '(add, remove) '(k, v) =>
    match header_name k with
    | Some name =>
        if decide (v = "") then (add, remove ++ [name])
        else match hv_from_str v with Some value => (add ++ [(name, value)], remove) | None => (add, remove) end
    | None => (add, remove)
    end) ([], []) custom.

Definition new (custom_request custom_response : list (string * string)) : t :=
  let '(rq, rrq) := sort_out custom_request in
  let '(rs, rrs) := sort_out custom_response in
  {| request_headers := rq; response_headers := rs; remove_request := rrq; remove_response := rrs |}.

Definition apply (remove : list string) (add : list (string * HeaderValue)) (h : HeaderMap) : HeaderMap :=
  foldl (fun h '(k, v) => hm_insert k v h) (remove_all remove h) add.
Definition apply_request (m : t) : HeaderMap -> HeaderMap := apply (remove_request m) (request_headers m).
Definition apply_response (m : t) : HeaderMap -> HeaderMap := apply (remove_response m) (response_headers m).
End Headers.
End Headers.

(** ** CORS *)
Module Cors.
Record HeadersConfig := {
  allow_credentials_cfg : bool;
  allow_headers : list string;
  allow_methods : list string;
  allow_origin_list : list string;
  allow_origin_list_regex : list string;
  expose_headers : list string;
  max_age_cfg : option Z; (* i64 *)
  add_vary_cfg : bool;
}.

Record t := {
  allowed_origins : list string;
  allow_all_origins : bool;
  allowed_methods : string;
  allowed_headers : string;
  allowed_headers_set : list string;
  exposed_headers : option string;
  allow_credentials : bool;
  max_age : option string;
  add_vary_header : bool;
}.

Definition from_headers_config (c : HeadersConfig) : option t :=
  match allow_origin_list c, allow_origin_list_regex c with
  | [], [] => None
  | _, _ => Some
      {| allowed_origins := allow_origin_list c;
         allow_all_origins := bool_decide ("*" ∈ allow_origin_list c);
         allowed_methods := match allow_methods c with [] => "GET, POST, PUT, DELETE, OPTIONS" | ms => join ", " ms end;
         allowed_headers := match allow_headers c with [] => "Content-Type, Authorization" | hs => join ", " hs end;
         allowed_headers_set := to_ascii_lowercase <$> allow_headers c;
         exposed_headers := match expose_headers c with [] => None | hs => Some (join ", " hs) end;
         allow_credentials := allow_credentials_cfg c;
         max_age := pretty <$> max_age_cfg c;
         add_vary_header := add_vary_cfg c |}
  end.

Definition is_simple_header (h : string) : bool :=
  bool_decide (h ∈ ["accept"; "accept-language"; "content-language"; "content-type"; "range"]).

Definition is_origin_allowed (m : t) (origin : string) : bool :=
  allow_all_origins m || bool_decide (origin ∈ allowed_origins m).

Section Cors.
Context `{HO : HttpOps} `{UL : UriLib} `{IL : IpLib}.

Definition is_preflight (r : Request) : bool :=
  bool_decide (rq_method r = "OPTIONS") && bool_decide (is_Some (hm_get (rq_headers r) "origin")) &&
  bool_decide (is_Some (hm_get (rq_headers r) "access-control-request-method")).

Definition validate_preflight (m : t) (r : Request) : bool :=
  match header_text (rq_headers r) "access-control-request-method" with
  | Some method => contains method (allowed_methods m)
  | None => true
  end &&
  match header_text (rq_headers r) "access-control-request-headers" with
  | Some hs => forallb (fun h => let h := to_ascii_lowercase (trim h) in
                 bool_decide (h ∈ allowed_headers_set m) || is_simple_header h) (split_on "," hs)
  | None => true
  end.

Definition origin_value (m : t) (origin : string) : string :=
  if allow_all_origins m && negb (allow_credentials m) then "*" else origin.

Definition forbidden : Response := {| rs_status := 403; rs_headers := hm_empty; rs_body := Text "" |}.

(** [None]: no readable origin. *)
Definition handle_preflight (m : t) (r : Request) : option (result Empty_set Response) :=
  origin ← header_text (rq_headers r) "origin";
  Some (if negb (is_origin_allowed m origin) then Ok forbidden
        else if negb (validate_preflight m r) then Ok forbidden
        else
          res_bind (build_header "access-control-allow-origin" (origin_value m origin) hm_empty) (fun h =>
          res_bind (build_header "access-control-allow-methods" (allowed_methods m) h) (fun h =>
          res_bind (build_header "access-control-allow-headers" (allowed_headers m) h) (fun h =>
          res_bind (if allow_credentials m then build_header "access-control-allow-credentials" "true" h else Ok h) (fun h =>
          res_bind (match max_age m with Some a => build_header "access-control-max-age" a h | None => Ok h end) (fun h =>
          res_bind (if add_vary_header m
                    then build_header "vary" "Origin, Access-Control-Request-Method, Access-Control-Request-Headers" h
                    else Ok h) (fun h =>
          Ok {| rs_status := 204; rs_headers := h; rs_body := Text "" |}))))))).

(** [if let Ok(val) = HeaderValue::from_str(text) { headers.insert(name, val) }] *)
Definition insert_text (k s : string) (h : HeaderMap) : HeaderMap :=
  match hv_from_str s with Some v => hm_insert k v h | None => h end.

Definition apply_headers (m : t) (origin : option string) (h : HeaderMap) : HeaderMap :=
  match origin with
  | Some o =>
      if is_origin_allowed m o then
        let h := insert_text "access-control-allow-origin" (origin_value m o) h in
        let h := if allow_credentials m then insert_text "access-control-allow-credentials" "true" h else h in
        let h := match exposed_headers m with Some e => insert_text "access-control-expose-headers" e h | None => h end in
        if add_vary_header m then insert_text "vary" "Origin" h else h
      else h
  | None => h
  end.

Definition get_origin (r : Request) : option string := header_text (rq_headers r) "origin".
End Cors.
End Cors.

(** ** Scheme redirection *)
Module Redirect.
Record RedirectSchemeConfig := { scheme_cfg : string; permanent_cfg : bool; port_cfg : option string }.
Record t := { scheme : string; permanent : bool; port : option Z (* u16 *) }.

(** [s.parse::<u16>().ok()]: digits, one leading plus sign allowed. *)
Definition digit (c : ascii) : option Z := let n := byte_of c in if (48 <=? n) && (n <=? 57) then Some (n - 48) else None.
Fixpoint digits (s : string) (acc : Z) : option Z :=
  match s with
  | EmptyString => Some acc
  | String c s' => d ← digit c; let v := acc * 10 + d in if v <=? u16_max then digits s' v else None
  end.
Definition parse_u16 (s : string) : option Z :=
  let s := match s with String "+" s' => s' | _ => s end in
  match s with EmptyString => None | _ => digits s 0 end.

Definition new (c : RedirectSchemeConfig) : t :=
  {| scheme := to_ascii_lowercase (scheme_cfg c); permanent := permanent_cfg c; port := port_cfg c ≫= parse_u16 |}.

Definition should_redirect (m : t) (is_tls : bool) : bool :=
  negb (bool_decide ((if is_tls then "https" else "http") = scheme m)).

Definition is_default_port (scheme : string) (port : Z) : bool :=
  bool_decide (scheme = "http" /\ port = 80 \/ scheme = "https" /\ port = 443).

Definition status_code (m : t) : Z := if permanent m then 301 else 302.

(** [h.split(':').next()] *)
Definition before_colon (h : string) : string := default h (head (split_on ":" h)).

Definition location (m : t) (host path_and_query : string) : string :=
  match port m with
  | Some p =>
      if negb (is_default_port (scheme m) p) then scheme m +:+ "://" +:+ host +:+ ":" +:+ pretty p +:+ path_and_query
      else scheme m +:+ "://" +:+ host +:+ path_and_query
  | None => scheme m +:+ "://" +:+ host +:+ path_and_query
  end.

Section Redirect.
Context `{HO : HttpOps} `{UL : UriLib} `{IL : IpLib}.

Definition build_redirect (m : t) (r : Request) : Response :=
  let host := default "localhost" (before_colon <$> header_text (rq_headers r) "host") in
  let pq := default "/" (uri_path_and_query (rq_uri r)) in
  {| rs_status := status_code m;
     rs_headers := Cors.insert_text "location" (location m host pq) hm_empty;
     rs_body := Text "" |}.
End Redirect.
End Redirect.

(** ** Paths *)

(** Searching and replacing with a compiled expression ([regex]); positions are
    byte offsets at character boundaries. *)
Class RegexOps := {
  ops_regex :: RegexLib;
  re_find : Regex -> string -> option (nat * nat);
  re_replace : Regex -> string -> string -> string;
}.

Module Path.
Section Path.
Context `{UL : UriLib}.

Definition rebuild_uri_with_path (u : Uri) (new_path : string) : option Uri :=
  let pq := match uri_query u with Some q => new_path +:+ "?" +:+ q | None => new_path end in
  uri_build (uri_scheme u) (uri_authority u) pq.

Definition slashed (s : string) : bool := starts_with "/" s.

Record StripPrefix := { prefixes : list string; force_slash : bool }.

(** The URI without the prefix, and the prefix. *)
Fixpoint strip_loop (force_slash : bool) (ps : list string) (u : Uri) : option (Uri * string) :=
  match ps with
  | [] => None
  | prefix :: ps' =>
      match RustStr.strip_prefix prefix (uri_path u) with
      | Some rest =>
          let new_path := if bool_decide (rest = "") || (negb (slashed rest) && force_slash) then "/" +:+ rest else rest in
          let new_path := if decide (new_path = "") then "/" else new_path in
          match rebuild_uri_with_path u new_path with
          | Some u' => Some (u', prefix)
          | None => strip_loop force_slash ps' u
          end
      | None => strip_loop force_slash ps' u
      end
  end.
Definition strip (m : StripPrefix) (u : Uri) : option (Uri * string) := strip_loop (force_slash m) (prefixes m) u.

Definition add_prefix (prefix : string) (u : Uri) : option Uri := rebuild_uri_with_path u (prefix +:+ uri_path u).

Definition replace_path (path : string) (u : Uri) : option (Uri * string) :=
  (fun u' => (u', uri_path u)) <$> rebuild_uri_with_path u path.

Context `{RO : RegexOps}.

(** [None] if a pattern does not compile. *)
Definition strip_regex_new (patterns : list string) : option (list Regex) :=
  mapM (fun p => match regex_new p with inr re => Some re | inl _ => None end) patterns.

Fixpoint strip_regex (patterns : list Regex) (u : Uri) : option (Uri * string) :=
  match patterns with
  | [] => None
  | re :: patterns' =>
      match re_find re (uri_path u) with
      | Some (O, stop) =>
          let matched := str_take stop (uri_path u) in
          let rest := str_drop stop (uri_path u) in
          let new_path := if bool_decide (rest = "") || negb (slashed rest) then "/" +:+ rest else rest in
          match rebuild_uri_with_path u new_path with
          | Some u' => Some (u', matched)
          | None => strip_regex patterns' u
          end
      | _ => strip_regex patterns' u
      end
  end.

Definition replace_regex (re : Regex) (replacement : string) (u : Uri) : option (Uri * string) :=
  let new_path := re_replace re (uri_path u) replacement in
  if decide (new_path <> uri_path u) then (fun u' => (u', uri_path u)) <$> rebuild_uri_with_path u new_path else None.
End Path.
End Path.

(** ** Client addresses behind proxies *)
Section ClientIp.
Context `{IL : IpLaws}.

(** The part of a forwarding header that [depth] counts into decides. *)
Lemma client_ip_suffix f strategy p q remote :
  IpFilter.ip_strategy f = Some strategy -> (Z.to_nat (IpFilter.depth strategy) < length (split_on "," q))%nat ->
  IpFilter.get_client_ip f (Some (p +:+ String "," q)) remote = IpFilter.get_client_ip f (Some q) remote.
Proof.
  intros Hs Hd. unfold IpFilter.get_client_ip. rewrite Hs, split_on_app, fmap_app, length_app, !length_fmap.
  set (d := Z.to_nat (IpFilter.depth strategy)) in *.
  destruct (Nat.ltb_spec d (length (split_on "," p) + length (split_on "," q))); [|lia].
  destruct (Nat.ltb_spec d (length (split_on "," q))); [|lia].
  rewrite lookup_app_r by (rewrite length_fmap; lia). rewrite length_fmap.
  replace (length (split_on "," p) + length (split_on "," q) - 1 - d - length (split_on "," p))%nat
    with (length (split_on "," q) - 1 - d)%nat by lia. done.
Qed.
End ClientIp.

(** ** Which addresses the filters admit *)
Section FilterProofs.
Context `{IL : IpLib}.

(** A configured range contains the address. *)
Definition listed (ranges : list string) (ip : IpAddr) : Prop :=
  exists s n, s ∈ ranges /\ IpFilter.parse_network s = Some n /\ network_contains n ip = true.

Lemma in_range_listed ranges strategy reject ip :
  IpFilter.in_range (IpFilter.new ranges strategy reject) ip = true <-> listed ranges ip.
Proof.
  unfold IpFilter.in_range, listed. cbn [IpFilter.new IpFilter.source_range]. rewrite existsb_exists. split.
  - intros (n & Hn%list_elem_of_In & Hc). apply list_elem_of_omap in Hn as (s & Hs & Hp). by exists s, n.
  - intros (s & n & Hs & Hp & Hc). exists n. split; [|done]. apply list_elem_of_In, list_elem_of_omap. by exists s.
Qed.

(** IP filters decide by their configured ranges: the denylist denies exactly
    the listed addresses, and the allowlist admits exactly the listed addresses
    as long as one of its ranges can be parsed; if none can, it admits every
    address. *)
Theorem ip_filter_exact ranges strategy reject ip :
  let f := IpFilter.new ranges strategy reject in
  (IpFilter.is_denied f ip = true <-> listed ranges ip) /\
  (IpFilter.is_allowed f ip = true <->
     listed ranges ip \/ forall s, s ∈ ranges -> IpFilter.parse_network s = None).
Proof.
  cbn zeta. split; [apply in_range_listed|]. rewrite <- (in_range_listed ranges strategy reject).
  unfold IpFilter.is_allowed. destruct (IpFilter.source_range (IpFilter.new ranges strategy reject)) as [|n ns] eqn:En.
  - split; [|done]. intros _. right. intros s Hs. destruct (IpFilter.parse_network s) as [n|] eqn:Ep; [|done].
    assert (Hn : n ∈ IpFilter.source_range (IpFilter.new ranges strategy reject)) by (apply list_elem_of_omap; by exists s).
    rewrite En in Hn. by apply elem_of_nil in Hn.
  - split; [by left|]. intros [?|Hall]; [done|].
    assert (Hn : n ∈ IpFilter.source_range (IpFilter.new ranges strategy reject)) by (rewrite En; left).
    apply list_elem_of_omap in Hn as (s & Hs & Hp). rewrite (Hall s Hs) in Hp. done.
Qed.
End FilterProofs.

(** ** CORS *)
Section CorsProofs.
Context `{HL : HttpLaws} `{UL : UriLib} `{IL : IpLib}.

Lemma get_insert_text_ne k k' s h : k <> k' -> hm_get (Cors.insert_text k s h) k' = hm_get h k'.
Proof. intros Hne. unfold Cors.insert_text. destruct (hv_from_str s); [by apply get_insert_ne|done]. Qed.

Lemma text_insert_text k s h : str_forall visible_byte s = true -> header_text (Cors.insert_text k s h) k = Some s.
Proof.
  intros (v & Hv & Ht)%from_visible. unfold Cors.insert_text, header_text. rewrite Hv, get_insert_eq. exact Ht.
Qed.

(** Reading a header that the insertion does not touch. *)
Lemma text_insert_text_ne k k' s h : k <> k' -> header_text (Cors.insert_text k s h) k' = header_text h k'.
Proof. intros Hne. unfold header_text. by rewrite get_insert_text_ne. Qed.

(** CORS response headers. Without an origin, or for an origin that is not
    allowed, the response is left as it is. For an allowed origin the response
    names that origin (or [*], which never happens when credentials are
    allowed), and it allows credentials exactly when configured to. With the
    origin list [*] and credentials, every origin is named with credentials. *)
Theorem cors_response_headers (m : Cors.t) (origin : string) (h : HeaderMap) :
  str_forall visible_byte origin = true -> hm_get h "access-control-allow-credentials" = None ->
  let out := Cors.apply_headers m (Some origin) h in
  Cors.apply_headers m None h = h /\
  (Cors.is_origin_allowed m origin = false -> out = h) /\
  (Cors.is_origin_allowed m origin = true ->
     header_text out "access-control-allow-origin" =
       Some (if Cors.allow_all_origins m && negb (Cors.allow_credentials m) then "*" else origin) /\
     header_text out "access-control-allow-credentials" = if Cors.allow_credentials m then Some "true" else None).
Proof.
  intros Ho Hc. cbn zeta. split; [done|]. split; [by cbn [Cors.apply_headers]; intros ->|].
  intros Ha. cbn [Cors.apply_headers]. rewrite Ha. cbn zeta.
  set (h1 := Cors.insert_text "access-control-allow-origin" _ h).
  set (h2 := if Cors.allow_credentials m then _ else h1).
  set (h3 := match Cors.exposed_headers m with Some _ => _ | None => h2 end).
  assert (Hrest : forall k, k <> "access-control-expose-headers" -> k <> "vary" ->
    header_text (if Cors.add_vary_header m then Cors.insert_text "vary" "Origin" h3 else h3) k = header_text h2 k).
  { intros k Hk1 Hk2. unfold h3. destruct (Cors.add_vary_header m), (Cors.exposed_headers m);
      rewrite ?text_insert_text_ne by done; done. }
  rewrite !Hrest by done. unfold h2, h1. split.
  - destruct (Cors.allow_credentials m) eqn:Ec.
    + rewrite text_insert_text_ne by done. unfold Cors.origin_value. rewrite Ec, andb_false_r. by apply text_insert_text.
    + unfold Cors.origin_value. rewrite Ec, andb_true_r. destruct (Cors.allow_all_origins m); by apply text_insert_text.
  - destruct (Cors.allow_credentials m); [by apply text_insert_text|].
    rewrite text_insert_text_ne by done. unfold header_text. by rewrite Hc.
Qed.
End CorsProofs.

(** ** Paths *)
Definition wildcard_cors : Cors.t :=
  {| Cors.allowed_origins := ["*"]; Cors.allow_all_origins := true; Cors.allowed_methods := "GET"; Cors.allowed_headers := "";
     Cors.allowed_headers_set := []; Cors.exposed_headers := None; Cors.allow_credentials := true; Cors.max_age := None;
     Cors.add_vary_header := true |}.

Lemma cors_response_headers_witness :
  @header_text map_http (@Cors.apply_headers map_http wildcard_cors (Some "https://evil.example") (@hm_empty map_http))
    "access-control-allow-origin" = Some "https://evil.example".
Proof.
  apply (proj2 (proj2 (@cors_response_headers map_http map_http_laws wildcard_cors "https://evil.example" (@hm_empty map_http)
    eq_refl eq_refl))). reflexivity.
Defined.

Section PathProofs.
Context `{UW : UriLaws}.

Definition path_text (s : string) : bool := str_forall (fun c => negb (Ascii.eqb c "?") && negb (Ascii.eqb c "#")) s.

Lemma path_text_parts s : path_text s = true ->
  str_forall (fun c => negb (Ascii.eqb c "?")) s = true /\ str_forall (fun c => negb (Ascii.eqb c "#")) s = true.
Proof.
  unfold path_text. induction s as [|c s IH]; cbn; [done|]. intros [[-> ->]%andb_prop Hs]%andb_prop. by destruct (IH Hs) as [-> ->].
Qed.

(** A URI rebuilt with a path has that path and keeps everything else. *)
Lemma rebuild_parts u p u' : Path.rebuild_uri_with_path u p = Some u' -> path_text p = true -> starts_with "/" p = true ->
  (forall q, uri_query u = Some q -> str_forall (fun c => negb (Ascii.eqb c "#")) q = true) ->
  uri_path u' = p /\ uri_query u' = uri_query u /\ uri_scheme u' = uri_scheme u /\ uri_authority u' = uri_authority u.
Proof.
  unfold Path.rebuild_uri_with_path. intros Hb [Hp1 Hp2]%path_text_parts Hs Hq.
  assert (Hsl : forall t, starts_with "/" (p +:+ t) = true).
  { intros t. apply starts_with_spec in Hs as (r & ->). apply starts_with_spec. exists (r +:+ t). by rewrite str_app_assoc. }
  destruct (uri_query u) as [q|] eqn:Eq.
  - change ("?" +:+ q) with (String "?" q) in Hb.
    pose proof (build_path _ _ _ _ Hb) as Hparts. rewrite split_once_app in Hparts by done.
    rewrite str_forall_app in Hparts. cbn [str_forall] in Hparts. rewrite Hp2, (Hq q eq_refl), Hsl in Hparts.
    specialize (Hparts eq_refl eq_refl). injection Hparts as -> ->. split_and!; [done|done|by eapply build_scheme|by eapply build_authority].
  - pose proof (build_path _ _ _ _ Hb Hp2 Hs) as Hparts. rewrite split_once_none in Hparts by done. injection Hparts as -> ->.
    split_and!; [done|done|by eapply build_scheme|by eapply build_authority].
Qed.

(** Adding a prefix and stripping it gives the request back: for a URI whose
    path begins with a slash, stripping the added prefix yields the original
    path, query, scheme and authority, and reports the prefix. (The original
    path must be one the URI builder accepts.) *)
Theorem add_prefix_strip_prefix prefix u u1 u2 rest force_slash :
  starts_with "/" prefix = true -> path_text prefix = true ->
  starts_with "/" (uri_path u) = true -> path_text (uri_path u) = true ->
  (forall q, uri_query u = Some q -> str_forall (fun c => negb (Ascii.eqb c "#")) q = true) ->
  Path.add_prefix prefix u = Some u1 -> Path.rebuild_uri_with_path u1 (uri_path u) = Some u2 ->
  Path.strip {| Path.prefixes := prefix :: rest; Path.force_slash := force_slash |} u1 = Some (u2, prefix) /\
  uri_path u2 = uri_path u /\ uri_query u2 = uri_query u /\ uri_scheme u2 = uri_scheme u /\ uri_authority u2 = uri_authority u.
Proof.
  intros Hp1 Hp2 Hu1 Hu2 Hq Hadd Hre. unfold Path.add_prefix in Hadd.
  assert (Hsl : starts_with "/" (prefix +:+ uri_path u) = true).
  { apply starts_with_spec in Hp1 as (r & ->). apply starts_with_spec. exists (r +:+ uri_path u). by rewrite str_app_assoc. }
  assert (Hpt : path_text (prefix +:+ uri_path u) = true) by (unfold path_text in *; by rewrite str_forall_app, Hp2, Hu2).
  destruct (rebuild_parts _ _ _ Hadd Hpt Hsl Hq) as (E1 & E2 & E3 & E4). rewrite <- E2 in Hq.
  destruct (rebuild_parts _ _ _ Hre Hu2 Hu1 Hq) as (F1 & F2 & F3 & F4).
  split; [|split_and!; congruence].
  unfold Path.strip. cbn [Path.prefixes Path.force_slash Path.strip_loop]. rewrite E1, strip_prefix_app.
  assert (Hne : uri_path u <> "") by (intros He; by rewrite He in Hu1).
  unfold Path.slashed. rewrite bool_decide_eq_false_2, Hu1 by done. cbn [orb andb negb].
  rewrite decide_False by done. by rewrite Hre.
Qed.
End PathProofs.

Definition demo_uri (pq : string) : @Uri text_uri := (None, Some "a.com", pq).

Lemma add_prefix_strip_prefix_witness :
  @Path.strip text_uri {| Path.prefixes := ["/api"; "/"]; Path.force_slash := false |} (demo_uri "/api/x?y=1") =
    Some (demo_uri "/x?y=1", "/api").
Proof.
  apply (@add_prefix_strip_prefix text_uri text_uri_laws "/api" (demo_uri "/x?y=1") (demo_uri "/api/x?y=1")
    (demo_uri "/x?y=1") ["/"] false); try reflexivity.
  intros q Hq. injection Hq as <-. reflexivity.
Defined.

Definition preflight (method headers : string) : @Request map_http text_uri two_hosts :=
  {| rq_method := "OPTIONS"; rq_uri := demo_uri "/"; rq_context := None;
     rq_headers := Cors.insert_text "origin" "https://a.com" (Cors.insert_text "access-control-request-method" method
       (Cors.insert_text "access-control-request-headers" headers hm_empty)) |}.
Definition default_cors : option Cors.t := Cors.from_headers_config
  {| Cors.allow_credentials_cfg := false; Cors.allow_headers := []; Cors.allow_methods := [];
     Cors.allow_origin_list := ["https://a.com"]; Cors.allow_origin_list_regex := []; Cors.expose_headers := [];
     Cors.max_age_cfg := None; Cors.add_vary_cfg := false |}.

(** With the default lists, a preflight request for the method [ET] passes (any
    part of the text of the allowed methods does), and one for the header
    [Authorization], which the answer would advertise, is refused. *)
Theorem cors_preflight_gaps :
  exists m, default_cors = Some m /\ Cors.allowed_headers m = "Content-Type, Authorization" /\
    Cors.validate_preflight m (preflight "ET" "content-type") = true /\
    Cors.validate_preflight m (preflight "GET" "Authorization") = false.
Proof.
  eexists. split; [reflexivity|]. split_and!; vm_compute; reflexivity.
Qed.
