(* ===== verification/Jwt.v ===== *)
(** * JSON Web Tokens

    Models src/src/middleware/builtin/jwt.rs: where a token is taken from, the
    hand-written base64url decoder and JSON readers, and the validation of a
    token, with the hash functions of [Hash]. A hash map of claims is a [gmap];
    the map of claims to forward is the list of its entries in iteration order.
    The clock is an argument. *)
From S2P Require Import Prelude RustStr Encoding Hash Duration Net Rule Http Middleware.
From stdpp Require Import list.
Open Scope Z_scope.
Open Scope list_scope.
#[local] Open Scope rust_scope.

Inductive JwtAlgorithm := HS256 | HS384 | HS512 | NoAlg.
#[export] Instance JwtAlgorithm_eq_dec : EqDecision JwtAlgorithm.
Proof. solve_decision. Defined.

Inductive ClaimValue :=
| VString (s : string)
| VNumber (n : Z) (* i64 *)
| VBool (b : bool)
| VArray (l : list string)
| VNull.

Record JwtHeader := { alg : string; typ : option string }.

(** [to_uppercase] as far as a comparison with the names of the algorithms can
    tell: of the characters beyond ASCII only the long s (U+017F) has one of
    their letters as its upper case. *)
Definition upper_ascii (c : ascii) : ascii :=
  let n := nat_of_ascii c in
  if (97 <=? n)%nat && (n <=? 122)%nat then ascii_of_nat (n - 32) else c.
Definition long_s : string := of_bytes [197%nat; 191%nat].
Fixpoint to_uppercase (s : string) : string :=
  match s with
  | EmptyString => ""
  | String a s' =>
      match s' with
      | String b s'' => if bool_decide (String a (String b "") = long_s) then String "S" (to_uppercase s'')
                        else String (upper_ascii a) (to_uppercase s')
      | EmptyString => String (upper_ascii a) ""
      end
  end.

(** The same match on the name occurs in [new] and in [validate_token]. *)
Definition parse_algorithm (name : string) : option JwtAlgorithm :=
  let up := to_uppercase name in
  if bool_decide (up = "HS256") then Some HS256
  else if bool_decide (up = "HS384") then Some HS384
  else if bool_decide (up = "HS512") then Some HS512
  else if bool_decide (up = "NONE") then Some NoAlg
  else None.

(** ** Base64url *)
Definition URL_ALPHABET : string := "ABCDEFGHIJKLMNOPQRSTUVWXYZabcdefghijklmnopqrstuvwxyz0123456789-_".

#[export] Instance url_alphabet : B64Alphabet URL_ALPHABET.
Proof. apply alphabet_check. vm_compute. reflexivity. Qed.

Definition base64_url_decode_bytes (input : string) : option string :=
  let input := trim_end_matches "=" input in
  match input with EmptyString => Some "" | _ => decode_loop URL_ALPHABET input 0 0 end.
Definition base64_url_decode (input : string) : option string :=
  bytes ← base64_url_decode_bytes input; if utf8_valid bytes then Some bytes else None.

(** ** JSON *)

(** [&json[1..json.len()-1]] of a text that starts and ends with a brace. *)
Definition braces (json : string) : option string :=
  let json := trim json in
  if negb (starts_with "{" json) || negb (ends_with_byte "}" json) then None
  else Some (str_take (String.length json - 2) (str_drop 1 json)).

Definition dq : ascii := ascii_of_nat 34.

(** The loop over the comma-separated pairs of a header. *)
Fixpoint header_fields (pairs : list string) (alg typ : option string) : option (option string * option string) :=
  match pairs with
  | [] => Some (alg, typ)
  | item :: pairs' =>
      kv ← split_once ":" (trim item);
      let '(k, v) := kv in
      let key := trim_matches dq (trim k) in
      let value := trim_matches dq (trim v) in
      if bool_decide (key = "alg") then header_fields pairs' (Some value) typ
      else if bool_decide (key = "typ") then header_fields pairs' alg (Some value)
      else header_fields pairs' alg typ
  end.

Definition parse_json_object (json : string) : option JwtHeader :=
  content ← braces json;
  fields ← header_fields (split_on "," content) None None;
  let '(a, t) := fields in
  a ← a;
  Some {| alg := a; typ := t |}.

(** [num_str.parse::<i64>().ok()] *)
Definition parse_i64 (s : string) : option Z :=
  let '(neg, ds) := match s with String "-" ds => (true, ds) | String "+" ds => (false, ds) | _ => (false, s) end in
  if bool_decide (ds = "") || negb (str_forall is_digit ds) then None
  else
    let n := if neg : bool then - dec_scan ds 0 else dec_scan ds 0 in
    if (i64_min <=? n) && (n <=? i64_max) then Some n else None.

(** [s.find(|c| ...)] splits before the first occurrence of a pattern. *)
Fixpoint split_before (ps : list string) (s : string) : string * string :=
  match s with
  | EmptyString => ("", "")
  | String c s' =>
      match strip_any ps s with
      | Some _ => ("", s)
      | None => let '(a, b) := split_before ps s' in (String c a, b)
      end
  end.

Definition blank_or_comma : list string := white_space ++ [","].

Definition array_items (content : string) : list string :=
  filter (fun s => s <> "") ((fun s => trim_matches dq (trim s)) <$> split_on "," content).

(** The value in front, and what remains. *)
Definition parse_value (remaining : string) : option (ClaimValue * string) :=
  match RustStr.strip_prefix (String dq "") remaining with
  | Some r => v ← split_once dq r; Some (VString v.1, v.2)
  | None =>
  match RustStr.strip_prefix "[" remaining with
  | Some r => v ← split_once "]" r; Some (VArray (array_items v.1), v.2)
  | None =>
  match RustStr.strip_prefix "true" remaining with Some r => Some (VBool true, r) | None =>
  match RustStr.strip_prefix "false" remaining with Some r => Some (VBool false, r) | None =>
  match RustStr.strip_prefix "null" remaining with Some r => Some (VNull, r) | None =>
    let '(num_str, r) := split_before (white_space ++ [","; "}"]) remaining in
    n ← parse_i64 num_str; Some (VNumber n, r)
  end end end end end.

(** The loop; the outer [None] is lack of fuel. Anything unexpected where a key
    or a colon should stand ends the loop with the claims read so far. *)
Fixpoint claims_loop (fuel : nat) (remaining : string) (claims : gmap string ClaimValue)
    : option (option (gmap string ClaimValue)) :=
  match fuel with
  | O => None
  | S fuel' =>
      let remaining := strip_all (String.length remaining) blank_or_comma remaining in
      match RustStr.strip_prefix (String dq "") remaining with
      | None => Some (Some claims)
      | Some r =>
          match split_once dq r with
          | None => Some None
          | Some (key, r) =>
              match RustStr.strip_prefix ":" (trim_start r) with
              | None => Some (Some claims)
              | Some r =>
                  match parse_value (trim_start r) with
                  | None => Some None
                  | Some (v, r) => claims_loop fuel' r (<[key := v]> claims)
                  end
              end
          end
      end
  end.

Definition parse_claims_fuel (json : string) : option (option (gmap string ClaimValue)) :=
  match braces json with
  | None => Some None
  | Some content => claims_loop (S (String.length content)) content ∅
  end.
Definition parse_claims (json : string) : option (gmap string ClaimValue) := default None (parse_claims_fuel json).

(** ** The middleware *)
Record JwtConfig := {
  c_secret : option string;
  c_public_key : option string;
  c_algorithm : string;
  c_issuer : option string;
  c_audience : option string;
  c_header_name : string;
  c_header_prefix : string;
  c_query_param : option string;
  c_cookie_name : option string;
  c_forward_claims : list (string * string);
  c_strip_authorization_header : bool;
}.

Record JwtMiddleware := {
  secret : option string;
  algorithm : JwtAlgorithm;
  issuer : option string;
  audience : option string;
  header_name : string;
  header_prefix : string;
  query_param : option string;
  cookie_name : option string;
  forward_claims : list (string * string);
  strip_authorization_header : bool;
}.

Definition jwt_error : Type := Z * string.
Definition unauthorized (msg : string) : jwt_error := (401, msg).

(** The signature of [header.payload]; an HMAC never aborts ([hmac_rfc2104]). *)
Definition signature (a : JwtAlgorithm) (secret message : string) : result jwt_error string :=
  res_map string_of
    (match a with
     | HS256 => hmac_sha256 (bytes_of secret) (bytes_of message)
     | HS384 => hmac_sha384 (bytes_of secret) (bytes_of message)
     | HS512 => hmac_sha512 (bytes_of secret) (bytes_of message)
     | NoAlg => Ok []
     end).

Definition verify_signature (m : JwtMiddleware) (message signature_b64 : string) : result jwt_error unit :=
  if decide (algorithm m = NoAlg) then Ok tt
  else
    secret <-? ok_or (secret m) (500, "No secret configured") ;;
    expected_sig <-? signature (algorithm m) secret message ;;
    actual_sig <-? ok_or (base64_url_decode_bytes signature_b64) (unauthorized "Invalid signature encoding") ;;
    if negb (constant_time_compare expected_sig actual_sig) then Err (unauthorized "Invalid signature") else Ok tt.

(** [claim as u64] *)
Definition as_u64 (n : Z) : Z := wrap_u64 n.

Definition check_expiration (claims : gmap string ClaimValue) (now : Z) : result jwt_error unit :=
  match claims !! "exp" with
  | Some (VNumber exp) =>
      if as_u64 exp <? now then Err (unauthorized "Token expired") else Ok tt
  | _ => Ok tt
  end.
Definition check_not_before (claims : gmap string ClaimValue) (now : Z) : result jwt_error unit :=
  match claims !! "nbf" with
  | Some (VNumber nbf) =>
      if now <? as_u64 nbf then Err (unauthorized "Token not yet valid") else Ok tt
  | _ => Ok tt
  end.

Definition issuer_ok (m : JwtMiddleware) (claims : gmap string ClaimValue) : bool :=
  match issuer m with
  | None => true
  | Some expected => match claims !! "iss" with Some (VString iss) => bool_decide (iss = expected) | _ => false end
  end.
Definition audience_ok (m : JwtMiddleware) (claims : gmap string ClaimValue) : bool :=
  match audience m with
  | None => true
  | Some expected =>
      match claims !! "aud" with
      | Some (VString aud) => bool_decide (aud = expected)
      | Some (VArray auds) => bool_decide (expected ∈ auds)
      | _ => false
      end
  end.

Definition check_claims (m : JwtMiddleware) (claims : gmap string ClaimValue) (now : Z) : result jwt_error unit :=
  _ <-? check_expiration claims now ;;
  _ <-? check_not_before claims now ;;
  if negb (issuer_ok m claims) then Err (unauthorized "Invalid issuer")
  else if negb (audience_ok m claims) then Err (unauthorized "Invalid audience")
  else Ok tt.

Definition validate_token (m : JwtMiddleware) (now : Z) (token : string) : result jwt_error (gmap string ClaimValue) :=
  match split_on "." token with
  | [header_b64; payload_b64; signature_b64] =>
      header_json <-? ok_or (base64_url_decode header_b64) (unauthorized "Invalid JWT header encoding") ;;
      header <-? ok_or (parse_json_object header_json) (unauthorized "Invalid JWT header") ;;
      token_alg <-? ok_or (parse_algorithm (alg header)) (unauthorized ("Unsupported algorithm: " +:+ alg header)) ;;
      if decide (token_alg = algorithm m) then
        _ <-? verify_signature m (header_b64 +:+ "." +:+ payload_b64) signature_b64 ;;
        payload_json <-? ok_or (base64_url_decode payload_b64) (unauthorized "Invalid JWT payload encoding") ;;
        claims <-? ok_or (parse_claims payload_json) (unauthorized "Invalid JWT claims") ;;
        _ <-? check_claims m claims now ;;
        Ok claims
      else Err (unauthorized "Algorithm mismatch")
  | _ => Err (unauthorized "Invalid JWT format")
  end.

Section Requests.
Context `{HO : HttpOps} `{UL : UriLib} `{IL : IpLib}.

(** [None] for an unsupported algorithm or an illegal header name. *)
Definition jwt_new (c : JwtConfig) : option JwtMiddleware :=
  a ← parse_algorithm (c_algorithm c);
  name ← Http.header_name (c_header_name c);
  Some {| secret := c_secret c; algorithm := a; issuer := c_issuer c; audience := c_audience c; header_name := name;
          header_prefix := c_header_prefix c; query_param := c_query_param c; cookie_name := c_cookie_name c;
          forward_claims := c_forward_claims c; strip_authorization_header := c_strip_authorization_header c |}.

(** The value of the first pair with the given key. *)
Fixpoint find_pair (key : string) (clean_pair clean_key : string -> string) (pairs : list string) : option string :=
  match pairs with
  | [] => None
  | item :: pairs' =>
      match split_once "=" (clean_pair item) with
      | Some (k, v) => if bool_decide (clean_key k = key) then Some v else find_pair key clean_pair clean_key pairs'
      | None => find_pair key clean_pair clean_key pairs'
      end
  end.

Definition header_token (m : JwtMiddleware) (req : Request) : option string :=
  auth_str ← header_text (rq_headers req) (header_name m); RustStr.strip_prefix (header_prefix m) auth_str.
Definition query_token (m : JwtMiddleware) (req : Request) : option string :=
  param ← query_param m; query ← uri_query (rq_uri req); find_pair param id id (split_on "&" query).
Definition cookie_token (m : JwtMiddleware) (req : Request) : option string :=
  name ← cookie_name m; cookies ← header_text (rq_headers req) "cookie"; find_pair name trim trim (split_on ";" cookies).

Definition extract_token (m : JwtMiddleware) (req : Request) : option string :=
  match header_token m req with
  | Some t => Some t
  | None => match query_token m req with Some t => Some t | None => cookie_token m req end
  end.

Definition show_i64 (n : Z) : string := if n <? 0 then String "-" (dec (- n)) else dec n.
Definition claim_text (v : ClaimValue) : option string :=
  match v with
  | VString s => Some s
  | VNumber n => Some (show_i64 n)
  | VBool b => Some (if b then "true" else "false")
  | VArray l => Some (Middleware.join "," l)
  | VNull => None
  end.

(** One entry of [forward_claims]. *)
Definition forward_claim (claims : gmap string ClaimValue) (h : HeaderMap) (entry : string * string) : HeaderMap :=
  match claims !! entry.1 ≫= claim_text with
  | None => h
  | Some text =>
      match Http.header_name entry.2, hv_from_str text with
      | Some name, Some v => hm_insert name v h
      | _, _ => h
      end
  end.

Record JwtValidationResult := {
  claims : gmap string ClaimValue;
  headers_to_add : HeaderMap;
  strip_auth_header : bool;
}.

Definition validate (m : JwtMiddleware) (now : Z) (req : Request) : result jwt_error JwtValidationResult :=
  res_bind (ok_or (extract_token m req) (unauthorized "No JWT token found")) (fun token =>
  res_map (fun cs => {| claims := cs; headers_to_add := foldl (forward_claim cs) hm_empty (forward_claims m);
                        strip_auth_header := strip_authorization_header m |}) (validate_token m now token)).

Definition unauthorized_response (message : string) : result Empty_set Response :=
  res_map (fun h => {| rs_status := 401; rs_headers := h; rs_body := Text message |})
    (build_header "www-authenticate" "Bearer" hm_empty).
End Requests.
