(* ===== verification/JwtProofs.v ===== *)
(** * JSON Web Tokens: what is accepted

    The claims reader ends and inverts a printer; a token is accepted exactly
    when it is signed with the configured algorithm and secret and its claims
    pass; every token minted with the secret is accepted. *)
From S2P Require Import Prelude RustStr Encoding Hash HashProofs Duration Net Rule Http Middleware Jwt.
From stdpp Require Import list.
Open Scope Z_scope.
Open Scope list_scope.

(** ** The reader ends *)
Lemma strip_all_length fuel ps s : (String.length (strip_all fuel ps s) <= String.length s)%nat.
Proof. destruct (strip_all_suffix fuel ps s) as [p Hp]. rewrite Hp at 2. rewrite str_length_app. lia. Qed.

Lemma strip_prefix_length p s r : RustStr.strip_prefix p s = Some r -> String.length s = (String.length p + String.length r)%nat.
Proof. intros ->%strip_prefix_Some. apply str_length_app. Qed.

Lemma split_once_length sep s a b : split_once sep s = Some (a, b) -> String.length s = (String.length a + 1 + String.length b)%nat.
Proof. intros ->%split_once_Some. rewrite str_length_app. cbn. lia. Qed.

Lemma split_before_length ps s a b : split_before ps s = (a, b) -> String.length s = (String.length a + String.length b)%nat.
Proof.
  revert a. induction s as [|c s IH]; intros a; cbn [split_before]; [by intros [= <- <-]|].
  destruct (strip_any ps (String c s)); [by intros [= <- <-]|].
  destruct (split_before ps s) as [a' b'] eqn:E. intros [= <- <-]. cbn. by rewrite (IH a').
Qed.

Lemma parse_value_length s v r : parse_value s = Some (v, r) -> (String.length r <= String.length s)%nat.
Proof.
  unfold parse_value.
  repeat match goal with |- context [match RustStr.strip_prefix ?p s with _ => _ end] =>
    let E := fresh "E" in destruct (RustStr.strip_prefix p s) eqn:E; [apply strip_prefix_length in E|clear E] end.
  1,2: destruct (split_once _ _) as [[a b]|] eqn:Es; cbn; [|done]; apply split_once_length in Es; intros [= _ <-]; lia.
  1,2,3: intros [= _ <-]; lia.
  destruct (split_before _ s) as [a b] eqn:Eb. apply split_before_length in Eb.
  destruct (parse_i64 a); cbn; [|done]. intros [= _ <-]. lia.
Qed.

Lemma claims_loop_total fuel : forall s cs, (String.length s < fuel)%nat -> exists r, claims_loop fuel s cs = Some r.
Proof.
  induction fuel as [|fuel IH]; intros s cs Hf; [lia|]. cbn [claims_loop].
  pose proof (strip_all_length (String.length s) blank_or_comma s) as Hs. set (s1 := strip_all _ _ s) in *.
  destruct (RustStr.strip_prefix _ s1) as [r|] eqn:E1; [|by eexists]. apply strip_prefix_length in E1. cbn in E1.
  destruct (split_once dq r) as [[key r2]|] eqn:E2; [|by eexists]. apply split_once_length in E2.
  pose proof (strip_all_length (String.length r2) white_space r2) as Hs2. fold (trim_start r2) in Hs2.
  destruct (RustStr.strip_prefix ":" (trim_start r2)) as [r3|] eqn:E3; [|by eexists]. apply strip_prefix_length in E3. cbn in E3.
  pose proof (strip_all_length (String.length r3) white_space r3) as Hs3. fold (trim_start r3) in Hs3.
  destruct (parse_value (trim_start r3)) as [[v r4]|] eqn:E4; [|by eexists]. apply parse_value_length in E4.
  apply IH. lia.
Qed.

(** The claims reader ends on every text: the fuel is never exhausted. *)
Theorem claims_reader_total json : exists r, parse_claims_fuel json = Some r /\ parse_claims json = r.
Proof.
  unfold parse_claims, parse_claims_fuel. destruct (braces json) as [content|]; [|by eexists].
  destruct (claims_loop_total (S (String.length content)) content ∅) as [r Hr]; [lia|]. exists r. by rewrite Hr.
Qed.

(** ** A printer, and the reader inverts it *)
Definition quote (s : string) : string := String dq (s +:+ String dq "").

Definition print_value (v : ClaimValue) : string :=
  match v with
  | VString s => quote s
  | VNumber n => show_i64 n
  | VBool b => if b then "true" else "false"
  | VArray l => "[" +:+ Middleware.join "," (quote <$> l) +:+ "]"
  | VNull => "null"
  end.
Definition print_pair (c : string * ClaimValue) : string := quote c.1 +:+ ":" +:+ print_value c.2.
Definition print_claims (cs : list (string * ClaimValue)) : string :=
  "{" +:+ Middleware.join "," (print_pair <$> cs) +:+ "}".

(** Texts without quotation marks, numbers of 64 bits, array items that are
    neither empty nor contain a comma or a bracket. *)
Definition unquoted (s : string) : bool := str_forall (fun c => negb (Ascii.eqb c dq)) s.
Definition item_ok (s : string) : bool :=
  bool_decide (s <> "") && str_forall (fun c => negb (Ascii.eqb c dq) && negb (Ascii.eqb c ",") && negb (Ascii.eqb c "]")) s.
Definition claim_ok (c : string * ClaimValue) : bool :=
  unquoted c.1 &&
  match c.2 with
  | VString s => unquoted s
  | VNumber n => (i64_min <=? n) && (n <=? i64_max)
  | VArray l => forallb item_ok l
  | _ => true
  end.

Lemma trim_quote s : trim (quote s) = quote s.
Proof.
  unfold quote. apply (trim_plain _ _ dq); [reflexivity| |reflexivity].
  change (String dq (s +:+ String dq "")) with (String dq s +:+ String dq ""). apply last_byte_app.
Qed.

Lemma unquote s : unquoted s = true -> trim_matches dq (quote s) = s.
Proof.
  intros Hs. unfold trim_matches, quote. change (String dq (s +:+ String dq "")) with (String dq "" +:+ s +:+ String dq "").
  assert (Hh : strip_head dq (String dq "" +:+ s +:+ String dq "") = strip_head dq (s +:+ String dq "")) by reflexivity.
  rewrite Hh. destruct s as [|c s]; [reflexivity|].
  assert (Hc : strip_head dq (String c s +:+ String dq "") = String c s +:+ String dq "").
  { cbn in Hs |- *. by destruct (Ascii.eqb c dq). }
  rewrite Hc. unfold trim_end_matches. rewrite str_rev_append. change (str_rev (String dq "")) with (String dq "").
  assert (Hr : strip_head dq (String dq "" +:+ str_rev (String c s)) = strip_head dq (str_rev (String c s))) by reflexivity.
  rewrite Hr, strip_head_none by (by rewrite str_forall_rev). apply str_rev_involutive.
Qed.

(** Joined pieces without the separator split into the pieces. *)
Lemma split_on_join (c : ascii) l : l <> [] ->
  Forall (fun s => str_forall (fun d => negb (Ascii.eqb d c)) s = true) l -> split_on c (Middleware.join (String c "") l) = l.
Proof.
  intros Hne. induction 1 as [|s l Hs Hl IH]; [done|]. destruct l as [|t l].
  - by apply split_on_single.
  - change (Middleware.join (String c "") (s :: t :: l)) with (s +:+ String c (Middleware.join (String c "") (t :: l))).
    by rewrite split_on_app, (split_on_single _ s), IH.
Qed.

Lemma join_forall p sep l : str_forall p sep = true -> Forall (fun s => str_forall p s = true) l ->
  str_forall p (Middleware.join sep l) = true.
Proof.
  intros Hsep. induction 1 as [|s l Hs Hl IH]; [done|]. destruct l as [|t l]; [done|].
  change (Middleware.join sep (s :: t :: l)) with (s +:+ sep +:+ Middleware.join sep (t :: l)).
  by rewrite !str_forall_app, Hs, Hsep, IH.
Qed.

Lemma item_ok_spec s : item_ok s = true ->
  s <> "" /\ unquoted s = true /\ str_forall (fun c => negb (Ascii.eqb c ",")) s = true /\ str_forall (fun c => negb (Ascii.eqb c "]")) s = true.
Proof.
  unfold item_ok. rewrite andb_true_iff, bool_decide_eq_true. intros [Hne Hs]. split_and!; [done|..];
    (eapply str_forall_impl; [|exact Hs]); intros c; rewrite !andb_true_iff; tauto.
Qed.

Lemma array_items_print l : forallb item_ok l = true -> array_items (Middleware.join "," (quote <$> l)) = l.
Proof.
  intros Hl. unfold array_items. destruct l as [|s l]; [reflexivity|]. rewrite split_on_join.
  - rewrite forallb_forall in Hl. rewrite <- list_fmap_compose.
    assert (Hm : forall l', (forall x, In x l' -> item_ok x = true) ->
      filter (fun s => s <> "") ((fun s => trim_matches dq (trim s)) ∘ quote <$> l') = l').
    { induction l' as [|x l' IH]; intros Hx; [done|]. cbn [fmap list_fmap]. destruct (item_ok_spec x) as (Hne & Hu & _); [apply Hx; by left|].
      unfold compose at 1. rewrite trim_quote, unquote by done. rewrite filter_cons_True by done. f_equal. apply IH. intros. apply Hx. by right. }
    by apply Hm.
  - done.
  - rewrite forallb_forall in Hl. apply Forall_fmap, Forall_forall. intros x Hx%list_elem_of_In.
    destruct (item_ok_spec x (Hl x Hx)) as (_ & _ & Hc & _). unfold compose, quote. cbn. rewrite str_forall_app, Hc. reflexivity.
Qed.

(** What may follow a value: nothing, or a comma. *)
Definition follows (rest : string) : Prop := rest = "" \/ exists t, rest = String "," t.

Lemma split_before_app ps a rest : str_forall (fun c => forallb (head_differs c) ps) a = true ->
  rest = "" \/ strip_any ps rest <> None -> split_before ps (a +:+ rest) = (a, rest).
Proof.
  intros Ha Hr. induction a as [|c a IH].
  - cbn [String.append]. destruct rest as [|c rest]; [done|]. destruct Hr as [|Hr]; [done|]. cbn [split_before].
    by destruct (strip_any ps (String c rest)).
  - cbn [str_forall] in Ha. apply andb_true_iff in Ha as [Hc Ha].
    change (String c a +:+ rest) with (String c (a +:+ rest)). cbn [split_before]. rewrite strip_any_plain by done. by rewrite (IH Ha).
Qed.

(** A byte other than a sign. *)
Lemma no_sign s : (forall ds, s <> String "-" ds) -> (forall ds, s <> String "+" ds) ->
  match s with String "-" ds => (true, ds) | String "+" ds => (false, ds) | _ => (false, s) end = (false, s).
Proof.
  intros H1 H2. destruct s as [|c s]; [done|].
  destruct c as [[] [] [] [] [] [] [] []]; try reflexivity; [by destruct (H2 s)|by destruct (H1 s)].
Qed.

Lemma parse_show_i64 n : in_i64 n -> parse_i64 (show_i64 n) = Some n.
Proof.
  intros Hn. unfold parse_i64, show_i64. destruct (Z.ltb_spec n 0).
  - destruct (dec_ok (- n)) as (Hd & Hf & Hne); [lia|]. rewrite bool_decide_eq_false_2 by done. rewrite Hf, Hd, Z.opp_involutive.
    unfold in_i64 in Hn. destruct (Z.leb_spec i64_min n), (Z.leb_spec n i64_max); try lia. done.
  - destruct (dec_ok n) as (Hd & Hf & Hne); [lia|]. rewrite no_sign; [| |];
      [|by intros ds He; rewrite He in Hf|by intros ds He; rewrite He in Hf].
    rewrite bool_decide_eq_false_2 by done. rewrite Hf, Hd.
    unfold in_i64 in Hn. destruct (Z.leb_spec i64_min n), (Z.leb_spec n i64_max); try lia. done.
Qed.

(** Digits and the minus sign start no other form of value and end no number. *)
Definition number_ends : list string := white_space ++ [","; "}"].
Definition number_char (c : ascii) : bool := is_digit c || Ascii.eqb c "-".

Lemma number_char_spec c : number_char c = true ->
  forallb (head_differs c) number_ends = true /\ Ascii.eqb dq c = false /\ Ascii.eqb "[" c = false /\
  Ascii.eqb "t" c = false /\ Ascii.eqb "f" c = false /\ Ascii.eqb "n" c = false /\ is_plain c = true.
Proof. destruct c as [[] [] [] [] [] [] [] []]; vm_compute; intros [=]; auto 10. Qed.

Lemma show_i64_chars n : str_forall number_char (show_i64 n) = true /\ show_i64 n <> "".
Proof.
  assert (Hd : forall k, 0 <= k -> str_forall number_char (dec k) = true /\ dec k <> "").
  { intros k Hk. destruct (dec_ok k Hk) as (_ & Hf & Hne). split; [|done]. eapply str_forall_impl; [|exact Hf].
    intros c Hc. unfold number_char. by rewrite Hc. }
  unfold show_i64. destruct (Z.ltb_spec n 0); [|by apply Hd]. destruct (Hd (- n)); [lia|]. split; [|done]. cbn. done.
Qed.

Lemma strip_none a p c s : Ascii.eqb a c = false -> RustStr.strip_prefix (String a p) (String c s) = None.
Proof. intros H. cbn. by rewrite H. Qed.

Lemma parse_number n rest : in_i64 n -> follows rest -> parse_value (show_i64 n +:+ rest) = Some (VNumber n, rest).
Proof.
  intros Hn Hr. destruct (show_i64_chars n) as [Hc Hne].
  assert (Hs : split_before number_ends (show_i64 n +:+ rest) = (show_i64 n, rest)).
  { apply split_before_app.
    - eapply str_forall_impl; [|exact Hc]. apply number_char_spec.
    - destruct Hr as [->|[t ->]]; [by left|]. right. vm_compute. by destruct t. }
  unfold parse_value. fold number_ends. rewrite Hs, parse_show_i64 by done. cbn [mbind option_bind].
  destruct (show_i64 n) as [|c s]; [done|]. cbn in Hc. apply andb_true_iff in Hc as [Hc _].
  destruct (number_char_spec c Hc) as (_ & H1 & H2 & H3 & H4 & H5 & _).
  change (String c s +:+ rest) with (String c (s +:+ rest)). rewrite !strip_none by done. done.
Qed.

Lemma parse_print_value k v rest : claim_ok (k, v) = true -> follows rest -> parse_value (print_value v +:+ rest) = Some (v, rest).
Proof.
  unfold claim_ok. cbn [fst snd]. rewrite andb_true_iff. intros [_ Hv] Hr. destruct v as [s|n|b|l|]; cbn [print_value].
  - unfold parse_value, quote. change (String dq (s +:+ String dq "") +:+ rest) with (String dq "" +:+ ((s +:+ String dq "") +:+ rest)).
    rewrite strip_prefix_app, str_app_assoc. cbn [String.append]. by rewrite split_once_app.
  - apply parse_number; [|done]. apply andb_true_iff in Hv as [?%Z.leb_le ?%Z.leb_le]. done.
  - by destruct b.
  - rewrite !str_app_assoc. unfold parse_value. change (RustStr.strip_prefix (String dq "") ("[" +:+ ?t)) with (@None string).
    rewrite strip_prefix_app. change ("]" +:+ rest) with (String "]" rest). rewrite split_once_app; cbn [mbind option_bind fst snd];
      [by rewrite array_items_print|].
    apply join_forall; [done|]. rewrite forallb_forall in Hv. apply Forall_fmap, Forall_forall. intros x Hx%list_elem_of_In.
    destruct (item_ok_spec x (Hv x Hx)) as (_ & _ & _ & Hc). unfold compose, quote. cbn. rewrite str_forall_app, Hc. reflexivity.
  - done.
Qed.

(** No value starts with white space. *)
Lemma value_start v rest : trim_start (print_value v +:+ rest) = print_value v +:+ rest.
Proof.
  destruct v as [s|n|[]|l|]; cbn [print_value]; try (unfold quote; apply trim_start_plain; reflexivity).
  destruct (show_i64_chars n) as [Hc Hne]. destruct (show_i64 n) as [|c s]; [done|]. cbn in Hc. apply andb_true_iff in Hc as [Hc _].
  apply trim_start_plain. apply (number_char_spec c Hc).
Qed.

Lemma claims_loop_step fuel c rest acc pre : pre = "" \/ pre = "," -> claim_ok c = true -> follows rest ->
  claims_loop (S fuel) (pre +:+ print_pair c +:+ rest) acc = claims_loop fuel rest (<[c.1 := c.2]> acc).
Proof.
  intros Hpre Hc Hr. destruct c as [k v]. cbn [claims_loop fst snd]. unfold print_pair. cbn [fst snd]. rewrite !str_app_assoc.
  assert (Hs : forall n t, (0 < n)%nat -> strip_all n blank_or_comma (pre +:+ String dq t) = String dq t).
  { intros n t Hn. destruct Hpre as [->| ->]; [by apply strip_all_plain|]. destruct n as [|n]; [lia|]. cbn [strip_all].
    change (strip_any blank_or_comma ("," +:+ String dq t)) with (Some (String dq t)). by apply strip_all_plain. }
  unfold quote at 1 2. change (String dq (k +:+ String dq "") +:+ ?t) with (String dq ((k +:+ String dq "") +:+ t)).
  rewrite Hs by (rewrite str_length_app; cbn; lia).
  change (RustStr.strip_prefix (String dq "") (String dq ?t)) with (Some t). cbv iota.
  rewrite !str_app_assoc. cbn [String.append]. unfold claim_ok in Hc. pose proof Hc as [Hk _]%andb_true_iff.
  rewrite split_once_app by done. change (":" +:+ ?t) with (String ":" t).
  rewrite trim_start_plain by reflexivity. change (RustStr.strip_prefix ":" (String ":" ?t)) with (Some t). cbv iota.
  by rewrite value_start, (parse_print_value k).
Qed.

(** The claims after the first, each with its comma. *)
Lemma claims_loop_rest cs : forall fuel acc, (length cs < fuel)%nat -> forallb claim_ok cs = true ->
  claims_loop fuel (foldr (fun c s => "," +:+ print_pair c +:+ s) "" cs) acc = Some (Some (foldl (fun m c => <[c.1 := c.2]> m) acc cs)).
Proof.
  induction cs as [|c cs IH]; intros fuel acc Hf Hc; (destruct fuel as [|fuel]; [lia|]); [done|].
  cbn [foldr foldl forallb length] in *. apply andb_true_iff in Hc as [Hc Hcs].
  rewrite claims_loop_step; [apply IH; [lia|done]|by right|done|].
  destruct cs; [by left|right; by eexists].
Qed.

Lemma join_cons c cs : Middleware.join "," (print_pair <$> c :: cs) = print_pair c +:+ foldr (fun c s => "," +:+ print_pair c +:+ s) "" cs.
Proof.
  revert c. induction cs as [|d cs IH]; intros c; [cbn; by rewrite str_app_nil_r|].
  change (Middleware.join "," (print_pair <$> c :: d :: cs)) with (print_pair c +:+ "," +:+ Middleware.join "," (print_pair <$> d :: cs)).
  rewrite IH. cbn [foldr]. done.
Qed.

Lemma braces_spec content : braces ("{" +:+ content +:+ "}") = Some content.
Proof.
  unfold braces. assert (Hl : last_byte ("{" +:+ content +:+ "}") = Some "}"%char).
  { rewrite <- str_app_assoc. apply last_byte_app. }
  change ("{" +:+ content +:+ "}") with (String "{" (content +:+ "}")) in *.
  rewrite (trim_plain _ _ "}"%char) by (done || reflexivity).
  unfold ends_with_byte. rewrite Hl. cbn [negb orb starts_with RustStr.strip_prefix]. rewrite Ascii.eqb_refl. cbn [negb orb].
  change (str_drop 1 (String "{" (content +:+ "}"))) with (content +:+ "}"). cbn [String.length].
  rewrite str_length_app. cbn [String.length]. replace (S (String.length content + 1) - 2)%nat with (String.length content) by lia.
  by rewrite str_take_app.
Qed.

Lemma parse_print_claims cs : forallb claim_ok cs = true ->
  parse_claims (print_claims cs) = Some (foldl (fun m c => <[c.1 := c.2]> m) ∅ cs).
Proof.
  intros Hc. unfold parse_claims, parse_claims_fuel, print_claims. rewrite braces_spec.
  destruct cs as [|c cs]; [reflexivity|]. cbn [forallb foldl] in *. apply andb_true_iff in Hc as [Hc Hcs].
  rewrite join_cons. change (print_pair c +:+ ?r) with ("" +:+ print_pair c +:+ r).
  rewrite claims_loop_step; [rewrite claims_loop_rest; [done| |done]|by left|done|destruct cs; [by left|right; by eexists]].
  rewrite !str_length_app. assert (Hp : (0 < String.length (print_pair c))%nat).
  { unfold print_pair, quote. rewrite str_length_app. cbn [String.length]. lia. }
  enough (length cs <= String.length (foldr (fun c s => "," +:+ print_pair c +:+ s) "" cs))%nat by lia.
  clear. induction cs as [|d cs IH]; [done|]. cbn [foldr length]. rewrite !str_length_app. cbn [String.length]. lia.
Qed.

(** Claims round trip: printed as a JSON object, claims whose names and
    texts have no quotation marks, whose numbers have 64 bits and whose array
    items are non-empty and free of commas and brackets, are read back exactly,
    the last of several with one name winning. *)
Theorem claims_roundtrip cs : forallb claim_ok cs = true ->
  parse_claims (print_claims cs) = Some (foldl (fun m c => <[c.1 := c.2]> m) ∅ cs).
Proof. apply parse_print_claims. Qed.

Definition demo_claims : list (string * ClaimValue) :=
  [("sub", VString "1 2"); ("exp", VNumber 99); ("nbf", VNumber (-5)); ("ok", VBool false); ("aud", VArray ["a b"; "c"]); ("x", VNull)].

Lemma claims_roundtrip_witness :
  parse_claims (print_claims demo_claims) = Some (list_to_map demo_claims : gmap string ClaimValue).
Proof. rewrite (claims_roundtrip demo_claims); vm_compute; reflexivity. Defined.

(** ** What is accepted *)
Lemma bytes_of_string_of l : Forall is_byte l -> bytes_of (string_of l) = l.
Proof.
  unfold bytes_of, string_of. rewrite String.list_ascii_of_string_of_list_ascii.
  induction 1 as [|b l Hb Hl IH]; [done|]. cbn [fmap list_fmap]. f_equal; [|done].
  unfold byte_of, as_u8, is_byte in *. rewrite Z.mod_small by lia. rewrite nat_ascii_embedding by lia. lia.
Qed.

(** The message authentication code of an algorithm (RFC 7518). *)
Definition mac (a : JwtAlgorithm) (key message : string) : list Z :=
  match a with
  | HS256 => hmac_spec sha256 64 (bytes_of key) (bytes_of message)
  | HS384 => hmac_spec sha384 128 (bytes_of key) (bytes_of message)
  | HS512 => hmac_spec sha512 128 (bytes_of key) (bytes_of message)
  | NoAlg => []
  end.

Lemma signature_mac a key message : signature a key message = Ok (string_of (mac a key message)).
Proof.
  unfold signature, hmac_sha256, hmac_sha384, hmac_sha512.
  destruct a; cbn [mac]; [rewrite (hmac_eq sha256 64 32)|rewrite (hmac_eq sha384 128 48)|rewrite (hmac_eq sha512 128 64)|];
    auto with hash; lia.
Qed.

Definition signed (m : JwtMiddleware) (message signature_b64 : string) : Prop :=
  algorithm m <> NoAlg -> exists key, secret m = Some key /\
    base64_url_decode_bytes signature_b64 = Some (string_of (mac (algorithm m) key message)).

Lemma verify_signature_ok m message s : verify_signature m message s = Ok tt <-> signed m message s.
Proof.
  unfold verify_signature, signed. destruct (decide (algorithm m = NoAlg)) as [Ha|Ha]; [by split|].
  destruct (secret m) as [key|]; cbn [ok_or res_bind]; [|split; [done|]; intros (? & ? & _); done].
  rewrite signature_mac. cbn [res_bind]. destruct (base64_url_decode_bytes s) as [sig|]; cbn [ok_or res_bind].
  - rewrite constant_time_compare_eq. case_bool_decide as He; cbn [negb].
    + split; [|done]. intros _ _. exists key. by rewrite He.
    + split; [done|]. intros (k & [= <-] & [= Hs]); [done|]. by destruct He.
  - split; [done|]. by intros (? & _ & ?).
Qed.

(** The configured issuer and audience. *)
Definition names_valid (m : JwtMiddleware) (claims : gmap string ClaimValue) : Prop :=
  (forall iss, issuer m = Some iss -> claims !! "iss" = Some (VString iss)) /\
  (forall aud, audience m = Some aud ->
     claims !! "aud" = Some (VString aud) \/ exists l, claims !! "aud" = Some (VArray l) /\ aud ∈ l).
(** What the code tests: the times as unsigned numbers. *)
Definition claims_pass (m : JwtMiddleware) (claims : gmap string ClaimValue) (now : Z) : Prop :=
  (forall e, claims !! "exp" = Some (VNumber e) -> now <= wrap_u64 e) /\
  (forall n, claims !! "nbf" = Some (VNumber n) -> wrap_u64 n <= now) /\ names_valid m claims.
(** What claims mean: the token may be used from [nbf] to [exp], both included. *)
Definition claims_valid (m : JwtMiddleware) (claims : gmap string ClaimValue) (now : Z) : Prop :=
  (forall e, claims !! "exp" = Some (VNumber e) -> now <= e) /\
  (forall n, claims !! "nbf" = Some (VNumber n) -> n <= now) /\ names_valid m claims.
Definition times_positive (claims : gmap string ClaimValue) : Prop :=
  forall k n, k = "exp" \/ k = "nbf" -> claims !! k = Some (VNumber n) -> 0 <= n <= i64_max.

Lemma pass_valid m claims now : times_positive claims -> claims_pass m claims now <-> claims_valid m claims now.
Proof.
  intros Ht. assert (Hw : forall k n, k = "exp" \/ k = "nbf" -> claims !! k = Some (VNumber n) -> wrap_u64 n = n).
  { intros k n Hk Hn. specialize (Ht k n Hk Hn). apply wrap_u64_id. word. }
  unfold claims_pass, claims_valid. split; intros (He & Hn & Hi); split_and!; try done; intros x Hx.
  - rewrite <- (Hw "exp" x); auto.
  - rewrite <- (Hw "nbf" x); auto.
  - rewrite (Hw "exp" x); auto.
  - rewrite (Hw "nbf" x); auto.
Qed.

Lemma issuer_ok_spec m cs : issuer_ok m cs = true <-> forall iss, issuer m = Some iss -> cs !! "iss" = Some (VString iss).
Proof.
  unfold issuer_ok. destruct (issuer m) as [iss|]; [|by split].
  destruct (cs !! "iss") as [[]|]; try (split; [done|]; intros H; by specialize (H iss eq_refl)).
  rewrite bool_decide_eq_true. split; [by intros -> ? [= <-]|]. intros H. by specialize (H iss eq_refl) as [= ->].
Qed.

Lemma audience_ok_spec m cs : audience_ok m cs = true <->
  forall aud, audience m = Some aud -> cs !! "aud" = Some (VString aud) \/ exists l, cs !! "aud" = Some (VArray l) /\ aud ∈ l.
Proof.
  unfold audience_ok. destruct (audience m) as [aud|]; [|by split].
  destruct (cs !! "aud") as [[]|]; rewrite ?bool_decide_eq_true;
    (split; [|intros H; destruct (H aud eq_refl) as [[=]|(? & [=] & ?)]; congruence]); try done.
  - intros -> ? [= <-]. by left.
  - intros Hin ? [= <-]. right. eauto.
Qed.

Lemma check_claims_ok m cs now : check_claims m cs now = Ok tt <-> claims_pass m cs now.
Proof.
  unfold claims_pass, names_valid. rewrite <- issuer_ok_spec, <- audience_ok_spec.
  unfold check_claims, check_expiration, check_not_before, as_u64.
  destruct (issuer_ok m cs), (audience_ok m cs); cbn [negb];
    destruct (cs !! "exp") as [[| e | | |]|], (cs !! "nbf") as [[| n | | |]|];
    repeat match goal with |- context [(?a <? ?b)] => destruct (Z.ltb_spec a b) end; cbn [res_bind];
    (split; [intros [=]; split_and!; try done; by intros ? [= <-]|
             intros (H1 & H2 & H3 & H4); try done;
             try (specialize (H1 _ eq_refl); lia); specialize (H2 _ eq_refl); lia]).
Qed.

Lemma verify_signature_unit m message s u : verify_signature m message s = Ok u -> signed m message s.
Proof. destruct u. apply verify_signature_ok. Qed.

(** The validation, decomposed. It never aborts. *)
Lemma validate_token_spec m now token claims :
  (validate_token m now token = Ok claims <->
   exists h p s hj hd pj,
     split_on "." token = [h; p; s] /\ base64_url_decode h = Some hj /\ parse_json_object hj = Some hd /\
     parse_algorithm (alg hd) = Some (algorithm m) /\ signed m (h +:+ "." +:+ p) s /\
     base64_url_decode p = Some pj /\ parse_claims pj = Some claims /\ claims_pass m claims now) /\
  validate_token m now token <> Panic.
Proof.
  unfold validate_token. split; [split|].
  - destruct (split_on "." token) as [|h [|p [|s [|]]]]; try done.
    destruct (base64_url_decode h) as [hj|] eqn:Eh; [|done]. cbn [ok_or res_bind].
    destruct (parse_json_object hj) as [hd|] eqn:Ehd; [|done]. cbn [ok_or res_bind].
    destruct (parse_algorithm (alg hd)) as [a|] eqn:Ea; [|done]. cbn [ok_or res_bind].
    destruct (decide (a = algorithm m)) as [->|]; [|done].
    destruct (verify_signature m _ s) as [u| |] eqn:Es; [|done..]. apply verify_signature_unit in Es. cbn [res_bind].
    destruct (base64_url_decode p) as [pj|] eqn:Ep; [|done]. cbn [ok_or res_bind].
    destruct (parse_claims pj) as [cs|] eqn:Ec; [|done]. cbn [ok_or res_bind].
    destruct (check_claims m cs now) as [[]| |] eqn:Ev; [|done..]. apply check_claims_ok in Ev. cbn [res_bind].
    intros [= <-]. exists h, p, s, hj, hd, pj. split_and!; done.
  - intros (h & p & s & hj & hd & pj & -> & -> & Hhd & Ha & Hs & Hp & Hc & Hv).
    cbn [ok_or res_bind]. rewrite Hhd. cbn [ok_or res_bind]. rewrite Ha. cbn [ok_or res_bind]. rewrite decide_True by done.
    rewrite (proj2 (verify_signature_ok _ _ _) Hs). cbn [res_bind]. rewrite Hp. cbn [ok_or res_bind]. rewrite Hc. cbn [ok_or res_bind].
    by rewrite (proj2 (check_claims_ok _ _ _) Hv).
  - destruct (split_on "." token) as [|h [|p [|s [|]]]]; try done.
    repeat match goal with |- context [ok_or ?o _] => destruct o; cbn [ok_or res_bind]; [|done] end.
    destruct (decide _); [|done].
    assert (Hv : verify_signature m (h +:+ "." +:+ p) s <> Panic).
    { unfold verify_signature. destruct (decide _); [done|]. destruct (secret m); [|done]. cbn [ok_or res_bind].
      rewrite signature_mac. cbn [res_bind]. destruct (base64_url_decode_bytes s); [|done]. cbn [ok_or res_bind]. by destruct (negb _). }
    destruct (verify_signature _ _ _) as [[]| |]; [|done|done]. cbn [res_bind].
    repeat match goal with |- context [ok_or ?o _] => destruct o; cbn [ok_or res_bind]; [|done] end.
    unfold check_claims, check_expiration, check_not_before. repeat case_match; done.
Qed.

(** ** Tokens minted with the secret *)
Definition header_text_of (a : JwtAlgorithm) : string :=
  "{" +:+ quote "alg" +:+ ":" +:+ quote (match a with HS256 => "HS256" | HS384 => "HS384" | HS512 => "HS512" | NoAlg => "none" end) +:+
  "," +:+ quote "typ" +:+ ":" +:+ quote "JWT" +:+ "}".

(** A token as RFC 7519 writes it: the base64url encodings of a header that names the
    algorithm, of the claims, and of the bytes of a signature. *)
Definition message_of (a : JwtAlgorithm) (cs : list (string * ClaimValue)) : string :=
  b64_body URL_ALPHABET (header_text_of a) +:+ "." +:+ b64_body URL_ALPHABET (print_claims cs).
Definition token_of (a : JwtAlgorithm) (cs : list (string * ClaimValue)) (sig : string) : string :=
  message_of a cs +:+ "." +:+ b64_body URL_ALPHABET sig.
Definition mint (a : JwtAlgorithm) (key : string) (cs : list (string * ClaimValue)) : string :=
  token_of a cs (string_of (mac a key (message_of a cs))).

Lemma ascii_utf8 s : is_ascii s = true -> utf8_valid s = true.
Proof.
  induction s as [|c s IH]; [done|]. cbn [is_ascii str_forall]. rewrite andb_true_iff. intros [Hc Hs]. cbn [utf8_valid].
  assert (Hr : in_range 0 127 c = true).
  { unfold is_ascii_byte in Hc. apply Nat.ltb_lt in Hc. unfold in_range, byte_of.
    apply andb_true_iff. split; apply Z.leb_le; lia. }
  rewrite Hr. by apply IH.
Qed.

Lemma url_decode_body s : base64_url_decode_bytes (b64_body URL_ALPHABET s) = Some s.
Proof.
  unfold base64_url_decode_bytes. rewrite trim_body by apply _. pose proof (decode_body URL_ALPHABET s) as Hd.
  destruct (b64_body URL_ALPHABET s) eqn:E; [|done]. by rewrite (body_empty URL_ALPHABET s).
Qed.

Lemma url_body_no_dot s : str_forall (fun c => negb (Ascii.eqb c ".")) (b64_body URL_ALPHABET s) = true.
Proof.
  apply body_forall. intros v Hv.
  assert (Hall : forallb (fun k => negb (Ascii.eqb (enc URL_ALPHABET (Z.of_nat k)) ".")) (seq 0 64) = true) by (vm_compute; reflexivity).
  rewrite forallb_forall in Hall. specialize (Hall (Z.to_nat v)). rewrite Z2Nat.id in Hall by lia. apply Hall, in_seq. lia.
Qed.

Lemma header_reads_back a : parse_json_object (header_text_of a) ≫= (fun h => parse_algorithm (alg h)) = Some a /\
  utf8_valid (header_text_of a) = true.
Proof. destruct a; vm_compute; done. Qed.

Definition minted_claims (cs : list (string * ClaimValue)) : gmap string ClaimValue := foldl (fun m c => <[c.1 := c.2]> m) ∅ cs.

(** Claims whose texts are ASCII print as ASCII. *)
Definition claim_ascii (c : string * ClaimValue) : bool :=
  is_ascii c.1 && match c.2 with VString s => is_ascii s | VArray l => forallb is_ascii l | _ => true end.

Lemma quote_ascii s : is_ascii s = true -> is_ascii (quote s) = true.
Proof. unfold is_ascii, quote. intros Hs. cbn [str_forall]. by rewrite str_forall_app, Hs. Qed.

Lemma number_ascii n : is_ascii (show_i64 n) = true.
Proof.
  eapply str_forall_impl; [|apply show_i64_chars]. intros c. unfold number_char, is_digit, is_ascii_byte.
  rewrite orb_true_iff, andb_true_iff, !Nat.leb_le, Nat.ltb_lt. intros [?|He]; [lia|]. apply Ascii.eqb_eq in He as ->. vm_compute. lia.
Qed.

Lemma join_quote_ascii l : forallb is_ascii l = true -> is_ascii (Middleware.join "," (quote <$> l)) = true.
Proof.
  intros Hl. apply join_forall; [done|]. rewrite forallb_forall in Hl.
  apply Forall_fmap, Forall_forall. intros x Hx%list_elem_of_In. by apply quote_ascii, Hl.
Qed.

Lemma print_claims_ascii cs : forallb claim_ascii cs = true -> is_ascii (print_claims cs) = true.
Proof.
  intros Hcs. unfold print_claims. unfold is_ascii. rewrite !str_forall_app. cbn [str_forall]. rewrite join_forall; [done|done|].
  rewrite forallb_forall in Hcs. apply Forall_fmap, Forall_forall. intros [k v] Hx%list_elem_of_In. specialize (Hcs _ Hx).
  unfold claim_ascii in Hcs. cbn [fst snd] in Hcs. apply andb_true_iff in Hcs as [Hk Hv]. unfold compose, print_pair. cbn [fst snd].
  rewrite !str_forall_app. fold (is_ascii (quote k)) (is_ascii (print_value v)). rewrite (quote_ascii k Hk). cbn [andb str_forall].
  destruct v as [s|n|[]|l|]; cbn [print_value]; [by apply quote_ascii|apply number_ascii|done|done| |done].
  unfold is_ascii. rewrite !str_forall_app. fold (is_ascii (Middleware.join "," (quote <$> l))). by rewrite join_quote_ascii.
Qed.

Lemma url_decode_text s : utf8_valid s = true -> base64_url_decode (b64_body URL_ALPHABET s) = Some s.
Proof. intros Hs. unfold base64_url_decode. rewrite url_decode_body. cbn [mbind option_bind]. by rewrite Hs. Qed.

Lemma split_parts a b c : str_forall (fun c => negb (Ascii.eqb c ".")) a = true ->
  str_forall (fun c => negb (Ascii.eqb c ".")) b = true -> str_forall (fun c => negb (Ascii.eqb c ".")) c = true ->
  split_on "." (a +:+ "." +:+ b +:+ "." +:+ c) = [a; b; c].
Proof.
  intros Ha Hb Hc. change (a +:+ "." +:+ b +:+ "." +:+ c) with (a +:+ String "." (b +:+ String "." c)).
  by rewrite !split_on_app, !split_on_single.
Qed.

Lemma three_inj {A} (a b c x y z : A) : [a; b; c] = [x; y; z] -> a = x /\ b = y /\ c = z.
Proof. by intros [= -> -> ->]. Qed.
Lemma join_split_on c s : split_on c s <> [] /\ Middleware.join (String c "") (split_on c s) = s.
Proof.
  induction s as [|d s [Hne IH]]; [done|]. cbn [split_on]. destruct (Ascii.eqb_spec d c) as [->|Hd].
  - split; [done|]. destruct (split_on c s) as [|t l]; [done|].
    change (Middleware.join (String c "") ("" :: t :: l)) with (String c (Middleware.join (String c "") (t :: l))). by rewrite IH.
  - destruct (split_on c s) as [|t l]; [done|]. split; [done|]. rewrite <- IH. by destruct l.
Qed.
Lemma split_three token h p s : split_on "." token = [h; p; s] -> token = h +:+ "." +:+ p +:+ "." +:+ s.
Proof.
  intros E. destruct (join_split_on "." token) as [_ H]. rewrite E in H. by rewrite <- H.
Qed.

(** What the validation sees of such a token. *)
Lemma token_of_spec m now a cs sig t : forallb claim_ok cs = true -> is_ascii (print_claims cs) = true ->
  validate_token m now (token_of a cs sig) = Ok t <->
  t = minted_claims cs /\ a = algorithm m /\
  (a = NoAlg \/ exists key, secret m = Some key /\ sig = string_of (mac a key (message_of a cs))) /\ claims_pass m (minted_claims cs) now.
Proof.
  intros Hc Ha. rewrite (proj1 (validate_token_spec m now _ t)). unfold token_of, message_of. rewrite !str_app_assoc.
  rewrite split_parts by apply url_body_no_dot. destruct (header_reads_back a) as [Hh Hu].
  pose proof (url_decode_text _ Hu) as Hd1. pose proof (url_decode_text _ (ascii_utf8 _ Ha)) as Hd2.
  pose proof (parse_print_claims _ Hc) as Hp. fold (minted_claims cs) in Hp. unfold signed. split.
  - intros (h & p & s & hj & hd & pj & (<- & <- & <-)%three_inj & Eh & Ehd & Ealg & Hs & Ep & Ec & Hv).
    rewrite Hd1 in Eh. injection Eh as <-. rewrite Hd2 in Ep. injection Ep as <-. rewrite Hp in Ec. injection Ec as <-.
    rewrite Ehd in Hh. cbn in Hh. rewrite Ealg in Hh. injection Hh as <-. split_and!; try done.
    destruct (decide (algorithm m = NoAlg)); [by left|right]. destruct (Hs n) as (key & Hk & Hsig). exists key. split; [done|].
    rewrite url_decode_body in Hsig. by injection Hsig.
  - intros (-> & -> & Hs & Hv). destruct (parse_json_object (header_text_of (algorithm m))) as [hd|] eqn:Ehd; [|done].
    eexists _, _, _, _, hd, _. split_and!; [reflexivity|exact Hd1|exact Ehd|exact Hh| |exact Hd2|exact Hp|exact Hv].
    intros Hn. destruct Hs as [?|(key & Hk & ->)]; [done|]. exists key. split; [done|]. apply url_decode_body.
Qed.

(** C9. What the JWT middleware accepts. On no text does the validation abort. Whatever
    the text of a token, if it is accepted and the middleware is configured for a
    signature, the token has three parts of which the third decodes to the HMAC of
    the first two under the configured secret. And of the tokens that name an
    algorithm, carry given claims (those the printer can express in ASCII, with
    times that are not negative) and end with given signature bytes, exactly
    those are accepted that name the configured algorithm, so that the sender
    cannot choose it, are signed with the HMAC of that algorithm under the
    configured secret (unless the middleware is configured for no signatures),
    are used at or after [nbf] and not after [exp], and have the configured issuer
    and audience; the claims that come out are those of the token. *)
Theorem jwt_accepts_exactly m now :
  (forall token, validate_token m now token <> Panic) /\
  (forall token t, validate_token m now token = Ok t -> algorithm m <> NoAlg ->
     exists h p s key, token = h +:+ "." +:+ p +:+ "." +:+ s /\ secret m = Some key /\
       base64_url_decode_bytes s = Some (string_of (mac (algorithm m) key (h +:+ "." +:+ p)))) /\
  (forall a cs sig t, forallb claim_ok cs = true -> is_ascii (print_claims cs) = true -> times_positive (minted_claims cs) ->
     validate_token m now (token_of a cs sig) = Ok t <->
     t = minted_claims cs /\ a = algorithm m /\
     (a = NoAlg \/ exists key, secret m = Some key /\ sig = string_of (mac a key (message_of a cs))) /\
     claims_valid m (minted_claims cs) now).
Proof.
  split_and!.
  - intros token. apply (validate_token_spec m now token ∅).
  - intros token t (h & p & s & hj & hd & pj & Hsp & _ & _ & _ & Hs & _)%validate_token_spec Hn.
    destruct (Hs Hn) as (key & Hk & Hd). exists h, p, s, key. split_and!; try done. by apply split_three.
  - intros a cs sig t Hc Ha Ht. by rewrite token_of_spec, pass_valid.
Qed.

Definition demo_jwt (a : JwtAlgorithm) : JwtMiddleware :=
  {| secret := Some "key"; algorithm := a; issuer := Some "me"; audience := Some "you"; Jwt.header_name := "authorization";
     header_prefix := "Bearer "; query_param := Some "token"; cookie_name := None; forward_claims := [("sub", "X-Sub")];
     strip_authorization_header := true |}.
Definition good_claims : list (string * ClaimValue) :=
  [("iss", VString "me"); ("aud", VArray ["us"; "you"]); ("exp", VNumber 100); ("sub", VString "u1")].

Lemma good_claims_valid a now : 0 <= now <= 100 -> claims_pass (demo_jwt a) (minted_claims good_claims) now.
Proof.
  intros Hn. unfold claims_pass, names_valid. split_and!.
  - intros e He. vm_compute in He. injection He as <-. rewrite wrap_u64_id by word. lia.
  - intros e He. vm_compute in He. discriminate.
  - intros iss [= <-]. vm_compute. reflexivity.
  - intros aud [= <-]. right. exists ["us"; "you"]. split; [vm_compute; reflexivity|]. right. left.
Qed.

Lemma good_times : times_positive (minted_claims good_claims).
Proof. intros k n [->| ->] Hn; vm_compute in Hn; [injection Hn as <-; vm_compute; split; discriminate|discriminate]. Qed.

Lemma jwt_accepts_exactly_witness :
  validate_token (demo_jwt HS512) 100 (mint HS512 "key" good_claims) = Ok (minted_claims good_claims) /\
  validate_token (demo_jwt HS256) 101 (mint HS256 "key" good_claims) <> Ok (minted_claims good_claims) /\
  validate_token (demo_jwt HS256) 100 (mint HS256 "kez" good_claims) = Err (401, "Invalid signature") /\
  validate_token (demo_jwt HS384) 100 (mint HS256 "key" good_claims) = Err (401, "Algorithm mismatch").
Proof.
  split_and!; [| |vm_compute; reflexivity..].
  - apply (jwt_accepts_exactly (demo_jwt HS512) 100);
      [vm_compute; reflexivity|vm_compute; reflexivity|exact good_times|].
    split_and!; [reflexivity|reflexivity|right; exists "key"; split; reflexivity|apply pass_valid, good_claims_valid; [exact good_times|lia]].
  - intros H. apply (jwt_accepts_exactly (demo_jwt HS256) 101) in H as (_ & _ & _ & He & _);
      [|vm_compute; reflexivity|vm_compute; reflexivity|exact good_times].
    specialize (He 100). vm_compute in He. by apply He.
Defined.

(** ** Expiry that is not enforced *)

(** A claim of expiry in the past may be accepted. A negative number becomes
    a huge one in the comparison and never expires; and the reader stops,
    without an error, at an escaped quotation mark in an earlier text, so that
    an [exp] after it is not seen. *)
Theorem jwt_expiry_not_enforced now : 0 <= now < 2 ^ 63 ->
  (forall n, - 2 ^ 63 <= n < 0 ->
     exists t, validate_token (demo_jwt HS256) now (mint HS256 "key" (good_claims ++ [("exp", VNumber n)])) = Ok t /\
       t !! "exp" = Some (VNumber n)) /\
  (exists cs, parse_claims ("{" +:+ quote "name" +:+ ":" +:+ String dq ("a\" +:+ String dq ("b" +:+ String dq ",")) +:+
       print_pair ("exp", VNumber 1) +:+ "}") = Some cs /\ cs !! "exp" = None /\ check_expiration cs now = Ok tt).
Proof.
  intros Hn. split.
  - intros n Hneg. set (cs := good_claims ++ [("exp", VNumber n)]).
    assert (Hexp : minted_claims cs !! "exp" = Some (VNumber n)).
    { unfold minted_claims, cs. rewrite foldl_app. apply lookup_insert_eq. }
    assert (Hother : forall k, k <> "exp" -> minted_claims cs !! k = minted_claims good_claims !! k).
    { intros k Hk. unfold minted_claims, cs. rewrite foldl_app. by apply lookup_insert_ne. }
    exists (minted_claims cs). split; [|done].
    apply token_of_spec; [| |split_and!; [done|done|right; by exists "key"|]].
    + unfold cs. rewrite forallb_app. apply andb_true_iff. split; [vm_compute; reflexivity|].
      cbn [forallb]. unfold claim_ok. cbn [fst snd]. rewrite (proj2 (Z.leb_le i64_min n)), (proj2 (Z.leb_le n i64_max)) by word.
      vm_compute. reflexivity.
    + apply print_claims_ascii. unfold cs. rewrite forallb_app. vm_compute. reflexivity.
    + destruct (good_claims_valid HS256 0 ltac:(lia)) as (_ & _ & Hiss & Haud). unfold claims_pass, names_valid. split_and!.
      * rewrite Hexp. intros e [= <-]. unfold wrap_u64. rewrite <- (Z.mod_add _ 1), Z.mod_small by lia. lia.
      * rewrite Hother by done. intros e He. vm_compute in He. discriminate.
      * by rewrite Hother.
      * by rewrite Hother.
  - exists {["name" := VString "a\"]}. split_and!; [vm_compute; reflexivity|reflexivity|reflexivity].
Qed.

Lemma jwt_expiry_not_enforced_witness :
  exists t, validate_token (demo_jwt HS256) 7 (mint HS256 "key" (good_claims ++ [("exp", VNumber (-1))])) = Ok t /\
    t !! "exp" = Some (VNumber (-1)).
Proof. apply (jwt_expiry_not_enforced 7); lia. Defined.
