(* ===== verification/DigestAuth.v ===== *)
(** * Digest authentication

    Models src/src/middleware/builtin/digest_auth.rs: the table of hashed
    credentials, the reader of the header's parameters, the check of a request
    and the challenge with its nonce. The thread-local generator and the clock
    are arguments; the MD5 routine is in [Hash]. *)
From S2P Require Import Prelude RustStr Encoding Balancer Hash HashProofs Duration Net Rule Http BasicAuth Jwt JwtProofs.
From stdpp Require Import list.
Open Scope Z_scope.
Open Scope list_scope.
#[local] Set Default Proof Using "Type*".

Section Digest.
Context `{HO : HttpOps} `{UL : UriLib} `{IL : IpLib}.

Record DigestAuthMiddleware := {
  d_users : gmap string string; (* user -> HA1 *)
  d_realm : string;
  nonce_counter : Z; (* AtomicU64 *)
  opaque : string;
}.

Record DigestAuthConfig := { dc_users : list string; dc_realm : option string }.

(** Texts joined by colons. *)
Definition colons (l : list string) : string := Middleware.join ":" l.

Definition digest_users (realm : string) (entries : list string) : gmap string string :=
  foldl (fun m e => match split_once ":" e with
                    | Some (user, pass) => <[user := md5_hex (colons [user; realm; pass])]> m
                    | None => m
                    end) ∅ entries.

(** [rng] is the state of the thread's generator. *)
Definition digest_new (c : DigestAuthConfig) (rng : Z) : DigestAuthMiddleware * Z :=
  let realm := default "Restricted" (dc_realm c) in
  let rng := xorshift32 rng in
  ({| d_users := digest_users realm (dc_users c); d_realm := realm; nonce_counter := 0;
      opaque := md5_hex ("opaque-" +:+ dec rng) |}, rng).

Definition nonce_data (timestamp counter random : Z) : string :=
  colons [dec timestamp; dec counter; dec random; "trafficcop"].

Definition generate_nonce (m : DigestAuthMiddleware) (timestamp rng : Z) : string * DigestAuthMiddleware * Z :=
  let counter := nonce_counter m in
  let rng := xorshift32 rng in
  (md5_hex (nonce_data timestamp counter rng),
   {| d_users := d_users m; d_realm := d_realm m; nonce_counter := wrap_u64 (counter + 1); opaque := opaque m |}, rng).

(** ** Parameters of the header *)
Fixpoint params_loop (fuel : nat) (remaining : string) (params : gmap string string) : option (option (gmap string string)) :=
  match fuel with
  | O => None
  | S fuel' =>
      let remaining := strip_all (String.length remaining) blank_or_comma remaining in
      if bool_decide (remaining = "") then Some (Some params)
      else
        match split_once "=" remaining with
        | None => Some None
        | Some (key, r) =>
            let key := to_ascii_lowercase (trim key) in
            match RustStr.strip_prefix (String dq "") r with
            | Some r =>
                match split_once dq r with
                | None => Some None
                | Some (v, r) => params_loop fuel' r (<[key := v]> params)
                end
            | None =>
                let '(v, r) := split_before [","] r in
                params_loop fuel' r (<[key := trim v]> params)
            end
        end
  end.

Definition parse_digest_params_fuel (input : string) : option (option (gmap string string)) :=
  let s := trim input in params_loop (S (String.length s)) s ∅.
Definition parse_digest_params (input : string) : option (gmap string string) := default None (parse_digest_params_fuel input).

(** ** The check *)
Definition verify_response (m : DigestAuthMiddleware) (username nonce uri response method : string)
    (qop nc cnonce : option string) : bool :=
  match d_users m !! username with
  | None => false
  | Some ha1 =>
      let ha2 := md5_hex (colons [method; uri]) in
      let expected :=
        match qop with
        | Some q =>
            if bool_decide (q = "auth") || bool_decide (q = "auth-int") then
              md5_hex (colons [ha1; nonce; default "00000001" nc; default "" cnonce; q; ha2])
            else md5_hex (colons [ha1; nonce; ha2])
        | None => md5_hex (colons [ha1; nonce; ha2])
        end in
      constant_time_compare expected response
  end.

Inductive AuthResult := Authenticated (user : string) | NeedsAuth | Invalid.

Definition authenticate (m : DigestAuthMiddleware) (req : Request) : AuthResult :=
  match hm_get (rq_headers req) "authorization" with
  | None => NeedsAuth
  | Some h =>
      match hv_to_str h with
      | None => Invalid
      | Some auth_str =>
          match RustStr.strip_prefix "Digest " auth_str with
          | None => Invalid
          | Some rest =>
              match parse_digest_params rest with
              | None => Invalid
              | Some params =>
                  match params !! "username", params !! "nonce", params !! "uri", params !! "response" with
                  | Some username, Some nonce, Some uri, Some response =>
                      if verify_response m username nonce uri response (rq_method req) (params !! "qop") (params !! "nc") (params !! "cnonce")
                      then Authenticated username else Invalid
                  | _, _, _, _ => Invalid
                  end
              end
          end
      end
  end.

(** The challenge; an illegal realm makes the builder's [unwrap] abort. *)
Definition challenge (m : DigestAuthMiddleware) (nonce : string) : string :=
  "Digest realm=" +:+ quote (d_realm m) +:+ ", nonce=" +:+ quote nonce +:+ ", opaque=" +:+ quote (opaque m) +:+
  ", qop=" +:+ quote "auth" +:+ ", algorithm=MD5".
Definition digest_unauthorized_response (m : DigestAuthMiddleware) (timestamp rng : Z)
    : result Empty_set Response * DigestAuthMiddleware * Z :=
  let '(nonce, m, rng) := generate_nonce m timestamp rng in
  (res_map (fun h => {| rs_status := 401; rs_headers := h; rs_body := Text "Unauthorized" |})
     (build_header "www-authenticate" (challenge m nonce) hm_empty), m, rng).

(** ** The reader of parameters *)
Lemma params_loop_total fuel : forall s ps, (String.length s < fuel)%nat -> exists r, params_loop fuel s ps = Some r.
Proof.
  induction fuel as [|fuel IH]; intros s ps Hf; [lia|]. cbn [params_loop].
  pose proof (strip_all_length (String.length s) blank_or_comma s) as Hs. set (s1 := strip_all _ _ s) in *.
  case_bool_decide; [by eexists|]. destruct (split_once "=" s1) as [[k r]|] eqn:E1; [|by eexists]. apply split_once_length in E1.
  destruct (RustStr.strip_prefix _ r) as [r2|] eqn:E2.
  - apply strip_prefix_length in E2. cbn in E2. destruct (split_once dq r2) as [[v r3]|] eqn:E3; [|by eexists].
    apply split_once_length in E3. apply IH. lia.
  - destruct (split_before [","] r) as [v r3] eqn:E3. apply split_before_length in E3. apply IH. lia.
Qed.

(** What a client writes: names in lower case with a value in quotation marks or, if it
    has no white space, comma or quotation mark, without. *)
Definition param : Type := string * string * bool. (* name, value, quoted *)
Definition name_ok (k : string) : bool :=
  bool_decide (k <> "") && bool_decide (to_ascii_lowercase k = k) &&
  str_forall (fun c => forallb (head_differs c) blank_or_comma && is_plain c && negb (Ascii.eqb c "=")) k.
Definition token_ok (v : string) : bool :=
  bool_decide (v <> "") && str_forall (fun c => is_plain c && negb (Ascii.eqb c ",") && negb (Ascii.eqb c dq)) v.
Definition print_param (p : param) : string := p.1.1 +:+ "=" +:+ (if p.2 then quote p.1.2 else p.1.2).
Definition print_params (ps : list param) : string := Middleware.join ", " (print_param <$> ps).
Definition param_ok (p : param) : bool := name_ok p.1.1 && (if p.2 then unquoted p.1.2 else token_ok p.1.2).
Definition params_map (ps : list param) : gmap string string := foldl (fun m p => <[p.1.1 := p.1.2]> m) ∅ ps.

(** The ends of an unquoted value. *)
Lemma token_ends v : token_ok v = true ->
  trim v = v /\ str_forall (fun c => forallb (head_differs c) [","]) v = true /\
  (forall rest, RustStr.strip_prefix (String dq "") (v +:+ rest) = None) /\ exists d, last_byte v = Some d /\ is_plain d = true.
Proof.
  unfold token_ok. rewrite andb_true_iff, bool_decide_eq_true. intros [Hne Hf]. destruct v as [|c v]; [done|].
  destruct (last_byte_some c v) as [d El].
  assert (Hall : forall q : ascii -> bool, (forall x, is_plain x && negb (Ascii.eqb x ",") && negb (Ascii.eqb x dq) = true -> q x = true) ->
    str_forall q (String c v) = true) by (intros q Hq; eapply str_forall_impl; [|exact Hf]; exact Hq).
  assert (Hp : str_forall is_plain (String c v) = true) by (apply Hall; intros x; rewrite !andb_true_iff; tauto).
  assert (Hd : is_plain d = true).
  { assert (Hr : str_forall is_plain (str_rev (String c v)) = true) by (by rewrite str_forall_rev).
    destruct (last_byte_rev _ _ El) as [t Ht]. rewrite Ht in Hr. cbn in Hr. by apply andb_true_iff in Hr as [? _]. }
  split_and!.
  - cbn [str_forall] in Hp. apply andb_true_iff in Hp as [Hc _]. by apply (trim_plain _ _ d).
  - apply Hall. intros x. rewrite !andb_true_iff. intros [[_ Hx] _]. cbn [forallb]. rewrite andb_true_r. unfold head_differs.
    by rewrite Ascii.eqb_sym.
  - intros rest. cbn [str_forall] in Hf. rewrite !andb_true_iff in Hf. destruct Hf as [[_ Hx] _]. apply strip_none. rewrite Ascii.eqb_sym.
    by destruct (Ascii.eqb c dq).
  - by exists d.
Qed.

Lemma name_ok_spec k : name_ok k = true ->
  to_ascii_lowercase k = k /\ str_forall (fun c => negb (Ascii.eqb c "=")) k = true /\ trim k = k /\
  exists c k', k = String c k' /\ forallb (head_differs c) blank_or_comma = true.
Proof.
  unfold name_ok. rewrite !andb_true_iff, !bool_decide_eq_true. intros [[Hne Hl] Hf].
  assert (Hp : str_forall is_plain k = true) by (eapply str_forall_impl; [|exact Hf]; intros c; rewrite !andb_true_iff; tauto).
  split_and!; [done|eapply str_forall_impl; [|exact Hf]; intros c; rewrite !andb_true_iff; tauto| |].
  - destruct k as [|c k]; [done|]. destruct (last_byte_some c k) as [d El].
    assert (Hd : str_forall is_plain (str_rev (String c k)) = true) by (by rewrite str_forall_rev).
    destruct (last_byte_rev _ _ El) as [t Ht]. rewrite Ht in Hd. cbn in Hp, Hd.
    apply andb_true_iff in Hp as [Hc _], Hd as [Hd _]. by apply (trim_plain _ _ d).
  - destruct k as [|c k]; [done|]. cbn [str_forall] in Hf. rewrite !andb_true_iff in Hf. exists c, k. tauto.
Qed.

Lemma params_loop_step fuel p rest acc pre : pre = "" \/ pre = ", " -> param_ok p = true -> follows rest ->
  params_loop (S fuel) (pre +:+ print_param p +:+ rest) acc = params_loop fuel rest (<[p.1.1 := p.1.2]> acc).
Proof.
  intros Hpre Hp Hrest. destruct p as [[k v] b]. unfold param_ok in Hp. cbn [fst snd] in *. apply andb_true_iff in Hp as [Hk Hv].
  destruct (name_ok_spec k Hk) as (Hl & Heq & Ht & c & k' & -> & Hc). cbn [params_loop]. unfold print_param. cbn [fst snd].
  rewrite !str_app_assoc.
  assert (Hs : forall n t, (String.length pre <= n)%nat -> strip_all n blank_or_comma (pre +:+ (String c k' +:+ t)) = String c k' +:+ t).
  { intros n t Hn. change (String c k' +:+ t) with (String c (k' +:+ t)). destruct Hpre as [->| ->]; [by apply strip_all_plain|].
    destruct n as [|[|n]]; [cbn in Hn; lia..|].
    change (strip_all (S (S n)) blank_or_comma (", " +:+ String c (k' +:+ t))) with (strip_all n blank_or_comma (String c (k' +:+ t))).
    by apply strip_all_plain. }
  rewrite Hs by (rewrite str_length_app; lia). rewrite bool_decide_eq_false_2 by done.
  change ("=" +:+ ?t) with (String "=" t). rewrite split_once_app by done. rewrite Ht, Hl. destruct b.
  - unfold quote. change (String dq (v +:+ String dq "") +:+ rest) with (String dq ((v +:+ String dq "") +:+ rest)).
    change (RustStr.strip_prefix (String dq "") (String dq ?t)) with (Some t). cbv iota.
    rewrite str_app_assoc. cbn [String.append]. by rewrite split_once_app.
  - destruct (token_ends v Hv) as (Htv & Hcv & Hdv & _). rewrite Hdv, split_before_app, Htv; [done|done|].
    destruct Hrest as [->|[t ->]]; [by left|right]. cbn. by destruct t.
Qed.

Lemma params_loop_rest ps : forall fuel acc, (length ps < fuel)%nat -> forallb param_ok ps = true ->
  params_loop fuel (foldr (fun p s => ", " +:+ print_param p +:+ s) "" ps) acc = Some (Some (foldl (fun m p => <[p.1.1 := p.1.2]> m) acc ps)).
Proof.
  induction ps as [|p ps IH]; intros fuel acc Hf Hp; (destruct fuel as [|fuel]; [lia|]); [done|].
  cbn [foldr foldl forallb length] in *. apply andb_true_iff in Hp as [Hp Hps].
  rewrite params_loop_step; [apply IH; [lia|done]|by right|done|destruct ps; [by left|right; by eexists]].
Qed.

Lemma join_params p ps : Middleware.join ", " (print_param <$> p :: ps) = print_param p +:+ foldr (fun p s => ", " +:+ print_param p +:+ s) "" ps.
Proof.
  revert p. induction ps as [|q ps IH]; intros p; [cbn; by rewrite str_app_nil_r|].
  change (Middleware.join ", " (print_param <$> p :: q :: ps)) with (print_param p +:+ ", " +:+ Middleware.join ", " (print_param <$> q :: ps)).
  rewrite IH. cbn [foldr]. done.
Qed.

(** The printed parameters have no white space at either end. *)
Lemma print_params_trim p ps : forallb param_ok (p :: ps) = true -> trim (print_params (p :: ps)) = print_params (p :: ps).
Proof.
  intros Hp. assert (Hl : exists d, last_byte (print_params (p :: ps)) = Some d /\ is_plain d = true).
  { assert (Hq : forall q, param_ok q = true -> exists t d, print_param q = t +:+ String d "" /\ is_plain d = true).
    { intros [[k v] []]; unfold param_ok, print_param; cbn [fst snd]; rewrite andb_true_iff; intros [_ Hv].
      - exists (k +:+ "=" +:+ String dq v), dq. unfold quote. rewrite !str_app_assoc. done.
      - destruct (token_ends v Hv) as (_ & _ & _ & d & El & Hd). destruct (last_byte_rev _ _ El) as [t Ht].
        exists (k +:+ "=" +:+ str_rev t), d. rewrite <- (str_rev_involutive v), Ht, str_rev_cons, !str_app_assoc. done. }
    unfold print_params. revert p Hp. induction ps as [|q ps IH]; intros p Hp; cbn [forallb] in Hp; apply andb_true_iff in Hp as [Hp Hps].
    - destruct (Hq p Hp) as (t & d & Ht & Hd). exists d. cbn. rewrite Ht. split; [apply last_byte_app|done].
    - change (Middleware.join ", " (print_param <$> p :: q :: ps)) with (print_param p +:+ ", " +:+ Middleware.join ", " (print_param <$> q :: ps)).
      destruct (IH q Hps) as (d & Hd & Hpl). exists d. split; [|done]. destruct (last_byte_rev _ _ Hd) as [t Ht].
      rewrite <- (str_rev_involutive (Middleware.join _ _)), Ht, str_rev_cons. rewrite <- !str_app_assoc. apply last_byte_app. }
  destruct Hl as (d & Hl & Hd).
  unfold print_params in *. rewrite join_params in *. cbn [forallb] in Hp. apply andb_true_iff in Hp as [Hp _].
  unfold param_ok in Hp. apply andb_true_iff in Hp as [Hk _]. destruct p as [[k v] b]. cbn [fst] in Hk.
  pose proof Hk as (_ & _ & _ & c & k' & -> & _)%name_ok_spec. unfold name_ok in Hk. rewrite !andb_true_iff in Hk.
  destruct Hk as [_ Hk]. cbn [str_forall] in Hk. rewrite !andb_true_iff in Hk. unfold print_param in *. cbn [fst snd String.append] in *.
  apply (trim_plain _ _ d); [tauto|done|done].
Qed.

Lemma parse_print_params ps : forallb param_ok ps = true ->
  parse_digest_params (print_params ps) = Some (params_map ps).
Proof.
  intros Hp. unfold parse_digest_params, parse_digest_params_fuel. destruct ps as [|p ps]; [reflexivity|].
  rewrite print_params_trim by done. unfold print_params, params_map. cbn [forallb foldl] in *. apply andb_true_iff in Hp as [Hp Hps].
  rewrite join_params. change (print_param p +:+ ?r) with ("" +:+ print_param p +:+ r).
  rewrite params_loop_step; [rewrite params_loop_rest; [done| |done]|by left|done|destruct ps; [by left|right; by eexists]].
  rewrite !str_length_app. assert (H1 : (0 < String.length (print_param p))%nat).
  { unfold print_param. rewrite !str_length_app. cbn [String.length]. lia. }
  enough (length ps <= String.length (foldr (fun p s => ", " +:+ print_param p +:+ s) "" ps))%nat by lia.
  clear. induction ps as [|d ps IH]; [done|]. cbn [foldr length]. rewrite !str_length_app. cbn [String.length]. lia.
Qed.

(** Digest parameters round trip, and the reader ends on every text: names in
    lower case with quoted or unquoted values, separated by commas, are read back
    exactly. *)
Theorem digest_params_roundtrip :
  (forall input, exists r, parse_digest_params_fuel input = Some r) /\
  (forall ps, forallb param_ok ps = true -> parse_digest_params (print_params ps) = Some (params_map ps)).
Proof. split; [|apply parse_print_params]. intros input. apply params_loop_total. lia. Qed.

(** ** The check *)

(** The response of RFC 2617, section 3.2.2: over the user's name and password, the
    realm, the nonce, the method, the URI and, with a quality of protection [q],
    the request counter and the client's nonce; the quality [auth-int] also covers
    the body. *)
Definition rfc_response (user realm pass nonce method uri body : string) (qop : option (string * string * string)) : string :=
  let ha1 := md5_hex (colons [user; realm; pass]) in
  match qop with
  | None => md5_hex (colons [ha1; nonce; md5_hex (colons [method; uri])])
  | Some (q, nc, cnonce) =>
      let a2 := if bool_decide (q = "auth-int") then colons [method; uri; md5_hex body] else colons [method; uri] in
      md5_hex (colons [ha1; nonce; nc; cnonce; q; md5_hex a2])
  end.

(** The quality of protection that parameters ask for: none, or [auth] with its two
    further parameters. *)
Definition asks (ps : gmap string string) (qop : option (string * string * string)) : Prop :=
  (ps !! "qop" = None /\ qop = None) \/
  exists nc cnonce, ps !! "qop" = Some "auth" /\ ps !! "nc" = Some nc /\ ps !! "cnonce" = Some cnonce /\ qop = Some ("auth", nc, cnonce).

(** The table holds the hash of each configured password. *)
Lemma digest_users_spec realm entries u :
  digest_users realm entries !! u = (fun pass => md5_hex (colons [u; realm; pass])) <$> users_of entries !! u.
Proof.
  unfold digest_users, users_of. assert (Hgen : forall (m m' : gmap string string),
    (forall u, m !! u = (fun pass => md5_hex (colons [u; realm; pass])) <$> m' !! u) ->
    foldl (fun m e => match split_once ":" e with Some (user, pass) => <[user := md5_hex (colons [user; realm; pass])]> m | None => m end) m entries !! u =
    (fun pass => md5_hex (colons [u; realm; pass])) <$> foldl (fun m e => match split_once ":" e with Some (u, p) => <[u := p]> m | None => m end) m' entries !! u).
  { induction entries as [|e entries IH]; intros m m' Hm; cbn [foldl]; [apply Hm|]. apply IH. intros v.
    destruct (split_once ":" e) as [[k p]|]; [|apply Hm].
    destruct (decide (k = v)) as [->|]; [by rewrite !lookup_insert_eq|by rewrite !lookup_insert_ne]. }
  apply Hgen. intros v. by rewrite !lookup_empty.
Qed.

(** What a middleware compares the response with. *)
Definition expected (ha1 nonce method uri : string) (tail : list string) : string :=
  md5_hex (colons ([ha1; nonce] ++ tail ++ [md5_hex (colons [method; uri])])).
Lemma verify_response_spec m u n uri r method qop nc cnonce :
  verify_response m u n uri r method qop nc cnonce = true <->
  exists ha1, d_users m !! u = Some ha1 /\
    r = expected ha1 n method uri
      (match qop with
       | Some q => if bool_decide (q = "auth") || bool_decide (q = "auth-int") then [default "00000001" nc; default "" cnonce; q] else []
       | None => [] end).
Proof.
  unfold verify_response, expected. destruct (d_users m !! u) as [ha1|].
  - rewrite constant_time_compare_eq, bool_decide_eq_true. split.
    + intros <-. exists ha1. split; [done|]. destruct qop as [q|]; [|done]. by destruct (_ || _).
    + intros (? & [= <-] & ->). destruct qop as [q|]; [|done]. by destruct (_ || _).
  - split; [done|]. by intros (? & ? & _).
Qed.

(** C35. Digest authentication with the quality of protection [auth] or none. For every
    header a client writes, with its parameters in any order, in quotation marks or
    not, and further parameters among them, that gives user name, nonce, URI and
    response, and either no quality of protection or [auth] with the counter and
    the client's nonce: the request is authenticated as that user exactly when the
    user is configured and the response is that of RFC 2617 over the configured
    password and realm and the request's method, and is invalid otherwise. Whatever
    the header, a request is authenticated only as a configured user and only with
    a response that is a hash over the hash of that user's name, realm and
    password, a nonce, and the hash of the method and a URI; and without the header
    the answer is to ask for it. (That [auth-int] is accepted without the body is
    [auth_int_ignores_body]; that nonce and URI are not checked is
    [digest_auth_replayable].) *)
Theorem digest_auth_exact c rng req :
  let m := (digest_new c rng).1 in
  let realm := default "Restricted" (dc_realm c) in
  let header := header_text (rq_headers req) "authorization" in
  (forall ps u n uri r qop, header = Some ("Digest " +:+ print_params ps) -> forallb param_ok ps = true ->
     let given := params_map ps in
     given !! "username" = Some u -> given !! "nonce" = Some n -> given !! "uri" = Some uri -> given !! "response" = Some r -> asks given qop ->
     authenticate m req =
       match users_of (dc_users c) !! u with
       | Some pass => if decide (r = rfc_response u realm pass n (rq_method req) uri "" qop) then Authenticated u else Invalid
       | None => Invalid
       end) /\
  (forall u, authenticate m req = Authenticated u ->
     exists rest given pass n uri tail, header = Some ("Digest " +:+ rest) /\ parse_digest_params rest = Some given /\
       given !! "username" = Some u /\ users_of (dc_users c) !! u = Some pass /\
       given !! "response" = Some (md5_hex (colons ([md5_hex (colons [u; realm; pass]); n] ++ tail ++ [md5_hex (colons [rq_method req; uri])])))) /\
  (hm_get (rq_headers req) "authorization" = None -> authenticate m req = NeedsAuth).
Proof.
  cbn zeta. unfold authenticate, header_text. split_and!.
  - intros ps u n uri r qop. destruct (hm_get (rq_headers req) "authorization") as [h|]; [|done]. cbn [mbind option_bind].
    intros -> Hp Hu Hn Huri Hr Hq. rewrite strip_prefix_app, parse_print_params by done. rewrite Hu, Hn, Huri, Hr.
    destruct (verify_response _ _ _ _ _ _ _ _ _) eqn:Ev.
    + apply verify_response_spec in Ev as (ha1 & Hd & Hx). cbn [digest_new fst d_users] in Hd. rewrite digest_users_spec in Hd.
      destruct (users_of (dc_users c) !! u) as [pass|]; [|done]. injection Hd as <-. rewrite decide_True; [done|].
      destruct Hq as [[Hq ->]|(nc & cn & Hq & Hnc & Hcn & ->)]; rewrite Hq in Hx; [done|]. by rewrite Hnc, Hcn in Hx.
    + destruct (users_of (dc_users c) !! u) as [pass|] eqn:Eu; [|done]. destruct (decide _) as [Hd|]; [|done].
      rewrite <- not_true_iff_false, verify_response_spec in Ev. destruct Ev. exists (md5_hex (colons [u; default "Restricted" (dc_realm c); pass])).
      cbn [digest_new fst d_users]. rewrite digest_users_spec, Eu. split; [done|].
      destruct Hq as [[-> ->]|(nc & cn & -> & -> & -> & ->)]; exact Hd.
  - intros u. destruct (hm_get (rq_headers req) "authorization") as [h|]; [|done]. cbn [mbind option_bind].
    destruct (hv_to_str h) as [t|]; [|done]. destruct (RustStr.strip_prefix _ t) as [rest|] eqn:Er; [|done].
    apply strip_prefix_Some in Er as ->. destruct (parse_digest_params rest) as [ps|] eqn:Ep; [|done].
    destruct (ps !! "username") as [u'|] eqn:E1; [|done]. destruct (ps !! "nonce") as [n|] eqn:E2; [|done].
    destruct (ps !! "uri") as [uri|] eqn:E3; [|done]. destruct (ps !! "response") as [r|] eqn:E4; [|done].
    destruct (verify_response _ _ _ _ _ _ _ _ _) eqn:Ev; [|done]. intros [= <-].
    apply verify_response_spec in Ev as (ha1 & Hd & Hr). cbn [digest_new fst d_users] in Hd. rewrite digest_users_spec in Hd.
    destruct (users_of (dc_users c) !! u') as [pass|] eqn:Eu; [|done]. injection Hd as <-.
    exists rest, ps, pass, n, uri. eexists. split_and!; [done|done|done|done|]. rewrite E4, Hr. reflexivity.
  - by intros ->.
Qed.

(** With [auth-int] the response that is accepted leaves out the body, so it is that of
    RFC 2617 for no body, whatever the body is. *)
Lemma auth_int_ignores_body m u ha1 n uri method nc cnonce : d_users m !! u = Some ha1 ->
  verify_response m u n uri (md5_hex (colons [ha1; n; nc; cnonce; "auth-int"; md5_hex (colons [method; uri])])) method
    (Some "auth-int") (Some nc) (Some cnonce) = true.
Proof. intros Hu. apply verify_response_spec. by exists ha1. Qed.

(** The decision depends on the table, the method and one header only: the nonce
    need not be one the server issued, may be used any number of times, and the
    parameter [uri] need not be the URI of the request. *)
Lemma digest_auth_replayable m m' req req' :
  d_users m = d_users m' -> rq_method req = rq_method req' ->
  hm_get (rq_headers req) "authorization" = hm_get (rq_headers req') "authorization" ->
  authenticate m req = authenticate m' req'.
Proof. intros Hu Hm Hh. unfold authenticate, verify_response. by rewrite Hh, Hm, Hu. Qed.

(** ** Nonces *)
Lemma dec_no_colon n : 0 <= n -> str_forall (fun c => negb (Ascii.eqb c ":")) (dec n) = true.
Proof. intros. by apply dec_no_char. Qed.

Lemma nonce_data_split t c r : 0 <= t -> 0 <= c -> 0 <= r -> split_on ":" (nonce_data t c r) = [dec t; dec c; dec r; "trafficcop"].
Proof. intros. unfold nonce_data, colons. apply split_on_join; [done|]. repeat constructor; auto using dec_no_colon. Qed.

(** The middleware after [k] challenges, with the clock and generator readings of
    each. *)
Fixpoint challenges (m : DigestAuthMiddleware) (readings : list (Z * Z)) : DigestAuthMiddleware :=
  match readings with [] => m | (t, rng) :: rs => challenges (generate_nonce m t rng).1.2 rs end.

Lemma challenges_counter rs : forall m, in_u64 (nonce_counter m) ->
  nonce_counter (challenges m rs) = wrap_u64 (nonce_counter m + Z.of_nat (length rs)).
Proof.
  induction rs as [|[t g] rs IH]; intros m Hm; cbn [challenges length]; [by rewrite Z.add_0_r, wrap_u64_id|].
  rewrite IH; cbn [generate_nonce fst snd nonce_counter]; [|apply wrap_u64_range].
  unfold wrap_u64. rewrite Z.add_mod_idemp_l by lia. f_equal. lia.
Qed.

(** Nonces do not repeat: the texts two challenges of one middleware hash
    into their nonces are different, whatever the clock and the generator say,
    unless exactly a multiple of 2^64 challenges lie between them. *)
Theorem digest_nonces_distinct m rs t g t' g' : in_u64 (nonce_counter m) -> (0 < length rs)%nat -> Z.of_nat (length rs) < 2 ^ 64 ->
  0 <= t -> 0 <= t' -> in_u32 g -> in_u32 g' ->
  (generate_nonce m t g).1.1 = md5_hex (nonce_data t (nonce_counter m) (xorshift32 g)) /\
  (generate_nonce (challenges m rs) t' g').1.1 = md5_hex (nonce_data t' (nonce_counter (challenges m rs)) (xorshift32 g')) /\
  nonce_data t (nonce_counter m) (xorshift32 g) <> nonce_data t' (nonce_counter (challenges m rs)) (xorshift32 g').
Proof.
  intros Hm Hl Hu Ht Ht' Hg Hg'. split_and!; [done|done|]. intros He%(f_equal (split_on ":")).
  pose proof (xorshift32_range g Hg). pose proof (xorshift32_range g' Hg'). rewrite (challenges_counter rs m Hm) in He.
  pose proof (wrap_u64_range (nonce_counter m + Z.of_nat (length rs))) as Hr.
  rewrite !nonce_data_split in He by word. injection He as _ Hc _. apply dec_inj in Hc; [|word..].
  unfold wrap_u64 in Hc. unfold in_u64, u64_max in Hm.
  destruct (Z.lt_ge_cases (nonce_counter m + Z.of_nat (length rs)) (2 ^ 64)); [rewrite Z.mod_small in Hc by lia; lia|].
  rewrite <- (Z.mod_add _ (-1)), Z.mod_small in Hc by lia. lia.
Qed.
End Digest.

(** The example of RFC 2617, section 3.5. *)
#[local] Existing Instance map_http.
#[local] Existing Instance text_uri.
#[local] Existing Instance two_hosts.
Definition mufasa_config : DigestAuthConfig := {| dc_users := ["Mufasa:Circle Of Life"]; dc_realm := Some "testrealm@host.com" |}.
Definition mufasa : DigestAuthMiddleware := (digest_new mufasa_config 0xDEADC0DE).1.
Definition rfc_params : list param :=
  [("username", "Mufasa", true); ("realm", "testrealm@host.com", true); ("nonce", "dcd98b7102dd2f0e8b11d0f600bfb0c093", true);
   ("uri", "/dir/index.html", true); ("qop", "auth", false); ("nc", "00000001", false); ("cnonce", "0a4f113b", true);
   ("response", "6629fae49393a05397450978507c4ef1", true); ("opaque", "5ccc069c403ebaf9f0171e9517f40e41", true)].
Definition rfc_request : Request :=
  {| rq_method := "GET"; rq_uri := (None, None, "/dir/index.html") : Uri;
     rq_headers := Middleware.Cors.insert_text "authorization" ("Digest " +:+ print_params rfc_params) hm_empty; rq_context := None |}.

Lemma digest_auth_exact_witness :
  authenticate mufasa rfc_request = Authenticated "Mufasa".
Proof.
  unfold mufasa. rewrite (proj1 (digest_auth_exact mufasa_config 0xDEADC0DE rfc_request) rfc_params "Mufasa" "dcd98b7102dd2f0e8b11d0f600bfb0c093"
    "/dir/index.html" "6629fae49393a05397450978507c4ef1" (Some ("auth", "00000001", "0a4f113b"))); try (vm_compute; reflexivity).
  right. exists "00000001", "0a4f113b". split_and!; vm_compute; reflexivity.
Defined.

Lemma digest_params_roundtrip_witness :
  parse_digest_params (print_params rfc_params) = Some (list_to_map (fst <$> rfc_params) : gmap string string).
Proof. rewrite (proj2 digest_params_roundtrip); vm_compute; reflexivity. Defined.

Lemma digest_nonces_distinct_witness :
  (generate_nonce mufasa 5 1).1.1 = md5_hex (nonce_data 5 0 (xorshift32 1)) /\
  nonce_data 5 0 (xorshift32 1) <> nonce_data 5 (nonce_counter (challenges mufasa [(5, 1)])) (xorshift32 1).
Proof.
  destruct (digest_nonces_distinct mufasa [(5, 1)] 5 1 5 1) as (H1 & _ & H2); [split; vm_compute; discriminate|cbn; lia|cbn; lia|lia|lia|word|word|].
  split; [exact H1|exact H2].
Defined.
