(* ===== verification/Grpc.v ===== *)
(** * gRPC and gRPC-Web

    Models src/src/proxy/grpc.rs (detection, status codes, error responses) and
    src/src/middleware/builtin/grpc_web.rs (translation of headers, base64 bodies
    and trailer frames). Bodies are byte strings. *)
From S2P Require Import Prelude RustStr Encoding Hash HashProofs Duration Net Rule Http Middleware BasicAuth JwtProofs.
From stdpp Require Import list.
Open Scope Z_scope.
Open Scope list_scope.
#[local] Set Default Proof Using "Type*".

Definition GRPC_CONTENT_TYPE : string := "application/grpc".
Definition GRPC_WEB_CONTENT_TYPE : string := "application/grpc-web".
Definition GRPC_WEB_TEXT_CONTENT_TYPE : string := "application/grpc-web-text".

Inductive GrpcStatus :=
| GOk | Cancelled | Unknown | InvalidArgument | DeadlineExceeded | NotFound | AlreadyExists | PermissionDenied
| ResourceExhausted | FailedPrecondition | Aborted | OutOfRange | Unimplemented | Internal | Unavailable | DataLoss
| Unauthenticated.

(** [status as i32] *)
Definition code (s : GrpcStatus) : Z :=
  match s with
  | GOk => 0 | Cancelled => 1 | Unknown => 2 | InvalidArgument => 3 | DeadlineExceeded => 4 | NotFound => 5
  | AlreadyExists => 6 | PermissionDenied => 7 | ResourceExhausted => 8 | FailedPrecondition => 9 | Aborted => 10
  | OutOfRange => 11 | Unimplemented => 12 | Internal => 13 | Unavailable => 14 | DataLoss => 15 | Unauthenticated => 16
  end.

Definition as_str (s : GrpcStatus) : string :=
  match s with
  | GOk => "OK" | Cancelled => "CANCELLED" | Unknown => "UNKNOWN" | InvalidArgument => "INVALID_ARGUMENT"
  | DeadlineExceeded => "DEADLINE_EXCEEDED" | NotFound => "NOT_FOUND" | AlreadyExists => "ALREADY_EXISTS"
  | PermissionDenied => "PERMISSION_DENIED" | ResourceExhausted => "RESOURCE_EXHAUSTED"
  | FailedPrecondition => "FAILED_PRECONDITION" | Aborted => "ABORTED" | OutOfRange => "OUT_OF_RANGE"
  | Unimplemented => "UNIMPLEMENTED" | Internal => "INTERNAL" | Unavailable => "UNAVAILABLE" | DataLoss => "DATA_LOSS"
  | Unauthenticated => "UNAUTHENTICATED"
  end.

Definition from_http_status (status : Z) : GrpcStatus :=
  match status with
  | 200 => GOk
  | 400 => InvalidArgument
  | 401 => Unauthenticated
  | 403 => PermissionDenied
  | 404 => NotFound
  | 408 => DeadlineExceeded
  | 409 => Aborted
  | 429 => ResourceExhausted
  | 499 => Cancelled
  | 500 => Internal
  | 501 => Unimplemented
  | 502 | 503 => Unavailable
  | 504 => DeadlineExceeded
  | _ => Unknown
  end.

(** ** Percent encoding

    A character beyond ASCII is encoded byte by byte, so the loop over characters
    is one over bytes. *)
Definition upper_hex (n : Z) : ascii := ascii_of_nat (Z.to_nat (if n <? 10 then n + 48 else n + 55)).
Definition pct (b : Z) : string := String "%" (String (upper_hex (b / 16)) (String (upper_hex (b mod 16)) "")).
Definition unreserved (c : ascii) : bool :=
  let n := byte_of c in
  ((48 <=? n) && (n <=? 57)) || ((65 <=? n) && (n <=? 90)) || ((97 <=? n) && (n <=? 122)) ||
  existsb (Ascii.eqb c) ["-"; "_"; "."; "~"]%char.
Definition encode_char (c : ascii) : string :=
  if Ascii.eqb c "%" then "%25"
  else if Ascii.eqb c " " then "%20"
  else if Ascii.eqb c (byte_at 10) then "%0A"
  else if Ascii.eqb c (byte_at 13) then "%0D"
  else if unreserved c then String c ""
  else pct (byte_of c).
Fixpoint percent_encode (s : string) : string :=
  match s with EmptyString => "" | String c s' => encode_char c +:+ percent_encode s' end.

(** ** Base64 bodies *)

(** [ALPHABET[i]]; the indices are below 64. *)
Definition sextet_char (i : Z) : ascii := enc ALPHABET i.

Fixpoint web_base64_encode (data : string) : string :=
  match data with
  | EmptyString => ""
  | String c0 rest =>
      let b0 := byte_of c0 in
      match rest with
      | EmptyString =>
          String (sextet_char (Z.shiftr b0 2)) (String (sextet_char (Z.shiftl (Z.land b0 3) 4)) "==")
      | String c1 rest1 =>
          let b1 := byte_of c1 in
          match rest1 with
          | EmptyString =>
              String (sextet_char (Z.shiftr b0 2)) (String (sextet_char (Z.lor (Z.shiftl (Z.land b0 3) 4) (Z.shiftr b1 4)))
                (String (sextet_char (Z.shiftl (Z.land b1 15) 2)) "="))
          | String c2 rest2 =>
              let b2 := byte_of c2 in
              String (sextet_char (Z.shiftr b0 2)) (String (sextet_char (Z.lor (Z.shiftl (Z.land b0 3) 4) (Z.shiftr b1 4)))
                (String (sextet_char (Z.lor (Z.shiftl (Z.land b1 15) 2) (Z.shiftr b2 6))) (String (sextet_char (Z.land b2 63))
                  (web_base64_encode rest2))))
          end
      end
  end.

(** Line breaks and spaces are skipped; a padding character ends the data. *)
Fixpoint web_decode_loop (data : string) (buf bits : Z) : option string :=
  match data with
  | EmptyString => Some ""
  | String byte data' =>
      if Ascii.eqb byte "=" then Some ""
      else if existsb (Ascii.eqb byte) [byte_at 10; byte_at 13; " "%char] then web_decode_loop data' buf bits
      else
        val ← char_to_val ALPHABET byte;
        let buf := Z.lor (wrap_u32 (Z.shiftl buf 6)) val in
        let bits := bits + 6 in
        if 8 <=? bits then
          let bits := bits - 8 in
          result ← web_decode_loop data' (Z.land buf (Z.shiftl 1 bits - 1)) bits;
          Some (String (as_u8 (Z.shiftr buf bits)) result)
        else web_decode_loop data' buf bits
  end.
Definition web_base64_decode (data : string) : option string := web_decode_loop data 0 0.

(** ** Trailers *)
Definition crlf : string := of_bytes [13; 10]%nat.
Definition trailer_line (t : string * string) : string := t.1 +:+ ": " +:+ t.2 +:+ crlf.
Definition trailer_data (ts : list (string * string)) : string := foldr (fun t s => trailer_line t +:+ s) "" ts.
Definition encode_trailers (trailers : list (string * string)) : string :=
  let data := trailer_data trailers in
  let len := wrap_u32 (Z.of_nat (String.length data)) in
  String (byte_at 128) "" +:+ string_of (to_be_bytes 4 len) +:+ data.

Section Messages.
Context `{HO : HttpOps} `{UL : UriLib} `{IL : IpLib} `{RL : RegexLib}.

Definition content_type_is (p : string -> bool) (h : HeaderMap) : bool :=
  match header_text h "content-type" with Some v => p v | None => false end.

Definition is_grpc_request (req : Request) : bool := content_type_is (starts_with GRPC_CONTENT_TYPE) (rq_headers req).
Definition is_web (v : string) : bool := starts_with GRPC_WEB_CONTENT_TYPE v || starts_with GRPC_WEB_TEXT_CONTENT_TYPE v.
Definition is_grpc_web_request (req : Request) : bool := content_type_is is_web (rq_headers req).
Definition is_grpc_web_text (req : Request) : bool := content_type_is (starts_with GRPC_WEB_TEXT_CONTENT_TYPE) (rq_headers req).

Definition grpc_error_response (status : GrpcStatus) (message : string) : result Empty_set Response :=
  res_bind (build_header "content-type" "application/grpc" hm_empty) (fun h =>
  res_bind (build_header "grpc-status" (dec (code status)) h) (fun h =>
  res_bind (build_header "grpc-message" (percent_encode message) h) (fun h =>
  Ok {| rs_status := 200; rs_headers := h; rs_body := Text "" |}))).
Definition grpc_gateway_error (http_status : Z) (message : string) : result Empty_set Response :=
  grpc_error_response (from_http_status http_status) message.

Definition prepare_grpc_request (h : HeaderMap) : HeaderMap :=
  match hm_get h "te" with Some _ => h | None => Cors.insert_text "te" "trailers" h end.

Definition copy_grpc_trailers (h : HeaderMap) (grpc_status grpc_message : option string) : HeaderMap :=
  let h := match grpc_status with Some s => Cors.insert_text "grpc-status" s h | None => h end in
  match grpc_message with Some s => Cors.insert_text "grpc-message" s h | None => h end.

(** ** gRPC-Web *)
Record GrpcWebMiddleware := { allow_origins : list Regex }.

(** [s.replace(c, by)] for a character. *)
Fixpoint replace_char (c : ascii) (by_ s : string) : string :=
  match s with
  | EmptyString => ""
  | String d s' => if Ascii.eqb d c then by_ +:+ replace_char c by_ s' else String d (replace_char c by_ s')
  end.
Definition origin_pattern (pattern : string) : string :=
  "^" +:+ replace_char "*" ".*" (replace_char "." "\." pattern) +:+ "$".
Definition grpc_web_new (patterns : list string) : GrpcWebMiddleware :=
  {| allow_origins := omap (fun p => match regex_new (origin_pattern p) with inr re => Some re | inl _ => None end) patterns |}.

Definition web_origin_allowed (m : GrpcWebMiddleware) (origin : string) : bool :=
  match allow_origins m with [] => true | res => existsb (fun re => is_match re origin) res end.

Record TransformResult := { is_grpc_web : bool; is_text : bool }.
Definition transform_request_headers (h : HeaderMap) : TransformResult * HeaderMap :=
  let text := content_type_is (starts_with GRPC_WEB_TEXT_CONTENT_TYPE) h in
  if negb (content_type_is is_web h) then ({| is_grpc_web := false; is_text := false |}, h)
  else ({| is_grpc_web := true; is_text := text |}, Cors.insert_text "content-type" GRPC_CONTENT_TYPE h).

(** The text is legal in a header; the source's fallback is never needed. *)
Definition transform_response_headers (h : HeaderMap) (text : bool) : HeaderMap :=
  let ct := if text then GRPC_WEB_TEXT_CONTENT_TYPE else GRPC_WEB_CONTENT_TYPE in
  Cors.insert_text "access-control-expose-headers" "grpc-status,grpc-message" (Cors.insert_text "content-type" ct h).

Definition extract_grpc_trailers (r : Response) : list (string * string) :=
  (match header_text (rs_headers r) "grpc-status" with Some s => [("grpc-status", s)] | None => [] end) ++
  (match header_text (rs_headers r) "grpc-message" with Some s => [("grpc-message", s)] | None => [] end).
End Messages.

(** ** Percent encoding is inverted by decoding *)
Definition from_hex (c : ascii) : Z := let n := byte_of c in if n <=? 57 then n - 48 else n - 55.
Fixpoint percent_decode (s : string) : string :=
  match s with
  | String "%" (String a (String b s')) => String (as_u8 (from_hex a * 16 + from_hex b)) (percent_decode s')
  | String c s' => String c (percent_decode s')
  | EmptyString => ""
  end.

(** One byte at a time, by running through the bytes. *)
Lemma encode_char_spec c : str_forall (fun d => visible_byte d && negb (Ascii.eqb d " ")) (encode_char c) = true /\
  forall s, percent_decode (encode_char c +:+ s) = String c (percent_decode s).
Proof. destruct c as [[] [] [] [] [] [] [] []]; (split; [vm_compute; reflexivity|intros s; reflexivity]). Qed.

Lemma percent_roundtrip s : percent_decode (percent_encode s) = s.
Proof. induction s as [|c s IH]; [done|]. cbn [percent_encode]. rewrite (proj2 (encode_char_spec c)). by rewrite IH. Qed.

Lemma percent_visible s : str_forall visible_byte (percent_encode s) = true.
Proof.
  induction s as [|c s IH]; [done|]. cbn [percent_encode]. rewrite str_forall_app, IH, andb_true_r.
  eapply str_forall_impl; [|apply encode_char_spec]. intros d. rewrite andb_true_iff. tauto.
Qed.

Lemma dec_visible n : 0 <= n -> str_forall visible_byte (dec n) = true.
Proof.
  intros Hn. destruct (dec_ok n Hn) as (_ & Hd & _). eapply str_forall_impl; [|exact Hd].
  intros c. unfold is_digit, visible_byte, byte_of. rewrite andb_true_iff, !Nat.leb_le. intros [? ?].
  apply orb_true_iff. left. apply andb_true_iff. split; apply Z.leb_le; lia.
Qed.

Section MessageProofs.
Context `{HL : HttpLaws} `{UL : UriLib} `{IL : IpLib}.

Lemma build_header_ok {E} k s h : str_forall visible_byte s = true ->
  exists v, build_header (E := E) k s h = Ok (hm_insert k v h) /\ hv_to_str v = Some s.
Proof. intros (v & Hv & Ht)%from_visible. exists v. unfold build_header. by rewrite Hv. Qed.

Lemma grpc_error_built http_status message :
  exists r, grpc_gateway_error http_status message = Ok r /\ rs_status r = 200 /\
    header_text (rs_headers r) "content-type" = Some "application/grpc" /\
    header_text (rs_headers r) "grpc-status" = Some (dec (code (from_http_status http_status))) /\
    header_text (rs_headers r) "grpc-message" = Some (percent_encode message).
Proof.
  set (st := from_http_status http_status). assert (Hc : 0 <= code st <= 16) by (destruct st; cbn; lia).
  unfold grpc_gateway_error, grpc_error_response. fold st.
  destruct (build_header_ok (E := Empty_set) "content-type" "application/grpc" hm_empty eq_refl) as (v1 & -> & T1). cbn [res_bind].
  destruct (build_header_ok (E := Empty_set) "grpc-status" (dec (code st)) (hm_insert "content-type" v1 hm_empty)) as (v2 & -> & T2);
    [apply dec_visible; lia|]. cbn [res_bind].
  match goal with |- context [build_header "grpc-message" ?t ?h] =>
    destruct (build_header_ok (E := Empty_set) "grpc-message" t h) as (v3 & -> & T3); [apply percent_visible|] end. cbn [res_bind].
  eexists. split_and!; [reflexivity|done| | |]; cbn [rs_headers]; unfold header_text.
  - rewrite !get_insert_ne, get_insert_eq by done. exact T1.
  - rewrite get_insert_ne, get_insert_eq by done. exact T2.
  - rewrite get_insert_eq. exact T3.
Qed.

(** Errors of gRPC requests. Whatever the message, the error response can be
    built, has HTTP status 200 and the gRPC content type, its status header is
    the number of the status the HTTP code stands for, a number from 0 to 16
    that determines the status, and its message header decodes to the message. *)
Theorem grpc_error_faithful http_status message :
  exists r, grpc_gateway_error http_status message = Ok r /\ rs_status r = 200 /\
    header_text (rs_headers r) "content-type" = Some "application/grpc" /\
    (exists n, header_text (rs_headers r) "grpc-status" = Some (dec n) /\ n = code (from_http_status http_status) /\ 0 <= n <= 16 /\
       (forall s, code s = n -> s = from_http_status http_status)) /\
    (exists t, header_text (rs_headers r) "grpc-message" = Some t /\ percent_decode t = message).
Proof.
  destruct (grpc_error_built http_status message) as (r & H1 & H2 & H3 & H4 & H5). exists r. split_and!; [done|done|done| |].
  - exists (code (from_http_status http_status)). split_and!; [done|done| | |];
      destruct (from_http_status http_status) eqn:E; cbn; try lia; intros s; by destruct s.
  - exists (percent_encode message). split; [done|apply percent_roundtrip].
Qed.
End MessageProofs.

(** ** Base64 *)
Lemma web_encode_body s : web_base64_encode s = base64_encode ALPHABET s.
Proof.
  unfold base64_encode. induction s as [|a|a b|a b c s IH] using string_ind3.
  - done.
  - cbn [web_base64_encode b64_body]. unfold sextet_char. rewrite Z.shiftr_div_pow2, land_3, Z.shiftl_mul_pow2 by byte_arith. done.
  - cbn [web_base64_encode b64_body]. unfold sextet_char. rewrite !Z.shiftr_div_pow2, land_3, land_15, !Z.shiftl_mul_pow2 by byte_arith.
    rewrite (lor_low 4) by byte_arith. done.
  - cbn [web_base64_encode b64_body String.append]. rewrite IH, b64_pad_three. unfold sextet_char.
    rewrite !Z.shiftr_div_pow2, land_3, land_15, land_63, !Z.shiftl_mul_pow2 by byte_arith.
    rewrite (lor_low 4), (lor_low 2) by byte_arith. done.
Qed.

(** Characters the decoder skips. *)
Definition skipped (c : ascii) : bool := existsb (Ascii.eqb c) [byte_at 10; byte_at 13; " "%char].
Fixpoint drop_skipped (s : string) : string :=
  match s with EmptyString => "" | String c s' => if skipped c then drop_skipped s' else String c (drop_skipped s') end.

Lemma char_valued c v : char_to_val ALPHABET c = Some v -> Ascii.eqb c "=" = false /\ skipped c = false.
Proof. destruct c as [[] [] [] [] [] [] [] []]; vm_compute; intros [=]; done. Qed.

Lemma web_decode_skips s : forall buf bits r tail, decode_loop ALPHABET (drop_skipped s) buf bits = Some r ->
  tail = "" \/ (exists t, tail = String "=" t) -> web_decode_loop (s +:+ tail) buf bits = Some r.
Proof.
  induction s as [|c s IH]; intros buf bits r tail Hd Ht.
  - cbn in Hd. injection Hd as <-. destruct Ht as [->|[t ->]]; done.
  - change (String c s +:+ tail) with (String c (s +:+ tail)). cbn [drop_skipped] in Hd. cbn [web_decode_loop]. fold (skipped c).
    destruct (skipped c) eqn:Es.
    + destruct (Ascii.eqb_spec c "=") as [->|]; [by vm_compute in Es|]. by apply IH.
    + cbn [decode_loop] in Hd. destruct (char_to_val ALPHABET c) as [v|] eqn:Ec; [|done]. cbn [mbind option_bind] in *.
      rewrite (proj1 (char_valued c v Ec)). destruct (8 <=? bits + 6); [|by apply IH].
      destruct (decode_loop ALPHABET (drop_skipped s) _ _) as [r'|] eqn:Er; [|done]. cbn [mbind option_bind] in Hd. injection Hd as <-.
      erewrite IH by done. done.
Qed.

(** Encoded text has nothing to skip. *)
Lemma body_not_skipped s : drop_skipped (b64_body ALPHABET s) = b64_body ALPHABET s.
Proof.
  assert (Hb : str_forall (fun c => negb (skipped c)) (b64_body ALPHABET s) = true).
  { apply body_forall. intros v Hv. by rewrite (proj2 (char_valued _ v (enc_val ALPHABET v Hv))). }
  revert Hb. generalize (b64_body ALPHABET s). induction s0 as [|c t IH]; [done|]. cbn [str_forall drop_skipped].
  destruct (skipped c); [done|]. cbn [negb andb]. intros Ht. by rewrite IH.
Qed.

(** gRPC-Web bodies. The encoder of text bodies computes the base64 encoding
    of RFC 4648, and the decoder inverts it, also when line breaks and spaces
    have been inserted into the encoded text. *)
Theorem grpc_web_base64 s :
  web_base64_encode s = base64_encode ALPHABET s /\ web_base64_decode (web_base64_encode s) = Some s /\
  (forall t, drop_skipped t = b64_body ALPHABET s -> web_base64_decode (t +:+ b64_pad s) = Some s).
Proof.
  assert (Hpad : b64_pad s = "" \/ exists t, b64_pad s = String "=" t).
  { unfold b64_pad. destruct (String.length s mod 3)%nat as [|[|]]; [by left|right; by eexists..]. }
  assert (Hgen : forall t, drop_skipped t = b64_body ALPHABET s -> web_base64_decode (t +:+ b64_pad s) = Some s).
  { intros t Ht. apply web_decode_skips; [|done]. rewrite Ht. apply decode_body. apply _. }
  split_and!; [apply web_encode_body| |exact Hgen]. rewrite web_encode_body. apply Hgen.
  apply body_not_skipped.
Qed.

(** The decoder stops at the first padding character, so of two encoded pieces in
    one body (gRPC-Web text streams encode each message by itself) the second
    is lost whenever the first has padding. *)
Lemma web_decode_truncates a b : (String.length a mod 3 <> 0)%nat ->
  web_base64_decode (web_base64_encode a +:+ web_base64_encode b) = Some a.
Proof.
  intros Ha. rewrite !web_encode_body. unfold base64_encode at 1. rewrite str_app_assoc.
  apply web_decode_skips; [rewrite body_not_skipped; apply decode_body; apply _|]. right. unfold b64_pad.
  destruct (String.length a mod 3)%nat as [|[|]]; [done|by eexists..].
Qed.

(** ** Trailer frames *)

(** A reader of frames: flag, length, lines. *)
Fixpoint read_lines (fuel : nat) (s : string) : option (list (string * string)) :=
  match fuel with
  | O => None
  | S fuel' =>
      match s with
      | EmptyString => Some []
      | _ =>
          match split_once (byte_at 13) s with
          | Some (line, String _ rest) =>
              kv ← split_once ":" line; rs ← read_lines fuel' rest; Some ((kv.1, str_drop 1 kv.2) :: rs)
          | _ => None
          end
      end
  end.
Definition read_frame (frame : string) : option (list (string * string)) :=
  match frame with
  | String flag s =>
      let len := from_be_bytes (bytes_of (str_take 4 s)) in
      let data := str_drop 4 s in
      if bool_decide (byte_of flag = 128) && bool_decide (len = Z.of_nat (String.length data)) then read_lines (S (String.length data)) data
      else None
  | EmptyString => None
  end.

Definition trailer_ok (t : string * string) : bool :=
  str_forall (fun c => negb (Ascii.eqb c ":") && negb (Ascii.eqb c (byte_at 13))) t.1 &&
  str_forall (fun c => negb (Ascii.eqb c (byte_at 13))) t.2.

Lemma string_of_length l : String.length (string_of l) = length l.
Proof. unfold string_of. induction l as [|b l IH]; [done|]. cbn. by rewrite <- IH. Qed.

Lemma read_lines_spec ts : forall fuel, (length ts < fuel)%nat -> forallb trailer_ok ts = true ->
  read_lines fuel (trailer_data ts) = Some ts.
Proof.
  induction ts as [|[k v] ts IH]; intros fuel Hf Ht; (destruct fuel as [|fuel]; [lia|]); [done|].
  cbn [forallb length] in *. apply andb_true_iff in Ht as [Ht Hts]. unfold trailer_ok in Ht. cbn [fst snd] in Ht.
  apply andb_true_iff in Ht as [Hk Hv]. cbn [trailer_data foldr]. fold (trailer_data ts). unfold trailer_line. cbn [fst snd].
  assert (Hne : forall x y, (k +:+ ": " +:+ x) +:+ y <> "") by (intros x y; by destruct k).
  assert (Hcr : str_forall (fun c => negb (Ascii.eqb c (byte_at 13))) (k +:+ ": " +:+ v) = true).
  { rewrite !str_forall_app, Hv. cbn [str_forall]. rewrite (str_forall_impl _ _ k) with (2 := Hk); [done|].
    intros c. rewrite andb_true_iff. tauto. }
  assert (Hco : str_forall (fun c => negb (Ascii.eqb c ":")) k = true)
    by (eapply str_forall_impl; [|exact Hk]; intros c; rewrite andb_true_iff; tauto).
  assert (He : (k +:+ ": " +:+ v +:+ crlf) +:+ trailer_data ts = (k +:+ ": " +:+ v) +:+ String (byte_at 13) (String (byte_at 10) (trailer_data ts))).
  { rewrite !str_app_assoc. reflexivity. }
  rewrite He. cbn [read_lines]. destruct ((k +:+ ": " +:+ v) +:+ _) eqn:E; [by destruct (Hne v (String (byte_at 13) (String (byte_at 10) (trailer_data ts))))|].
  rewrite <- E, split_once_app by done. change (": " +:+ v) with (String ":" (String " " v)). rewrite split_once_app by done.
  cbn [mbind option_bind fst snd str_drop]. rewrite IH by (lia || done). by destruct v.
Qed.

(** Trailer frames round trip: a reader of the gRPC-Web framing (flag 0x80,
    four bytes of big-endian length, lines of a name, a colon, a space and a
    value) recovers the trailers of an encoded frame, for names without colons
    and texts without carriage returns, up to 4 GiB; in particular the status
    and message the middleware extracts from a response. *)
Theorem grpc_web_trailers_roundtrip ts :
  forallb trailer_ok ts = true -> Z.of_nat (String.length (trailer_data ts)) < 2 ^ 32 ->
  read_frame (encode_trailers ts) = Some ts.
Proof.
  intros Ht Hl. unfold encode_trailers, read_frame. change (String (byte_at 128) "" +:+ ?s) with (String (byte_at 128) s). cbv iota.
  set (len := wrap_u32 _). assert (Hlen : len = Z.of_nat (String.length (trailer_data ts))) by (apply wrap_u32_id; word).
  assert (H4 : String.length (string_of (to_be_bytes 4 len)) = 4%nat) by (by rewrite string_of_length, to_be_bytes_length).
  pose proof (str_take_app (string_of (to_be_bytes 4 len)) (trailer_data ts)) as Ht4.
  pose proof (str_drop_app (string_of (to_be_bytes 4 len)) (trailer_data ts)) as Hd4. rewrite H4 in Ht4, Hd4. rewrite Ht4, Hd4.
  rewrite bytes_of_string_of, from_to_be_bytes by apply to_be_bytes_bytes. rewrite Z.mod_small by (rewrite Hlen; cbn; lia).
  rewrite bool_decide_eq_true_2 by reflexivity. rewrite bool_decide_eq_true_2 by done. cbn [andb].
  apply read_lines_spec; [|done]. clear. induction ts as [|t ts IH]; [cbn; lia|]. cbn [trailer_data foldr length].
  fold (trailer_data ts). unfold trailer_line. rewrite !str_length_app. cbn [String.length]. lia.
Qed.

Lemma grpc_web_trailers_roundtrip_witness :
  read_frame (encode_trailers [("grpc-status", "5"); ("grpc-message", "a: b")]) = Some [("grpc-status", "5"); ("grpc-message", "a: b")].
Proof. apply (grpc_web_trailers_roundtrip [("grpc-status", "5"); ("grpc-message", "a: b")]); vm_compute; reflexivity. Defined.

Lemma grpc_error_faithful_witness :
  exists r, grpc_gateway_error (HO := map_http) 503 "backend down: 100%" = Ok r /\
    header_text (HO := map_http) (rs_headers r) "grpc-status" = Some "14".
Proof.
  destruct (@grpc_error_faithful map_http map_http_laws 503 "backend down: 100%") as (r & Hr & _ & _ & (n & Hs & -> & _) & _).
  exists r. split; [exact Hr|exact Hs].
Defined.

Lemma grpc_web_base64_witness : web_base64_decode ("aG" +:+ String (byte_at 10) "k" +:+ "=") = Some "hi".
Proof. apply (proj2 (proj2 (grpc_web_base64 "hi")) ("aG" +:+ String (byte_at 10) "k")). vm_compute. reflexivity. Defined.

(** An origin list none of whose patterns compiles allows every origin. *)
Lemma web_origins_open `{RegexLib} patterns origin :
  (forall p, p ∈ patterns -> exists e, regex_new (origin_pattern p) = inl e) -> web_origin_allowed (grpc_web_new patterns) origin = true.
Proof.
  intros Hp. unfold web_origin_allowed, grpc_web_new. cbn [allow_origins].
  assert (He : omap (fun p => match regex_new (origin_pattern p) with inr re => Some re | inl _ => None end) patterns = []).
  { induction patterns as [|p ps IH]; [done|]. destruct (Hp p) as [e He]; [left|]. cbn [omap list_omap]. rewrite He. apply IH.
    intros q Hq. apply Hp. by right. }
  by rewrite He.
Qed.
