(* ===== verification/Pipeline.v ===== *)
(** * The middleware pipeline

    Models src/src/middleware/registry.rs (construction, lookup and the
    [Middleware] wrappers), [Next::run] of src/src/middleware/mod.rs and
    [build_proxied_request] of src/src/proxy/handler.rs. Middlewares are shared
    by all requests, so their state is kept in the registry and threaded through
    a run. The endpoint (forwarding to the backend) is a parameter that acts on
    a world of its own. *)
From S2P Require Import Prelude RustStr Rule Net Http Middleware BasicAuth LocalStore RateLimit.
From stdpp Require Import list.
Open Scope Z_scope.
Open Scope list_scope.
#[local] Set Default Proof Using "Type*".

Section Pipeline.
Context `{HO : HttpOps} `{UL : UriLib} `{IL : IpLib} `{RO : RegexOps}.

(** ** Registry *)

(** The kinds of middleware the registry can build; a kind is configured by a
    field. *)
Record MiddlewareConfig := {
  c_headers : option (list (string * string) * list (string * string) * Cors.HeadersConfig);
  c_rate_limit : option RateLimitConfig;
  c_ip_allow_list : option (list string * option IpFilter.IpStrategy * option Z);
  c_ip_white_list : option (list string * option IpFilter.IpStrategy * option Z);
  c_ip_deny_list : option (list string * option IpFilter.IpStrategy);
  c_basic_auth : option BasicAuthConfig;
  c_redirect_scheme : option Redirect.RedirectSchemeConfig;
  c_strip_prefix : option Path.StripPrefix;
  c_add_prefix : option string;
  c_replace_path : option string;
  c_strip_prefix_regex : option (list string);
  c_replace_path_regex : option (string * string);
  c_compress : option Z;
}.

Inductive Instance :=
| IHeaders (h : Headers.t)
| IHeadersAndCors (h : Headers.t) (c : Cors.t)
| IRateLimit (m : RateLimitMiddleware Empty_set) (* local only *)
| IIpAllow (f : IpFilter.t)
| IIpDeny (f : IpFilter.t)
| IBasicAuth (m : BasicAuthMiddleware)
| IRedirectScheme (m : Redirect.t)
| IStripPrefix (m : Path.StripPrefix)
| IAddPrefix (prefix : string)
| IReplacePath (path : string)
| IStripPrefixRegex (patterns : list Regex)
| IReplacePathRegex (pattern : Regex) (replacement : string)
| ICompress (min_size : Z).

(** The last three kinds: each is tried when the one before does not apply. *)
Definition create_compress (c : MiddlewareConfig) : option Instance := ICompress <$> c_compress c.
Definition create_replace_regex (c : MiddlewareConfig) : option Instance :=
  match c_replace_path_regex c with
  | Some (p, replacement) =>
      match regex_new p with inr re => Some (IReplacePathRegex re replacement) | inl _ => create_compress c end
  | None => create_compress c
  end.
Definition create_strip_regex (c : MiddlewareConfig) : option Instance :=
  match c_strip_prefix_regex c ≫= Path.strip_regex_new with
  | Some ps => Some (IStripPrefixRegex ps)
  | None => create_replace_regex c
  end.

(** The first configured kind, in the order of the source. Only the realm of
    basic authentication can abort. *)
Definition create_middleware (c : MiddlewareConfig) : result Empty_set (option Instance) :=
  match c_headers c with
  | Some (rq, rs, hc) =>
      let h := Headers.new rq rs in
      Ok (Some (match Cors.from_headers_config hc with Some cors => IHeadersAndCors h cors | None => IHeaders h end))
  | None =>
  match c_rate_limit c with Some rl => Ok (Some (IRateLimit (mw_new rl None))) | None =>
  match (match c_ip_allow_list c with Some a => Some a | None => c_ip_white_list c end) with
  | Some (ranges, strategy, reject) => Ok (Some (IIpAllow (IpFilter.new ranges strategy reject))) | None =>
  match c_ip_deny_list c with
  | Some (ranges, strategy) => Ok (Some (IIpDeny (IpFilter.new ranges strategy None))) | None =>
  match c_basic_auth c with Some a => res_map (fun m => Some (IBasicAuth m)) (basic_auth_new hv_from_str a) | None =>
  match c_redirect_scheme c with Some r => Ok (Some (IRedirectScheme (Redirect.new r))) | None =>
  match c_strip_prefix c with Some s => Ok (Some (IStripPrefix s)) | None =>
  match c_add_prefix c with Some p => Ok (Some (IAddPrefix p)) | None =>
  match c_replace_path c with Some p => Ok (Some (IReplacePath p)) | None =>
  Ok (create_strip_regex c)
  end end end end end end end end end.

Abbreviation registry := (gmap string Instance).

(** [MiddlewareRegistry::from_config]: unsupported kinds are left out. *)
Fixpoint registry_new (cfg : list (string * MiddlewareConfig)) (reg : registry) : result Empty_set registry :=
  match cfg with
  | [] => Ok reg
  | (name, c) :: cfg' =>
      res_bind (create_middleware c) (fun o =>
        registry_new cfg' (match o with Some i => <[name := i]> reg | None => reg end))
  end.

(** [resolve]: names that are not registered are skipped. *)
Definition resolve (reg : registry) (names : list string) : list string :=
  filter (fun n => is_Some (reg !! n)) names.

(** ** Running a request through the chain *)
Context {W E : Type}.

Definition error_response (status : Z) (msg : string) : result Empty_set Response :=
  res_map (fun h => {| rs_status := status; rs_headers := h; rs_body := Text msg |}) (build_header "content-type" "text/plain" hm_empty).

(** [StatusCode::from_u16(code).unwrap_or(FORBIDDEN)] *)
Definition status_or_forbidden (code : Z) : Z := if (100 <=? code) && (code <=? 999) then code else 403.

Definition client_ip (r : Request) : option IpAddr := remote_addr <$> rq_context r.

(** What a wrapper does before it hands the request on: answer itself, or pass a
    request on and later change the headers of the response. [now] are the clock
    readings of the rate limiter. *)
Inductive decision :=
| Reply (r : result Empty_set Response)
| Pass (req : Request) (after : HeaderMap -> HeaderMap).

Definition forwarded (k s : string) (r : Request) : Request := with_headers (Cors.insert_text k s (rq_headers r)) r.

Definition rewritten (k : string) (o : option (Uri * string)) (req : Request) : decision :=
  match o with
  | Some (u, s) => Pass (forwarded k s (with_uri u req)) (fun h => h)
  | None => Pass req (fun h => h)
  end.

Definition decide_instance (i : Instance) (now : Z * Z) (req : Request) : decision * Instance :=
  match i with
  | IHeaders h => (Pass (with_headers (Headers.apply_request h (rq_headers req)) req) (Headers.apply_response h), i)
  | IHeadersAndCors h c =>
      (if Cors.is_preflight req then
         Reply (match Cors.handle_preflight c req with
                | Some r => r
                | None => error_response 403 "CORS origin not allowed"
                end)
       else
         let origin := Cors.get_origin req in
         Pass (with_headers (Headers.apply_request h (rq_headers req)) req)
              (fun rs => Cors.apply_headers c origin (Headers.apply_response h rs)), i)
  | IRateLimit m =>
      match client_ip req with
      | Some ip =>
          let '(allowed, _, m') := is_allowed_by_key (show_addr ip) now.1 now.2 now.2 m in
          (if allowed then Pass req (fun h => h) else Reply (error_response 429 "Rate limit exceeded"), IRateLimit m')
      | None => (Pass req (fun h => h), i)
      end
  | IIpAllow f =>
      (match client_ip req with
       | Some ip => if IpFilter.has_rules f && negb (IpFilter.is_allowed f ip)
                    then Reply (error_response (status_or_forbidden (IpFilter.reject_status_code f)) "Forbidden")
                    else Pass req (fun h => h)
       | None => Pass req (fun h => h)
       end, i)
  | IIpDeny f =>
      (match client_ip req with
       | Some ip => if IpFilter.has_rules f && IpFilter.is_denied f ip
                    then Reply (error_response 403 "Forbidden") else Pass req (fun h => h)
       | None => Pass req (fun h => h)
       end, i)
  | IBasicAuth m =>
      (if is_authenticated m (rq_headers req) then Pass req (fun h => h)
       else Reply (Ok {| rs_status := 401; rs_headers := hm_insert "www-authenticate" (www_authenticate m) hm_empty;
                         rs_body := Text "Unauthorized" |}), i)
  | IRedirectScheme m =>
      (if Redirect.should_redirect m (from_option is_tls false (rq_context req))
       then Reply (Ok (Redirect.build_redirect m req)) else Pass req (fun h => h), i)
  | IStripPrefix m => (rewritten "x-forwarded-prefix" (Path.strip m (rq_uri req)) req, i)
  | IAddPrefix p =>
      (match Path.add_prefix p (rq_uri req) with
       | Some u => Pass (with_uri u req) (fun h => h)
       | None => Pass req (fun h => h)
       end, i)
  | IReplacePath p => (rewritten "x-replaced-path" (Path.replace_path p (rq_uri req)) req, i)
  | IStripPrefixRegex ps => (rewritten "x-forwarded-prefix" (Path.strip_regex ps (rq_uri req)) req, i)
  | IReplacePathRegex re s => (rewritten "x-replaced-path" (Path.replace_regex re s (rq_uri req)) req, i)
  | ICompress _ => (Pass req (fun h => h), i)
  end.

(** The answer of the endpoint: a response, an error of the connection, or an
    abort. *)
Abbreviation outcome := (result E Response).

Definition lift (r : result Empty_set Response) : outcome :=
  match r with Ok a => Ok a | Err e => match e with end | Panic => Panic end.

(** [Next::run]; [now k] is what the clock shows at the middleware with [k]
    others after it. *)
Fixpoint run (endpoint : Request -> W -> outcome * W) (now : nat -> Z * Z) (names : list string) (req : Request)
    (reg : registry) (w : W) : outcome * registry * W :=
  match names with
  | [] => let '(r, w') := endpoint req w in (r, reg, w')
  | n :: names' =>
      match reg !! n with
      | None => run endpoint now names' req reg w (* not after [resolve] *)
      | Some i =>
          let '(d, i') := decide_instance i (now (length names')) req in
          let reg := <[n := i']> reg in
          match d with
          | Reply r => (lift r, reg, w)
          | Pass req' after =>
              let '(r, reg', w') := run endpoint now names' req' reg w in
              (res_map (fun rs => with_rs_headers (after (rs_headers rs)) rs) r, reg', w')
          end
      end
  end.

(** The chain of a route. *)
Definition run_chain (endpoint : Request -> W -> outcome * W) (now : nat -> Z * Z) (names : list string) (req : Request)
    (reg : registry) (w : W) : outcome * registry * W :=
  run endpoint now (resolve reg names) req reg w.
End Pipeline.

(** ** What the chain guarantees *)
Section ChainProofs.
Context `{HO : HttpOps} `{UL : UriLib} `{IL : IpLib} `{RO : RegexOps} {W E : Type}.
#[local] Abbreviation registry := (gmap string Instance).

(** An IP filter that rejects the address. *)
Definition guard_rejects (i : Instance) (ip : IpAddr) : bool :=
  match i with
  | IIpAllow f => IpFilter.has_rules f && negb (IpFilter.is_allowed f ip)
  | IIpDeny f => IpFilter.has_rules f && IpFilter.is_denied f ip
  | _ => false
  end.

(** No middleware changes the connection a request came from. *)
Lemma decide_context i now req req' after i' :
  decide_instance i now req = (Pass req' after, i') -> rq_context req' = rq_context req.
Proof.
  destruct i; cbn [decide_instance].
  3: { destruct (client_ip req); [|by intros [= <- _ _]]. destruct (is_allowed_by_key _ _ _ _ _) as [[[] ?] ?]; [|done].
       by intros [= <- _ _]. }
  all: repeat match goal with |- context [rewritten _ ?o _] => destruct o as [[]|]; cbn [rewritten] end;
       repeat case_match; intros Heq; by simplify_eq.
Qed.

Lemma decide_guard i now req ip : client_ip req = Some ip -> guard_rejects i ip = true ->
  exists r, decide_instance i now req = (Reply r, i).
Proof.
  intros Hip. destruct i; cbn [guard_rejects decide_instance]; try done; rewrite Hip; intros ->; eauto.
Qed.

(** A guard keeps its registry entry whatever runs before it. *)
Lemma decide_guard_entry i now req d i' ip : decide_instance i now req = (d, i') -> guard_rejects i ip = true -> i' = i.
Proof. destruct i; cbn [guard_rejects decide_instance]; try done; by intros [= _ <-]. Qed.

Lemma run_guard endpoint endpoint' now n ip names : forall req (reg : registry) (w : W) i,
  client_ip req = Some ip -> n ∈ names -> reg !! n = Some i -> guard_rejects i ip = true ->
  (run (E := E) endpoint now names req reg w).2 = w /\
  run (E := E) endpoint' now names req reg w = run (E := E) endpoint now names req reg w.
Proof.
  induction names as [|n0 names IH]; intros req reg w i Hip Hin Hreg Hg; [by apply elem_of_nil in Hin|].
  cbn [run]. destruct (reg !! n0) as [i0|] eqn:E0.
  2: { apply elem_of_cons in Hin as [->|Hin]; [congruence|]. by eapply IH. }
  destruct (decide_instance i0 (now (length names)) req) as [d i0'] eqn:Ed.
  destruct (decide (n0 = n)) as [->|Hne].
  - assert (i0 = i) as -> by congruence. destruct (decide_guard i (now (length names)) req ip Hip Hg) as (r & Hr).
    rewrite Hr in Ed. by injection Ed as <- <-.
  - apply elem_of_cons in Hin as [->|Hin]; [done|]. destruct d as [r|req' after]; [done|].
    assert (Hip' : client_ip req' = Some ip) by (unfold client_ip in *; by rewrite (decide_context _ _ _ _ _ _ Ed)).
    destruct (IH req' (<[n0 := i0']> reg) w i Hip' Hin) as [H1 H2]; [by rewrite lookup_insert_ne|done|].
    rewrite H2. by destruct (run endpoint now names req' _ w) as [[r reg'] w'].
Qed.

(** One run makes at most one call of the endpoint. *)
Lemma run_once endpoint now names : forall req (reg : registry) (w : W),
  let '(r, _, w') := run (E := E) endpoint now names req reg w in
  (w' = w /\ exists r0 after, r = res_map (fun rs => with_rs_headers (after (rs_headers rs)) rs) (lift r0)) \/
  (exists req' after, rq_context req' = rq_context req /\ w' = (endpoint req' w).2 /\
     r = res_map (fun rs => with_rs_headers (after (rs_headers rs)) rs) (endpoint req' w).1).
Proof.
  assert (Hmap : forall A B C (f : A -> B) (g : B -> C) (x : result E A), res_map g (res_map f x) = res_map (fun a => g (f a)) x)
    by (by intros A B C f g []).
  induction names as [|n names IH]; intros req reg w; cbn [run].
  - destruct (endpoint req w) as [r w'] eqn:Ee. right. exists req, (fun h => h). rewrite Ee. cbn [fst snd].
    split_and!; [done|done|]. destruct r as [[]| |]; done.
  - destruct (reg !! n) as [i|]; [|apply IH]. destruct (decide_instance i _ req) as [d i'] eqn:Ed.
    destruct d as [r|req' after]; [left; split; [done|]; exists r, (fun h => h); by destruct r as [[]| |]|].
    specialize (IH req' (<[n := i']> reg) w). destruct (run endpoint now names req' _ w) as [[r reg'] w'].
    rewrite <- (decide_context _ _ _ _ _ _ Ed).
    destruct IH as [[-> (r0 & after0 & ->)]|(req2 & after2 & Hc & -> & ->)]; [left|right].
    + split; [done|]. exists r0, (fun h => after (after0 h)). apply Hmap.
    + exists req2, (fun h => after (after2 h)). split_and!; [done|done|]. apply Hmap.
Qed.

(** C11. IP filters cannot be bypassed. If the chain of a route names an
    allowlist that does not contain the client's address, or a denylist that
    does, then whatever other middlewares stand around it, in any order and
    state, the request never reaches the endpoint: the endpoint's world is
    unchanged and the answer does not depend on the endpoint. *)
Theorem pipeline_guards_hold endpoint endpoint' now names req (reg : registry) (w : W) n i ip :
  client_ip req = Some ip -> n ∈ names -> reg !! n = Some i -> guard_rejects i ip = true ->
  (run_chain (E := E) endpoint now names req reg w).2 = w /\
  run_chain (E := E) endpoint' now names req reg w = run_chain (E := E) endpoint now names req reg w.
Proof.
  intros Hip Hin Hreg Hg. apply (run_guard _ _ _ n ip _ _ _ _ i); [done| |done|done].
  apply list_elem_of_filter. split; [by eexists|done].
Qed.

(** A request is forwarded at most once: a run either answers by itself and
    leaves the endpoint's world alone, or makes exactly one call of the
    endpoint, on a request with the same connection context, and returns that
    call's response with only its headers changed (errors unchanged). *)
Theorem pipeline_forwards_once endpoint now names req (reg : registry) (w : W) :
  let '(r, _, w') := run_chain (E := E) endpoint now names req reg w in
  (w' = w /\ exists r0 after, r = res_map (fun rs => with_rs_headers (after (rs_headers rs)) rs) (lift r0)) \/
  (exists req' after, rq_context req' = rq_context req /\ w' = (endpoint req' w).2 /\
     r = res_map (fun rs => with_rs_headers (after (rs_headers rs)) rs) (endpoint req' w).1).
Proof. apply run_once. Qed.
End ChainProofs.

(** Interfaces without regular expressions, for concrete runs. *)
Definition no_regex_ops : RegexOps :=
  {| ops_regex := {| Regex := Empty_set; regex_new := fun p => inl p; is_match := fun re _ => match re with end |};
     re_find := fun re _ => match re with end; re_replace := fun re _ _ => match re with end |}.
#[local] Existing Instance map_http.
#[local] Existing Instance text_uri.
#[local] Existing Instance two_hosts.
#[local] Existing Instance no_regex_ops.

Definition no_mw : MiddlewareConfig :=
  {| c_headers := None; c_rate_limit := None; c_ip_allow_list := None; c_ip_white_list := None; c_ip_deny_list := None;
     c_basic_auth := None; c_redirect_scheme := None; c_strip_prefix := None; c_add_prefix := None; c_replace_path := None;
     c_strip_prefix_regex := None; c_replace_path_regex := None; c_compress := None |}.
Definition deny_cfg (ranges : list string) : MiddlewareConfig :=
  {| c_headers := None; c_rate_limit := None; c_ip_allow_list := None; c_ip_white_list := None;
     c_ip_deny_list := Some (ranges, None); c_basic_auth := None; c_redirect_scheme := None; c_strip_prefix := None;
     c_add_prefix := None; c_replace_path := None; c_strip_prefix_regex := None; c_replace_path_regex := None; c_compress := None |}.
Definition prefix_cfg (p : string) : MiddlewareConfig :=
  {| c_headers := None; c_rate_limit := None; c_ip_allow_list := None; c_ip_white_list := None; c_ip_deny_list := None;
     c_basic_auth := None; c_redirect_scheme := None; c_strip_prefix := None; c_add_prefix := Some p; c_replace_path := None;
     c_strip_prefix_regex := None; c_replace_path_regex := None; c_compress := None |}.

Definition demo_registry : gmap string Instance :=
  match registry_new [("pre", prefix_cfg "/api"); ("deny", deny_cfg ["192.168.1.1"]); ("none", no_mw)] ∅ with Ok r => r | _ => ∅ end.
Definition demo_request (client : IpAddr) : Request :=
  {| rq_method := "GET"; rq_uri := (None, None, "/x?y=1") : Uri; rq_headers := hm_empty;
     rq_context := Some {| remote_addr := client; is_tls := false |} |}.
(** An endpoint that keeps the paths it was asked for. *)
Definition log_endpoint (req : Request) (w : list string) : result unit Response * list string :=
  (Ok {| rs_status := 200; rs_headers := hm_empty; rs_body := Streamed |}, w ++ [uri_path (rq_uri req)]).

Lemma pipeline_guards_hold_witness :
  (run_chain (E := unit) log_endpoint (fun _ => (0, 0)) ["pre"; "none"; "deny"] (demo_request false) demo_registry []).2 = [] /\
  (run_chain (E := unit) log_endpoint (fun _ => (0, 0)) ["pre"; "none"; "deny"] (demo_request true) demo_registry []).2 = ["/api/x"].
Proof.
  split; [|vm_compute; reflexivity].
  apply (pipeline_guards_hold (E := unit) log_endpoint log_endpoint (fun _ => (0, 0)) ["pre"; "none"; "deny"] (demo_request false)
    demo_registry [] "deny" (IIpDeny (IpFilter.new ["192.168.1.1"] None None)) false).
  - reflexivity.
  - right. right. left.
  - reflexivity.
  - vm_compute. reflexivity.
Defined.

(** ** The forwarded request *)
Module Forward.
Section Forward.
Context `{HO : HttpOps} `{UL : UriLib} `{IL : IpLib}.

Definition hop_by_hop_headers : list string := ["connection"; "transfer-encoding"; "upgrade"].
Definition proxy_headers : list string := ["keep-alive"; "proxy-authenticate"; "proxy-authorization"].
Definition all_hop_headers : list string := hop_by_hop_headers ++ proxy_headers ++ ["te"; "trailers"].

Definition strip_hop (is_grpc : bool) (h : HeaderMap) : HeaderMap :=
  if negb is_grpc then remove_all all_hop_headers h
  else
    let h := remove_all proxy_headers h in
    match hm_get h "te" with Some _ => h | None => Cors.insert_text "te" "trailers" h end.

Definition forwarded_for (h : HeaderMap) (ip : IpAddr) : string :=
  match header_text h "x-forwarded-for" with
  | Some existing => existing +:+ ", " +:+ show_addr ip
  | None => show_addr ip
  end.

(** [build_proxied_request]: the headers, and the URI of the backend. *)
Definition build_proxied_request (req : Request) (backend_uri : Uri) (ip : IpAddr) (original_host : option string)
    (is_tls is_grpc : bool) : Request :=
  let h := strip_hop is_grpc (rq_headers req) in
  let h := Cors.insert_text "x-forwarded-for" (forwarded_for h ip) h in
  let h := match original_host with Some host => Cors.insert_text "x-forwarded-host" host h | None => h end in
  let h := Cors.insert_text "x-forwarded-proto" (if is_tls then "https" else "http") h in
  let h := match uri_authority backend_uri with Some a => Cors.insert_text "host" a h | None => h end in
  {| rq_method := rq_method req; rq_uri := backend_uri; rq_headers := h; rq_context := rq_context req |}.
End Forward.
End Forward.

Section ForwardProofs.
Context `{HL : HttpLaws} `{UL : UriLib} `{IL : IpLaws}.

Lemma header_text_visible h k s : header_text h k = Some s -> str_forall visible_byte s = true.
Proof. unfold header_text. destruct (hm_get h k) as [v|]; cbn; [apply to_str_visible|done]. Qed.

Lemma forwarded_for_visible h ip : str_forall visible_byte (Forward.forwarded_for h ip) = true.
Proof.
  unfold Forward.forwarded_for. destruct (header_text h _) as [s|] eqn:E; [|apply show_visible].
  rewrite !str_forall_app, (header_text_visible _ _ _ E), show_visible. done.
Qed.

(** A forwarding header with one entry. *)
Lemma last_entry f strategy x ip remote : IpFilter.ip_strategy f = Some strategy -> IpFilter.depth strategy = 0 ->
  IpFilter.excluded_networks f = [] -> str_forall (fun c => negb (Ascii.eqb c ",")) x = true -> trim x = show_addr ip ->
  IpFilter.get_client_ip f (Some x) remote = ip.
Proof.
  intros Hs Hd Hex Hc Ht. unfold IpFilter.get_client_ip. rewrite Hs, Hd, split_on_single by done.
  cbn [fmap list_fmap length]. rewrite Ht. change (Z.to_nat 0) with 0%nat. cbn [Nat.ltb Nat.leb Nat.sub].
  change ([show_addr ip] !! 0%nat) with (Some (show_addr ip)). cbn [mbind option_bind]. by rewrite parse_show, Hex.
Qed.

(** The forwarded request (other than gRPC). Hop-by-hop and proxy headers
    are gone; the forwarding header is the client's own, if it sent one, with
    the address of the connection appended, and the protocol header is that of
    the connection whatever the client sent. A filter on the receiving side that
    takes the last entry of the forwarding header sees the address of the
    connection, so a client cannot spoof it. *)
Theorem forwarded_request_headers req backend_uri ip original_host is_tls :
  let out := rq_headers (Forward.build_proxied_request req backend_uri ip original_host is_tls false) in
  (forall k, k ∈ Forward.all_hop_headers -> hm_get out k = None) /\
  header_text out "x-forwarded-proto" = Some (if is_tls then "https" else "http") /\
  header_text out "x-forwarded-for" = Some (match header_text (rq_headers req) "x-forwarded-for" with
    | Some existing => existing +:+ ", " +:+ show_addr ip | None => show_addr ip end) /\
  (forall f strategy remote, IpFilter.ip_strategy f = Some strategy -> IpFilter.depth strategy = 0 ->
     IpFilter.excluded_networks f = [] ->
     IpFilter.get_client_ip f (header_text out "x-forwarded-for") remote = ip).
Proof.
  cbn zeta. set (out := rq_headers _).
  assert (Hxff : header_text out "x-forwarded-for" = Some (match header_text (rq_headers req) "x-forwarded-for" with
    | Some existing => existing +:+ ", " +:+ show_addr ip | None => show_addr ip end)).
  { unfold out. cbn [Forward.build_proxied_request rq_headers].
    transitivity (header_text (Cors.insert_text "x-forwarded-for" (Forward.forwarded_for (Forward.strip_hop false (rq_headers req)) ip)
      (Forward.strip_hop false (rq_headers req))) "x-forwarded-for").
    { destruct (uri_authority backend_uri), original_host; by rewrite !text_insert_text_ne by done. }
    rewrite text_insert_text by apply forwarded_for_visible. f_equal. unfold Forward.forwarded_for, header_text, Forward.strip_hop.
    cbn [negb]. rewrite get_remove_all, decide_False; [done|]. apply (bool_decide_eq_true_1 (_ ∉ _)). vm_compute. reflexivity. }
  split_and!; [| |exact Hxff|].
  - intros k Hk. unfold out. cbn [Forward.build_proxied_request rq_headers].
    assert (Hne : k <> "x-forwarded-for" /\ k <> "x-forwarded-host" /\ k <> "x-forwarded-proto" /\ k <> "host").
    { split_and!; intros ->; revert Hk; apply (bool_decide_eq_true_1 (_ ∉ _)); vm_compute; reflexivity. }
    destruct Hne as (H1 & H2 & H3 & H4).
    transitivity (hm_get (Forward.strip_hop false (rq_headers req)) k).
    { destruct (uri_authority backend_uri), original_host; by rewrite !get_insert_text_ne by done. }
    unfold Forward.strip_hop. cbn [negb]. by rewrite get_remove_all, decide_True.
  - unfold out. cbn [Forward.build_proxied_request rq_headers].
    destruct (uri_authority backend_uri); rewrite ?text_insert_text_ne by done; apply text_insert_text; by destruct is_tls.
  - intros f strategy remote Hs Hd Hex. rewrite Hxff.
    destruct (header_text (rq_headers req) _) as [e|].
    + change (e +:+ ", " +:+ show_addr ip) with (e +:+ String "," (" " +:+ show_addr ip)).
      rewrite (client_ip_suffix f strategy); [|done|].
      * apply (last_entry f strategy); [done|done|done|apply show_no_comma|apply show_trimmed].
      * rewrite Hd. pose proof (split_on_nonempty "," (" " +:+ show_addr ip)). destruct (split_on "," _); [done|cbn; lia].
    + apply (last_entry f strategy); [done|done|done|apply show_no_comma|apply show_trimmed].
Qed.
End ForwardProofs.

Definition spoofed : Request :=
  with_headers (Cors.insert_text "x-forwarded-for" "6.6.6.6" (Cors.insert_text "connection" "close" hm_empty)) (demo_request true).

Definition demo_backend : @Uri text_uri := (Some "http", Some "b:80", "/x").

Lemma forwarded_request_headers_witness :
  IpFilter.get_client_ip (IpFilter.new [] (Some {| IpFilter.depth := 0; IpFilter.excluded_ips := [] |}) None)
    (header_text (rq_headers (Forward.build_proxied_request spoofed demo_backend true None false false))
       "x-forwarded-for") false = true /\
  header_text (rq_headers (Forward.build_proxied_request spoofed demo_backend true None false false))
    "x-forwarded-for" = Some "6.6.6.6, 10.0.0.1".
Proof.
  split.
  - apply (forwarded_request_headers spoofed demo_backend true None false
      ) with {| IpFilter.depth := 0; IpFilter.excluded_ips := [] |}; reflexivity.
  - vm_compute. reflexivity.
Defined.
