(* ===== verification/ConfigCheck.v ===== *)
(** * Loading and checking a configuration

    Models src/src/config/mod.rs ([load], [validate], [pre_parse_uris] and the
    accessors) and the methods of src/src/config/types.rs. The parsers of the
    [url] and [hyper] crates and the YAML reader are parameters. [to_pipeline]
    selects what the middleware registry reads of a configuration, so that a
    checked configuration can be run through [Pipeline]. *)
From S2P Require Import Prelude RustStr Config ConfigTypes Net Rule Http Middleware BasicAuth RateLimit Pipeline.
From stdpp Require Import list.
Open Scope Z_scope.
Open Scope list_scope.
#[local] Open Scope rust_scope.

(** ** Accessors *)
Abbreviation config := ConfigTypes.Config.t.

Definition routers (c : config) := from_option HttpConfig.routers [] (ConfigTypes.Config.http c).
Definition services (c : config) := from_option HttpConfig.services [] (ConfigTypes.Config.http c).
Definition middlewares (c : config) := from_option HttpConfig.middlewares [] (ConfigTypes.Config.http c).
Definition tcp_routers (c : config) := from_option TcpConfig.routers [] (ConfigTypes.Config.tcp c).
Definition tcp_services (c : config) := from_option TcpConfig.services [] (ConfigTypes.Config.tcp c).
Definition tcp_middlewares (c : config) := from_option TcpConfig.middlewares [] (ConfigTypes.Config.tcp c).
Definition udp_routers (c : config) := from_option UdpConfig.routers [] (ConfigTypes.Config.udp c).
Definition udp_services (c : config) := from_option UdpConfig.services [] (ConfigTypes.Config.udp c).
Definition udp_middlewares (c : config) := from_option UdpConfig.middlewares [] (ConfigTypes.Config.udp c).
Definition has_tcp (c : config) : bool :=
  from_option (fun t => match TcpConfig.routers t with [] => false | _ => true end) false (ConfigTypes.Config.tcp c).
Definition has_udp (c : config) : bool :=
  from_option (fun t => match UdpConfig.routers t with [] => false | _ => true end) false (ConfigTypes.Config.udp c).

Definition is_some {A} (o : option A) : bool := match o with Some _ => true | None => false end.

Definition service_type (s : Service.t) : string :=
  if is_some (Service.load_balancer s) then "loadBalancer"
  else if is_some (Service.weighted s) then "weighted"
  else if is_some (Service.mirroring s) then "mirroring"
  else if is_some (Service.failover s) then "failover"
  else "unknown".
Definition tcp_service_type (s : TcpService.t) : string :=
  if is_some (TcpService.load_balancer s) then "loadBalancer"
  else if is_some (TcpService.weighted s) then "weighted" else "unknown".
Definition udp_service_type (s : UdpService.t) : string :=
  if is_some (UdpService.load_balancer s) then "loadBalancer"
  else if is_some (UdpService.weighted s) then "weighted" else "unknown".

Definition middleware_type (m : MiddlewareConfig.t) : string :=
  if is_some (MiddlewareConfig.rate_limit m) then "rateLimit"
  else if is_some (MiddlewareConfig.ip_allow_list m) then "ipAllowList"
  else if is_some (MiddlewareConfig.ip_white_list m) then "ipWhiteList"
  else if is_some (MiddlewareConfig.ip_deny_list m) then "ipDenyList"
  else if is_some (MiddlewareConfig.headers m) then "headers"
  else if is_some (MiddlewareConfig.basic_auth m) then "basicAuth"
  else if is_some (MiddlewareConfig.digest_auth m) then "digestAuth"
  else if is_some (MiddlewareConfig.forward_auth m) then "forwardAuth"
  else if is_some (MiddlewareConfig.compress m) then "compress"
  else if is_some (MiddlewareConfig.retry m) then "retry"
  else if is_some (MiddlewareConfig.circuit_breaker m) then "circuitBreaker"
  else if is_some (MiddlewareConfig.redirect_scheme m) then "redirectScheme"
  else if is_some (MiddlewareConfig.redirect_regex m) then "redirectRegex"
  else if is_some (MiddlewareConfig.strip_prefix m) then "stripPrefix"
  else if is_some (MiddlewareConfig.strip_prefix_regex m) then "stripPrefixRegex"
  else if is_some (MiddlewareConfig.add_prefix m) then "addPrefix"
  else if is_some (MiddlewareConfig.replace_path m) then "replacePath"
  else if is_some (MiddlewareConfig.replace_path_regex m) then "replacePathRegex"
  else if is_some (MiddlewareConfig.chain m) then "chain"
  else if is_some (MiddlewareConfig.buffering m) then "buffering"
  else if is_some (MiddlewareConfig.in_flight_req m) then "inFlightReq"
  else if is_some (MiddlewareConfig.pass_tls_client_cert m) then "passTLSClientCert"
  else if is_some (MiddlewareConfig.content_type m) then "contentType"
  else if is_some (MiddlewareConfig.grpc_web m) then "grpcWeb"
  else if is_some (MiddlewareConfig.jwt m) then "jwt"
  else if is_some (MiddlewareConfig.errors m) then "errors"
  else "unknown".

Definition get_ip_allow_list (m : MiddlewareConfig.t) : option IpAllowListConfig.t :=
  match MiddlewareConfig.ip_allow_list m with Some l => Some l | None => MiddlewareConfig.ip_white_list m end.

(** ** Validation *)
Section Validate.
Context (url_parses : string -> bool). (* [url::Url::parse(..).is_ok()] *)

Definition contains_key {A} (k : string) (m : list (string * A)) : bool := existsb (fun e => bool_decide (e.1 = k)) m.

(** A loop that stops at the first error. *)
Fixpoint each {A} (f : A -> result string unit) (l : list A) : result string unit :=
  match l with [] => Ok tt | x :: l' => _ <-? f x ;; each f l' end.

Definition bail (parts : list string) : result string unit := Err (foldr String.append "" parts).

Definition check_service (e : string * Service.t) : result string unit :=
  let '(name, service) := e in
  match Service.load_balancer service with
  | Some lb =>
      match LoadBalancerService.servers lb with
      | [] => bail ["Service '"; name; "' must have at least one server"]
      | servers => each (fun s => if url_parses (url s) then Ok tt else bail ["Invalid server URL in service '"; name; "': "; url s]) servers
      end
  | None =>
  match Service.weighted service with
  | Some w => match WeightedService.services w with [] => bail ["Weighted service '"; name; "' must reference at least one service"] | _ => Ok tt end
  | None =>
  match Service.mirroring service with
  | Some m => if bool_decide (MirroringService.service m = "") then bail ["Mirroring service '"; name; "' must have a main service"] else Ok tt
  | None => bail ["Service '"; name; "' must have loadBalancer, weighted, or mirroring configured"]
  end end end.

(** The references of a router of one protocol; [kind] starts the messages. *)
Definition check_middleware {M} (kind name : string) (known : list (string * M)) (mw_name : string) : result string unit :=
  let mw_name_clean := default mw_name (head (split_on "@" mw_name)) in
  if negb (contains_key mw_name_clean known) && negb (contains_key mw_name known)
  then bail [kind; " '"; name; "' references non-existent middleware '"; mw_name; "'"] else Ok tt.
Definition check_entry_point (kind name : string) (known : list (string * EntryPoint.t)) (ep_name : string) : result string unit :=
  if negb (contains_key ep_name known) then bail [kind; " '"; name; "' references non-existent entryPoint '"; ep_name; "'"] else Ok tt.
Definition check_refs {S M} (kind : string) (known_services : list (string * S)) (known_mws : list (string * M))
    (eps : list (string * EntryPoint.t)) (name service : string) (mws entry_points : list string) : result string unit :=
  if negb (contains_key service known_services) then bail [kind; " '"; name; "' references non-existent service '"; service; "'"]
  else
    _ <-? each (check_middleware kind name known_mws) mws ;;
    each (check_entry_point kind name eps) entry_points.

Definition check_tcp_service (e : string * TcpService.t) : result string unit :=
  let '(name, service) := e in
  match TcpService.load_balancer service with
  | Some lb => match TcpLoadBalancer.servers lb with [] => bail ["TCP service '"; name; "' must have at least one server"] | _ => Ok tt end
  | None =>
  match TcpService.weighted service with
  | Some w => match TcpWeightedService.services w with [] => bail ["TCP weighted service '"; name; "' must reference at least one service"] | _ => Ok tt end
  | None => bail ["TCP service '"; name; "' must have loadBalancer or weighted configured"]
  end end.
Definition check_udp_service (e : string * UdpService.t) : result string unit :=
  let '(name, service) := e in
  match UdpService.load_balancer service with
  | Some lb => match UdpLoadBalancer.servers lb with [] => bail ["UDP service '"; name; "' must have at least one server"] | _ => Ok tt end
  | None =>
  match UdpService.weighted service with
  | Some w => match UdpWeightedService.services w with [] => bail ["UDP weighted service '"; name; "' must reference at least one service"] | _ => Ok tt end
  | None => bail ["UDP service '"; name; "' must have loadBalancer or weighted configured"]
  end end.

Definition check_router (c : config) (e : string * ConfigTypes.Router.t) : result string unit :=
  check_refs "Router" (services c) (middlewares c) (ConfigTypes.Config.entry_points c) e.1 (Router.service e.2) (Router.middlewares e.2)
    (Router.entry_points e.2).
Definition check_tcp_router (c : config) (e : string * TcpRouter.t) : result string unit :=
  check_refs "TCP router" (tcp_services c) (tcp_middlewares c) (ConfigTypes.Config.entry_points c) e.1 (TcpRouter.service e.2)
    (TcpRouter.middlewares e.2) (TcpRouter.entry_points e.2).
Definition check_udp_router (c : config) (e : string * UdpRouter.t) : result string unit :=
  check_refs "UDP router" (udp_services c) (udp_middlewares c) (ConfigTypes.Config.entry_points c) e.1 (UdpRouter.service e.2)
    (UdpRouter.middlewares e.2) (UdpRouter.entry_points e.2).

Definition validate (c : config) : result string unit :=
  match ConfigTypes.Config.entry_points c with
  | [] => bail ["At least one entryPoint must be defined"]
  | _ =>
      _ <-? each check_service (services c) ;;
      _ <-? each (check_router c) (routers c) ;;
      _ <-? each check_tcp_service (tcp_services c) ;;
      _ <-? each (check_tcp_router c) (tcp_routers c) ;;
      _ <-? each check_udp_service (udp_services c) ;;
      each (check_udp_router c) (udp_routers c)
  end.

(** ** Loading *)
Context (parse_uri : string -> option (option string * option string)). (* scheme and authority of [Uri] *)
Context (from_yaml : string -> option config).

Definition pre_parse_server (s : Server) : Server :=
  {| url := url s; weight := weight s; preserve_path := preserve_path s;
     parsed_uri := match parse_uri (url s) with
                   | Some (Some sc, Some au) => Some {| scheme := sc; authority := au |}
                   | _ => parsed_uri s
                   end;
     url_arc := Some (url s) |}.
Definition pre_parse_service (s : Service.t) : Service.t :=
  {| Service.load_balancer :=
       (fun lb => {| LoadBalancerService.servers := pre_parse_server <$> LoadBalancerService.servers lb;
                     LoadBalancerService.pass_host_header := LoadBalancerService.pass_host_header lb;
                     LoadBalancerService.sticky := LoadBalancerService.sticky lb;
                     LoadBalancerService.health_check := LoadBalancerService.health_check lb;
                     LoadBalancerService.servers_transport := LoadBalancerService.servers_transport lb;
                     LoadBalancerService.response_forwarding := LoadBalancerService.response_forwarding lb |}) <$> Service.load_balancer s;
     Service.weighted := Service.weighted s; Service.mirroring := Service.mirroring s; Service.failover := Service.failover s |}.
Definition pre_parse_http (h : HttpConfig.t) : HttpConfig.t :=
  {| HttpConfig.routers := HttpConfig.routers h;
     HttpConfig.services := (fun e => (e.1, pre_parse_service e.2)) <$> HttpConfig.services h;
     HttpConfig.middlewares := HttpConfig.middlewares h; HttpConfig.servers_transports := HttpConfig.servers_transports h |}.
Definition with_http (o : option HttpConfig.t) (c : config) : config :=
  {| ConfigTypes.Config.entry_points := ConfigTypes.Config.entry_points c; ConfigTypes.Config.http := o;
     ConfigTypes.Config.tcp := ConfigTypes.Config.tcp c; ConfigTypes.Config.udp := ConfigTypes.Config.udp c;
     ConfigTypes.Config.tls := ConfigTypes.Config.tls c;
     ConfigTypes.Config.certificates_resolvers := ConfigTypes.Config.certificates_resolvers c;
     ConfigTypes.Config.providers := ConfigTypes.Config.providers c; ConfigTypes.Config.metrics := ConfigTypes.Config.metrics c;
     ConfigTypes.Config.api := ConfigTypes.Config.api c; ConfigTypes.Config.log := ConfigTypes.Config.log c;
     ConfigTypes.Config.access_log := ConfigTypes.Config.access_log c; ConfigTypes.Config.cluster := ConfigTypes.Config.cluster c |}.
Definition pre_parse_uris (c : config) : config := with_http (pre_parse_http <$> ConfigTypes.Config.http c) c.

(** [load]; [file] is the content of the file, if it can be read. *)
Definition load (file : option string) : result string config :=
  content <-? ok_or file "Failed to read config file" ;;
  c <-? ok_or (from_yaml content) "Failed to parse config file" ;;
  _ <-? validate c ;;
  Ok (pre_parse_uris c).
End Validate.

(** ** What validation promises *)
Lemma unit_ok {E} (r : result E unit) u : r = Ok u <-> r = Ok tt.
Proof. by destruct u. Qed.

Lemma bind_ok {E} (r : result E unit) (k : unit -> result E unit) :
  res_bind r k = Ok tt <-> r = Ok tt /\ k tt = Ok tt.
Proof. destruct r as [[]| |]; cbn; [tauto|..]; split; try done; by intros [? _]. Qed.

Lemma each_ok {A} (f : A -> result string unit) l : each f l = Ok tt <-> Forall (fun x => f x = Ok tt) l.
Proof.
  induction l as [|x l IH]; cbn [each]; [by split; [constructor|]|]. rewrite bind_ok, Forall_cons, IH. done.
Qed.

Lemma each_no_panic {A} (f : A -> result string unit) l : (forall x, f x <> Panic) -> each f l <> Panic.
Proof. intros Hf. induction l as [|x l IH]; cbn [each]; [done|]. specialize (Hf x). by destruct (f x). Qed.

Lemma contains_key_spec {A} k (m : list (string * A)) : contains_key k m = true <-> exists v, (k, v) ∈ m.
Proof.
  unfold contains_key. rewrite existsb_exists. split.
  - intros ([k' v] & Hin%list_elem_of_In & Hk%bool_decide_eq_true). cbn in Hk. subst. by exists v.
  - intros [v Hin%list_elem_of_In]. exists (k, v). split; [done|]. by apply bool_decide_eq_true.
Qed.

(** The part of a name in front of an at sign. *)
Definition clean (mw_name : string) : string := default mw_name (head (split_on "@" mw_name)).

Definition defined {A} (m : list (string * A)) (k : string) : Prop := exists v, (k, v) ∈ m.

(** The references of a router. *)
Definition refs_valid {S M} (svcs : list (string * S)) (mws : list (string * M)) (eps : list (string * EntryPoint.t))
    (service : string) (ms es : list string) : Prop :=
  defined svcs service /\ Forall (fun m => defined mws m \/ defined mws (clean m)) ms /\ Forall (defined eps) es.

Definition service_valid (url_parses : string -> bool) (s : Service.t) : Prop :=
  match Service.load_balancer s, Service.weighted s, Service.mirroring s with
  | Some lb, _, _ => LoadBalancerService.servers lb <> [] /\ Forall (fun s => url_parses (url s) = true) (LoadBalancerService.servers lb)
  | None, Some w, _ => WeightedService.services w <> []
  | None, None, Some m => MirroringService.service m <> ""
  | None, None, None => False
  end.
Definition tcp_service_valid (s : TcpService.t) : Prop :=
  match TcpService.load_balancer s, TcpService.weighted s with
  | Some lb, _ => TcpLoadBalancer.servers lb <> []
  | None, Some w => TcpWeightedService.services w <> []
  | None, None => False
  end.
Definition udp_service_valid (s : UdpService.t) : Prop :=
  match UdpService.load_balancer s, UdpService.weighted s with
  | Some lb, _ => UdpLoadBalancer.servers lb <> []
  | None, Some w => UdpWeightedService.services w <> []
  | None, None => False
  end.

Record valid (url_parses : string -> bool) (c : config) : Prop := {
  v_entry_points : ConfigTypes.Config.entry_points c <> [];
  v_services : Forall (fun e => service_valid url_parses e.2) (services c);
  v_routers : Forall (fun e => refs_valid (services c) (middlewares c) (ConfigTypes.Config.entry_points c)
    (Router.service e.2) (Router.middlewares e.2) (Router.entry_points e.2)) (routers c);
  v_tcp_services : Forall (fun e => tcp_service_valid e.2) (tcp_services c);
  v_tcp_routers : Forall (fun e => refs_valid (tcp_services c) (tcp_middlewares c) (ConfigTypes.Config.entry_points c)
    (TcpRouter.service e.2) (TcpRouter.middlewares e.2) (TcpRouter.entry_points e.2)) (tcp_routers c);
  v_udp_services : Forall (fun e => udp_service_valid e.2) (udp_services c);
  v_udp_routers : Forall (fun e => refs_valid (udp_services c) (udp_middlewares c) (ConfigTypes.Config.entry_points c)
    (UdpRouter.service e.2) (UdpRouter.middlewares e.2) (UdpRouter.entry_points e.2)) (udp_routers c);
}.

Lemma check_refs_ok {S M} kind (svcs : list (string * S)) (mws : list (string * M)) eps name service ms es :
  check_refs kind svcs mws eps name service ms es = Ok tt <-> refs_valid svcs mws eps service ms es.
Proof.
  unfold check_refs, refs_valid, defined. rewrite <- contains_key_spec.
  destruct (contains_key service svcs); cbn [negb]; [|split; [done|by intros [? _]]].
  rewrite bind_ok, !each_ok.
  assert (Hm : forall m, check_middleware kind name mws m = Ok tt <-> (exists v, (m, v) ∈ mws) \/ exists v, (clean m, v) ∈ mws).
  { intros m. unfold check_middleware. fold (clean m). rewrite <- !contains_key_spec.
    destruct (contains_key (clean m) mws), (contains_key m mws); cbn; split; try done; tauto || (by intros [?|?]). }
  assert (He : forall e, check_entry_point kind name eps e = Ok tt <-> exists v, (e, v) ∈ eps).
  { intros e. unfold check_entry_point. rewrite <- contains_key_spec. by destruct (contains_key e eps). }
  rewrite (Forall_iff _ ms _ Hm), (Forall_iff _ es _ He). tauto.
Qed.

Lemma check_service_ok p e : check_service p e = Ok tt <-> service_valid p e.2.
Proof.
  destruct e as [name s]. unfold check_service, service_valid. cbn [snd].
  destruct (Service.load_balancer s) as [lb|].
  - destruct (LoadBalancerService.servers lb) as [|sv svs] eqn:E; [split; [done|by intros [? _]]|].
    rewrite each_ok. split; [intros H; split; [done|]|intros [_ H]]; (eapply Forall_impl; [exact H|]); intros x; cbn;
      by destruct (p (url x)).
  - destruct (Service.weighted s) as [w|]; [by destruct (WeightedService.services w)|].
    destruct (Service.mirroring s) as [m|]; [|done]. by case_bool_decide.
Qed.

Lemma check_tcp_service_ok e : check_tcp_service e = Ok tt <-> tcp_service_valid e.2.
Proof.
  destruct e as [name s]. unfold check_tcp_service, tcp_service_valid. cbn [snd].
  destruct (TcpService.load_balancer s) as [lb|]; [by destruct (TcpLoadBalancer.servers lb)|].
  destruct (TcpService.weighted s) as [w|]; [by destruct (TcpWeightedService.services w)|done].
Qed.

Lemma check_udp_service_ok e : check_udp_service e = Ok tt <-> udp_service_valid e.2.
Proof.
  destruct e as [name s]. unfold check_udp_service, udp_service_valid. cbn [snd].
  destruct (UdpService.load_balancer s) as [lb|]; [by destruct (UdpLoadBalancer.servers lb)|].
  destruct (UdpService.weighted s) as [w|]; [by destruct (UdpWeightedService.services w)|done].
Qed.

Lemma check_router_ok c e : check_router c e = Ok tt <->
  refs_valid (services c) (middlewares c) (ConfigTypes.Config.entry_points c) (Router.service e.2) (Router.middlewares e.2) (Router.entry_points e.2).
Proof. apply check_refs_ok. Qed.
Lemma check_tcp_router_ok c e : check_tcp_router c e = Ok tt <->
  refs_valid (tcp_services c) (tcp_middlewares c) (ConfigTypes.Config.entry_points c) (TcpRouter.service e.2) (TcpRouter.middlewares e.2) (TcpRouter.entry_points e.2).
Proof. apply check_refs_ok. Qed.
Lemma check_udp_router_ok c e : check_udp_router c e = Ok tt <->
  refs_valid (udp_services c) (udp_middlewares c) (ConfigTypes.Config.entry_points c) (UdpRouter.service e.2) (UdpRouter.middlewares e.2) (UdpRouter.entry_points e.2).
Proof. apply check_refs_ok. Qed.

Lemma validate_ok p c : validate p c = Ok tt <-> valid p c.
Proof.
  unfold validate. destruct (ConfigTypes.Config.entry_points c) as [|ep eps] eqn:Ee; [split; [done|]; intros [H]; by rewrite Ee in H|].
  rewrite !bind_ok, !each_ok.
  rewrite (Forall_iff _ _ _ (check_service_ok p)), (Forall_iff _ _ _ check_tcp_service_ok), (Forall_iff _ _ _ check_udp_service_ok),
    (Forall_iff _ _ _ (check_router_ok c)),
    (Forall_iff _ _ _ (check_tcp_router_ok c)),
    (Forall_iff _ _ _ (check_udp_router_ok c)).
  split; [intros (? & ? & ? & ? & ? & ?); split; try done; by rewrite Ee|].
  intros [? ? ? ? ? ? ?]. by split_and!.
Qed.

(** Pre-parsing the addresses of the servers changes nothing that is checked. *)
Lemma each_fmap {A B} (g : A -> B) (f : B -> result string unit) l : each f (g <$> l) = each (fun x => f (g x)) l.
Proof. induction l as [|x l IH]; [done|]. cbn [fmap list_fmap each]. by rewrite <- IH. Qed.

Lemma each_ext {A} (f g : A -> result string unit) l : (forall x, f x = g x) -> each f l = each g l.
Proof. intros H. induction l as [|x l IH]; [done|]. cbn [each]. by rewrite H, IH. Qed.

Lemma contains_key_fmap {A B} (g : A -> B) k (m : list (string * A)) :
  contains_key k ((fun e => (e.1, g e.2)) <$> m) = contains_key k m.
Proof. unfold contains_key. induction m as [|[k' v] m IH]; [done|]. cbn. by rewrite IH. Qed.

Lemma check_service_pre_parse p pu e : check_service p (e.1, pre_parse_service pu e.2) = check_service p e.
Proof.
  destruct e as [name s]. unfold check_service, pre_parse_service. cbn [fst snd Service.load_balancer Service.weighted Service.mirroring].
  destruct (Service.load_balancer s) as [lb|]; [|done]. cbn [fmap option_fmap option_map LoadBalancerService.servers].
  destruct (LoadBalancerService.servers lb) as [|sv svs]; [done|]. change (pre_parse_server pu <$> sv :: svs) with
    (pre_parse_server pu sv :: (pre_parse_server pu <$> svs)). cbv iota.
  change (pre_parse_server pu sv :: (pre_parse_server pu <$> svs)) with (pre_parse_server pu <$> sv :: svs).
  by rewrite each_fmap.
Qed.

Lemma validate_pre_parse p pu c : validate p (pre_parse_uris pu c) = validate p c.
Proof.
  unfold validate, pre_parse_uris. cbn [with_http ConfigTypes.Config.entry_points].
  destruct (ConfigTypes.Config.entry_points c) as [|ep eps] eqn:Ee; [done|].
  assert (Hs : services (with_http (pre_parse_http pu <$> ConfigTypes.Config.http c) c) = (fun e => (e.1, pre_parse_service pu e.2)) <$> services c)
    by (unfold services; cbn; by destruct (ConfigTypes.Config.http c)).
  assert (Hr : routers (with_http (pre_parse_http pu <$> ConfigTypes.Config.http c) c) = routers c)
    by (unfold routers; cbn; by destruct (ConfigTypes.Config.http c)).
  assert (Hm : middlewares (with_http (pre_parse_http pu <$> ConfigTypes.Config.http c) c) = middlewares c)
    by (unfold middlewares; cbn; by destruct (ConfigTypes.Config.http c)).
  rewrite Hs, Hr, each_fmap, (each_ext _ (check_service p)) by (intros e; apply check_service_pre_parse).
  rewrite (each_ext (check_router _) (check_router c)); [done|].
  intros e. unfold check_router, check_refs. rewrite Hs, Hm, contains_key_fmap. done.
Qed.

Lemma validate_no_panic p c : validate p c <> Panic.
Proof.
  assert (Hrefs : forall S M kind (svcs : list (string * S)) (mws : list (string * M)) eps name service ms es,
    check_refs kind svcs mws eps name service ms es <> Panic).
  { intros. unfold check_refs. destruct (negb _); [done|].
    assert (H1 : each (check_middleware kind name mws) ms <> Panic) by (apply each_no_panic; intros x; unfold check_middleware; by destruct (_ && _)).
    destruct (each _ ms); [|done|done]. cbn. apply each_no_panic. intros x. unfold check_entry_point. by destruct (negb _). }
  assert (Hsv : each (check_service p) (services c) <> Panic).
  { apply each_no_panic. intros [n s]. unfold check_service. destruct (Service.load_balancer s) as [lb|].
    - destruct (LoadBalancerService.servers lb); [done|]. apply each_no_panic. intros x. by destruct (p (url x)).
    - destruct (Service.weighted s) as [w|]; [by destruct (WeightedService.services w)|].
      destruct (Service.mirroring s); [by case_bool_decide|done]. }
  assert (Ht : each check_tcp_service (tcp_services c) <> Panic).
  { apply each_no_panic. intros [n s]. unfold check_tcp_service. repeat case_match; done. }
  assert (Hu : each check_udp_service (udp_services c) <> Panic).
  { apply each_no_panic. intros [n s]. unfold check_udp_service. repeat case_match; done. }
  assert (Hr1 : each (check_router c) (routers c) <> Panic) by (apply each_no_panic; intros x; apply Hrefs).
  assert (Hr2 : each (check_tcp_router c) (tcp_routers c) <> Panic) by (apply each_no_panic; intros x; apply Hrefs).
  assert (Hr3 : each (check_udp_router c) (udp_routers c) <> Panic) by (apply each_no_panic; intros x; apply Hrefs).
  unfold validate. destruct (ConfigTypes.Config.entry_points c); [done|].
  repeat match goal with |- res_bind ?r _ <> Panic => destruct r; cbn [res_bind]; [|done|done] end. done.
Qed.

Lemma load_valid p pu (from_yaml : string -> option config) file c' : load p pu from_yaml file = Ok c' ->
  valid p c' /\ exists text c0, file = Some text /\ from_yaml text = Some c0 /\ valid p c0 /\ c' = pre_parse_uris pu c0.
Proof.
  unfold load. destruct file as [text|]; [|done]. cbn [ok_or res_bind]. destruct (from_yaml text) as [c0|] eqn:Ey; [|done]. cbn [ok_or res_bind].
  destruct (validate p c0) as [[]| |] eqn:Ev; [|done|done]. cbn [res_bind]. intros [= <-].
  split; [apply validate_ok; by rewrite validate_pre_parse|]. exists text, c0. split_and!; try done. by apply validate_ok.
Qed.

(** A service as the documentation has it: it balances over servers, splits traffic,
    mirrors, or fails over. *)
Definition service_documented (url_parses : string -> bool) (s : Service.t) : Prop :=
  match Service.load_balancer s, Service.weighted s, Service.mirroring s, Service.failover s with
  | Some lb, _, _, _ => LoadBalancerService.servers lb <> [] /\ Forall (fun s => url_parses (url s) = true) (LoadBalancerService.servers lb)
  | None, Some w, _, _ => WeightedService.services w <> []
  | None, None, Some m, _ => MirroringService.service m <> ""
  | None, None, None, Some f => True
  | None, None, None, None => False
  end.
Definition failover_only (s : Service.t) : Prop :=
  Service.load_balancer s = None /\ Service.weighted s = None /\ Service.mirroring s = None /\ is_Some (Service.failover s).

Lemma service_valid_documented p s : service_valid p s <-> service_documented p s /\ ~ failover_only s.
Proof.
  unfold service_valid, service_documented, failover_only.
  destruct (Service.load_balancer s), (Service.weighted s), (Service.mirroring s), (Service.failover s);
    (split; [intros H; split; [done|]; by intros (? & ? & ? & [? ?])|intros [H1 H2]; try done]).
  exfalso. apply H2. by split_and!.
Qed.

(** A configuration as the documentation has it. *)
Record documented (url_parses : string -> bool) (c : config) : Prop := {
  d_entry_points : ConfigTypes.Config.entry_points c <> [];
  d_services : Forall (fun e => service_documented url_parses e.2) (services c);
  d_routers : Forall (fun e => refs_valid (services c) (middlewares c) (ConfigTypes.Config.entry_points c)
    (Router.service e.2) (Router.middlewares e.2) (Router.entry_points e.2)) (routers c);
  d_tcp_services : Forall (fun e => tcp_service_valid e.2) (tcp_services c);
  d_tcp_routers : Forall (fun e => refs_valid (tcp_services c) (tcp_middlewares c) (ConfigTypes.Config.entry_points c)
    (TcpRouter.service e.2) (TcpRouter.middlewares e.2) (TcpRouter.entry_points e.2)) (tcp_routers c);
  d_udp_services : Forall (fun e => udp_service_valid e.2) (udp_services c);
  d_udp_routers : Forall (fun e => refs_valid (udp_services c) (udp_middlewares c) (ConfigTypes.Config.entry_points c)
    (UdpRouter.service e.2) (UdpRouter.middlewares e.2) (UdpRouter.entry_points e.2)) (udp_routers c);
}.
Lemma valid_documented p c : valid p c <-> documented p c /\ Forall (fun e => ~ failover_only e.2) (services c).
Proof.
  assert (H : Forall (fun e => service_valid p e.2) (services c) <->
    Forall (fun e => service_documented p e.2) (services c) /\ Forall (fun e => ~ failover_only e.2) (services c)).
  { rewrite <- Forall_and. apply Forall_iff. intros e. apply service_valid_documented. }
  split.
  - intros [? Hs ? ? ? ? ?]. apply H in Hs as [? ?]. by split; [split|].
  - intros [[? Hs ? ? ? ? ?] Hf]. split; try done. apply H. by split.
Qed.

(** C19. Validation, exactly. A configuration passes if and only if it is well formed as
    the documentation has it and no service is configured for failover alone. Well
    formed means: it has an entry point, every HTTP service has servers with
    parseable addresses, or weighted services, or a mirrored service, or is a
    failover service, every TCP and UDP service has servers or weighted services,
    and every HTTP, TCP and UDP router names a defined service of its protocol,
    defined entry points, and middlewares defined under their name or under the
    part before an at sign. That failover services, which the documentation shows
    and the program has a router for, are refused is a fault of the check. A loaded
    configuration has passed, and is well formed also after the addresses have
    been pre-parsed. *)
Theorem config_validate_exact p pu (from_yaml : string -> option config) c file :
  (validate p c = Ok tt <-> documented p c /\ Forall (fun e => ~ failover_only e.2) (services c)) /\ validate p c <> Panic /\
  (forall c', load p pu from_yaml file = Ok c' -> documented p c' /\ exists text c0, file = Some text /\ from_yaml text = Some c0 /\
     documented p c0 /\ c' = pre_parse_uris pu c0).
Proof.
  split_and!; [by rewrite validate_ok, valid_documented|apply validate_no_panic|].
  intros c' (Hv & text & c0 & ? & ? & Hv0 & ?)%load_valid. apply valid_documented in Hv as [? _], Hv0 as [? _].
  split; [done|]. by exists text, c0.
Qed.

(** ** Which middlewares of a checked configuration take effect *)
Section Effective.
Context `{HO : HttpOps} `{IL : IpLib} `{RO : RegexOps}.

Definition strategy_of (s : ConfigTypes.IpStrategy.t) : IpFilter.IpStrategy :=
  {| IpFilter.depth := ConfigTypes.IpStrategy.depth s; IpFilter.excluded_ips := ConfigTypes.IpStrategy.excluded_ips s |}.

(** The fields [create_middleware] reads. *)
Definition to_pipeline (m : MiddlewareConfig.t) : Pipeline.MiddlewareConfig := {|
  c_headers := (fun h => (HeadersConfig.custom_request_headers h, HeadersConfig.custom_response_headers h,
    {| Cors.allow_credentials_cfg := HeadersConfig.access_control_allow_credentials h;
       Cors.allow_headers := HeadersConfig.access_control_allow_headers h;
       Cors.allow_methods := HeadersConfig.access_control_allow_methods h;
       Cors.allow_origin_list := HeadersConfig.access_control_allow_origin_list h;
       Cors.allow_origin_list_regex := HeadersConfig.access_control_allow_origin_list_regex h;
       Cors.expose_headers := HeadersConfig.access_control_expose_headers h;
       Cors.max_age_cfg := HeadersConfig.access_control_max_age h;
       Cors.add_vary_cfg := HeadersConfig.add_vary_header h |})) <$> MiddlewareConfig.headers m;
  c_rate_limit := (fun r => {| RateLimit.average := ConfigTypes.RateLimitConfig.average r;
    RateLimit.burst := ConfigTypes.RateLimitConfig.burst r; RateLimit.period := ConfigTypes.RateLimitConfig.period r |})
    <$> MiddlewareConfig.rate_limit m;
  c_ip_allow_list := (fun l => (IpAllowListConfig.source_range l, strategy_of <$> IpAllowListConfig.ip_strategy l,
    IpAllowListConfig.reject_status_code l)) <$> MiddlewareConfig.ip_allow_list m;
  c_ip_white_list := (fun l => (IpAllowListConfig.source_range l, strategy_of <$> IpAllowListConfig.ip_strategy l,
    IpAllowListConfig.reject_status_code l)) <$> MiddlewareConfig.ip_white_list m;
  c_ip_deny_list := (fun l => (IpDenyListConfig.source_range l, strategy_of <$> IpDenyListConfig.ip_strategy l)) <$> MiddlewareConfig.ip_deny_list m;
  c_basic_auth := (fun a => {| cfg_users := ConfigTypes.BasicAuthConfig.users a; cfg_realm := ConfigTypes.BasicAuthConfig.realm a |})
    <$> MiddlewareConfig.basic_auth m;
  c_redirect_scheme := (fun r => {| Redirect.scheme_cfg := ConfigTypes.RedirectSchemeConfig.scheme r;
    Redirect.permanent_cfg := ConfigTypes.RedirectSchemeConfig.permanent r; Redirect.port_cfg := ConfigTypes.RedirectSchemeConfig.port r |})
    <$> MiddlewareConfig.redirect_scheme m;
  c_strip_prefix := (fun s => {| Path.prefixes := StripPrefixConfig.prefixes s; Path.force_slash := StripPrefixConfig.force_slash s |})
    <$> MiddlewareConfig.strip_prefix m;
  c_add_prefix := AddPrefixConfig.prefix <$> MiddlewareConfig.add_prefix m;
  c_replace_path := ReplacePathConfig.path <$> MiddlewareConfig.replace_path m;
  c_strip_prefix_regex := StripPrefixRegexConfig.regex <$> MiddlewareConfig.strip_prefix_regex m;
  c_replace_path_regex := (fun r => (ReplacePathRegexConfig.regex r, ReplacePathRegexConfig.replacement r)) <$> MiddlewareConfig.replace_path_regex m;
  c_compress := CompressConfig.min_response_body_bytes <$> MiddlewareConfig.compress m;
|}.

Definition registry_entries (c : config) : list (string * Pipeline.MiddlewareConfig) :=
  (fun e => (e.1, to_pipeline e.2)) <$> middlewares c.

(** The kinds that have an effect and when a middleware is configured for them, in the
    order of precedence. The regular expressions have to compile, all of the patterns of
    [stripPrefixRegex]. *)
Definition compiles (p : string) : bool := match regex_new p with inr _ => true | inl _ => false end.
Definition kinds (m : MiddlewareConfig.t) : list (string * bool) :=
  [("headers", is_some (MiddlewareConfig.headers m));
   ("rateLimit", is_some (MiddlewareConfig.rate_limit m));
   ("ipAllowList", is_some (MiddlewareConfig.ip_allow_list m) || is_some (MiddlewareConfig.ip_white_list m));
   ("ipDenyList", is_some (MiddlewareConfig.ip_deny_list m));
   ("basicAuth", is_some (MiddlewareConfig.basic_auth m));
   ("redirectScheme", is_some (MiddlewareConfig.redirect_scheme m));
   ("stripPrefix", is_some (MiddlewareConfig.strip_prefix m));
   ("addPrefix", is_some (MiddlewareConfig.add_prefix m));
   ("replacePath", is_some (MiddlewareConfig.replace_path m));
   ("stripPrefixRegex", from_option (fun r => forallb compiles (StripPrefixRegexConfig.regex r)) false (MiddlewareConfig.strip_prefix_regex m));
   ("replacePathRegex", from_option (fun r => compiles (ReplacePathRegexConfig.regex r)) false (MiddlewareConfig.replace_path_regex m));
   ("compress", is_some (MiddlewareConfig.compress m))].
Definition effective_kind (m : MiddlewareConfig.t) : option string := fst <$> List.find snd (kinds m).

(** The kind of a middleware that was built. *)
Definition instance_kind (i : Instance) : string :=
  match i with
  | IHeaders _ | IHeadersAndCors _ _ => "headers"
  | IRateLimit _ => "rateLimit"
  | IIpAllow _ => "ipAllowList"
  | IIpDeny _ => "ipDenyList"
  | IBasicAuth _ => "basicAuth"
  | IRedirectScheme _ => "redirectScheme"
  | IStripPrefix _ => "stripPrefix"
  | IAddPrefix _ => "addPrefix"
  | IReplacePath _ => "replacePath"
  | IStripPrefixRegex _ => "stripPrefixRegex"
  | IReplacePathRegex _ _ => "replacePathRegex"
  | ICompress _ => "compress"
  end.

Lemma strip_regex_new_some ps : forallb compiles ps = is_some (Path.strip_regex_new ps).
Proof.
  unfold Path.strip_regex_new, compiles. induction ps as [|p ps IH]; [done|]. cbn. rewrite IH.
  destruct (regex_new p); [done|]. cbn. by destruct (mapM _ ps).
Qed.

(** The registry builds the first of these kinds. *)
Lemma create_kind m o : create_middleware (to_pipeline m) = Ok o -> instance_kind <$> o = effective_kind m.
Proof.
  unfold create_middleware, effective_kind, kinds, to_pipeline.
  cbn [c_headers c_rate_limit c_ip_allow_list c_ip_white_list c_ip_deny_list c_basic_auth c_redirect_scheme c_strip_prefix c_add_prefix
       c_replace_path].
  destruct (MiddlewareConfig.headers m); [cbn; intros [= <-]; by destruct (Cors.from_headers_config _)|].
  destruct (MiddlewareConfig.rate_limit m); [by intros [= <-]|].
  destruct (MiddlewareConfig.ip_allow_list m); [by intros [= <-]|]. destruct (MiddlewareConfig.ip_white_list m); [by intros [= <-]|].
  destruct (MiddlewareConfig.ip_deny_list m); [by intros [= <-]|].
  destruct (MiddlewareConfig.basic_auth m); [cbn; destruct (basic_auth_new _ _); [by intros [= <-]|done|done]|].
  destruct (MiddlewareConfig.redirect_scheme m); [by intros [= <-]|]. destruct (MiddlewareConfig.strip_prefix m); [by intros [= <-]|].
  destruct (MiddlewareConfig.add_prefix m); [by intros [= <-]|]. destruct (MiddlewareConfig.replace_path m); [by intros [= <-]|].
  intros [= <-]. cbn [is_some orb List.find snd].
  unfold create_strip_regex, create_replace_regex, create_compress. cbn [c_strip_prefix_regex c_replace_path_regex c_compress].
  assert (Hrest : forall c, instance_kind <$> (ICompress <$> (CompressConfig.min_response_body_bytes <$> c)) =
    fst <$> (if is_some c then Some ("compress", true) else None)) by by intros [].
  assert (Hreplace : forall o c, instance_kind <$> match (fun r => (ReplacePathRegexConfig.regex r, ReplacePathRegexConfig.replacement r)) <$> o with
      | Some (p, replacement) => match regex_new p with inr re => Some (IReplacePathRegex re replacement) | inl _ => ICompress <$> (CompressConfig.min_response_body_bytes <$> c) end
      | None => ICompress <$> (CompressConfig.min_response_body_bytes <$> c) end =
    fst <$> List.find snd [("replacePathRegex", from_option (fun r => compiles (ReplacePathRegexConfig.regex r)) false o); ("compress", is_some c)]).
  { intros [r|] c; cbn; [|by destruct c]. unfold compiles. destruct (regex_new _); by destruct c. }
  destruct (MiddlewareConfig.strip_prefix_regex m) as [r|]; cbn [fmap option_fmap option_map mbind option_bind from_option]; [|apply Hreplace].
  rewrite strip_regex_new_some. destruct (Path.strip_regex_new _); [done|apply Hreplace].
Qed.

Lemma effective_kind_some m : is_Some (effective_kind m) <-> exists k, (k, true) ∈ kinds m.
Proof.
  unfold effective_kind. rewrite fmap_is_Some. split.
  - intros [[k b] Hf]. apply find_some in Hf as [Hin Hb]. cbn in Hb. subst b. exists k. by apply list_elem_of_In.
  - intros [k Hk%list_elem_of_In]. destruct (List.find snd (kinds m)) as [x|] eqn:E; [by eexists|]. by apply (find_none _ _ E) in Hk.
Qed.

Lemma registry_new_lookup l : forall reg reg' n, registry_new ((fun e => (e.1, to_pipeline e.2)) <$> l) reg = Ok reg' ->
  (is_Some (reg' !! n) <-> is_Some (reg !! n) \/ exists m, (n, m) ∈ l /\ is_Some (effective_kind m)) /\
  (forall i, reg' !! n = Some i -> reg !! n = Some i \/ exists m, (n, m) ∈ l /\ effective_kind m = Some (instance_kind i)).
Proof.
  induction l as [|[k m] l IH]; intros reg reg' n; cbn [fmap list_fmap registry_new fst snd].
  - intros [= <-]. split; [|by left]. split; [intros; by left|]. intros [?|(m & Hm & _)]; [done|]. by apply not_elem_of_nil in Hm.
  - destruct (create_middleware (to_pipeline m)) as [o|e|] eqn:Ec; cbn [res_bind]; [|destruct e|done]. apply create_kind in Ec.
    intros Hr. destruct (IH _ _ n Hr) as [IH1 IH2]. rewrite IH1. clear IH1 Hr IH. split.
    + assert (Hreg : is_Some (match o with Some i => <[k := i]> reg | None => reg end !! n) <-> is_Some (reg !! n) \/ (k = n /\ is_Some (effective_kind m))).
      { rewrite <- Ec. destruct o as [i|]; cbn; [|split; [by left|intros [?|[_ [? [=]]]]; done]].
        destruct (decide (k = n)) as [->|Hne].
        - rewrite lookup_insert_eq. split; [intros _; right; by split|by eexists].
        - rewrite lookup_insert_ne by done. split; [by left|by intros [?|[? _]]]. }
      rewrite Hreg. split.
      * intros [[?|[-> Hk]]|(m' & Hm' & Hk)]; [by left|right; exists m; split; [left|done]|right; exists m'; split; [by right|done]].
      * intros [?|(m' & Hm' & Hk)]; [by left; left|]. apply elem_of_cons in Hm' as [[= -> ->]|?]; [left; by right|right; by exists m'].
    + intros i Hi. destruct (IH2 i Hi) as [Hi'|(m' & Hm' & Hk)]; [|right; exists m'; split; [by right|done]].
      destruct o as [j|]; [|by left]. destruct (decide (k = n)) as [->|Hne]; [|rewrite lookup_insert_ne in Hi' by done; by left].
      rewrite lookup_insert_eq in Hi'. injection Hi' as ->. right. exists m. split; [left|done].
Qed.

(** C12. Which middlewares of a router take effect: exactly those defined under the
    name as the router writes it, with one of twelve kinds (headers, rate limit, IP
    allow and deny lists, basic authentication, scheme redirection, the prefix and
    path rewriters, of which those with regular expressions only when these
    compile, and compression). What is built is of the first of these kinds that
    the definition has. A middleware that validation accepts only by the part
    before an at sign, and one of any other kind (JWT, digest and forward
    authentication, retry, circuit breaker and others), is left out of the chain. *)
Theorem effective_middlewares c reg names n :
  registry_new (registry_entries c) ∅ = Ok reg ->
  (n ∈ resolve reg names <-> n ∈ names /\ exists m k, (n, m) ∈ middlewares c /\ (k, true) ∈ kinds m) /\
  (forall i, reg !! n = Some i -> exists m, (n, m) ∈ middlewares c /\ effective_kind m = Some (instance_kind i)) /\
  (~ defined (middlewares c) n -> n ∉ resolve reg names).
Proof.
  intros Hr. destruct (registry_new_lookup _ _ _ n Hr) as [Hl Hk]. rewrite lookup_empty in Hl, Hk.
  assert (He : n ∈ resolve reg names <-> n ∈ names /\ exists m k, (n, m) ∈ middlewares c /\ (k, true) ∈ kinds m).
  { unfold resolve. rewrite list_elem_of_filter, Hl. split.
    - intros [[[? [=]]|(m & Hm & [k ?]%effective_kind_some)] ?]. split; [done|]. by exists m, k.
    - intros [? (m & k & Hm & Hk')]. split; [|done]. right. exists m. split; [done|]. apply effective_kind_some. by exists k. }
  split_and!; [exact He| |].
  - intros i Hi. destruct (Hk i Hi) as [[=]|?]; done.
  - rewrite He. intros Hn (_ & m & k & Hm & _). apply Hn. by exists m.
Qed.
End Effective.

(** ** A concrete configuration *)
#[local] Existing Instance map_http.
#[local] Existing Instance text_uri.
#[local] Existing Instance two_hosts.
#[local] Existing Instance no_regex_ops.

(** One service, a router that uses a middleware, and that middleware under the
    name [auth]. *)
Definition demo_config (m : MiddlewareConfig.t) (used : string) : config :=
  let lb := LoadBalancerService.new [mk_server "http://b:80" 1] in
  let svc := {| Service.load_balancer := Some lb; Service.weighted := None; Service.mirroring := None; Service.failover := None |} in
  let r := {| Router.entry_points := ["web"]; Router.rule := "Path(`/`)"; Router.rule_syntax := None; Router.service := "s";
              Router.middlewares := [used]; Router.priority := 0; Router.tls := None; Router.observability := None |} in
  let base := {| ConfigTypes.Config.entry_points := [("web", EntryPoint.new ":80")]; ConfigTypes.Config.http := None;
    ConfigTypes.Config.tcp := None; ConfigTypes.Config.udp := None; ConfigTypes.Config.tls := None;
    ConfigTypes.Config.certificates_resolvers := []; ConfigTypes.Config.providers := None; ConfigTypes.Config.metrics := None;
    ConfigTypes.Config.api := None; ConfigTypes.Config.log := None; ConfigTypes.Config.access_log := None; ConfigTypes.Config.cluster := None |} in
  with_http (Some {| HttpConfig.routers := [("r", r)]; HttpConfig.services := [("s", svc)]; HttpConfig.middlewares := [("auth", m)];
                     HttpConfig.servers_transports := [] |}) base.

Definition only_basic (a : ConfigTypes.BasicAuthConfig.t) : MiddlewareConfig.t :=
  MiddlewareConfig.mk None None None None (Some a) None None None None None None None None None None None None None None None None None None None None None.
Definition only_jwt (j : ConfigTypes.JwtConfig.t) : MiddlewareConfig.t :=
  MiddlewareConfig.mk None None None None None None None None None None None None None None None None None None None None None None None (Some j) None None.
Definition basic_mw : MiddlewareConfig.t :=
  only_basic {| ConfigTypes.BasicAuthConfig.users := ["u:p"]; ConfigTypes.BasicAuthConfig.users_file := None; ConfigTypes.BasicAuthConfig.realm := None;
                ConfigTypes.BasicAuthConfig.header_field := None; ConfigTypes.BasicAuthConfig.remove_header := false |}.
Definition jwt_mw : MiddlewareConfig.t := only_jwt ConfigTypes.JwtConfig.new.

Definition registry_of (c : config) : gmap string Instance := match registry_new (registry_entries c) ∅ with Ok r => r | _ => ∅ end.

Lemma config_validate_exact_witness :
  documented (fun _ => true) (demo_config basic_mw "auth@file") /\
  validate (fun _ => true) (demo_config basic_mw "other") = Err "Router 'r' references non-existent middleware 'other'".
Proof.
  split; [|vm_compute; reflexivity].
  apply (proj1 (config_validate_exact (fun _ => true) (fun _ => None) (fun _ => None) (demo_config basic_mw "auth@file") None)).
  vm_compute. reflexivity.
Defined.

Lemma effective_middlewares_witness :
  ("auth" ∈ resolve (registry_of (demo_config basic_mw "auth")) ["auth"]) /\
  ("auth@file" ∉ resolve (registry_of (demo_config basic_mw "auth@file")) ["auth@file"]) /\
  ("auth" ∉ resolve (registry_of (demo_config jwt_mw "auth")) ["auth"]).
Proof.
  split_and!.
  - destruct (effective_middlewares (demo_config basic_mw "auth") (registry_of (demo_config basic_mw "auth")) ["auth"] "auth") as [H _];
      [reflexivity|]. apply H. split; [left|]. exists basic_mw, "basicAuth". split; [left|]. do 4 right. left.
  - destruct (effective_middlewares (demo_config basic_mw "auth@file") (registry_of (demo_config basic_mw "auth@file")) ["auth@file"] "auth@file")
      as (_ & _ & H); [reflexivity|]. apply H. intros [v Hv]. apply elem_of_cons in Hv as [Hv|Hv]; [discriminate|]. by apply not_elem_of_nil in Hv.
  - destruct (effective_middlewares (demo_config jwt_mw "auth") (registry_of (demo_config jwt_mw "auth")) ["auth"] "auth") as (H & _ & _);
      [reflexivity|]. rewrite H. intros (_ & m & k & Hm & Hk). apply elem_of_cons in Hm as [Hm|Hm]; [|by apply not_elem_of_nil in Hm].
    injection Hm as ->. vm_compute in Hk. repeat (apply elem_of_cons in Hk as [Hk|Hk]; [discriminate|]). by apply not_elem_of_nil in Hk.
Defined.

(** A request without credentials, through the chain of a route whose checked
    configuration asks for basic authentication of [auth@file], or for a JWT,
    reaches the backend; with [auth] it is refused. *)
Lemma unprotected_routes :
  let run c used := (run_chain (E := unit) log_endpoint (fun _ => (0, 0)) [used] (demo_request true) (registry_of c) []).2 in
  validate (fun _ => true) (demo_config basic_mw "auth@file") = Ok tt /\ validate (fun _ => true) (demo_config jwt_mw "auth") = Ok tt /\
  run (demo_config basic_mw "auth@file") "auth@file" = ["/x"] /\ run (demo_config jwt_mw "auth") "auth" = ["/x"] /\
  run (demo_config basic_mw "auth") "auth" = [].
Proof. split_and!; vm_compute; reflexivity. Qed.

(** A service configured for failover only is refused, although the rest of the
    program knows such services. *)
Lemma failover_services_refused p name s :
  Service.load_balancer s = None -> Service.weighted s = None -> Service.mirroring s = None ->
  check_service p (name, s) = Err ("Service '" +:+ name +:+ "' must have loadBalancer, weighted, or mirroring configured").
Proof. intros H1 H2 H3. unfold check_service. rewrite H1, H2, H3. unfold bail. cbn [foldr]. by rewrite str_app_nil_r. Qed.
