(* ===== verification/Udp.v ===== *)
(** * UDP routes and services

    Models src/src/udp/router.rs and src/src/udp/service.rs with the data of these
    files: rules, routes and router tables, services with their counters and health
    flags, built from a configuration. [L4] gives the two transport protocols one
    theory; here the UDP code is translated on its own, and the theorems show that
    it routes and selects as that theory says. *)
From S2P Require Import Prelude RustStr Balancer Order Net L4 ConfigTypes ConfigCheck.
From stdpp Require Import list gmap.
Open Scope Z_scope.
Open Scope list_scope.

(** ** Rules *)
Section Router.
Context `{IL : IpLib}.

Inductive UdpRule := UdpCatchAll | UdpClientIP (networks : list IpNetwork).

(** The slice [&rule[9..rule.len().saturating_sub(1)]] aborts on a text that is
    too short or cut inside a character. *)
Definition udp_extract_clientip (rule : string) : result Empty_set (option (list string)) :=
  let rule_lower := to_ascii_lowercase rule in
  if negb (starts_with "clientip(" rule_lower) then Ok None
  else
    res_bind (inner_of 9 rule) (fun inner =>
      let ips := (fun s => trim_matches dquote (trim_matches "'" (trim_matches "`" s))) <$>
                   filter (fun s => s <> "") (trim <$> split_on "," inner) in
      Ok (match ips with [] => None | _ => Some ips end)).

Definition udp_rule_parse (rule : string) : result Empty_set UdpRule :=
  let rule := trim rule in
  if bool_decide (rule = "*") then Ok UdpCatchAll
  else
    res_bind (udp_extract_clientip rule) (fun o =>
      match o with
      | Some ips =>
          let networks := omap parse_network ips in
          match networks with [] => Ok UdpCatchAll | _ => Ok (UdpClientIP networks) end
      | None => Ok UdpCatchAll
      end).

Definition udp_matches (r : UdpRule) (client : option IpAddr) : bool :=
  match r with
  | UdpCatchAll => true
  | UdpClientIP networks => match client with Some a => existsb (fun net => network_contains net a) networks | None => false end
  end.

(** ** The router *)
Record UdpRoute := { ur_name : string; ur_service : string; ur_middlewares : list string; ur_rule : UdpRule; ur_priority : Z (* i32 *) }.
Record UdpRouter := { ur_routers : gmap string (list UdpRoute); ur_catch_all : gmap string UdpRoute }.
Definition udp_router_empty : UdpRouter := {| ur_routers := ∅; ur_catch_all := ∅ |}.

Definition udp_bind (route : UdpRoute) (rt : UdpRouter) (ep : string) : UdpRouter :=
  let replaced := {| ur_routers := ur_routers rt; ur_catch_all := <[ep := route]> (ur_catch_all rt) |} in
  match ur_rule route with
  | UdpCatchAll =>
      match ur_catch_all rt !! ep with
      | Some existing => if ur_priority existing <? ur_priority route then replaced else rt
      | None => replaced
      end
  | UdpClientIP _ => {| ur_routers := <[ep := default [] (ur_routers rt !! ep) ++ [route]]> (ur_routers rt); ur_catch_all := ur_catch_all rt |}
  end.

Fixpoint udp_bind_all (all : list string) (cfg : list (string * ConfigTypes.UdpRouter.t)) (rt : UdpRouter) : result Empty_set UdpRouter :=
  match cfg with
  | [] => Ok rt
  | (name, rc) :: cfg' =>
      res_bind (udp_rule_parse (ConfigTypes.UdpRouter.rule rc)) (fun rule =>
        let route := {| ur_name := name; ur_service := ConfigTypes.UdpRouter.service rc; ur_middlewares := ConfigTypes.UdpRouter.middlewares rc;
                        ur_rule := rule; ur_priority := ConfigTypes.UdpRouter.priority rc |} in
        let entrypoints := match ConfigTypes.UdpRouter.entry_points rc with [] => all | eps => eps end in
        udp_bind_all all cfg' (foldl (udp_bind route) rt entrypoints))
  end.

Definition udp_router_of (c : config) : result Empty_set UdpRouter :=
  res_bind (udp_bind_all (ConfigTypes.Config.entry_points c).*1 (udp_routers c) udp_router_empty) (fun rt =>
    Ok {| ur_routers := sort_desc ur_priority <$> ur_routers rt; ur_catch_all := ur_catch_all rt |}).

Definition udp_match_datagram (rt : UdpRouter) (ep : string) (client : option IpAddr) : option UdpRoute :=
  match find (fun r => udp_matches (ur_rule r) client) (default [] (ur_routers rt !! ep)) with
  | Some r => Some r
  | None => ur_catch_all rt !! ep
  end.
Definition udp_has_routes_for (rt : UdpRouter) (ep : string) : bool :=
  bool_decide (is_Some (ur_routers rt !! ep)) || bool_decide (is_Some (ur_catch_all rt !! ep)).
End Router.

(** ** Services *)
Record UdpService := { us_name : string; us_servers : list UdpBackendServer; us_rr_counter : Z (* AtomicUsize *); us_healthy : list bool }.
Definition udp_backend (s : UdpServer.t) : UdpBackendServer := {| udp_address := UdpServer.address s; udp_weight := UdpServer.weight s |}.
Definition udp_service_new (name : string) (lb : UdpLoadBalancer.t) : UdpService :=
  let servers := udp_backend <$> UdpLoadBalancer.servers lb in
  {| us_name := name; us_servers := servers; us_rr_counter := 0; us_healthy := replicate (length servers) true |}.
Definition udp_add_service (m : gmap string UdpService) (e : string * ConfigTypes.UdpService.t) : gmap string UdpService :=
  match ConfigTypes.UdpService.load_balancer e.2 with
  | Some lb => <[e.1 := udp_service_new e.1 lb]> m
  | None => m
  end.
Definition udp_manager_of (c : config) : gmap string UdpService := foldl udp_add_service ∅ (udp_services c).
Definition udp_get_service (m : gmap string UdpService) (name : string) : option UdpService := m !! name.
Definition udp_service_names (m : gmap string UdpService) : list string := (map_to_list m).*1.

Definition udp_server_count (s : UdpService) : nat := length (us_servers s).
Definition udp_healthy_count (s : UdpService) : nat := length (filter (fun h => h = true) (us_healthy s)).
Definition udp_mark_unhealthy (index : nat) (s : UdpService) : UdpService :=
  if decide (index < length (us_servers s))%nat
  then {| us_name := us_name s; us_servers := us_servers s; us_rr_counter := us_rr_counter s; us_healthy := <[index := false]> (us_healthy s) |}
  else s.
Definition udp_mark_healthy (index : nat) (s : UdpService) : UdpService :=
  if decide (index < length (us_servers s))%nat
  then {| us_name := us_name s; us_servers := us_servers s; us_rr_counter := us_rr_counter s; us_healthy := <[index := true]> (us_healthy s) |}
  else s.

(** The rounds of the loop: [fuel] of the attempts are left; each takes a ticket. *)
Fixpoint udp_next_loop (fuel : nat) (s : UdpService) : option UdpBackendServer * UdpService :=
  match fuel with
  | O => (head (us_servers s), s)
  | S fuel' =>
      let idx := Z.to_nat (us_rr_counter s mod Z.of_nat (length (us_servers s))) in
      let s' := {| us_name := us_name s; us_servers := us_servers s; us_rr_counter := wrap_u64 (us_rr_counter s + 1); us_healthy := us_healthy s |} in
      if load_flag (us_healthy s) idx then (us_servers s !! idx, s') else udp_next_loop fuel' s'
  end.
Definition udp_next_server (s : UdpService) : option UdpBackendServer * UdpService :=
  match us_servers s with
  | [] => (None, s)
  | _ => if (udp_healthy_count s =? 0)%nat then (head (us_servers s), s) else udp_next_loop (length (us_servers s)) s
  end.
Definition udp_server_by_hash (hash : Z) (s : UdpService) : option UdpBackendServer * UdpService :=
  match us_servers s with
  | [] => (None, s)
  | _ =>
      let idx := Z.to_nat (hash mod Z.of_nat (length (us_servers s))) in
      if load_flag (us_healthy s) idx then (us_servers s !! idx, s) else udp_next_server s
  end.

(** ** The shared theory *)
Section Shared.
Context `{IL : IpLib}.

Definition l4_config (rc : ConfigTypes.UdpRouter.t) : L4RouterConfig :=
  {| l4_entry_points := ConfigTypes.UdpRouter.entry_points rc; l4_rule := ConfigTypes.UdpRouter.rule rc; l4_service := ConfigTypes.UdpRouter.service rc;
     l4_middlewares := ConfigTypes.UdpRouter.middlewares rc; l4_priority := ConfigTypes.UdpRouter.priority rc; l4_tls_passthrough := None |}.
Definition l4_configs (c : config) : list (string * L4RouterConfig) := prod_map id l4_config <$> udp_routers c.

(** A UDP rule as a rule of the shared theory, and a route of that theory with
    what UDP keeps of it. *)
Definition up (r : UdpRule) : TcpRule := match r with UdpCatchAll => CatchAll | UdpClientIP n => ClientIP n end.
Definition down (r : TcpRule) : UdpRule := match r with ClientIP n => UdpClientIP n | _ => UdpCatchAll end.
Definition down_route (r : L4Route) : UdpRoute :=
  {| ur_name := rt_name r; ur_service := l4_service (rt_config r); ur_middlewares := l4_middlewares (rt_config r); ur_rule := down (rt_rule r);
     ur_priority := rt_priority r |}.
Definition down_router (rt : L4Router) : UdpRouter :=
  {| ur_routers := fmap (M := gmap string) (fmap (M := list) down_route) (l4_routers rt);
     ur_catch_all := fmap (M := gmap string) down_route (l4_catch_all rt) |}.

Lemma extract_same rule : udp_extract_clientip rule = extract_clientip rule.
Proof. unfold udp_extract_clientip, extract_clientip, arg_list. by destruct (starts_with _ _). Qed.
Lemma parse_up rule : udp_parse rule = res_bind (udp_rule_parse rule) (fun r => Ok (up r)).
Proof.
  unfold udp_parse, udp_rule_parse, parse_clientip. rewrite extract_same. destruct (bool_decide _); [done|].
  destruct (extract_clientip _) as [[ips|]| |]; cbn; try done. by destruct (omap _ ips).
Qed.
Lemma down_up r : down (up r) = r. Proof. by destruct r. Qed.

Lemma bind_down route r rt ep : rt_rule route = up r ->
  down_router (bind_entrypoint route rt ep) = udp_bind (down_route route) (down_router rt) ep.
Proof.
  intros Hr. unfold bind_entrypoint, udp_bind. rewrite Hr. cbn [down_route ur_rule]. rewrite Hr, down_up.
  destruct r as [|nets]; cbn [up is_catch_all down_router ur_catch_all ur_routers].
  - rewrite lookup_fmap. destruct (l4_catch_all rt !! ep) as [e|] eqn:E; cbn [fmap option_fmap option_map].
    + cbn [down_route ur_priority]. destruct (_ <? _); [|done]. by unfold down_router; cbn; rewrite fmap_insert.
    + by unfold down_router; cbn; rewrite fmap_insert.
  - unfold down_router; cbn. rewrite fmap_insert, lookup_fmap, fmap_app. by destruct (l4_routers rt !! ep).
Qed.
Lemma binds_down route r eps : rt_rule route = up r -> forall rt,
  down_router (foldl (bind_entrypoint route) rt eps) = foldl (udp_bind (down_route route)) (down_router rt) eps.
Proof. intros Hr. induction eps as [|ep eps IH]; intros rt; cbn [foldl]; [done|]. by rewrite IH, (bind_down route r). Qed.

Lemma bind_all_down all cfg : forall rt,
  match bind_all udp_parse all (prod_map id l4_config <$> cfg) rt, udp_bind_all all cfg (down_router rt) with
  | Some rt', Ok u => u = down_router rt'
  | None, Panic => True
  | _, _ => False
  end.
Proof.
  induction cfg as [|[name rc] cfg IH]; intros rt; [done|].
  change (prod_map id l4_config <$> _) with ((name, l4_config rc) :: (prod_map id l4_config <$> cfg)).
  cbn [bind_all udp_bind_all]. change (l4_rule (l4_config rc)) with (ConfigTypes.UdpRouter.rule rc).
  rewrite parse_up. destruct (udp_rule_parse _) as [r|[]|]; cbn [res_bind]; [|done].
  set (route := {| rt_name := name; rt_config := l4_config rc; rt_rule := up r |}).
  specialize (IH (foldl (bind_entrypoint route) rt (entrypoints_of all (l4_config rc)))).
  rewrite (binds_down route r) in IH by done. unfold down_route, rt_priority in IH; cbn in IH. by rewrite down_up in IH.
Qed.

Lemma insert_desc_map x l : insert_desc ur_priority (down_route x) (down_route <$> l) = down_route <$> insert_desc rt_priority x l.
Proof. induction l as [|y l IH]; [done|]. cbn. destruct (_ <? _); [|done]. cbn. by rewrite <- IH. Qed.
Lemma sort_desc_map l : sort_desc ur_priority (down_route <$> l) = down_route <$> sort_desc rt_priority l.
Proof. unfold sort_desc. induction l as [|x l IH]; [done|]. cbn. by rewrite IH, insert_desc_map. Qed.

Lemma router_down c :
  match udp_from_config (ConfigTypes.Config.entry_points c).*1 (l4_configs c), udp_router_of c with
  | Some rt, Ok u => u = down_router rt
  | None, Panic => True
  | _, _ => False
  end.
Proof.
  unfold udp_from_config, l4_from_config, udp_router_of, l4_configs.
  pose proof (bind_all_down (ConfigTypes.Config.entry_points c).*1 (udp_routers c) {| l4_routers := ∅; l4_catch_all := ∅ |}) as H.
  replace (down_router _) with udp_router_empty in H by (unfold down_router, udp_router_empty; cbn; by rewrite !fmap_empty).
  destruct (bind_all _ _ _ _) as [rt|], (udp_bind_all _ _ _) as [u| |]; cbn; try done. subst u. unfold down_router; cbn. f_equal.
  rewrite <- !map_fmap_compose. apply map_fmap_ext. intros ep l _. cbn. apply sort_desc_map.
Qed.

(** No rule of the shared theory names a host when it comes from a UDP text. *)
Definition no_sni (r : L4Route) : Prop := exists u, rt_rule r = up u.
Lemma routes_no_sni all cfg rt ep r : l4_from_config udp_parse all cfg = Some rt -> r ∈ default [] (l4_routers rt !! ep) -> no_sni r.
Proof.
  unfold l4_from_config. intros (rt0 & Hrt0 & ->)%fmap_Some. cbn. rewrite lookup_fmap.
  destruct (bind_all_bound udp_parse all cfg [] _ _ bound_empty Hrt0) as (qs & [Hr _ _] & Hq). cbn [app] in *. intros Hin.
  assert (r ∈ default [] (l4_routers rt0 !! ep)) as [Hin' _]%Hr.
  { destruct (l4_routers rt0 !! ep); [by apply sort_desc_elem in Hin|done]. }
  apply Hq in Hin' as (? & cc & rule & _ & Hp & _ & ->). rewrite parse_up in Hp. unfold no_sni; cbn.
  destruct (udp_rule_parse _) as [u| |]; simplify_eq/=. by exists u.
Qed.
Lemma find_down client l : (forall r, r ∈ l -> no_sni r) ->
  find (fun r => udp_matches (ur_rule r) client) (down_route <$> l) = down_route <$> find (fun r => tcp_matches (rt_rule r) None client) l.
Proof.
  induction l as [|r l IH]; intros H; [done|]. cbn. destruct (H r (list_elem_of_here _ _)) as [u Hu]. rewrite Hu.
  replace (udp_matches (down (up u)) client) with (tcp_matches (up u) None client) by (by destruct u).
  destruct (tcp_matches _ _ _); [done|]. apply IH. intros r' Hr'. apply H. by right.
Qed.
End Shared.

(** A service of the shared theory, as UDP keeps it. *)
Definition down_service (s : L4Service UdpBackendServer) : UdpService :=
  {| us_name := l4_name s; us_servers := servers s; us_rr_counter := rr_counter s; us_healthy := healthy s |}.

Lemma next_loop_down (s : L4Service UdpBackendServer) fuel : forall k, in_u64 (rr_counter s) ->
  udp_next_loop fuel (down_service (advance k s)) =
  let '(o, n) := rr_loop (fun k => wrap_u64 (rr_counter s + Z.of_nat k)) (healthy s) (servers s) fuel k in (o, down_service (advance n s)).
Proof.
  induction fuel as [|fuel IH]; intros k Hc; [done|]. cbn. destruct (load_flag _ _).
  - f_equal. unfold down_service, advance; cbn. f_equal. rewrite wrap_u64_add. f_equal. lia.
  - rewrite <- IH by done. f_equal. unfold down_service, advance; cbn. f_equal. rewrite wrap_u64_add. f_equal. lia.
Qed.

Lemma udp_next_down (s : L4Service UdpBackendServer) : in_u64 (rr_counter s) ->
  udp_next_server (down_service s) = let '(o, s') := next_server s in (o, down_service s').
Proof.
  intros Hc. unfold udp_next_server, next_server, next_with, udp_healthy_count, healthy_count. cbn [down_service us_servers us_healthy].
  assert (H0 : advance 0 s = s) by (unfold advance; rewrite Z.add_0_r, wrap_u64_id by done; by destruct s).
  destruct (servers s) as [|b ss] eqn:E; [by rewrite H0|]. destruct (_ =? 0)%nat; [by rewrite H0|]. rewrite <- E.
  rewrite <- H0 at 2. rewrite next_loop_down by done. by destruct (rr_loop _ _ _ _ _).
Qed.

(** The UDP router and services are those of the shared theory of the two
    transport protocols: for every configuration the router is built exactly when
    the shared one is, sends every datagram to the same route and has routes for
    the same entry points; and on every service the round robin, the lookup by
    hash and the health marks select the same server and leave the same state. *)
Lemma udp_is_l4 `{IL : IpLib} (c : config) (s : L4Service UdpBackendServer) : in_u64 (rr_counter s) ->
  match udp_router_of c with
  | Ok u => exists rt, udp_from_config (ConfigTypes.Config.entry_points c).*1 (l4_configs c) = Some rt /\
      (forall ep client, udp_match_datagram u ep client = down_route <$> match_datagram rt ep client) /\
      (forall ep, udp_has_routes_for u ep = has_routes_for rt ep)
  | Err _ => False
  | Panic => udp_from_config (ConfigTypes.Config.entry_points c).*1 (l4_configs c) = None
  end /\
  (udp_next_server (down_service s) = let '(o, s') := next_server s in (o, down_service s')) /\
  (forall hash, udp_server_by_hash hash (down_service s) = let '(o, s') := get_server_by_hash hash s in (o, down_service s')) /\
  (forall i, udp_mark_unhealthy i (down_service s) = down_service (mark false i s)) /\
  (forall i, udp_mark_healthy i (down_service s) = down_service (mark true i s)).
Proof.
  intros Hc. split_and!.
  - pose proof (router_down c) as H. unfold udp_from_config in *.
    destruct (udp_router_of c) as [u|[]|], (l4_from_config _ _ _) as [rt|] eqn:E; try done. subst u. exists rt. split_and!; [done| |].
    + intros ep client. unfold udp_match_datagram, match_datagram, l4_match. cbn [down_router ur_routers ur_catch_all].
      rewrite !lookup_fmap. pose proof (find_down client (default [] (l4_routers rt !! ep)) (fun r => routes_no_sni _ _ _ ep r E)) as Hf.
      destruct (l4_routers rt !! ep) as [l|]; cbn in *; [rewrite Hf; by destruct (find _ l)|done].
    + intros ep. unfold udp_has_routes_for, has_routes_for. cbn [down_router ur_routers ur_catch_all]. rewrite !lookup_fmap.
      f_equal; apply bool_decide_ext; apply fmap_is_Some.
  - by apply udp_next_down.
  - intros hash. unfold udp_server_by_hash, get_server_by_hash. rewrite (udp_next_down s Hc). cbn [down_service us_servers us_healthy].
    destruct (servers s); [done|]. by destruct (load_flag _ _).
  - intros i. unfold udp_mark_unhealthy, mark. cbn [down_service us_servers]. by destruct (decide _); destruct s.
  - intros i. unfold udp_mark_healthy, mark. cbn [down_service us_servers]. by destruct (decide _); destruct s.
Qed.

(** ** What a datagram meets *)
Section Served.
Context `{IL : IpLib}.

(** The routes of a configuration on an entry point, and the clients a rule admits. *)
Definition udp_serves (c : config) (ep : string) (r : UdpRoute) : Prop :=
  exists name rc, (name, rc) ∈ udp_routers c /\ udp_rule_parse (ConfigTypes.UdpRouter.rule rc) = Ok (ur_rule r) /\
    (ep ∈ ConfigTypes.UdpRouter.entry_points rc \/ ConfigTypes.UdpRouter.entry_points rc = [] /\ ep ∈ (ConfigTypes.Config.entry_points c).*1) /\
    ur_name r = name /\ ur_service r = ConfigTypes.UdpRouter.service rc /\
    ur_middlewares r = ConfigTypes.UdpRouter.middlewares rc /\ ur_priority r = ConfigTypes.UdpRouter.priority rc.
Definition udp_admits (r : UdpRule) (client : option IpAddr) : Prop :=
  match r with
  | UdpCatchAll => True
  | UdpClientIP networks => exists a net, client = Some a /\ net ∈ networks /\ network_contains net a = true
  end.

Lemma udp_matches_admits r client : udp_matches r client = true <-> udp_admits r client.
Proof.
  destruct r as [|nets]; [done|]. cbn. destruct client as [a|]; [|split; [done|by intros (? & ? & [=] & _)]].
  rewrite existsb_exists. split.
  - intros (net & Hin & Hn). exists a, net. by rewrite list_elem_of_In.
  - intros (a' & net & [= <-] & Hin & Hn). exists net. by rewrite <- list_elem_of_In.
Qed.
Lemma serves_down c ep r : udp_serves c ep r <-> exists r', serves_ep udp_parse (ConfigTypes.Config.entry_points c).*1 (l4_configs c) ep r' /\ r = down_route r'.
Proof.
  unfold udp_serves, serves_ep, l4_configs. split.
  - intros (name & rc & Hin & Hp & He & Hn & Hs & Hm & Hpr). exists {| rt_name := name; rt_config := l4_config rc; rt_rule := up (ur_rule r) |}.
    split; [|destruct r; unfold down_route, rt_priority; cbn in *; rewrite down_up; by simplify_eq]. exists name, (l4_config rc), (up (ur_rule r)).
    split_and!; [apply list_elem_of_fmap; by exists (name, rc)|cbn; by rewrite parse_up, Hp| |done].
    unfold entrypoints_of. cbn. destruct He as [He|[-> He]]; [|done]. by destruct (ConfigTypes.UdpRouter.entry_points rc); [apply elem_of_nil in He|].
  - intros (r' & (name & cc & rule & ([n rc] & [= -> ->] & Hin)%list_elem_of_fmap & Hp & He & ->) & ->). exists n, rc. cbn in Hp.
    rewrite parse_up in Hp. destruct (udp_rule_parse _) as [u| |] eqn:Eu; simplify_eq/=. rewrite down_up.
    split_and!; [done|done| |done..]. unfold entrypoints_of in He. cbn in He. destruct (ConfigTypes.UdpRouter.entry_points rc); auto.
Qed.
Lemma matches_up r client : no_sni r -> tcp_matches (rt_rule r) None client = udp_matches (ur_rule (down_route r)) client.
Proof. intros [u Hu]. cbn. rewrite Hu, down_up. by destruct u. Qed.
Lemma serves_no_sni all cfg ep r : serves_ep udp_parse all cfg ep r -> no_sni r.
Proof.
  intros (n & cc & rule & _ & Hp & _ & ->). rewrite parse_up in Hp. destruct (udp_rule_parse _) as [u| |]; simplify_eq/=. by exists u.
Qed.
Lemma catch_all_up r : no_sni r -> (is_catch_all (rt_rule r) = true <-> ur_rule (down_route r) = UdpCatchAll).
Proof. intros [u Hu]. cbn. rewrite Hu, down_up. by destruct u. Qed.

(** The route of a datagram. *)
Lemma udp_route_spec c u ep client : udp_router_of c = Ok u ->
  match udp_match_datagram u ep client with
  | Some r => udp_serves c ep r /\ udp_admits (ur_rule r) client /\
      forall r', udp_serves c ep r' -> udp_admits (ur_rule r') client ->
        ur_rule r' <> UdpCatchAll \/ ur_rule r = UdpCatchAll -> ur_priority r' <= ur_priority r
  | None => forall r', udp_serves c ep r' -> ~ udp_admits (ur_rule r') client
  end.
Proof.
  intros Hu. pose proof (router_down c) as Hd. rewrite Hu in Hd. destruct (udp_from_config _ _) as [rt|] eqn:E; [|done].
  assert (Hm : udp_match_datagram u ep client = down_route <$> l4_match rt ep None client).
  { subst u. unfold udp_match_datagram, l4_match. cbn [down_router ur_routers ur_catch_all]. rewrite !lookup_fmap.
    pose proof (find_down client (default [] (l4_routers rt !! ep)) (fun r => routes_no_sni _ _ _ ep r E)) as Hf.
    destruct (l4_routers rt !! ep) as [l|]; cbn in *; [rewrite Hf; by destruct (find _ l)|done]. }
  pose proof (l4_match_spec udp_parse _ _ rt ep None client E) as H. rewrite Hm. destruct (l4_match rt ep None client) as [r|]; cbn [fmap option_fmap option_map].
  - destruct H as (H1 & H2 & H3). pose proof (serves_no_sni _ _ _ _ H1) as Hn. rewrite <- udp_matches_admits, <- matches_up by done.
    split_and!; [apply serves_down; by exists r|done|]. intros r' (r0 & Hr0 & ->)%serves_down Ha Hc. pose proof (serves_no_sni _ _ _ _ Hr0) as Hn0.
    apply (H3 r0 Hr0); [by rewrite matches_up, udp_matches_admits|]. rewrite <- (catch_all_up r) in Hc by done. rewrite <- (catch_all_up r0) in Hc by done.
    destruct Hc as [Hc|Hc]; [left; by destruct (is_catch_all (rt_rule r0))|by right].
  - intros r' (r0 & Hr0 & ->)%serves_down Ha. rewrite <- udp_matches_admits, <- matches_up in Ha by (by eapply serves_no_sni).
    by rewrite (H _ Hr0) in Ha.
Qed.
End Served.

(** The states of a service: any number of selections and marks after its making. *)
Inductive udp_state (s0 : UdpService) : UdpService -> Prop :=
| udp_start : udp_state s0 s0
| udp_next s : udp_state s0 s -> udp_state s0 (udp_next_server s).2
| udp_hash h s : udp_state s0 s -> udp_state s0 (udp_server_by_hash h s).2
| udp_down i s : udp_state s0 s -> udp_state s0 (udp_mark_unhealthy i s)
| udp_up i s : udp_state s0 s -> udp_state s0 (udp_mark_healthy i s).

(** The first healthy server at or after the counter, in the order of the list,
    starting over at its end. *)
Definition udp_first_healthy (s : UdpService) (srv : UdpBackendServer) : Prop :=
  let at_ (j : nat) := Z.to_nat ((us_rr_counter s + Z.of_nat j) mod Z.of_nat (length (us_servers s))) in
  exists i, (i < length (us_servers s))%nat /\ us_servers s !! at_ i = Some srv /\ us_healthy s !! at_ i = Some true /\
    forall j, (j < i)%nat -> us_healthy s !! at_ j = Some false.

Record udp_wf (servers : list UdpBackendServer) (s : UdpService) : Prop := {
  uw_servers : us_servers s = servers;
  uw_flags : length (us_healthy s) = length servers;
  uw_counter : in_u64 (us_rr_counter s);
}.
Lemma next_loop_wf servers fuel : forall s, udp_wf servers s -> udp_wf servers (udp_next_loop fuel s).2.
Proof.
  induction fuel as [|fuel IH]; intros s H; [done|]. cbn. assert (H' : udp_wf servers {| us_name := us_name s; us_servers := us_servers s;
    us_rr_counter := wrap_u64 (us_rr_counter s + 1); us_healthy := us_healthy s |}).
  { destruct H. split; [done|done|]. apply wrap_u64_range. }
  destruct (load_flag _ _); [done|]. by apply IH.
Qed.
Lemma udp_next_wf servers s : udp_wf servers s -> udp_wf servers (udp_next_server s).2.
Proof. intros H. unfold udp_next_server. destruct (us_servers s); [done|]. destruct (_ =? _)%nat; [done|]. by apply next_loop_wf. Qed.
Lemma udp_state_wf servers s0 s : udp_state s0 s -> udp_wf servers s0 -> udp_wf servers s.
Proof.
  intros H H0. induction H as [|s _ IH|h s _ IH|i s _ IH|i s _ IH]; [done|by apply udp_next_wf| | |].
  - unfold udp_server_by_hash. destruct (us_servers s); [done|]. destruct (load_flag _ _); [done|by apply udp_next_wf].
  - unfold udp_mark_unhealthy. destruct (decide _); [|done]. destruct IH. split; cbn; rewrite ?length_insert; done.
  - unfold udp_mark_healthy. destruct (decide _); [|done]. destruct IH. split; cbn; rewrite ?length_insert; done.
Qed.
Lemma service_new_wf name lb : udp_wf (udp_backend <$> UdpLoadBalancer.servers lb) (udp_service_new name lb).
Proof. split; cbn; [done|by rewrite length_replicate|word]. Qed.

(** The services of a configuration. *)
Lemma manager_origin l : forall m name s, foldl udp_add_service m l !! name = Some s ->
  m !! name = Some s \/ exists sc lb, (name, sc) ∈ l /\ ConfigTypes.UdpService.load_balancer sc = Some lb /\ s = udp_service_new name lb.
Proof.
  induction l as [|[n sc] l IH]; intros m name s H; [by left|]. cbn in H. destruct (IH _ _ _ H) as [H1|(sc' & lb & Hin & Hlb)].
  - unfold udp_add_service in H1. cbn in H1. destruct (ConfigTypes.UdpService.load_balancer sc) as [lb|] eqn:E; [|by left].
    apply lookup_insert_Some in H1 as [[-> <-]|[_ H1]]; [|by left]. right. exists sc, lb. split; [by left|done].
  - right. exists sc', lb. split; [by right|done].
Qed.

Lemma udp_next_spec s : length (us_healthy s) = length (us_servers s) -> in_u64 (us_rr_counter s) ->
  us_rr_counter s + Z.of_nat (length (us_servers s)) <= u64_max ->
  match (udp_next_server s).1 with
  | Some srv => if decide (true ∈ us_healthy s) then udp_first_healthy s srv else us_servers s !! 0%nat = Some srv
  | None => us_servers s = []
  end.
Proof.
  intros Hl Hc Hov. set (q := {| l4_name := us_name s; servers := us_servers s; rr_counter := us_rr_counter s; healthy := us_healthy s |}).
  assert (Hq : (udp_next_server s).1 = (next_server q).1).
  { replace s with (down_service q) by (by destruct s). rewrite udp_next_down by done. by destruct (next_server q). }
  rewrite Hq. case_decide as Hh.
  - destruct (l4_selects_healthy q) as (i & k & srv & Hi & -> & Hs & Hk & -> & Hj & _); [by split|done|done|]. by exists i.
  - assert (H0 : healthy_count q = 0%nat).
    { destruct (decide (0 < healthy_count q)%nat) as [Hp|Hp]; [by apply healthy_count_pos in Hp|lia]. }
    unfold next_server, next_with. cbn [q servers]. destruct (us_servers s) as [|srv ss] eqn:E; [done|]. by rewrite H0.
Qed.


(** ** Concrete runs *)
Definition demo_udp : config :=
  {| ConfigTypes.Config.entry_points := [("dns", EntryPoint.new ":53")]; ConfigTypes.Config.http := None; ConfigTypes.Config.tcp := None;
     ConfigTypes.Config.udp := Some {|
       UdpConfig.routers := [("any", ConfigTypes.UdpRouter.new "*" "public"); ("lan", ConfigTypes.UdpRouter.new "ClientIP(`10.`)" "private")];
       UdpConfig.services := [("private", {| ConfigTypes.UdpService.load_balancer := Some (UdpLoadBalancer.new [UdpServer.new "a:53"; UdpServer.new "b:53"]);
                                             ConfigTypes.UdpService.weighted := None |})];
       UdpConfig.middlewares := [] |};
     ConfigTypes.Config.tls := None; ConfigTypes.Config.certificates_resolvers := []; ConfigTypes.Config.providers := None;
     ConfigTypes.Config.metrics := None; ConfigTypes.Config.api := None; ConfigTypes.Config.log := None; ConfigTypes.Config.access_log := None;
     ConfigTypes.Config.cluster := None |}.

Lemma demo_udp_routes :
  (fun u => (ur_service <$> @udp_match_datagram prefix_ip u "dns" (Some "10.1.1.1"), ur_service <$> udp_match_datagram u "dns" (Some "8.8.8.8")))
    <$> match @udp_router_of prefix_ip demo_udp with Ok u => Some u | _ => None end = Some (Some "private", Some "public") /\
  (length <$> (us_servers <$> udp_get_service (udp_manager_of demo_udp) "private")) = Some 2%nat /\
  udp_service_names (udp_manager_of demo_udp) = ["private"].
Proof. split_and!; vm_compute; reflexivity. Qed.

