(* ===== verification/Cluster.v ===== *)
(** * Cluster: membership, leadership, shared health

    Models src/src/cluster/manager.rs ([ClusterManager]) and
    src/src/health/distributed.rs over an abstract store: the interface
    [ClusterStore] lists the operations of the [Store] trait they call, the class
    [LeaseLaws] states what they rely on, and [LocalStore] is an instance.
    Instants are in nanoseconds, [wall] is in milliseconds. The timers' ticks are
    operations; any interleaving of the nodes' operations is a sequence of them. *)
From S2P Require Import Prelude RustStr Config Health LocalStore Duration ConfigTypes.
From stdpp Require Import list.
Open Scope Z_scope.
Open Scope list_scope.
#[local] Set Default Proof Using "Type*".

(** Every operation is given the instant at which the store carries it out. *)
Class ClusterStore (S : Type) := {
  st_leader_acquire : string -> string -> Z -> Z -> S -> result StoreError bool * S; (* task, node, ttl, now *)
  st_leader_release : string -> string -> Z -> S -> result StoreError unit * S;
  st_node_register : NodeInfo -> Z -> S -> result StoreError unit * S;
  st_node_heartbeat : string -> Z -> Z -> Z -> S -> result StoreError unit * S; (* connections, wall, now *)
  st_node_set_status : string -> NodeStatus -> Z -> Z -> S -> result StoreError unit * S; (* wall, now *)
  st_node_list : Z -> S -> result StoreError (list NodeInfo) * S;
  st_node_deregister : string -> Z -> S -> result StoreError unit * S;
  st_health_get : string -> string -> Z -> S -> result StoreError (option StoredHealth) * S;
  st_health_set : string -> string -> StoredHealth -> Z -> S -> result StoreError unit * S;
  st_health_get_all : string -> Z -> S -> result StoreError (list (string * StoredHealth)) * S;
}.

(** ** The manager of a node *)
Section Manager.
Context {S : Type} `{CS : ClusterStore S}.

Record ClusterManager := {
  cm_node_id : string;
  cm_advertise_address : string;
  cm_config : ClusterConfig.t;
  cm_is_leader : bool;
  cm_is_draining : bool;
  cm_active_connections : Z; (* u64 *)
}.

Definition set_leader (b : bool) (m : ClusterManager) : ClusterManager :=
  {| cm_node_id := cm_node_id m; cm_advertise_address := cm_advertise_address m; cm_config := cm_config m; cm_is_leader := b;
     cm_is_draining := cm_is_draining m; cm_active_connections := cm_active_connections m |}.
Definition set_draining (m : ClusterManager) : ClusterManager :=
  {| cm_node_id := cm_node_id m; cm_advertise_address := cm_advertise_address m; cm_config := cm_config m; cm_is_leader := cm_is_leader m;
     cm_is_draining := true; cm_active_connections := cm_active_connections m |}.
Definition update_connections (count : Z) (m : ClusterManager) : ClusterManager :=
  {| cm_node_id := cm_node_id m; cm_advertise_address := cm_advertise_address m; cm_config := cm_config m; cm_is_leader := cm_is_leader m;
     cm_is_draining := cm_is_draining m; cm_active_connections := count |}.

(** [version] is that of the package. *)
Definition register_node (version : string) (wall now : Z) (m : ClusterManager) (s : S) : result StoreError unit * S :=
  st_node_register {| node_id := cm_node_id m; address := cm_advertise_address m; status := Active; active_connections := 0;
                      last_heartbeat := wall; started_at := wall; version := version |} now s.

(** The host name and a fresh identifier (its first eight characters) come from
    the system. *)
Definition manager_new (c : ClusterConfig.t) (hostname : option string) (uuid version : string) (wall now : Z) (s : S)
    : result StoreError ClusterManager * S :=
  let m := {| cm_node_id := default (default "unknown" hostname +:+ "-" +:+ str_take 8 uuid) (ClusterConfig.node_id c);
              cm_advertise_address := default (default "127.0.0.1" hostname +:+ ":8080") (ClusterConfig.advertise_address c);
              cm_config := c; cm_is_leader := false; cm_is_draining := false; cm_active_connections := 0 |} in
  let '(r, s) := register_node version wall now m s in
  (res_map (fun _ => m) r, s).

Definition is_health_check_leader (m : ClusterManager) : bool := cm_is_leader m.
Definition is_draining (m : ClusterManager) : bool := cm_is_draining m.

Definition start_drain (wall now : Z) (m : ClusterManager) (s : S) : result StoreError unit * ClusterManager * S :=
  let '(r, s) := st_node_set_status (cm_node_id m) Draining wall now s in (r, set_draining m, s).

Definition health_check_task : string := "health_check".

(** Errors of the store are dropped. *)
Definition shutdown (now : Z) (m : ClusterManager) (s : S) : S :=
  let s := if cm_is_leader m then (st_leader_release health_check_task (cm_node_id m) now s).2 else s in
  (st_node_deregister (cm_node_id m) now s).2.

(** One tick of the heartbeat task, and one of the election task. *)
Definition heartbeat_tick (wall now : Z) (m : ClusterManager) (s : S) : S :=
  (st_node_heartbeat (cm_node_id m) (cm_active_connections m) wall now s).2.
Definition election_tick (now : Z) (m : ClusterManager) (s : S) : ClusterManager * S :=
  let '(r, s) := st_leader_acquire health_check_task (cm_node_id m) (ClusterConfig.leader_ttl (cm_config m)) now s in
  (set_leader (match r with Ok acquired => acquired | _ => false end) m, s).
Definition election_interval (m : ClusterManager) : Z := ClusterConfig.leader_ttl (cm_config m) / 3.

(** The difference of two [u64]s wraps in the release build. *)
Definition is_active (now_ms timeout_ms : Z) (n : NodeInfo) : bool :=
  negb (bool_decide (status n = Unhealthy)) && (wrap_u64 (now_ms - last_heartbeat n) <? timeout_ms).
Definition get_active_nodes (now_ms now : Z) (m : ClusterManager) (s : S) : result StoreError (list NodeInfo) * S :=
  let '(r, s) := st_node_list now s in
  (res_map (List.filter (is_active now_ms (wrap_u64 (ClusterConfig.node_timeout (cm_config m) / 10 ^ 6)))) r, s).

Record ClusterStats := {
  node_count : nat;
  active_nodes : nat;
  draining_nodes : nat;
  total_connections : Z;
  this_node_id : string;
  this_node_is_leader : bool;
  this_node_is_draining : bool;
}.
Definition has_status (st : NodeStatus) (n : NodeInfo) : bool := bool_decide (status n = st).
Definition stats_of (m : ClusterManager) (ns : list NodeInfo) : ClusterStats :=
  {| node_count := length ns;
     active_nodes := length (List.filter (has_status Active) ns);
     draining_nodes := length (List.filter (has_status Draining) ns);
     total_connections := wrap_u64 (zsum (active_connections <$> ns));
     this_node_id := cm_node_id m; this_node_is_leader := cm_is_leader m; this_node_is_draining := cm_is_draining m |}.
Definition get_cluster_stats (now_ms now : Z) (m : ClusterManager) (s : S) : ClusterStats * S :=
  let '(r, s) := get_active_nodes now_ms now m s in
  (stats_of m (match r with Ok l => l | _ => [] end), s).
End Manager.

(** ** Distributed health checks *)
Section DistributedHealth.
Context {S : Type} `{CS : ClusterStore S}.

Record checker_state := { local_successes : Z (* u32 *); local_failures : Z (* u32 *); current_health : bool }.
Definition checker_init : checker_state := {| local_successes := 0; local_failures := 0; current_health := true |}.

Definition record_outcome (ok : bool) (c : checker_state) : checker_state :=
  if ok then
    let n := wrap_u32 (local_successes c + 1) in
    {| local_successes := n; local_failures := 0;
       current_health := if negb (current_health c) && (healthy_threshold <=? n) then true else current_health c |}
  else
    let n := wrap_u32 (local_failures c + 1) in
    {| local_successes := 0; local_failures := n;
       current_health := if current_health c && (unhealthy_threshold <=? n) then false else current_health c |}.

(** One iteration of the loop of [start]; the response part of the check is that
    of the local checker. *)
Definition checker_tick (service url : string) (expected : option Z) (is_leader : bool) (reply : option check_reply) (wall now : Z)
    (c : checker_state) (s : S) : checker_state * S :=
  if negb is_leader then
    let '(r, s) := st_health_get service url now s in
    (match r with
     | Ok (Some st) => {| local_successes := local_successes c; local_failures := local_failures c; current_health := sh_healthy st |}
     | Ok None => {| local_successes := local_successes c; local_failures := local_failures c; current_health := true |}
     | _ => c
     end, s)
  else
    let c := record_outcome (passed expected reply) c in
    (c, (st_health_set service url
           {| sh_healthy := current_health c; sh_last_check := wall; sh_consecutive_failures := local_failures c;
              sh_last_error := if current_health c then None else Some "Health check failed" |} now s).2).

Definition get_health_status (service : string) (now : Z) (s : S) : list (string * bool) :=
  match (st_health_get_all service now s).1 with Ok l => (fun e => (e.1, sh_healthy e.2)) <$> l | _ => [] end.
Definition is_server_healthy (service url : string) (now : Z) (s : S) : bool :=
  match (st_health_get service url now s).1 with Ok (Some st) => sh_healthy st | _ => true end.

(** The address that is checked. *)
Definition strip_schemes (u : string) : string :=
  let u := strip_all (String.length u) ["http://"] u in
  let u := strip_all (String.length u) ["https://"] u in
  trim_end_matches "/" u.
Definition check_url (h : HealthCheck.t) (server_url : string) : string :=
  default "http" (HealthCheck.scheme h) +:+ "://" +:+ strip_schemes server_url +:+ HealthCheck.path h.
End DistributedHealth.
Arguments ClusterManager : clear implicits.

(** ** The local store as a cluster store *)
#[export] Instance local_cluster : ClusterStore LocalStore := {|
  st_leader_acquire task id ttl now s := let '(b, s) := leader_acquire task id ttl now s in (Ok b, s);
  st_leader_release task id _ s := (Ok tt, leader_release task id s);
  st_node_register info _ s := (Ok tt, node_register info s);
  st_node_heartbeat id conns wall _ s := (Ok tt, node_heartbeat id conns wall s);
  st_node_set_status id st _ _ s := (Ok tt, node_set_status id st s);
  st_node_list _ s := (Ok (node_list s), s);
  st_node_deregister id _ s := (Ok tt, node_deregister id s);
  st_health_get sv u _ s := (Ok (health_get sv u s), s);
  st_health_set sv u h _ s := (Ok tt, health_set sv u h s);
  st_health_get_all sv _ s := (Ok (map_to_list (health_get_all sv s)), s);
|}.

(** ** What the managers rely on *)

(** [lease task s] is the holder recorded for a task and when its lease ends; a
    store may grant less than the time asked for ([granted]). A failed
    acquisition may or may not have been carried out. *)
Class LeaseLaws (S : Type) `{ClusterStore S} := {
  lease : string -> S -> option (string * Z);
  granted : Z -> Z;
  acquire_granted : forall task id ttl now s s', st_leader_acquire task id ttl now s = (Ok true, s') ->
    (forall h x, lease task s = Some (h, x) -> now < x -> h = id) /\ lease task s' = Some (id, now + granted ttl);
  acquire_refused : forall task id ttl now s r s', st_leader_acquire task id ttl now s = (r, s') -> r <> Ok true ->
    lease task s' = lease task s \/
    ((forall h x, lease task s = Some (h, x) -> now < x -> h = id) /\ lease task s' = Some (id, now + granted ttl));
  release_others : forall task id now s h x, h <> id -> lease task s = Some (h, x) ->
    lease task (st_leader_release task id now s).2 = Some (h, x);
  deregister_lease : forall task id now s, lease task (st_node_deregister id now s).2 = lease task s;
  heartbeat_lease : forall task id c wall now s, lease task (st_node_heartbeat id c wall now s).2 = lease task s;
  status_lease : forall task id st wall now s, lease task (st_node_set_status id st wall now s).2 = lease task s;
  health_lease : forall task sv u h now s, lease task (st_health_set sv u h now s).2 = lease task s;
}.

#[export] Instance local_leases : LeaseLaws LocalStore.
Proof.
  apply (Build_LeaseLaws _ _ (fun task s => (fun e => (le_node_id e, le_expires_at e)) <$> leaders s !! task) (fun ttl => ttl)).
  - cbn. intros task id ttl now s s'. unfold leader_acquire, leader_blocked. destruct (leaders s !! task) as [e|] eqn:E; cbn.
    + destruct (Z.ltb_spec now (le_expires_at e)); cbn; [case_bool_decide; cbn|]; intros [= <-];
        cbn [leader_insert set_leaders leaders]; rewrite lookup_insert_eq; (split; [intros h x [= <- <-]|done]); try done; lia.
    + intros [= <-]. cbn [leader_insert set_leaders leaders]. rewrite lookup_insert_eq. by split.
  - cbn. intros task id ttl now s r s'. unfold leader_acquire. destruct (leader_blocked task id now s).
    + intros [= <- <-] _. by left.
    + by intros [= <- <-].
  - cbn. intros task id now s h x Hne. unfold leader_release. destruct (leaders s !! task) as [e|] eqn:E; [|done]. cbn.
    intros [= <- <-]. rewrite bool_decide_eq_false_2 by done. by rewrite E.
  - done.
  - done.
  - cbn. intros task id st wall now s. unfold node_set_status. by destruct (nodes s !! id).
  - done.
Defined.

(** ** A cluster of nodes on one store *)
Section Nodes.
Context {S : Type} `{LL : LeaseLaws S}.

(** [elected] notes when each node last completed an election tick and has not
    shut down since. *)
Record world := { w_store : S; managers : gmap string ClusterManager; elected : gmap string Z }.

Inductive node_op := Election | Heartbeat | Drain | Stop | Connections (n : Z) | Health (service url : string) (h : StoredHealth).

Definition node_step (now : Z) (id : string) (op : node_op) (w : world) : world :=
  match managers w !! id with
  | None => w
  | Some m =>
      match op with
      | Election => let '(m, s) := election_tick now m (w_store w) in
          {| w_store := s; managers := <[id := m]> (managers w); elected := <[id := now]> (elected w) |}
      | Heartbeat => {| w_store := heartbeat_tick (now / 10 ^ 6) now m (w_store w); managers := managers w; elected := elected w |}
      | Drain => let '(_, m, s) := start_drain (now / 10 ^ 6) now m (w_store w) in
          {| w_store := s; managers := <[id := m]> (managers w); elected := elected w |}
      | Stop => {| w_store := shutdown now m (w_store w); managers := managers w; elected := delete id (elected w) |}
      | Connections n => {| w_store := w_store w; managers := <[id := update_connections n m]> (managers w); elected := elected w |}
      | Health sv u h => {| w_store := (st_health_set sv u h now (w_store w)).2; managers := managers w; elected := elected w |}
      end
  end.

Definition node_run (ops : list (Z * string * node_op)) (w : world) : world :=
  foldl (fun w o => node_step o.1.1 o.1.2 o.2 w) w ops.

Definition ttl (m : ClusterManager) : Z := ClusterConfig.leader_ttl (cm_config m).
(** How long an election of the node holds. *)
Definition term (m : ClusterManager) : Z := granted (ttl m).

(** The invariant at time [t]. *)
Record leads_ok (t : Z) (w : world) : Prop := {
  ids_ok : forall id m, managers w !! id = Some m -> cm_node_id m = id;
  lead_ok : forall id m e, managers w !! id = Some m -> elected w !! id = Some e -> cm_is_leader m = true -> t < e + term m ->
    lease health_check_task (w_store w) = Some (id, e + term m);
}.

(** A change of a manager that keeps its identity, configuration and flag, with
    a store that keeps the lease. *)
Lemma leads_ok_keep t now w s ms : leads_ok t w -> t <= now ->
  lease health_check_task s = lease health_check_task (w_store w) ->
  (forall id m, ms !! id = Some m -> exists m0, managers w !! id = Some m0 /\ cm_node_id m = cm_node_id m0 /\
     cm_config m = cm_config m0 /\ cm_is_leader m = cm_is_leader m0) ->
  leads_ok now {| w_store := s; managers := ms; elected := elected w |}.
Proof.
  intros [Hid Hl] Hle Hs Hms. split; cbn [managers elected w_store].
  - intros id m Hm. destruct (Hms id m Hm) as (m0 & Hm0 & -> & _). eauto.
  - intros id m e Hm He Hlead Ht. destruct (Hms id m Hm) as (m0 & Hm0 & _ & Hc & Hf).
    unfold term, ttl in *. rewrite Hc in *. rewrite Hf in Hlead. rewrite Hs. apply (Hl id m0 e); unfold term, ttl; auto. lia.
Qed.

Lemma insert_keep (w : world) id m m' : managers w !! id = Some m -> cm_node_id m' = cm_node_id m -> cm_config m' = cm_config m ->
  cm_is_leader m' = cm_is_leader m ->
  forall k n, <[id := m']> (managers w) !! k = Some n -> exists n0, managers w !! k = Some n0 /\ cm_node_id n = cm_node_id n0 /\
    cm_config n = cm_config n0 /\ cm_is_leader n = cm_is_leader n0.
Proof.
  intros Hm H1 H2 H3 k n. destruct (decide (k = id)) as [->|Hne].
  - rewrite lookup_insert_eq. intros [= <-]. exists m. by split_and!.
  - rewrite lookup_insert_ne by done. intros Hn. by exists n.
Qed.

Lemma election_ok t now w id m m' s' : leads_ok t w -> t <= now -> managers w !! id = Some m -> election_tick now m (w_store w) = (m', s') ->
  leads_ok now {| w_store := s'; managers := <[id := m']> (managers w); elected := <[id := now]> (elected w) |}.
Proof.
  intros [Hid Hl] Hle Hm. unfold election_tick. rewrite (Hid id m Hm). fold (ttl m).
  destruct (st_leader_acquire health_check_task id (ttl m) now (w_store w)) as [r s1] eqn:Ea. intros [= <- <-].
  assert (Hothers : forall h x, h <> id -> lease health_check_task (w_store w) = Some (h, x) -> now < x ->
    lease health_check_task s1 = Some (h, x)).
  { intros h x Hne Hls Hx. destruct r as [[]|e|]; [apply acquire_granted in Ea as [Hb _]; by destruct (Hne (Hb h x Hls Hx))|..];
      (apply acquire_refused in Ea as [Ea|[Hb _]]; [by rewrite Ea|by destruct (Hne (Hb h x Hls Hx))|done]). }
  split; cbn [managers elected w_store].
  - intros k n. destruct (decide (k = id)) as [->|Hne]; [rewrite lookup_insert_eq; intros [= <-]; cbn; eauto|].
    rewrite lookup_insert_ne by done. eauto.
  - intros k n e. destruct (decide (k = id)) as [->|Hne].
    + rewrite !lookup_insert_eq. intros [= <-] [= <-]. cbn [set_leader cm_is_leader term ttl cm_config]. intros Hr _.
      destruct r as [b| |]; [|done|done]. subst b. apply acquire_granted in Ea as [_ Ea]. exact Ea.
    + rewrite !lookup_insert_ne by done. intros Hn He Hlead Ht. apply Hothers; [done| |lia]. apply (Hl k n e); auto. lia.
Qed.

Lemma stop_ok t now w id m : leads_ok t w -> t <= now -> managers w !! id = Some m ->
  leads_ok now {| w_store := shutdown now m (w_store w); managers := managers w; elected := delete id (elected w) |}.
Proof.
  intros [Hid Hl] Hle Hm. split; cbn [managers elected w_store]; [done|]. intros k n e Hn.
  destruct (decide (k = id)) as [->|Hne]; [by rewrite lookup_delete_eq|]. rewrite lookup_delete_ne by done. intros He Hlead Ht.
  unfold shutdown. rewrite deregister_lease, (Hid id m Hm).
  assert (Hk : lease health_check_task (w_store w) = Some (k, e + term n)) by (apply (Hl k n e); auto; lia).
  destruct (cm_is_leader m); [|done]. by apply release_others.
Qed.

Lemma node_step_ok t now id op w : leads_ok t w -> t <= now -> leads_ok now (node_step now id op w).
Proof.
  intros Hw Hle. unfold node_step. destruct (managers w !! id) as [m|] eqn:Em.
  2: { destruct Hw as [Hid Hl]. split; [done|]. intros k n e Hn He Hlead Ht. apply (Hl k n e); auto. lia. }
  assert (Hsame : forall k n, managers w !! k = Some n -> exists n0, managers w !! k = Some n0 /\ cm_node_id n = cm_node_id n0 /\
    cm_config n = cm_config n0 /\ cm_is_leader n = cm_is_leader n0) by eauto.
  destruct op as [| | | |n|sv u h].
  - destruct (election_tick now m (w_store w)) as [m' s'] eqn:Ee. by eapply election_ok.
  - apply (leads_ok_keep t); auto. apply heartbeat_lease.
  - unfold start_drain. destruct (st_node_set_status (cm_node_id m) Draining (now / 10 ^ 6) now (w_store w)) as [r s'] eqn:Es.
    apply (leads_ok_keep t); auto; [|by eapply insert_keep]. by rewrite <- (status_lease health_check_task (cm_node_id m) Draining (now / 10 ^ 6) now (w_store w)), Es.
  - by eapply stop_ok.
  - apply (leads_ok_keep t); auto. by eapply insert_keep.
  - apply (leads_ok_keep t); auto. apply health_lease.
Qed.

(** Clock readings that do not go back. *)
Fixpoint in_time (t : Z) (ops : list (Z * string * node_op)) : Prop :=
  match ops with [] => True | o :: ops' => t <= o.1.1 /\ in_time o.1.1 ops' end.
Definition end_time (t : Z) (ops : list (Z * string * node_op)) : Z := foldl (fun _ o => o.1.1) t ops.

Lemma node_run_ok ops : forall t w, leads_ok t w -> in_time t ops -> leads_ok (end_time t ops) (node_run ops w).
Proof.
  induction ops as [|[[now id] op] ops IH]; intros t w Hw Ht; [done|]. destruct Ht as [Hle Ht]. cbn in Hle, Ht.
  apply (IH now); [|done]. by apply (node_step_ok t).
Qed.

Lemma leaders_agree ops t0 t w n1 n2 m1 m2 e1 e2 :
  (forall id m, managers w !! id = Some m -> cm_node_id m = id /\ cm_is_leader m = false) -> in_time t0 ops -> end_time t0 ops <= t ->
  let w' := node_run ops w in
  managers w' !! n1 = Some m1 -> managers w' !! n2 = Some m2 -> is_health_check_leader m1 = true -> is_health_check_leader m2 = true ->
  elected w' !! n1 = Some e1 -> elected w' !! n2 = Some e2 -> t < e1 + term m1 -> t < e2 + term m2 ->
  n1 = n2 /\ lease health_check_task (w_store w') = Some (n1, e1 + term m1).
Proof.
  intros H0 Ht Hend w' Hm1 Hm2 Hl1 Hl2 He1 He2 Ht1 Ht2.
  assert (Hi : leads_ok t0 w) by (split; [intros id m Hm; apply (H0 id m Hm)|intros id m e Hm _ Hl; destruct (H0 id m Hm); congruence]).
  pose proof (node_run_ok ops t0 w Hi Ht) as [_ Hok]. fold w' in Hok.
  pose proof (Hok n1 m1 e1 Hm1 He1 Hl1 ltac:(lia)) as L1. pose proof (Hok n2 m2 e2 Hm2 He2 Hl2 ltac:(lia)) as L2.
  split; congruence.
Qed.

(** C13. One leader at a time. Over any interleaving of election ticks, heartbeats,
    drains, shutdowns and health reports of any number of nodes, on any store
    that keeps the lease laws, failed store calls included: two nodes that
    believe they lead, have not shut down, and last ran their election less than
    the term it granted ago, are the same node, and the store names it. *)
Theorem cluster_single_leader ops t0 t w n1 n2 m1 m2 e1 e2 :
  (forall id m, managers w !! id = Some m -> cm_node_id m = id /\ cm_is_leader m = false) -> in_time t0 ops -> end_time t0 ops <= t ->
  let w' := node_run ops w in
  managers w' !! n1 = Some m1 -> managers w' !! n2 = Some m2 -> is_health_check_leader m1 = true -> is_health_check_leader m2 = true ->
  elected w' !! n1 = Some e1 -> elected w' !! n2 = Some e2 -> t < e1 + term m1 -> t < e2 + term m2 ->
  n1 = n2 /\ lease health_check_task (w_store w') = Some (n1, e1 + term m1).
Proof. apply leaders_agree. Qed.
End Nodes.
Arguments world : clear implicits.

(** ** Elections on the local store *)

(** The outcome of an election tick on the local store: the node leads
    afterwards exactly when no other node holds an unexpired lease. In
    particular a leader that keeps ticking stays leader, and once a leader's
    lease has ended, the next tick of any node takes over. *)
Theorem election_outcome now m (s : LocalStore) :
  cm_is_leader (election_tick now m s).1 =
    match leaders s !! health_check_task with
    | Some e => bool_decide (le_node_id e = cm_node_id m) || (le_expires_at e <=? now)
    | None => true
    end /\
  (cm_is_leader (election_tick now m s).1 = true -> forall t, now <= t < now + ttl m ->
     leader_get health_check_task t (election_tick now m s).2 = Some (cm_node_id m)).
Proof.
  unfold election_tick. cbn [st_leader_acquire local_cluster]. unfold leader_acquire, leader_blocked.
  destruct (leaders s !! health_check_task) as [e|] eqn:E; [destruct (Z.ltb_spec now (le_expires_at e)), (decide (le_node_id e = cm_node_id m))|];
    rewrite ?bool_decide_eq_true_2, ?bool_decide_eq_false_2 by done; cbn [andb orb negb fst snd set_leader cm_is_leader];
    rewrite ?(proj2 (Z.leb_gt _ _)), ?(proj2 (Z.leb_le _ _)) by lia; (split; [done|]); try done;
    intros _ t Ht; unfold leader_get; cbn [leader_insert set_leaders leaders]; rewrite lookup_insert_eq; cbn [le_expires_at le_node_id];
    fold (ttl m); by rewrite (proj2 (Z.ltb_lt _ _)) by lia.
Qed.

Definition demo_manager (id : string) : ClusterManager :=
  {| cm_node_id := id; cm_advertise_address := id; cm_config := ClusterConfig.new; cm_is_leader := false; cm_is_draining := false;
     cm_active_connections := 0 |}.
Definition two_managers : gmap string ClusterManager := {["a" := demo_manager "a"; "b" := demo_manager "b"]}.
Lemma two_managers_ok id m : two_managers !! id = Some m -> cm_node_id m = id /\ cm_is_leader m = false.
Proof. unfold two_managers. intros [[<- <-]|[_ [<- <-]%lookup_singleton_Some]]%lookup_insert_Some; done. Qed.
Definition two_nodes : world LocalStore := {| w_store := LocalStore.new; managers := two_managers; elected := ∅ |}.
Definition sec : Z := 10 ^ 9.

Lemma election_outcome_witness :
  leader_get health_check_task (14 * sec) (election_tick 0 (demo_manager "a") LocalStore.new).2 = Some "a".
Proof. apply (proj2 (election_outcome 0 (demo_manager "a") LocalStore.new)); [reflexivity|vm_compute; split; [discriminate|reflexivity]]. Defined.

Lemma cluster_single_leader_witness :
  let w' := node_run [(0, "a", Election); (1 * sec, "b", Election); (2 * sec, "a", Stop); (5 * sec, "b", Election)] two_nodes in
  lease health_check_task (w_store w') = Some ("b", 5 * sec + term (S := LocalStore) (set_leader true (demo_manager "b"))).
Proof.
  cbn zeta.
  apply (cluster_single_leader [(0, "a", Election); (1 * sec, "b", Election); (2 * sec, "a", Stop); (5 * sec, "b", Election)] 0 (6 * sec) two_nodes
    "b" "b" (set_leader true (demo_manager "b")) (set_leader true (demo_manager "b")) (5 * sec) (5 * sec)).
  - exact two_managers_ok.
  - vm_compute. split_and!; try discriminate. exact I.
  - vm_compute. discriminate.
  - vm_compute. reflexivity.
  - vm_compute. reflexivity.
  - reflexivity.
  - reflexivity.
  - vm_compute. reflexivity.
  - vm_compute. reflexivity.
  - vm_compute. reflexivity.
  - vm_compute. reflexivity.
Defined.

(** The flag of a node outlives its lease: a node whose election tick is late
    (the ticks run on a timer of a third of the lease) still believes it leads
    after another node has been elected. *)
Lemma late_tick_two_leaders :
  let w' := node_run [(0, "a", Election); (15 * sec, "b", Election)] two_nodes in
  is_health_check_leader <$> managers w' !! "a" = Some true /\ is_health_check_leader <$> managers w' !! "b" = Some true.
Proof. split; vm_compute; reflexivity. Qed.

(** ** Membership *)

(** Every node that is listed is active or draining, so the counts add up. *)
Lemma cluster_stats_add_up {S} `{ClusterStore S} now_ms now m (s : S) :
  let st := (get_cluster_stats now_ms now m s).1 in node_count st = (active_nodes st + draining_nodes st)%nat.
Proof.
  unfold get_cluster_stats, get_active_nodes. destruct (st_node_list now s) as [[ns| |] s']; [|done|done]. cbn [res_map res_bind fst]. unfold stats_of.
  set (p := is_active _ _). assert (Hp : forall n, p n = true -> status n <> Unhealthy).
  { intros n. unfold p, is_active. case_bool_decide; [done|done]. }
  cbn [node_count active_nodes draining_nodes].
  clearbody p. induction ns as [|n ns IH]; [done|]. cbn [List.filter]. destruct (p n) eqn:En; [|exact IH].
  cbn [length List.filter]. specialize (Hp n En).
  assert (Hh : has_status Active n = negb (has_status Draining n)) by (unfold has_status; by destruct (status n)).
  rewrite Hh. destruct (has_status Draining n); cbn [negb length]; lia.
Qed.

(** A node whose clock is ahead by a millisecond is not listed: the difference of
    the clock readings wraps around. *)
Lemma clock_ahead_not_listed now timeout n : 0 <= now -> last_heartbeat n = now + 1 -> timeout < 2 ^ 64 - 1 ->
  is_active now timeout n = false.
Proof.
  intros Hn Hl Ht. unfold is_active. rewrite Hl. replace (now - (now + 1)) with (-1) by lia.
  change (wrap_u64 (-1)) with (2 ^ 64 - 1). destruct (Z.ltb_spec (2 ^ 64 - 1) timeout); [lia|]. apply andb_false_r.
Qed.

(** ** Distributed checks agree with local ones *)
Section HealthProofs.
Context {S : Type} `{CS : ClusterStore S}.

Definition checker_run (service url : string) (expected : option Z) (ticks : list (option check_reply * Z)) (c : checker_state) (s : S)
    : checker_state * S :=
  foldl (fun cs tk => checker_tick service url expected true tk.1 tk.2 (tk.2 * 10 ^ 6) cs.1 cs.2) (c, s) ticks.

Definition agrees (c : checker_state) (h : HealthStatus) : Prop :=
  local_successes c = consecutive_successes h /\ local_failures c = consecutive_failures h /\ current_health c = hs_healthy h.

Lemma tick_agrees expected reply now c h : agrees c h -> agrees (record_outcome (passed expected reply) c) (tick expected reply now h).
Proof.
  intros (H1 & H2 & H3). unfold agrees, record_outcome, passed, tick, on_failure.
  destruct reply as [r|]; cbn [fmap option_fmap option_map].
  - assert (Hp : perform_http_check expected r <> Panic) by (destruct r, expected; cbn; repeat case_match; done).
    destruct (perform_http_check expected r) as [[]|e|]; [| |done];
      cbn [record_success record_failure hs_healthy consecutive_successes consecutive_failures local_successes local_failures current_health];
      rewrite H1 || rewrite H2; rewrite H3; (destruct (_ && _) eqn:E; cbn; split_and!; done).
  - cbn [record_failure hs_healthy consecutive_successes consecutive_failures local_successes local_failures current_health].
    rewrite H2, H3. destruct (_ && _); cbn; split_and!; done.
Qed.

Lemma run_agrees service url expected ticks (s : S) :
  agrees (checker_run service url expected ticks checker_init s).1 (check_run expected ticks).
Proof.
  unfold checker_run, check_run. assert (H0 : agrees checker_init hs_new) by done.
  revert H0. generalize checker_init, hs_new, s. induction ticks as [|[r now] ticks IH]; intros c h s0 H0; [done|].
  cbn [foldl fold_left fst snd]. unfold checker_tick at 2. cbn [negb].
  apply IH. by apply tick_agrees.
Qed.
End HealthProofs.

(** A follower's next tick, and every query of the store, see the leader's last
    report. *)
Lemma follower_agrees service url expected ticks reply wall now c0 (s : LocalStore) : ticks <> [] ->
  let '(c, s') := checker_run service url expected ticks checker_init s in
  current_health (checker_tick service url expected false reply wall now c0 s').1 = current_health c /\
  is_server_healthy service url now s' = current_health c.
Proof.
  intros Hne. destruct (exists_last Hne) as (ticks' & [r w] & ->). unfold checker_run. rewrite foldl_app. cbn [foldl fst snd].
  destruct (foldl _ _ ticks') as [c s1]. cbn [fst snd]. unfold checker_tick at 1. cbn [negb st_health_set local_cluster fst snd].
  unfold checker_tick, is_server_healthy. cbn [negb st_health_get local_cluster fst]. unfold health_get, health_set.
  cbn [set_health health_state]. rewrite lookup_insert_eq. done.
Qed.

(** Distributed checks agree with the single-node checker. A leading checker
    has, after any sequence of replies and timeouts and whatever the store does
    with its reports, the counters and the verdict of the local checker on the
    same replies. On the local store, after at least one check, every query of
    the store and the next tick of every follower, whatever it thought before,
    give that verdict. *)
Theorem distributed_equals_local service url expected ticks :
  (forall S (CS : ClusterStore S) (s : S),
     agrees (checker_run service url expected ticks checker_init s).1 (check_run expected ticks)) /\
  (ticks <> [] -> forall (s : LocalStore) reply wall now c0,
     let s' := (checker_run service url expected ticks checker_init s).2 in
     is_server_healthy service url now s' = hs_healthy (check_run expected ticks) /\
     current_health (checker_tick service url expected false reply wall now c0 s').1 = hs_healthy (check_run expected ticks)).
Proof.
  split; [intros; apply run_agrees|]. intros Hne s reply wall now c0. cbn zeta.
  pose proof (run_agrees service url expected ticks s) as (_ & _ & <-).
  pose proof (follower_agrees service url expected ticks reply wall now c0 s Hne) as Hf.
  by destruct (checker_run service url expected ticks checker_init s) as [c s'], Hf.
Qed.

Lemma distributed_equals_local_witness :
  let ticks := replicate 3 (Some (ReplyStatus 500), 0) in
  is_server_healthy "a" "u" 0 (checker_run "a" "u" None ticks checker_init new).2 = hs_healthy (check_run None ticks) /\
  hs_healthy (check_run None ticks) = false.
Proof. split; [|reflexivity]. by apply (distributed_equals_local "a" "u" None (replicate 3 (Some (ReplyStatus 500), 0))); [|exact None|exact 0|exact checker_init]. Defined.
