(* ===== verification/HealthTasks.v ===== *)
(** * The tasks of the active health checks

    Models [HealthChecker::new] of src/src/health/checker.rs and
    [ServiceManager::start_health_checks] of src/src/service/manager.rs: a task per
    server of each service with a health check, started with the server and again
    after each reload, while the tasks of the replaced services run on. A status
    is named by the generation of its services, the service and the index of the
    server. What one round of a task does is [Health.tick]; the URI parser is a
    parameter, the replies of the backends are inputs. *)
From S2P Require Import Prelude RustStr Config Health ConfigTypes Cluster.
From stdpp Require Import list gmap.
Open Scope Z_scope.
Open Scope list_scope.
#[local] Set Default Proof Using "Type*".

Section Tasks.
Context {Uri : Type} (parse_uri : string -> option Uri) (parse_method : string -> option string).

Definition status_ref : Type := (nat * string * nat)%type.
Record HealthChecker := { hc_config : HealthCheck.t; hc_server_url : string; hc_status : status_ref; hc_uri : Uri; hc_method : string }.

(** The address; when it does not parse, the server's address itself behind a
    scheme, and when that does not parse either, the call aborts. *)
Definition checker_uri (config : HealthCheck.t) (server_url : string) : result Empty_set Uri :=
  let scheme := default "http" (HealthCheck.scheme config) in
  let check_url := scheme +:+ "://" +:+ strip_schemes server_url +:+ HealthCheck.path config in
  match parse_uri check_url with
  | Some u => Ok u
  | None => match parse_uri ("http://" +:+ server_url +:+ HealthCheck.path config) with Some u => Ok u | None => Panic end
  end.
Definition check_method (config : HealthCheck.t) : string :=
  default "GET" ((fun m => default "GET" (parse_method m)) <$> HealthCheck.method config).
Definition checker_new (config : HealthCheck.t) (server_url : string) (status : status_ref) : result Empty_set HealthChecker :=
  res_map (fun u => {| hc_config := config; hc_server_url := server_url; hc_status := status; hc_uri := u; hc_method := check_method config |})
    (checker_uri config server_url).

(** The pairs of a service's servers and what is checked of them. *)
Definition to_check (generation : nat) (e : string * ConfigTypes.Service.t) : list (HealthCheck.t * string * status_ref) :=
  match ConfigTypes.Service.load_balancer e.2 with
  | Some lb =>
      match LoadBalancerService.health_check lb with
      | Some health_config => imap (fun idx server => (health_config, Config.url server, (generation, e.1, idx))) (LoadBalancerService.servers lb)
      | None => []
      end
  | None => []
  end.

(** The tasks that are spawned, and whether the loop came to its end. *)
Fixpoint spawn_all (todo : list (HealthCheck.t * string * status_ref)) : list HealthChecker * bool :=
  match todo with
  | [] => ([], true)
  | (config, url, status) :: todo' =>
      match checker_new config url status with
      | Ok checker => let '(l, ok) := spawn_all todo' in (checker :: l, ok)
      | _ => ([], false)
      end
  end.
Definition start_health_checks (generation : nat) (services : list (string * ConfigTypes.Service.t)) : list HealthChecker * bool :=
  spawn_all (services ≫= to_check generation).

(** The statuses [ServiceManager::new] makes: one per server. *)
Definition new_statuses (generation : nat) (services : list (string * ConfigTypes.Service.t)) : list status_ref :=
  services ≫= fun e => match ConfigTypes.Service.load_balancer e.2 with
                       | Some lb => imap (fun idx _ => (generation, e.1, idx)) (LoadBalancerService.servers lb)
                       | None => []
                       end.

(** [alive]: no start of tasks has aborted; an abort ends the process with all its
    tasks. *)
Record checks := { generation : nat; statuses : gmap status_ref HealthStatus; running : list HealthChecker; alive : bool }.
Definition no_checks : checks := {| generation := 0; statuses := ∅; running := []; alive := true |}.

Inductive check_event :=
| Start (services : list (string * ConfigTypes.Service.t)) (* services are built or rebuilt, and checked *)
| Round (task : nat) (reply : option check_reply) (now : Z).

Definition check_step (e : check_event) (w : checks) : option checks :=
  match e with
  | Start services =>
      if alive w then
        let '(l, ok) := start_health_checks (S (generation w)) services in
        Some {| generation := S (generation w);
                statuses := foldr (fun k m => <[k := hs_new]> m) (statuses w) (new_statuses (S (generation w)) services);
                running := running w ++ l; alive := ok |}
      else None
  | Round i reply now =>
      if alive w then
        t ← running w !! i;
        Some {| generation := generation w;
                statuses := alter (tick (HealthCheck.status (hc_config t)) reply now) (hc_status t) (statuses w);
                running := running w; alive := true |}
      else None
  end.
Fixpoint check_steps (es : list check_event) (w : checks) : option checks :=
  match es with [] => Some w | e :: es' => check_step e w ≫= check_steps es' end.

(** The rounds of one task. *)
Definition rounds_of (i : nat) (es : list check_event) : list (option check_reply * Z) :=
  omap (fun e => match e with Round j reply now => if decide (j = i) then Some (reply, now) else None | _ => None end) es.

(** ** Every status is that of its own checks *)
Lemma spawn_all_refs todo : exists n, hc_status <$> (spawn_all todo).1 = take n todo.*2.
Proof.
  induction todo as [|[[c u] k] todo [n IH]]; [by exists 0%nat|]. cbn [spawn_all]. unfold checker_new.
  destruct (checker_uri c u) as [x| |]; cbn [res_map]; [|by exists 0%nat..].
  destruct (spawn_all todo) as [l ok]. exists (S n). cbn in *. by rewrite IH.
Qed.
Lemma to_check_refs g services : (services ≫= to_check g).*2 `sublist_of` new_statuses g services.
Proof.
  unfold new_statuses. induction services as [|e services IH]; [done|]. cbn. rewrite fmap_app. apply sublist_app; [|exact IH].
  unfold to_check. destruct (ConfigTypes.Service.load_balancer e.2) as [lb|]; [|done].
  destruct (LoadBalancerService.health_check lb); [|apply sublist_nil_l]. by rewrite fmap_imap.
Qed.
Lemma new_statuses_in g services k : k ∈ new_statuses g services -> k.1.1 = g /\ k.1.2 ∈ services.*1.
Proof.
  unfold new_statuses. intros (e & Hk & He)%list_elem_of_bind. destruct (ConfigTypes.Service.load_balancer e.2); [|by apply elem_of_nil in Hk].
  apply elem_of_lookup_imap in Hk as (i & s & -> & _). split; [done|]. cbn. by apply list_elem_of_fmap_2.
Qed.
Lemma new_statuses_nodup g services : NoDup services.*1 -> NoDup (new_statuses g services).
Proof.
  induction services as [|e services IH]; cbn; [constructor|]. rewrite NoDup_cons. intros [Hn Hd].
  change (new_statuses g (e :: services)) with
    (match ConfigTypes.Service.load_balancer e.2 with Some lb => imap (fun idx _ => (g, e.1, idx)) (LoadBalancerService.servers lb) | None => [] end ++ new_statuses g services).
  apply NoDup_app. split; [|split; [|by apply IH]].
  - destruct (ConfigTypes.Service.load_balancer e.2) as [lb|]; [|constructor]. apply NoDup_alt. intros i j x.
    rewrite !list_lookup_imap. intros (? & _ & ->)%fmap_Some (? & _ & Hx)%fmap_Some. by inversion Hx.
  - intros k Hk [_ Hin]%new_statuses_in. destruct (ConfigTypes.Service.load_balancer e.2); [|by apply elem_of_nil in Hk].
    by apply elem_of_lookup_imap in Hk as (i & s & -> & _).
Qed.

Record checks_ok (es : list check_event) (w : checks) : Prop := {
  ck_gen : forall k, is_Some (statuses w !! k) -> (k.1.1 <= generation w)%nat;
  ck_refs : NoDup (hc_status <$> running w);
  ck_run : forall i t, running w !! i = Some t ->
    statuses w !! hc_status t = Some (check_run (HealthCheck.status (hc_config t)) (rounds_of i es));
  ck_new : forall i reply now, Round i reply now ∈ es -> (i < length (running w))%nat;
}.

Lemma rounds_snoc i es e : rounds_of i (es ++ [e]) =
  rounds_of i es ++ match e with Round j reply now => if decide (j = i) then [(reply, now)] else [] | _ => [] end.
Proof. unfold rounds_of. rewrite omap_app. f_equal. destruct e as [|j r n]; [done|]. cbn. by destruct (decide (j = i)). Qed.
Lemma rounds_none i es : (forall reply now, Round i reply now ∉ es) -> rounds_of i es = [].
Proof.
  unfold rounds_of. induction es as [|e es IH]; intros Hn; [done|]. cbn. destruct e as [|j r n].
  - apply IH. intros ? ? Hin. eapply Hn. by right.
  - destruct (decide (j = i)) as [->|]; [destruct (Hn r n); left|]. apply IH. intros ? ? Hin. eapply Hn. by right.
Qed.
Lemma inserted_statuses (ks : list status_ref) (m : gmap status_ref HealthStatus) k :
  foldr (fun k m => <[k := hs_new]> m) m ks !! k = if decide (k ∈ ks) then Some hs_new else m !! k.
Proof.
  induction ks as [|k' ks IH]; [done|]. cbn [foldr]. destruct (decide (k = k')) as [->|Hne].
  - rewrite lookup_insert_eq, decide_True by left. done.
  - rewrite lookup_insert_ne, IH by done. apply decide_ext. rewrite elem_of_cons. tauto.
Qed.

Lemma start_step es w w' services : checks_ok es w -> NoDup services.*1 -> check_step (Start services) w = Some w' ->
  checks_ok (es ++ [Start services]) w'.
Proof.
  intros [Hg Hr Hrun Hnew] Hd. unfold check_step. destruct (alive w); [|done].
  destruct (start_health_checks (S (generation w)) services) as [l ok] eqn:El. intros [= <-].
  assert (Hl : hc_status <$> l `sublist_of` new_statuses (S (generation w)) services).
  { destruct (spawn_all_refs (services ≫= to_check (S (generation w)))) as [n Hn]. unfold start_health_checks in El. rewrite El in Hn. cbn in Hn.
    rewrite Hn. etrans; [apply sublist_take|]. apply to_check_refs. }
  assert (Hold : forall k, is_Some (statuses w !! k) -> k ∉ new_statuses (S (generation w)) services).
  { intros k Hk [He _]%new_statuses_in. apply Hg in Hk. lia. }
  split; cbn [statuses generation running].
  - intros k. rewrite inserted_statuses. case_decide as Hk; [intros _; apply new_statuses_in in Hk as [-> _]; lia|]. intros Hs%Hg. lia.
  - rewrite fmap_app. apply NoDup_app. split; [done|]. split; [|eapply sublist_NoDup; [apply new_statuses_nodup, Hd|exact Hl]].
    intros k (t & -> & [i Hi]%list_elem_of_lookup)%list_elem_of_fmap Hin. eapply (Hold (hc_status t)); [rewrite (Hrun i t Hi); by eexists|].
    eapply sublist_subseteq in Hl. by apply Hl.
  - intros i t. rewrite inserted_statuses, rounds_snoc, app_nil_r, lookup_app_Some. intros [Hi|[Hge Hi]].
    + rewrite decide_False; [by apply Hrun|]. apply Hold. rewrite (Hrun i t Hi). by eexists.
    + rewrite decide_True by (eapply sublist_subseteq in Hl; apply Hl, list_elem_of_fmap_2; by eapply list_elem_of_lookup_2).
      rewrite rounds_none; [done|]. intros reply now Hin%Hnew. lia.
  - intros i reply now. rewrite length_app. intros [Hin%Hnew|[?|?%elem_of_nil]%elem_of_cons]%elem_of_app; [lia|done..].
Qed.

Lemma round_step es w w' i reply now : checks_ok es w -> check_step (Round i reply now) w = Some w' -> checks_ok (es ++ [Round i reply now]) w'.
Proof.
  intros [Hg Hr Hrun Hnew]. unfold check_step. destruct (alive w); [|done]. intros (t & Ht & [= <-])%bind_Some. split; cbn [statuses generation running].
  - intros k. rewrite lookup_alter. case_decide; [rewrite fmap_is_Some; subst|]; auto.
  - done.
  - intros j t' Ht'. rewrite rounds_snoc. destruct (decide (i = j)) as [->|Hne].
    + assert (t' = t) as -> by congruence. rewrite lookup_alter_eq, (Hrun j t Ht). cbn. unfold check_run. by rewrite fold_left_app.
    + rewrite app_nil_r, lookup_alter_ne; [by apply Hrun|]. intros Heq. destruct Hne.
      eapply (NoDup_lookup _ _ _ _ Hr); rewrite list_lookup_fmap; [by rewrite Ht|by rewrite Ht', Heq].
  - intros j r n [Hin|[Heq|?%elem_of_nil]%elem_of_cons]%elem_of_app; [eauto| |done]. simplify_eq. by eapply lookup_lt_Some.
Qed.

(** The service maps of all the starts have distinct names, as maps do. *)
Definition named (e : check_event) : Prop := match e with Start services => NoDup services.*1 | _ => True end.
Lemma steps_snoc es e : forall w, check_steps (es ++ [e]) w = check_steps es w ≫= check_step e.
Proof.
  induction es as [|e' es IH]; intros w; [cbn -[check_step]; by destruct (check_step e w)|]. cbn -[check_step].
  destruct (check_step e' w); [apply IH|done].
Qed.
Lemma steps_ok es w : Forall named es -> check_steps es no_checks = Some w -> checks_ok es w.
Proof.
  revert w. induction es as [|e es IH] using rev_ind; intros w.
  - intros _ [= <-]. split; cbn; [by intros k []|constructor|done|by intros ? ? ? ?%elem_of_nil].
  - rewrite Forall_app, Forall_singleton, steps_snoc. intros [Hes He] (w0 & Hw0 & Hs)%bind_Some.
    destruct e; [by eapply start_step; eauto|by eapply round_step; eauto].
Qed.
Lemma steps_running es : forall w w', check_steps es w = Some w' -> running w `prefix_of` running w'.
Proof.
  induction es as [|e es IH]; intros w w'; [by intros [= <-]|]. cbn. intros (w1 & Hs & Hr)%bind_Some. etrans; [|by eapply IH].
  destruct e as [services|i r n]; cbn in Hs.
  - destruct (alive w); [|done]. destruct (start_health_checks _ _) as [l ok]. injection Hs as <-. cbn. by apply prefix_app_r.
  - destruct (alive w); [|done]. by apply bind_Some in Hs as (t & _ & [= <-]).
Qed.
Lemma steps_app es es' : forall w, check_steps (es ++ es') w = check_steps es w ≫= check_steps es'.
Proof. induction es as [|e es IH]; intros w; [done|]. cbn -[check_step]. destruct (check_step e w); [apply IH|done]. Qed.

(** A loop that came to its end has started a checker for each of its entries. *)
Lemma spawn_all_complete todo : (spawn_all todo).2 = true -> forall h u k, (h, u, k) ∈ todo ->
  exists t, t ∈ (spawn_all todo).1 /\ hc_status t = k /\ hc_server_url t = u /\ hc_config t = h.
Proof.
  induction todo as [|[[h' u'] k'] todo IH]; intros Hok h u k; [by intros ?%elem_of_nil|]. cbn [spawn_all] in *. unfold checker_new in *.
  destruct (checker_uri h' u') as [x| |]; cbn [res_map res_bind] in *; [|done..]. destruct (spawn_all todo) as [l ok]. cbn in *.
  intros [[= -> -> ->]|Hin]%elem_of_cons; [eexists; split; [left|done]|].
  destruct (IH Hok h u k Hin) as (t & Ht & ?). exists t. split; [by right|done].
Qed.
(** After a successful start every server of a checked service has its checker. *)
Lemma start_complete services w w' name svc lb h idx server :
  check_step (Start services) w = Some w' -> alive w' = true ->
  (name, svc) ∈ services -> ConfigTypes.Service.load_balancer svc = Some lb -> LoadBalancerService.health_check lb = Some h ->
  LoadBalancerService.servers lb !! idx = Some server ->
  exists i t, running w' !! i = Some t /\ hc_status t = (generation w', name, idx) /\ hc_server_url t = Config.url server /\ hc_config t = h.
Proof.
  unfold check_step. destruct (alive w); [|done]. unfold start_health_checks. intros Hs Ha Hin Hlb Hh Hx.
  pose proof (spawn_all_complete (services ≫= to_check (S (generation w)))) as Hc. destruct (spawn_all _) as [l ok]. injection Hs as <-. cbn in *.
  destruct (Hc Ha h (Config.url server) (S (generation w), name, idx)) as (t & Ht & ?).
  { apply list_elem_of_bind. exists (name, svc). split; [|done]. unfold to_check. cbn. rewrite Hlb, Hh. apply elem_of_lookup_imap. by exists idx, server. }
  apply list_elem_of_lookup in Ht as [i Hi]. exists (length (running w) + i)%nat, t. split; [|done].
  rewrite lookup_app_r by lia. by replace (length (running w) + i - length (running w))%nat with i by lia.
Qed.
End Tasks.

(** C33. Active health checks. Once the checks of a configuration have been started,
    at the start of the server or by a reload, every server of a service with a
    health check has one checker with these settings, and keeps it. However the
    rounds of all checkers, also those left over from replaced services, interleave
    with further reloads, no other checker writes the server's status, which is
    exactly what the replies to the rounds of its own checker make of it. *)
Theorem health_checks_own {Uri} (parse_uri : string -> option Uri) parse_method es services es' w w' name svc lb h idx server :
  let steps := check_steps parse_uri parse_method in
  Forall named (es ++ Start services :: es') ->
  steps (es ++ [Start services]) no_checks = Some w -> alive w = true -> steps es' w = Some w' ->
  (name, svc) ∈ services -> ConfigTypes.Service.load_balancer svc = Some lb -> LoadBalancerService.health_check lb = Some h ->
  LoadBalancerService.servers lb !! idx = Some server ->
  exists i t, running w' !! i = Some t /\ hc_status t = (generation w, name, idx) /\ hc_server_url t = Config.url server /\ hc_config t = h /\
    (forall j t', running w' !! j = Some t' -> hc_status t' = hc_status t -> j = i) /\
    statuses w' !! hc_status t = Some (check_run (HealthCheck.status h) (rounds_of i (es ++ Start services :: es'))).
Proof.
  intros steps Hn Hw Ha Hw' Hin Hlb Hh Hx.
  assert (Hall : steps (es ++ Start services :: es') no_checks = Some w').
  { rewrite cons_middle, app_assoc. unfold steps. rewrite steps_app. unfold steps in Hw. by rewrite Hw. }
  unfold steps in Hw. rewrite steps_snoc in Hw. apply bind_Some in Hw as (w0 & _ & Hs).
  destruct (start_complete _ _ _ _ _ _ _ _ _ _ _ Hs Ha Hin Hlb Hh Hx) as (i & t & Hi & Hk & Hu & Hc).
  pose proof (prefix_lookup_Some _ _ _ _ Hi (steps_running _ _ _ _ _ Hw')) as Hi'.
  destruct (steps_ok _ _ _ _ Hn Hall) as [_ Hd Hrun _]. exists i, t. split_and!; [done..| |].
  - intros j t' Hj Heq. eapply (NoDup_lookup _ _ _ _ Hd); rewrite list_lookup_fmap; [by rewrite Hj|by rewrite Hi', Heq].
  - by rewrite <- Hc, (Hrun i t Hi').
Qed.

(** An address that passed validation but cannot be checked aborts the start of the
    checks, also after a reload, and with it the process: nothing runs after it. *)
Lemma bad_check_aborts {Uri} (parse_uri : string -> option Uri) parse_method services h u k rest w :
  services ≫= to_check (S (generation w)) = (h, u, k) :: rest -> alive w = true ->
  parse_uri (check_url h u) = None -> parse_uri ("http://" +:+ u +:+ HealthCheck.path h) = None ->
  exists w', check_step parse_uri parse_method (Start services) w = Some w' /\ running w' = running w /\
    forall e, check_step parse_uri parse_method e w' = None.
Proof.
  intros Hs Ha H1 H2. unfold check_url in H1. unfold check_step. rewrite Ha. unfold start_health_checks. rewrite Hs. cbn [spawn_all].
  unfold checker_new, checker_uri. rewrite H1, H2. cbn. eexists. split; [done|]. cbn. rewrite app_nil_r. split; [done|by intros []].
Qed.

(** ** Concrete runs *)
Definition demo_lb (urls : list string) : LoadBalancerService.t :=
  {| LoadBalancerService.servers := (fun u => mk_server u 1) <$> urls; LoadBalancerService.pass_host_header := true;
     LoadBalancerService.sticky := None; LoadBalancerService.health_check := Some HealthCheck.new;
     LoadBalancerService.servers_transport := None; LoadBalancerService.response_forwarding := None |}.
Definition checked (urls : list string) : ConfigTypes.Service.t :=
  {| ConfigTypes.Service.load_balancer := Some (demo_lb urls);
     ConfigTypes.Service.weighted := None; ConfigTypes.Service.mirroring := None; ConfigTypes.Service.failover := None |}.
Definition demo_first : list check_event := [].
Definition demo_services : list (string * ConfigTypes.Service.t) := [("web", checked ["http://a"; "http://b"])].
(** After the reload the old checker of the first server goes on beside the new one. *)
Definition demo_later : list check_event :=
  [Round 0 (Some (ReplyStatus 500)) 1; Round 1 (Some (ReplyStatus 200)) 1; Round 0 None 2;
   Start [("web", checked ["http://a"])]; Round 0 (Some (ReplyError "refused")) 3; Round 2 (Some (ReplyStatus 204)) 3].
Definition demo_steps (es : list check_event) (w : checks) : checks := default w (check_steps Some Some es w).

Lemma health_checks_own_witness :
  let w := demo_steps (demo_first ++ [Start demo_services]) no_checks in let w' := demo_steps demo_later w in
  exists i t, running w' !! i = Some t /\ hc_status t = (1, "web", 0)%nat /\
    hs_healthy <$> (statuses w' !! hc_status t) = Some (hs_healthy (check_run None (rounds_of i demo_later))) /\
    hs_healthy <$> (statuses w' !! (1, "web", 0)%nat) = Some false /\ hs_healthy <$> (statuses w' !! (2, "web", 0)%nat) = Some true.
Proof.
  intros w w'.
  assert (Hn : Forall named (demo_first ++ Start demo_services :: demo_later)).
  { repeat (apply Forall_cons; split); try exact I; try apply NoDup_singleton; by apply Forall_nil. }
  assert (Hw : check_steps Some Some (demo_first ++ [Start demo_services]) no_checks = Some w) by (vm_compute; reflexivity).
  assert (Ha : alive w = true) by (vm_compute; reflexivity).
  assert (Hg : generation w = 1%nat) by (vm_compute; reflexivity).
  assert (Hw' : check_steps Some Some demo_later w = Some w') by (vm_compute; reflexivity).
  assert (Hin : ("web", checked ["http://a"; "http://b"]) ∈ demo_services) by (by apply list_elem_of_singleton).
  destruct (health_checks_own Some Some demo_first demo_services demo_later w w' _ _ (demo_lb ["http://a"; "http://b"]) HealthCheck.new 0
    (mk_server "http://a" 1) Hn Hw Ha Hw' Hin eq_refl eq_refl eq_refl) as (i & t & H1 & H2 & _ & _ & _ & H3).
  rewrite Hg in H2.
  exists i, t. split; [exact H1|]. split; [exact H2|]. split; [|split; vm_compute; reflexivity].
  etrans; [exact (f_equal (fmap hs_healthy) H3)|reflexivity].
Defined.
