(* ===== verification/DistHealth.v ===== *)
(** * Health checks of a cluster

    Models the checkers of src/src/health/distributed.rs as tasks: what
    [DistributedHealthManager::start_health_checks] starts on every node, the
    request of [perform_http_check] and the judgement of its answer, and the rounds
    of the checkers of all nodes on one store, interleaved. The loop body is that of
    [Cluster.checker_tick]. Whether a node leads is the flag of its manager; the URI
    and method parsers and the text of a status are parameters, the exchange with
    the backend is an input. *)
From S2P Require Import Prelude RustStr Config Duration LocalStore Health ConfigTypes Cluster.
From stdpp Require Import list gmap.
Open Scope Z_scope.
Open Scope list_scope.
#[local] Set Default Proof Using "Type*".

Section Checks.
Context {Uri : Type} (parse_uri : string -> string + Uri) (parse_method : string -> option string) (status_text : Z -> string).

(** The store and the flag of the node are shared; [dc_node_id] names the node. *)
Record DistributedHealthChecker := { dc_service_name : string; dc_server_url : string; dc_config : HealthCheck.t; dc_node_id : string }.
Definition dist_checker_new (service_name server_url : string) (config : HealthCheck.t) (node_id : string) : DistributedHealthChecker :=
  {| dc_service_name := service_name; dc_server_url := server_url; dc_config := config; dc_node_id := node_id |}.

Record CheckRequest := { cq_method : string; cq_uri : Uri; cq_user_agent : string }.
(** What becomes of a request: an error of the client, a status, or nothing
    within the time allowed. *)
Definition exchange : Type := CheckRequest -> option (string + Z).

(** The answer's status against the configuration. *)
Definition judge_status (expected : option Z) (status : Z) : string + unit :=
  match expected with
  | Some e => if negb (status =? e) then inl ("Expected status " +:+ dec e +:+ ", got " +:+ status_text status) else inr tt
  | None =>
      if ((200 <=? status) && (status <? 300)) || (status =? 404) then inr tt
      else if (500 <=? status) && (status <? 600) then inl ("Server error: " +:+ status_text status)
      else inr tt
  end.

Definition check_request (c : DistributedHealthChecker) : string + CheckRequest :=
  match parse_uri (check_url (dc_config c) (dc_server_url c)) with
  | inl e => inl ("Invalid URL: " +:+ e)
  | inr uri =>
      inr {| cq_method := default "GET" ((fun m => default "GET" (parse_method m)) <$> HealthCheck.method (dc_config c));
             cq_uri := uri; cq_user_agent := "traffic-management-health-checker/1.0" |}
  end.
(** [None] is the timeout; an address that does not parse is an error at once. *)
Definition dist_http_check (send : exchange) (c : DistributedHealthChecker) : option (string + unit) :=
  match check_request c with
  | inl e => Some (inl e)
  | inr req =>
      (fun answer => match answer with
                     | inl e => inl ("Request failed: " +:+ e)
                     | inr status => judge_status (HealthCheck.status (dc_config c)) status
                     end) <$> send req
  end.
Definition check_passes (send : exchange) (c : DistributedHealthChecker) : bool :=
  match dist_http_check send c with Some (inr _) => true | _ => false end.

(** ** The checkers of all nodes *)
Context {S : Type} `{CS : ClusterStore S}.

(** [f_leads]: the flags of the nodes; [f_tasks]: the checkers with their local
    variables. *)
Record fleet := { f_store : S; f_leads : gmap string bool; f_tasks : list (DistributedHealthChecker * checker_state) }.
Definition leads (w : fleet) (node : string) : bool := default false (f_leads w !! node).

(** One round of a checker: a follower reads the verdict, the leader checks and
    reports. *)
Definition checker_round (is_leader : bool) (send : exchange) (wall now : Z) (c : DistributedHealthChecker) (st : checker_state) (s : S)
    : checker_state * S :=
  let service := dc_service_name c in let url := dc_server_url c in
  if negb is_leader then
    let '(r, s) := st_health_get service url now s in
    (match r with
     | Ok (Some v) => {| local_successes := local_successes st; local_failures := local_failures st; current_health := sh_healthy v |}
     | Ok None => {| local_successes := local_successes st; local_failures := local_failures st; current_health := true |}
     | _ => st
     end, s)
  else
    let st := record_outcome (check_passes send c) st in
    (st, (st_health_set service url
            {| sh_healthy := current_health st; sh_last_check := wall; sh_consecutive_failures := local_failures st;
               sh_last_error := if current_health st then None else Some "Health check failed" |} now s).2).

Inductive fleet_event :=
| StartChecks (node service_name : string) (servers : list string) (config : HealthCheck.t)
| Leads (node : string) (b : bool)
| CheckRound (task : nat) (send : exchange) (wall now : Z).

Definition dist_start_health_checks (node service_name : string) (servers : list string) (config : HealthCheck.t)
    : list (DistributedHealthChecker * checker_state) :=
  (fun server_url => (dist_checker_new service_name server_url config node, checker_init)) <$> servers.

Definition fleet_step (w : fleet) (e : fleet_event) : fleet :=
  match e with
  | StartChecks node service_name servers config =>
      {| f_store := f_store w; f_leads := f_leads w; f_tasks := f_tasks w ++ dist_start_health_checks node service_name servers config |}
  | Leads node b => {| f_store := f_store w; f_leads := <[node := b]> (f_leads w); f_tasks := f_tasks w |}
  | CheckRound i send wall now =>
      match f_tasks w !! i with
      | Some (c, st) =>
          let '(st, s) := checker_round (leads w (dc_node_id c)) send wall now c st (f_store w) in
          {| f_store := s; f_leads := f_leads w; f_tasks := <[i := (c, st)]> (f_tasks w) |}
      | None => w
      end
  end.
Definition fleet_run (es : list fleet_event) (w : fleet) : fleet := foldl fleet_step w es.

(** The outcomes of the checks of one task in a run of rounds. *)
Definition outcomes_of (i : nat) (c : DistributedHealthChecker) (es : list fleet_event) : list bool :=
  omap (fun e => match e with CheckRound j send _ _ => if decide (j = i) then Some (check_passes send c) else None | _ => None end) es.
Definition is_round (e : fleet_event) : Prop := match e with CheckRound _ _ _ _ => True | _ => False end.

(** What a checker hears, in the terms of the local checker; both kinds judge it
    alike, so that a round is that of [Cluster]. *)
Definition heard (send : exchange) (c : DistributedHealthChecker) : option check_reply :=
  match check_request c with
  | inl e => Some (ReplyError e)
  | inr req => (fun answer => match answer with inl e => ReplyError e | inr status => ReplyStatus status end) <$> send req
  end.
Lemma check_passes_heard send c : check_passes send c = passed (HealthCheck.status (dc_config c)) (heard send c).
Proof.
  unfold check_passes, dist_http_check, heard, passed. destruct (check_request c) as [e|req]; [done|].
  destruct (send req) as [[e|st]|]; [done| |done]. cbn. unfold judge_status. by repeat case_match.
Qed.
(** What the rounds of one task hear. *)
Definition replies_of (i : nat) (c : DistributedHealthChecker) (es : list fleet_event) : list (option check_reply * Z) :=
  omap (fun e => match e with CheckRound j send wall _ => if decide (j = i) then Some (heard send c, wall) else None | _ => None end) es.
Lemma outcomes_replies i c es : outcomes_of i c es = (fun tk => passed (HealthCheck.status (dc_config c)) tk.1) <$> replies_of i c es.
Proof.
  unfold outcomes_of, replies_of. induction es as [|e es IH]; [done|]. cbn. destruct e as [| |j send wall now]; [exact IH..|].
  destruct (decide (j = i)); cbn; [|exact IH]. rewrite check_passes_heard. f_equal. exact IH.
Qed.
Lemma round_is_tick is_leader send wall now c st s : checker_round is_leader send wall now c st s =
  checker_tick (dc_service_name c) (dc_server_url c) (HealthCheck.status (dc_config c)) is_leader (heard send c) wall now st s.
Proof. unfold checker_round, checker_tick. by rewrite check_passes_heard. Qed.
End Checks.
Arguments DistributedHealthChecker : clear implicits.

(** A task's variables after a sequence of outcomes. *)
Definition after_outcomes (c : checker_state) (l : list bool) : checker_state := foldl (fun c ok => record_outcome ok c) c l.

(** ** What the checkers rely on *)

(** What is stored for a server, under a key made of service and address, with the end
    of its life if it has one. A request to the store may fail: a read then says so,
    and a report that fails may or may not have been stored. *)
Definition entry_at (now : Z) (e : option (StoredHealth * option Z)) : option StoredHealth :=
  match e with
  | Some (v, Some x) => if now <? x then Some v else None
  | Some (v, None) => Some v
  | None => None
  end.
Class HealthLaws (S : Type) `{ClusterStore S} := {
  slot : string -> string -> string;
  entry : string -> S -> option (StoredHealth * option Z);
  lifetime : Z -> option Z; (* of what is stored at an instant *)
  get_entry : forall sv u now s r s', st_health_get sv u now s = (r, s') ->
    (forall k, entry k s' = entry k s) /\ (r = Ok (entry_at now (entry (slot sv u) s)) \/ exists e, r = Err e);
  set_entry : forall sv u v now s r s', st_health_set sv u v now s = (r, s') ->
    (r = Ok tt -> entry (slot sv u) s' = Some (v, lifetime now)) /\
    (forall k, k <> slot sv u -> entry k s' = entry k s);
}.

#[export] Instance local_health : HealthLaws LocalStore.
Proof.
  refine (Build_HealthLaws LocalStore _ pair_key (fun k s => (fun v => (v, None)) <$> health_state s !! k) (fun _ => None) _ _).
  - intros sv u now s r s' [= <- <-]. split; [done|]. left. unfold health_get. by destruct (health_state s !! pair_key sv u).
  - intros sv u v now s r s' [= <- <-]. cbn. split; [by rewrite lookup_insert_eq|]. intros k Hk. by rewrite lookup_insert_ne.
Defined.

(** ** One verdict for all *)
Section Agreement.
Context {Uri : Type} (parse_uri : string -> string + Uri) (parse_method : string -> option string) (status_text : Z -> string).
Context {S : Type} `{HL : HealthLaws S}.
Context (leader : string) (i : nat) (ck : DistributedHealthChecker).
#[local] Abbreviation world := (fleet (S := S)).
#[local] Abbreviation run := (fleet_run parse_uri parse_method status_text).
#[local] Abbreviation step := (fleet_step parse_uri parse_method status_text).
#[local] Abbreviation outcomes := (outcomes_of parse_uri parse_method status_text i ck).
#[local] Abbreviation key_of := (fun d : DistributedHealthChecker => slot (dc_service_name d) (dc_server_url d)).

(** Only one node leads, and of its checkers only [i] is for this server. *)
Record sole (w : world) : Prop := {
  sole_leader : forall node, leads w node = bool_decide (node = leader);
  sole_task : (f_tasks w).*1 !! i = Some ck;
  sole_node : dc_node_id ck = leader;
  sole_key : forall j d, (f_tasks w).*1 !! j = Some d -> dc_node_id d = leader -> key_of d = key_of ck -> j = i;
}.

Lemma round_keeps w e : is_round e -> (f_tasks (step w e)).*1 = (f_tasks w).*1 /\ f_leads (step w e) = f_leads w.
Proof.
  destruct e as [| |j send wall now]; intros Hr; [done..|]. cbn. destruct (f_tasks w !! j) as [[d st]|] eqn:E; [|done].
  destruct (checker_round _ _ _ _ _ _ _ _ _ _) as [st' s]. cbn. split; [|done]. rewrite list_fmap_insert. cbn.
  apply list_insert_id. by rewrite list_lookup_fmap, E.
Qed.
Lemma round_sole w e : sole w -> is_round e -> sole (step w e).
Proof.
  intros [H1 H2 H3 H4] [Ht Hl]%(round_keeps w). split; [|by rewrite Ht|done|by rewrite Ht].
  intros node. unfold leads. rewrite Hl. apply H1.
Qed.

(** A round of the leader's checker moves its variables by the outcome; the rounds of
    all others leave them and what is stored for its server as they are. *)
Lemma own_round w c send wall now : sole w -> f_tasks w !! i = Some (ck, c) ->
  let c' := record_outcome (check_passes parse_uri parse_method status_text send ck) c in
  let report := {| sh_healthy := current_health c'; sh_last_check := wall; sh_consecutive_failures := local_failures c';
                   sh_last_error := if current_health c' then None else Some "Health check failed" |} in
  f_tasks (step w (CheckRound i send wall now)) !! i = Some (ck, c') /\
  f_store (step w (CheckRound i send wall now)) = (st_health_set (dc_service_name ck) (dc_server_url ck) report now (f_store w)).2.
Proof.
  intros [H1 _ H3 _] Ht. cbn. rewrite Ht. unfold checker_round. rewrite H1, H3, bool_decide_eq_true_2 by done. cbn.
  rewrite list_lookup_insert_eq by (by eapply lookup_lt_Some). done.
Qed.
Lemma other_round w j send wall now : sole w -> j <> i ->
  f_tasks (step w (CheckRound j send wall now)) !! i = f_tasks w !! i /\
  entry (key_of ck) (f_store (step w (CheckRound j send wall now))) = entry (key_of ck) (f_store w).
Proof.
  intros [H1 _ H3 H4] Hne. cbn. destruct (f_tasks w !! j) as [[d st]|] eqn:E; [|done]. unfold checker_round. rewrite H1.
  case_bool_decide as Hd; cbn [negb].
  - destruct (st_health_set _ _ _ _ _) as [r s'] eqn:Es. cbn. rewrite list_lookup_insert_ne by done. split; [done|].
    apply set_entry in Es as [_ Hs]. apply Hs. intros Hk. destruct Hne. apply (H4 j d); [by rewrite list_lookup_fmap, E|done|done].
  - destruct (st_health_get _ _ _ _) as [r s'] eqn:Es. cbn. rewrite list_lookup_insert_ne by done. split; [done|].
    apply get_entry in Es as [Hs _]. apply Hs.
Qed.

(** The variables after rounds of all nodes. *)
Lemma run_variables es : Forall is_round es -> forall w c, sole w -> f_tasks w !! i = Some (ck, c) ->
  sole (run es w) /\ f_tasks (run es w) !! i = Some (ck, after_outcomes c (outcomes es)).
Proof.
  induction 1 as [|e es He Hes IH]; intros w c Hs Ht; [done|]. cbn [fleet_run foldl].
  destruct e as [| |j send wall now]; [done..|]. pose proof (round_sole _ _ Hs He) as Hs'. unfold outcomes_of. cbn [omap list_omap].
  destruct (decide (j = i)) as [->|Hne].
  - destruct (own_round w c send wall now Hs Ht) as [Ht' _]. apply (IH _ _ Hs' Ht').
  - destruct (other_round w j send wall now Hs Hne) as [Ht' _]. apply (IH _ _ Hs'). by rewrite Ht'.
Qed.
(** Rounds without the leader's checker. *)
Lemma run_entry es : Forall is_round es -> outcomes es = [] -> forall w, sole w -> entry (key_of ck) (f_store (run es w)) = entry (key_of ck) (f_store w).
Proof.
  induction 1 as [|e es He Hes IH]; intros Ho w Hs; [done|]. cbn [fleet_run foldl]. destruct e as [| |j send wall now]; [done..|].
  unfold outcomes_of in Ho. cbn [omap list_omap] in Ho. destruct (decide (j = i)) as [->|Hne]; [done|].
  change (foldl step ?x es) with (run es x). rewrite IH; [|exact Ho|by apply round_sole]. by apply other_round.
Qed.
End Agreement.

(** The variables of a checker that has led from its start are those of the local
    checker on the same replies. *)
Lemma outcomes_agree expected ticks : agrees (after_outcomes checker_init ((fun tk => passed expected tk.1) <$> ticks)) (check_run expected ticks).
Proof.
  unfold after_outcomes, check_run. assert (H0 : agrees checker_init hs_new) by done. revert H0. generalize checker_init, hs_new.
  induction ticks as [|[r now] ticks IH]; intros c h H0; [done|]. cbn. apply IH. by apply tick_agrees.
Qed.

(** C36. One verdict for the cluster, on any store that keeps health entries for a time
    and may fail. One node leads throughout and has one checker for a server; the
    rounds of the checkers of all nodes interleave in any way from any earlier
    state. Then the variables of the leader's checker follow from the outcomes of its
    own checks alone, and agree with the single-node checker on the same replies if
    the checker was new at the start (one that had led before keeps its counters:
    [stale_failures_count]). After a round of this checker at [t] whose report the
    store took, and any rounds of the others, the store holds its verdict until the
    entry's life ends; until then a query is answered with it, and the next round of
    a checker of this server on another node takes it over, unless the read fails,
    when the query answers healthy and the other checker keeps its own. *)
Theorem fleet_one_verdict {Uri} (parse_uri : string -> string + Uri) parse_method status_text {S} `{HL : HealthLaws S}
    leader i ck c0 es send wall t es' (w : fleet (S := S)) :
  sole leader i ck w -> f_tasks w !! i = Some (ck, c0) -> Forall is_round es -> Forall is_round es' ->
  outcomes_of parse_uri parse_method status_text i ck es' = [] ->
  let run := fleet_run parse_uri parse_method status_text in
  let rounds := es ++ [CheckRound i send wall t] in
  let c := after_outcomes c0 (outcomes_of parse_uri parse_method status_text i ck rounds) in
  let report := {| sh_healthy := current_health c; sh_last_check := wall; sh_consecutive_failures := local_failures c;
                   sh_last_error := if current_health c then None else Some "Health check failed" |} in
  let sv := dc_service_name ck in let url := dc_server_url ck in
  let w' := run es' (run rounds w) in
  (st_health_set sv url report t (f_store (run es w))).1 = Ok tt ->
  f_tasks w' !! i = Some (ck, c) /\
  (c0 = checker_init -> agrees c (check_run (HealthCheck.status (dc_config ck)) (replies_of parse_uri parse_method i ck rounds))) /\
  entry (slot sv url) (f_store w') = Some (report, lifetime t) /\
  forall now, (forall x, lifetime t = Some x -> now < x) ->
    (is_server_healthy sv url now (f_store w') = current_health c \/
       (exists e, (st_health_get sv url now (f_store w')).1 = Err e) /\ is_server_healthy sv url now (f_store w') = true) /\
    (forall j d st send' wall', f_tasks w' !! j = Some (d, st) -> dc_node_id d <> leader -> dc_service_name d = sv -> dc_server_url d = url ->
       exists st', f_tasks (run [CheckRound j send' wall' now] w') !! j = Some (d, st') /\
         (current_health st' = current_health c \/ (exists e, (st_health_get sv url now (f_store w')).1 = Err e) /\ st' = st)).
Proof.
  intros Hs Ht Hes Hes' Hnone run rounds c report sv url w' Hset.
  destruct (run_variables parse_uri parse_method status_text leader i ck es Hes w c0 Hs Ht) as [Hs1 Ht1].
  assert (Hc : c = record_outcome (check_passes parse_uri parse_method status_text send ck)
    (after_outcomes c0 (outcomes_of parse_uri parse_method status_text i ck es))).
  { unfold c, rounds, after_outcomes, outcomes_of. rewrite omap_app, foldl_app. cbn. by rewrite decide_True. }
  assert (Hw1 : run rounds w = fleet_step parse_uri parse_method status_text (run es w) (CheckRound i send wall t))
    by (unfold run, rounds, fleet_run; by rewrite foldl_app).
  destruct (own_round parse_uri parse_method status_text leader i ck _ _ send wall t Hs1 Ht1) as [Ht2 Hst2]. cbn zeta in Hst2. rewrite <- Hc in Ht2, Hst2.
  fold report in Hst2. assert (Hs2 := round_sole parse_uri parse_method status_text leader i ck _ (CheckRound i send wall t) Hs1 I).
  change (fleet_run parse_uri parse_method status_text es w) with (run es w) in *. rewrite <- Hw1 in Ht2, Hst2, Hs2.
  destruct (run_variables parse_uri parse_method status_text leader i ck es' Hes' _ _ Hs2 Ht2) as [Hs3 Ht3]. rewrite Hnone in Ht3.
  assert (He : entry (slot sv url) (f_store w') = Some (report, lifetime t)).
  { etrans; [exact (run_entry parse_uri parse_method status_text leader i ck es' Hes' Hnone _ Hs2)|]. rewrite Hst2. fold sv url.
    destruct (st_health_set sv url report t (f_store (run es w))) as [r s'] eqn:E. cbn in Hset |- *. apply set_entry in E as [Hok _]. by apply Hok. }
  split_and!; [exact Ht3|intros ->; unfold c; rewrite outcomes_replies; apply outcomes_agree|exact He|].
  intros now Hlive. destruct (st_health_get sv url now (f_store w')) as [r s'] eqn:Eg. pose proof (get_entry _ _ _ _ _ _ Eg) as [_ Hr].
  rewrite He in Hr. assert (Hl : entry_at now (Some (report, lifetime t)) = Some report).
  { cbn. destruct (lifetime t) as [x|]; [|done]. by rewrite (proj2 (Z.ltb_lt _ _) (Hlive x eq_refl)). }
  rewrite Hl in Hr. split.
  - unfold is_server_healthy. rewrite Eg. cbn [fst]. destruct Hr as [->|[e ->]]; [by left|right]. split; [by exists e|done].
  - intros j d st send' wall' Hj Hd E1 E2. destruct Hs3 as [Hl3 _ _ _]. change (fleet_run _ _ _ es' (run rounds w)) with w' in Hl3.
    unfold run, fleet_run. cbn [foldl fleet_step]. rewrite Hj. unfold checker_round. rewrite Hl3, bool_decide_eq_false_2 by done. cbn [negb].
    rewrite E1, E2. fold sv url. rewrite Eg. cbn [f_tasks]. eexists. split; [by eapply list_lookup_insert_eq, lookup_lt_Some|].
    destruct Hr as [->|[e ->]]; [by left|right]. split; [by exists e|done].
Qed.

(** ** Concrete runs *)
Definition demo_steps (es : list fleet_event) (w : fleet (S := LocalStore)) : fleet := fleet_run (Uri := string) inr Some dec es w.
Definition demo_fleet : fleet (S := LocalStore) :=
  demo_steps [StartChecks "a" "web" ["http://s"] HealthCheck.new; StartChecks "b" "web" ["http://s"] HealthCheck.new; Leads "a" true]
    {| f_store := LocalStore.new; f_leads := ∅; f_tasks := [] |}.
Definition answer (status : Z) : exchange (Uri := string) := fun _ => Some (inr status).
Definition demo_checker (node : string) : DistributedHealthChecker := dist_checker_new "web" "http://s" HealthCheck.new node.
Definition demo_rounds : list (fleet_event (Uri := string)) :=
  [CheckRound 1 (answer 200) 1 1; CheckRound 0 (answer 503) 2 2; CheckRound 0 (fun _ => None) 3 3; CheckRound 1 (answer 200) 4 4; CheckRound 0 (answer 500) 5 5].

Lemma fleet_one_verdict_witness :
  current_health <$> (snd <$> f_tasks (demo_steps [CheckRound 1 (answer 200) 6 6] (demo_steps demo_rounds demo_fleet)) !! 1%nat) = Some false.
Proof.
  assert (Hs : sole "a" 0 (demo_checker "a") demo_fleet).
  { split; [|done|done|].
    - intros node. unfold leads. change (f_leads demo_fleet) with ({["a" := true]} : gmap string bool).
      case_bool_decide as E; [by rewrite E|]. by rewrite lookup_singleton_ne.
    - intros [|[|j]] d; cbn; [done| |done]. by intros [= <-]. }
  set (es := take 4 demo_rounds). assert (Hr : Forall is_round es) by (by repeat constructor).
  destruct (fleet_one_verdict inr Some dec "a" 0 (demo_checker "a") checker_init es (answer 500) 5 5 [] demo_fleet Hs eq_refl Hr ltac:(constructor) eq_refl eq_refl)
    as (_ & _ & _ & H). destruct (H 6 ltac:(by intros x [=])) as [_ H']. clear H.
  change (fleet_run inr Some dec [] (fleet_run inr Some dec (es ++ [CheckRound 0 (answer 500) 5 5]) demo_fleet)) with (demo_steps demo_rounds demo_fleet) in H'.
  destruct (f_tasks (demo_steps demo_rounds demo_fleet) !! 1%nat) as [[d st]|] eqn:E; [|vm_compute in E; discriminate].
  assert (Hd : d = demo_checker "b") by (vm_compute in E; by injection E as <- _).
  destruct (H' 1%nat d st (answer 200) 6 E) as (st' & Ht & [Hc|[[e He] _]]); [by rewrite Hd..| |discriminate He].
  etrans; [exact (f_equal (fun o => current_health <$> (snd <$> o)) Ht)|]. cbn. by rewrite Hc.
Defined.

(** A checker that leads again goes on with the counters of its earlier lead: after
    two failures then and a healthy report since, one failure takes the server out. *)
Lemma stale_failures_count :
  let w := demo_steps [CheckRound 0 (answer 500) 1 1; CheckRound 0 (answer 500) 2 2; Leads "a" false; Leads "b" true;
                       CheckRound 1 (answer 200) 3 3; CheckRound 0 (answer 200) 4 4; Leads "b" false; Leads "a" true] demo_fleet in
  is_server_healthy "web" "http://s" 5 (f_store w) = true /\
  is_server_healthy "web" "http://s" 6 (f_store (demo_steps [CheckRound 0 (answer 500) 6 6] w)) = false.
Proof. split; vm_compute; reflexivity. Qed.
