(* ===== verification/ClusterTasks.v ===== *)
(** * The background tasks of a cluster node

    Models the tasks that src/src/cluster/manager.rs starts ([start_heartbeat_task],
    [start_leader_election_task]) and how [shutdown] ends them. A task waits in a
    [select!] of its timer and the shutdown channel; once the timer's branch is
    taken, its call to the store is not interrupted, and when both are ready either
    branch may be taken. [shutdown] sends the signal, releases the lease and
    removes the node in three steps, between which tasks of this and of other nodes
    run. A node may also stop at any moment without any of this. The store is that
    of [Cluster]; instants are in nanoseconds. *)
From S2P Require Import Prelude Config LocalStore ConfigTypes Cluster.
From stdpp Require Import list gmap.
Open Scope Z_scope.
Open Scope list_scope.
#[local] Set Default Proof Using "Type*".

(** A task between two rounds of its loop, inside the timer's branch, and after
    its loop. *)
Inductive task := Waiting | Ticking | Ended.
(** How far [shutdown] has come. *)
Inductive stopping := Up | Signalled | Released | Deregistered.

Record node := { n_manager : ClusterManager; n_heartbeat : task; n_election : task; n_stop : stopping }.

Definition start_tasks (m : ClusterManager) : node :=
  {| n_manager := m; n_heartbeat := Waiting; n_election := Waiting; n_stop := Up |}.
Definition with_heartbeat (t : task) (n : node) : node :=
  {| n_manager := n_manager n; n_heartbeat := t; n_election := n_election n; n_stop := n_stop n |}.
Definition with_election (t : task) (n : node) : node :=
  {| n_manager := n_manager n; n_heartbeat := n_heartbeat n; n_election := t; n_stop := n_stop n |}.
Definition with_manager (m : ClusterManager) (n : node) : node :=
  {| n_manager := m; n_heartbeat := n_heartbeat n; n_election := n_election n; n_stop := n_stop n |}.
Definition with_stop (st : stopping) (n : node) : node :=
  {| n_manager := n_manager n; n_heartbeat := n_heartbeat n; n_election := n_election n; n_stop := st |}.

Inductive node_event :=
| HeartbeatDue | HeartbeatSend | HeartbeatEnds
| ElectionDue | ElectionAsk | ElectionEnds
| ShutdownSignal | ShutdownRelease | ShutdownDeregister
| Crash.
#[export] Instance node_event_eq_dec : EqDecision node_event.
Proof. solve_decision. Defined.

Section Tasks.
Context {S : Type} `{CS : ClusterStore S}.

(** What one event does to the node and the store; [None]: it cannot happen now. *)
Definition task_step (now : Z) (e : node_event) (n : node) (s : S) : option (node * S) :=
  let m := n_manager n in
  match e, n_heartbeat n, n_election n, n_stop n with
  | HeartbeatDue, Waiting, _, _ => Some (with_heartbeat Ticking n, s)
  | HeartbeatSend, Ticking, _, _ => Some (with_heartbeat Waiting n, heartbeat_tick (now / 10 ^ 6) now m s)
  | HeartbeatEnds, Waiting, _, (Signalled | Released | Deregistered) => Some (with_heartbeat Ended n, s)
  | ElectionDue, _, Waiting, _ => Some (with_election Ticking n, s)
  | ElectionAsk, _, Ticking, _ => let '(m, s) := election_tick now m s in Some (with_manager m (with_election Waiting n), s)
  | ElectionEnds, _, Waiting, (Signalled | Released | Deregistered) => Some (with_election Ended n, s)
  | ShutdownSignal, _, _, Up => Some (with_stop Signalled n, s)
  | ShutdownRelease, _, _, Signalled =>
      Some (with_stop Released n, if cm_is_leader m then (st_leader_release health_check_task (cm_node_id m) now s).2 else s)
  | ShutdownDeregister, _, _, Released => Some (with_stop Deregistered n, (st_node_deregister (cm_node_id m) now s).2)
  | Crash, _, _, _ => Some (with_stop Deregistered (with_election Ended (with_heartbeat Ended n)), s)
  | _, _, _, _ => None
  end.

(** A cluster: the nodes and their store; [asked] notes when each node's election
    task last called the store. *)
Record cluster := { c_store : S; c_nodes : gmap string node; asked : gmap string Z }.

Definition cluster_step (now : Z) (id : string) (e : node_event) (c : cluster) : option cluster :=
  n ← c_nodes c !! id;
  '(n', s) ← task_step now e n (c_store c);
  Some {| c_store := s; c_nodes := <[id := n']> (c_nodes c);
          asked := match e with ElectionAsk => <[id := now]> (asked c) | _ => asked c end |}.

(** A run: events at times that do not go back, each possible when it happens. *)
Fixpoint cluster_run (t : Z) (es : list (Z * string * node_event)) (c : cluster) : option cluster :=
  match es with
  | [] => Some c
  | (now, id, e) :: es' => if t <=? now then cluster_step now id e c ≫= cluster_run now es' else None
  end.
Fixpoint run_end (t : Z) (es : list (Z * string * node_event)) : Z :=
  match es with [] => t | (now, _, _) :: es' => run_end now es' end.

(** A cluster that starts: nobody has asked, every node knows its name, no lease. *)
Definition election_over (id : string) (c : cluster) : Prop := exists n, c_nodes c !! id = Some n /\ n_election n = Ended.
End Tasks.
Arguments cluster : clear implicits.

(** What the election relies on beyond [LeaseLaws]: a store that can be reached
    grants a lease that nobody holds, a release takes away the caller's lease and
    no other, and the rest leaves leases alone. *)
Class LeaseLive (S : Type) `{LL : LeaseLaws S} := {
  online : S -> Prop;
  acquire_free : forall task id ttl now s, online s -> 0 < granted ttl ->
    (forall h x, lease task s = Some (h, x) -> now < x -> h = id) ->
    exists s', st_leader_acquire task id ttl now s = (Ok true, s');
  release_own : forall task id now s, lease task (st_leader_release task id now s).2 = lease task s \/
    lease task (st_leader_release task id now s).2 = None;
}.

#[export] Instance local_live : LeaseLive LocalStore.
Proof.
  apply (Build_LeaseLive _ _ _ (fun _ => True)).
  - intros task id ttl now s _ _ Hf. cbn in *. unfold leader_acquire. replace (leader_blocked task id now s) with false; [by eexists|].
    symmetry. unfold leader_blocked. destruct (leaders s !! task) as [e|] eqn:E; [|done].
    destruct (Z.ltb_spec now (le_expires_at e)); [|done]. rewrite (Hf (le_node_id e) (le_expires_at e)) by done. by rewrite bool_decide_eq_true_2.
  - intros task id now s. cbn. unfold leader_release. destruct (leaders s !! task) as [e|] eqn:E; [|rewrite E; by left].
    case_bool_decide; [right; cbn; by rewrite lookup_delete_eq|left; by rewrite E].
Defined.

Section Failover.
Context {S : Type} `{LV : LeaseLive S}.

Record start_ok (c : cluster S) : Prop := {
  so_ids : forall id n, c_nodes c !! id = Some n -> cm_node_id (n_manager n) = id;
  so_lease : lease health_check_task (c_store c) = None;
}.

(** Leases come from the election calls of nodes and end a term after the last
    of them. *)
Record lease_ok (t : Z) (c : cluster S) : Prop := {
  lo_ids : forall id n, c_nodes c !! id = Some n -> cm_node_id (n_manager n) = id;
  lo_asked : forall id e, asked c !! id = Some e -> e <= t;
  lo_lease : forall h x, lease health_check_task (c_store c) = Some (h, x) ->
    exists n e, c_nodes c !! h = Some n /\ asked c !! h = Some e /\ x <= e + term (n_manager n);
}.

Lemma start_lease_ok t c : start_ok c -> asked c = ∅ -> lease_ok t c.
Proof. intros [Hi Hl] Ha. split; [done| |]; [intros id e; by rewrite Ha|intros h x; by rewrite Hl]. Qed.

(** Events other than an election call: the node keeps its name and
    configuration, and the store's lease stays or goes. *)
Lemma task_step_lease now e n s n' s' : task_step now e n s = Some (n', s') -> e <> ElectionAsk ->
  cm_node_id (n_manager n') = cm_node_id (n_manager n) /\ term (n_manager n') = term (n_manager n) /\
  (lease health_check_task s' = lease health_check_task s \/ lease health_check_task s' = None).
Proof.
  unfold task_step. intros Hs He.
  destruct e, (n_heartbeat n), (n_election n), (n_stop n); simplify_eq/=; (split; [done|]; split; [done|]); try (by left);
    try (left; first [apply heartbeat_lease|apply deregister_lease]).
  all: destruct (cm_is_leader _); [apply release_own|by left].
Qed.

Lemma ask_step now n s n' s' : task_step now ElectionAsk n s = Some (n', s') ->
  n_election n = Ticking /\ (n_manager n', s') = election_tick now (n_manager n) s /\ n_election n' = Waiting.
Proof.
  unfold task_step. destruct (n_election n) eqn:E; try done. destruct (election_tick now (n_manager n) s) as [m s1].
  by intros [= <- <-].
Qed.
Lemma ask_lease now m s m' s' : election_tick now m s = (m', s') ->
  cm_node_id m' = cm_node_id m /\ term m' = term m /\
  (lease health_check_task s' = lease health_check_task s \/ lease health_check_task s' = Some (cm_node_id m, now + term m)).
Proof.
  unfold election_tick, term, ttl. destruct (st_leader_acquire _ _ _ _ _) as [r s1] eqn:Ea. intros [= <- <-]. split; [done|]. split; [done|].
  destruct r as [[]|e|]; [apply acquire_granted in Ea as [_ Ea]; by right|..];
    (apply acquire_refused in Ea as [Ea|[_ Ea]]; [by left|by right|done]).
Qed.

Lemma step_lease_ok t now id e c c' : lease_ok t c -> t <= now -> cluster_step now id e c = Some c' -> lease_ok now c'.
Proof.
  intros [Hi Ha Hl] Hle. unfold cluster_step. intros (n & Hn & ([n' s'] & Hs & [= <-])%bind_Some)%bind_Some.
  assert (Hkeep : forall k m, <[id := n']> (c_nodes c) !! k = Some m -> cm_node_id (n_manager n') = cm_node_id (n_manager n) ->
    cm_node_id (n_manager m) = k).
  { intros k m. destruct (decide (k = id)) as [->|]; [rewrite lookup_insert_eq; intros [= <-] ->; eauto|rewrite lookup_insert_ne by done; eauto]. }
  destruct (decide (e = ElectionAsk)) as [->|Hne].
  - apply ask_step in Hs as (_ & Ht & _). symmetry in Ht. apply ask_lease in Ht as (Hid & Hterm & Hls). split; cbn [c_nodes asked c_store].
    + eauto.
    + intros k x. destruct (decide (k = id)) as [->|]; [rewrite lookup_insert_eq; intros [= <-]; lia|].
      rewrite lookup_insert_ne by done. intros Hx%Ha. lia.
    + intros h x Hx. destruct Hls as [Heq|Heq].
      * rewrite Heq in Hx. destruct (Hl h x Hx) as (m & b & Hm & Hb & Hbx). destruct (decide (h = id)) as [->|].
        -- exists n', now. rewrite !lookup_insert_eq, Hterm. apply Ha in Hb. simplify_eq. split_and!; [done|done|lia].
        -- exists m, b. by rewrite !lookup_insert_ne by done.
      * rewrite Heq, (Hi id n Hn) in Hx. simplify_eq. exists n', now. rewrite !lookup_insert_eq, Hterm. split_and!; [done|done|lia].
  - pose proof (task_step_lease _ _ _ _ _ _ Hs Hne) as (Hid & Hterm & Hls).
    replace (match e with ElectionAsk => _ | _ => asked c end) with (asked c) by (by destruct e). split; cbn [c_nodes asked c_store].
    + eauto.
    + intros k x Hx%Ha. lia.
    + intros h x Hx. destruct Hls as [Heq|Heq]; rewrite Heq in Hx; [|done]. destruct (Hl h x Hx) as (m & b & Hm & Hb & Hbx).
      destruct (decide (h = id)) as [->|]; [exists n', b; rewrite lookup_insert_eq, Hterm; by simplify_eq|].
      exists m, b. by rewrite lookup_insert_ne by done.
Qed.

(** A task that has ended stays so and asks no more. *)
Lemma step_over t now id e c c' a : election_over a c -> cluster_step now id e c = Some c' ->
  t <= now -> election_over a c' /\ asked c' !! a = asked c !! a /\
  (n_manager <$> c_nodes c' !! a) = (n_manager <$> c_nodes c !! a).
Proof.
  intros (na & Hna & Hend). unfold cluster_step. intros (n & Hn & ([n' s'] & Hs & [= <-])%bind_Some)%bind_Some _.
  unfold election_over. cbn [c_nodes asked].
  destruct (decide (a = id)) as [->|Hne].
  - simplify_eq. rewrite lookup_insert_eq. revert Hs. unfold task_step. rewrite Hend.
    destruct e, (n_heartbeat na), (n_stop na); intros [= <- <-]; (split; [eexists; split; [done|exact Hend || done]|by rewrite Hna]).
  - rewrite lookup_insert_ne by done. split; [by exists na|]. split; [|done].
    destruct e; try done. by rewrite lookup_insert_ne.
Qed.

Lemma run_lease_ok es : forall t c c', lease_ok t c -> cluster_run t es c = Some c' -> lease_ok (run_end t es) c'.
Proof.
  induction es as [|[[now id] e] es IH]; intros t c c' Hok; [by intros [= <-]|]. cbn [cluster_run run_end].
  destruct (Z.leb_spec t now); [|done]. intros (c1 & Hc1 & Hr)%bind_Some. eapply IH; [|done]. by eapply step_lease_ok.
Qed.
Lemma run_over es a : forall t c c', election_over a c -> cluster_run t es c = Some c' ->
  election_over a c' /\ asked c' !! a = asked c !! a /\ (n_manager <$> c_nodes c' !! a) = (n_manager <$> c_nodes c !! a).
Proof.
  induction es as [|[[now id] e] es IH]; intros t c c' Ho; [by intros [= <-]|]. cbn [cluster_run].
  destruct (Z.leb_spec t now); [|done]. intros (c1 & Hc1 & Hr)%bind_Some.
  destruct (step_over t now id e c c1 a Ho Hc1) as (Ho1 & Ha & Hm); [done|].
  destruct (IH _ _ _ Ho1 Hr) as (Ho' & -> & ->). by rewrite Ha, Hm.
Qed.
Lemma held_or_free (l : option (string * Z)) now b :
  (exists h x, l = Some (h, x) /\ now < x /\ h <> b) \/ (forall h x, l = Some (h, x) -> now < x -> h = b).
Proof.
  destruct l as [[h x]|]; [|by right]. destruct (decide (h = b)) as [->|]; [right; by intros ? ? [= <- <-]|].
  destruct (Z.lt_ge_cases now x); [left; by exists h, x|right; intros ? ? [= <- <-]; lia].
Qed.

(** C27. Failover. However the election task of the node [a] came to its end, by an
    orderly shutdown or a crash, with any interleaving of the tasks of all nodes
    before and after it: once a term has passed since its last election call, the
    first election call of any other node that reaches the store leaves the
    cluster with a leader that is not [a], whose lease is not over; and the caller
    knows itself as leader exactly when it is this leader. *)
Theorem leader_failover t0 c0 es es' c c' a na b nb now :
  start_ok c0 -> asked c0 = ∅ -> cluster_run t0 es c0 = Some c -> c_nodes c !! a = Some na -> n_election na = Ended ->
  cluster_run (run_end t0 es) es' c = Some c' -> c_nodes c' !! b = Some nb -> n_election nb = Ticking ->
  (forall e, asked c !! a = Some e -> e + term (n_manager na) <= now) ->
  online (c_store c') -> 0 < term (n_manager nb) ->
  exists c'' h x, cluster_step now b ElectionAsk c' = Some c'' /\ lease health_check_task (c_store c'') = Some (h, x) /\
    h <> a /\ now < x /\ (fun n => cm_is_leader (n_manager n)) <$> c_nodes c'' !! b = Some (bool_decide (h = b)).
Proof.
  intros H0 Ha0 Hr Hna Hend Hr' Hnb Htick Hterm Hon Hpos.
  pose proof (run_lease_ok _ _ _ _ (run_lease_ok _ _ _ _ (start_lease_ok t0 c0 H0 Ha0) Hr) Hr') as [Hi Ha Hl].
  destruct (run_over es' a _ _ _ (ex_intro _ na (conj Hna Hend)) Hr') as ((na' & Hna' & Hend') & Hasked & Hm). rewrite Hna, Hna' in Hm. simplify_eq/=.
  assert (Hab : b <> a) by (intros ->; rewrite Hna' in Hnb; simplify_eq; congruence).
  unfold cluster_step. rewrite Hnb. cbn [mbind option_bind]. unfold task_step. rewrite Htick.
  unfold election_tick. rewrite (Hi b nb Hnb).
  assert (Hold : forall h x, lease health_check_task (c_store c') = Some (h, x) -> now < x -> h <> a).
  { intros h x Hls Hx ->. destruct (Hl a x Hls) as (m & e & Hme & He & Hle). simplify_eq. rewrite Hasked in He.
    apply Hterm in He. rewrite Hm in Hle. lia. }
  destruct (held_or_free (lease health_check_task (c_store c')) now b) as [(h & x & Hls & Hx & Hh)|Hfree].
  - destruct (st_leader_acquire _ _ _ _ _) as [r s1] eqn:Eq. eexists _, h, x. split; [done|]. cbn [c_store c_nodes].
    assert (Hr1 : r <> Ok true) by (intros ->; apply acquire_granted in Eq as [Hb _]; by apply Hh, (Hb h x)).
    assert (Hs1 : lease health_check_task s1 = lease health_check_task (c_store c'))
      by (apply acquire_refused in Eq as [Eq|[Hb _]]; [done|by destruct (Hh (Hb h x Hls Hx))|done]).
    rewrite Hs1, lookup_insert_eq. cbn. rewrite bool_decide_eq_false_2 by done. split_and!; eauto. destruct r as [[]| |]; done.
  - destruct (acquire_free health_check_task b (ttl (n_manager nb)) now (c_store c') Hon Hpos Hfree) as [s1 Eq].
    unfold ttl in Eq. rewrite Eq. eexists _, b, _. split; [done|]. cbn [c_store c_nodes]. apply acquire_granted in Eq as [_ ->].
    rewrite lookup_insert_eq. cbn. rewrite bool_decide_eq_true_2 by done. split_and!; try done. unfold term, ttl in Hpos. lia.
Qed.
End Failover.

(** ** Concrete runs *)
Definition demo_node (id : string) : node := start_tasks (demo_manager id).
Definition demo_cluster : cluster LocalStore :=
  {| c_store := LocalStore.new; c_nodes := {["a" := demo_node "a"; "b" := demo_node "b"]}; asked := ∅ |}.
(** The first node leads and crashes; the second is about to ask. *)
Definition demo_before : list (Z * string * node_event) := [(1, "a", ElectionDue); (2, "a", ElectionAsk); (3, "a", Crash)].
Definition demo_after : list (Z * string * node_event) := [(4, "b", ElectionDue)].
Definition after_run (t : Z) (es : list (Z * string * node_event)) (c : cluster LocalStore) : cluster LocalStore := default c (cluster_run t es c).
Definition demo_crashed : cluster LocalStore := after_run 0 demo_before demo_cluster.
Definition demo_waiting : cluster LocalStore := after_run 3 demo_after demo_crashed.
Definition node_in (id : string) (c : cluster LocalStore) : node := default (demo_node id) (c_nodes c !! id).

Lemma leader_failover_witness : exists c'' h x, cluster_step (100 * sec) "b" ElectionAsk demo_waiting = Some c'' /\
  lease health_check_task (c_store c'') = Some (h, x) /\ h <> "a" /\ 100 * sec < x /\
  (fun n => cm_is_leader (n_manager n)) <$> c_nodes c'' !! "b" = Some (bool_decide (h = "b")).
Proof.
  apply (leader_failover 0 demo_cluster demo_before demo_after demo_crashed demo_waiting "a" (node_in "a" demo_crashed) "b" (node_in "b" demo_waiting)).
  - split; [|reflexivity]. intros id n. unfold demo_cluster; cbn [c_nodes]. intros [[<- <-]|[_ [<- <-]%lookup_singleton_Some]]%lookup_insert_Some; reflexivity.
  - reflexivity.
  - vm_compute; reflexivity.
  - vm_compute; reflexivity.
  - vm_compute; reflexivity.
  - vm_compute; reflexivity.
  - vm_compute; reflexivity.
  - vm_compute; reflexivity.
  - intros e. replace (asked demo_crashed !! "a") with (Some 2) by (vm_compute; reflexivity). intros [= <-]. vm_compute. discriminate.
  - exact I.
  - vm_compute. reflexivity.
Defined.

(** [shutdown] races with the election task: when the timer's branch was taken
    before the signal, the task asks for the lease after it was released, and the
    node that has left keeps the leadership until the lease is over. *)
Definition late_election : list (Z * string * node_event) :=
  [(1, "a", ElectionDue); (2, "a", ElectionAsk); (3, "a", ElectionDue); (4, "a", ShutdownSignal); (5, "a", ShutdownRelease); (6, "a", ElectionAsk);
   (7, "a", ShutdownDeregister); (8, "a", ElectionEnds); (9, "a", HeartbeatEnds); (10, "b", ElectionDue); (11, "b", ElectionAsk)].
Lemma shutdown_keeps_lease : exists c, cluster_run 0 late_election demo_cluster = Some c /\
  lease health_check_task (c_store c) = Some ("a", 6 + term (demo_manager "a")) /\
  (fun n => (n_election n, n_stop n)) <$> c_nodes c !! "a" = Some (Ended, Deregistered) /\
  (fun n => cm_is_leader (n_manager n)) <$> c_nodes c !! "b" = Some false.
Proof. exists (after_run 0 late_election demo_cluster). split_and!; vm_compute; reflexivity. Qed.
