(* ===== verification/Valkey.v ===== *)
(** * The distributed store

    Models src/src/store/valkey.rs and [create_store_from_config] of
    src/src/cluster/mod.rs: the keys, commands and Lua scripts of each operation
    of the store, over the interface [RedisServer] of the server's commands. Every
    request to the server may fail before or after it was carried out; the
    commands of one operation run at one instant. Instants are in nanoseconds,
    [wall] is in milliseconds. Scripts run atomically, and Lua numbers are exact
    for the times used (below 2^53). *)
From S2P Require Import Prelude RustStr Config LocalStore Duration ConfigTypes Cluster DistHealth ClusterTasks.
From stdpp Require Import list gmap.
Open Scope Z_scope.
Open Scope list_scope.
Open Scope rust_scope.
#[local] Set Default Proof Using "Type*".

(** ** The server *)

(** Commands on the server's data; the instant is the argument before the data
    where the outcome depends on it. *)
Class RedisServer := {
  Db : Type;
  x_get : string -> Z -> Db -> option string;
  x_set : string -> string -> Db -> Db;
  x_set_ex : string -> string -> Z -> Z -> Db -> option Db; (* seconds; [None]: invalid expire time *)
  x_del : string -> Db -> Db;
  x_incr : string -> Z -> Db -> option (Z * Db); (* [None]: not an integer *)
  x_expire : string -> Z -> Z -> Db -> Db; (* seconds *)
  x_zremrangebyscore : string -> Z -> Z -> Db -> Db;
  x_zcard : string -> Z -> Db -> Z;
  x_zadd : string -> Z -> string -> Z -> Db -> Db;
  x_pexpire : string -> Z -> Z -> Db -> Db; (* milliseconds *)
  x_sadd : string -> string -> Db -> Db;
  x_srem : string -> string -> Db -> Db;
  x_smembers : string -> Db -> list string;
  x_keys : string -> Z -> Db -> list string; (* pattern *)
  x_publish : string -> string -> Db -> Db;
  script_random : Z -> Z; (* the first [math.random(n)] of a script *)
}.

(** [serde_json] on the two records the store keeps. *)
Class JsonLib := {
  health_json : StoredHealth -> string;
  health_of_json : string -> option StoredHealth;
  node_json : NodeInfo -> string;
  node_of_json : string -> option NodeInfo;
}.

(** ** Settings *)
Record ValkeyTlsConfig := { vt_ca : option string; vt_cert : option string; vt_key : option string; vt_insecure_skip_verify : bool }.
Record SentinelConfig := { sc_master_name : string; sc_endpoints : list string; sc_password : option string }.
Record ValkeyConfig := {
  vc_endpoints : list string;
  vc_password : option string;
  vc_username : option string;
  vc_db : Z; (* i64 *)
  vc_tls : option ValkeyTlsConfig;
  vc_pool_size : Z;
  vc_key_prefix : string;
  vc_connect_timeout : Z;
  vc_operation_timeout : Z;
  vc_sentinel : option SentinelConfig;
}.

Fixpoint find_str (p s : string) : option nat :=
  if starts_with p s then Some 0%nat
  else match s with EmptyString => None | String _ s' => S <$> find_str p s' end.

(** [create_client] up to the opening of the client: its address. *)
Definition with_auth (auth url : string) : string :=
  match find_str "://" url with
  | Some pos => str_take (pos + 3) url +:+ auth +:+ "@" +:+ str_drop (pos + 3) url
  | None => url
  end.
Definition signed_dec (n : Z) : string := if n <? 0 then "-" +:+ dec (- n) else dec n.
Definition client_url (c : ValkeyConfig) : result StoreError string :=
  endpoint <-? ok_or (head (vc_endpoints c)) (EConnection "No endpoints provided") ;;
  let url :=
    if contains "@" endpoint then endpoint
    else match vc_username c, vc_password c with
         | Some user, Some pass => with_auth (user +:+ ":" +:+ pass) endpoint
         | _, Some pass => with_auth (":" +:+ pass) endpoint
         | _, None => endpoint
         end in
  Ok (if negb (vc_db c =? 0) && negb (contains "/" url) then url +:+ "/" +:+ signed_dec (vc_db c) else url).

(** [create_store_from_config] up to the connection. *)
Definition valkey_config_of (r : RedisStoreConfig.t) : ValkeyConfig :=
  {| vc_endpoints := RedisStoreConfig.endpoints r;
     vc_password := RedisStoreConfig.password r;
     vc_username := RedisStoreConfig.username r;
     vc_db := RedisStoreConfig.db r;
     vc_tls := (fun t => {| vt_ca := RedisTlsConfig.ca t; vt_cert := RedisTlsConfig.cert t; vt_key := RedisTlsConfig.key t;
                            vt_insecure_skip_verify := RedisTlsConfig.insecure_skip_verify t |}) <$> RedisStoreConfig.tls r;
     vc_pool_size := 10;
     vc_key_prefix := RedisStoreConfig.root_key r;
     vc_connect_timeout := RedisStoreConfig.timeout r;
     vc_operation_timeout := 10 ^ 9;
     vc_sentinel := (fun t => {| sc_master_name := RedisSentinelConfig.master_name t; sc_endpoints := RedisStoreConfig.endpoints r;
                                 sc_password := RedisSentinelConfig.password t |}) <$> RedisStoreConfig.sentinel r |}.
(** The store that is made; a distributed one is known by its address and its
    key prefix. *)
Inductive store_kind := UseLocal | UseValkey (url prefix : string).
Definition create_store_from_config (c : ClusterConfig.t) : result StoreError store_kind :=
  match ClusterConfig.store c with
  | Some (ConfigTypes.Redis r) =>
      let vc := valkey_config_of r in
      url <-? client_url vc ;; Ok (UseValkey url (vc_key_prefix vc))
  | Some ConfigTypes.Local | None => Ok UseLocal
  end.

Section Valkey.
Context `{RD : RedisServer} `{JS : JsonLib}.

(** ** Requests over the network *)
Inductive fate := Delivered | RequestLost | ReplyLost.
Record store := { db : Db; net : list fate }.

Definition M (A : Type) : Type := store -> result StoreError A * store.
Definition mret {A} (a : A) : M A := fun s => (Ok a, s).
Definition mbind {A B} (m : M A) (f : A -> M B) : M B :=
  fun s => let '(r, s) := m s in
    match r with Ok a => f a s | Err e => (Err e, s) | Panic => (Panic, s) end.

(** One request: the server's answer, [None] when it answers with an error. *)
Definition call {A} (f : Db -> option (A * Db)) : M A := fun s =>
  let done := match f (db s) with Some (a, d) => (Ok a, d) | None => (Err (EConnection "response error"), db s) end in
  match net s with
  | RequestLost :: net' => (Err (EConnection "lost"), {| db := db s; net := net' |})
  | ReplyLost :: net' => (Err (EConnection "lost"), {| db := done.2; net := net' |})
  | Delivered :: net' => (done.1, {| db := done.2; net := net' |})
  | [] => (done.1, {| db := done.2; net := [] |})
  end.

#[local] Notation "x <-! m ;; k" := (mbind m (fun x => k)) (at level 100, m at next level, right associativity).

Definition get (k : string) (now : Z) : M (option string) := call (fun d => Some (x_get k now d, d)).
Definition set (k v : string) : M unit := call (fun d => Some (tt, x_set k v d)).
Definition set_ex (k v : string) (secs now : Z) : M unit := call (fun d => (fun d => (tt, d)) <$> x_set_ex k v secs now d).
Definition del (k : string) : M unit := call (fun d => Some (tt, x_del k d)).
Definition incr (k : string) (now : Z) : M Z := call (x_incr k now).
Definition expire (k : string) (secs now : Z) : M unit := call (fun d => Some (tt, x_expire k secs now d)).
Definition publish (ch msg : string) : M unit := call (fun d => Some (tt, x_publish ch msg d)).

(** ** The store *)
Context (key_prefix : string).

Definition key (parts : list string) : string := foldl (fun k p => k +:+ ":" +:+ p) key_prefix parts.

(** [ttl.as_secs()] *)
Definition as_secs (ttl : Z) : Z := ttl / 10 ^ 9.

(** RATE_LIMIT_SCRIPT; [now_ms] is the caller's clock. Lua writes a number into a text
    with 14 significant digits, so that the member is the decimal of [now_ms] below
    10^14 (the year 5138). *)
Definition member (now_ms : Z) : string := dec now_ms +:+ "-" +:+ dec (script_random 1000000).
Definition rate_limit_script (k : string) (limit window now_ms now : Z) (d : Db) : (Z * Z * Z) * Db :=
  let d := x_zremrangebyscore k 0 (now_ms - window * 1000) d in
  let count := x_zcard k now d in
  if count <? limit then
    let d := x_zadd k now_ms (member now_ms) now d in
    let d := x_pexpire k (window * 1000) now d in
    ((1, limit - count - 1, now_ms + window * 1000), d)
  else ((0, 0, now_ms + window * 1000), d).

Definition rate_limit_check (k : string) (limit window_secs wall now : Z) : M (bool * Z * Z) :=
  r <-! call (fun d => Some (rate_limit_script (key ["ratelimit"; k]) limit window_secs wall now d)) ;;
  mret (r.1.1 =? 1, wrap_u64 r.1.2, wrap_u64 r.2).
Definition rate_limit_remaining (k : string) (limit now : Z) : M Z :=
  count <-! call (fun d => Some (x_zcard (key ["ratelimit"; k]) now d, d)) ;;
  mret (Z.max 0 (limit - count)).

(** Sticky sessions *)
Definition sticky_session_get (service session_id : string) (now : Z) : M (option string) := get (key ["sticky"; service; session_id]) now.
Definition sticky_session_set (service session_id server_url : string) (ttl now : Z) : M unit :=
  set_ex (key ["sticky"; service; session_id]) server_url (as_secs ttl) now.
Definition sticky_session_delete (service session_id : string) : M unit := del (key ["sticky"; service; session_id]).

(** Health *)
Definition parsed {A} (parse : string -> option A) (json : option string) : M (option A) :=
  match json with
  | Some j => match parse j with Some a => mret (Some a) | None => fun s => (Err (ESerialization j), s) end
  | None => mret None
  end.
Definition health_get (service server_url : string) (now : Z) : M (option StoredHealth) :=
  json <-! get (key ["health"; service; server_url]) now ;; parsed health_of_json json.
Definition health_set (service server_url : string) (status : StoredHealth) (now : Z) : M unit :=
  let json := health_json status in
  _ <-! set_ex (key ["health"; service; server_url]) json 300 now ;;
  publish (key ["events"; "health_change"]) (service +:+ ":" +:+ server_url +:+ ":" +:+ json).
Fixpoint collect_health (prefix : string) (keys : list string) (now : Z) (acc : list (string * StoredHealth)) : M (list (string * StoredHealth)) :=
  match keys with
  | [] => mret acc
  | k :: keys' =>
      json <-! get k now ;;
      collect_health prefix keys' now
        (match json ≫= health_of_json, RustStr.strip_prefix prefix k with
         | Some st, Some u => acc ++ [(u, st)]
         | _, _ => acc
         end)
  end.
Definition health_get_all (service : string) (now : Z) : M (list (string * StoredHealth)) :=
  keys <-! call (fun d => Some (x_keys (key ["health"; service; "*"]) now d, d)) ;;
  collect_health (key ["health"; service; ""]) keys now [].

(** Circuit breaker *)
Definition circuit_breaker_fail (service : string) (window_secs now : Z) : M Z :=
  count <-! incr (key ["circuit"; service]) now ;;
  if count =? 1 then _ <-! expire (key ["circuit"; service]) window_secs now ;; mret count else mret count.
Definition circuit_breaker_success (service : string) : M unit := del (key ["circuit"; service]).
(** [GET] of an integer *)
Definition get_u64 (k : string) (now : Z) : M Z :=
  v <-! get k now ;;
  match v with
  | None => mret 0
  | Some s => if negb (bool_decide (s = "")) && str_forall is_digit s then mret (dec_scan s 0) else fun s => (Err (EConnection "type error"), s)
  end.
Definition circuit_breaker_failures (service : string) (now : Z) : M Z := get_u64 (key ["circuit"; service]) now.

(** Nodes *)
Definition node_key (id : string) : string := key ["nodes"; id].
Definition nodes_set : string := key ["nodes_set"].
Definition node_register (info : NodeInfo) (now : Z) : M unit :=
  _ <-! set_ex (node_key (node_id info)) (node_json info) 60 now ;;
  call (fun d => Some (tt, x_sadd nodes_set (node_id info) d)).
Definition node_get (id : string) (now : Z) : M (option NodeInfo) :=
  json <-! get (node_key id) now ;; parsed node_of_json json.
Definition node_heartbeat (id : string) (connections wall now : Z) : M unit :=
  o <-! node_get id now ;;
  match o with
  | Some info => set_ex (node_key id) (node_json (heartbeat connections wall info)) 60 now
  | None => mret tt
  end.
Definition with_status_at (st : NodeStatus) (wall : Z) (n : NodeInfo) : NodeInfo :=
  {| node_id := node_id n; address := address n; status := st; active_connections := active_connections n; last_heartbeat := wall;
     started_at := started_at n; version := version n |}.
Definition node_set_status (id : string) (st : NodeStatus) (wall now : Z) : M unit :=
  o <-! node_get id now ;;
  match o with
  | Some info =>
      _ <-! set_ex (node_key id) (node_json (with_status_at st wall info)) 60 now ;;
      if decide (st = Draining) then publish (key ["events"; "node_drain"]) id else mret tt
  | None => mret tt
  end.
(** Nodes that have expired are taken out of the set; errors of that are dropped. *)
Fixpoint list_nodes (ids : list string) (now : Z) (acc : list NodeInfo) : M (list NodeInfo) :=
  match ids with
  | [] => mret acc
  | id :: ids' =>
      o <-! node_get id now ;;
      match o with
      | Some info => list_nodes ids' now (acc ++ [info])
      | None => fun s => list_nodes ids' now acc (call (fun d => Some (tt, x_srem nodes_set id d)) s).2
      end
  end.
Definition node_list (now : Z) : M (list NodeInfo) :=
  ids <-! call (fun d => Some (x_smembers nodes_set d, d)) ;; list_nodes ids now [].
Definition node_deregister (id : string) : M unit :=
  _ <-! del (node_key id) ;; call (fun d => Some (tt, x_srem nodes_set id d)).

(** Configuration *)
Definition config_version (now : Z) : M Z := get_u64 (key ["config"; "version"]) now.
Definition config_get (now : Z) : M (option string) := get (key ["config"; "current"]) now.
Definition config_set (content : string) (now : Z) : M Z :=
  new_version <-! incr (key ["config"; "version"]) now ;;
  _ <-! set (key ["config"; "current"]) content ;;
  _ <-! publish (key ["events"; "config_change"]) (dec new_version) ;;
  mret new_version.

(** ACME challenges *)
Definition acme_challenge_set (token auth : string) (ttl now : Z) : M unit := set_ex (key ["acme"; token]) auth (as_secs ttl) now.
Definition acme_challenge_get (token : string) (now : Z) : M (option string) := get (key ["acme"; token]) now.
Definition acme_challenge_delete (token : string) : M unit := del (key ["acme"; token]).

(** Leadership: the two scripts. *)
Definition leader_acquire_script (k id : string) (ttl now : Z) (d : Db) : option (Z * Db) :=
  let current := x_get k now d in
  if bool_decide (current = None) || bool_decide (current = Some id) then (fun d => (1, d)) <$> x_set_ex k id ttl now d
  else Some (0, d).
Definition leader_release_script (k id : string) (now : Z) (d : Db) : option (Z * Db) :=
  if bool_decide (x_get k now d = Some id) then Some (1, x_del k d) else Some (0, d).
Definition leader_acquire (task id : string) (ttl now : Z) : M bool :=
  r <-! call (leader_acquire_script (key ["leader"; task]) id (as_secs ttl) now) ;; mret (r =? 1).
Definition leader_release (task id : string) (now : Z) : M unit :=
  _ <-! call (leader_release_script (key ["leader"; task]) id now) ;; mret tt.
Definition leader_get (task : string) (now : Z) : M (option string) := get (key ["leader"; task]) now.

Definition health_check : M unit := call (fun d => Some (tt, d)).

(** ** Events *)

(** The body of the listener's loop: what a message is turned into. *)
Inductive event := ConfigChanged | HealthChanged (service url : string) (st : StoredHealth) | NodeDraining (id : string).
Definition on_message (channel payload : string) : option event :=
  if bool_decide (channel = key ["events"; "config_change"]) then Some ConfigChanged
  else if bool_decide (channel = key ["events"; "health_change"]) then
    '(service, rest) ← split_once ":" payload;
    '(server_url, json) ← split_once ":" rest;
    st ← health_of_json json;
    Some (HealthChanged service server_url st)
  else if bool_decide (channel = key ["events"; "node_drain"]) then Some (NodeDraining payload)
  else None.
End Valkey.

(** ** The store as a cluster store *)
Definition valkey_cluster `{RD : RedisServer} `{JS : JsonLib} (prefix : string) : ClusterStore store := {|
  st_leader_acquire := leader_acquire prefix;
  st_leader_release := leader_release prefix;
  st_node_register := node_register prefix;
  st_node_heartbeat := node_heartbeat prefix;
  st_node_set_status := node_set_status prefix;
  st_node_list := node_list prefix;
  st_node_deregister id _ := node_deregister prefix id;
  st_health_get := health_get prefix;
  st_health_set := health_set prefix;
  st_health_get_all := health_get_all prefix;
|}.

(** ** What is relied on of the server *)

(** [value k d] is the string stored under a key with the end of its life, if it
    has one; [zset k t d] the members and scores of a sorted set at instant [t]. *)
Class RedisLaws `{RD : RedisServer} := {
  value : string -> Db -> option (string * option Z);
  zset : string -> Z -> Db -> gmap string Z;
  get_value : forall k now d, x_get k now d =
    match value k d with
    | Some (v, Some e) => if now <? e then Some v else None
    | Some (v, None) => Some v
    | None => None
    end;
  set_ex_invalid : forall k v secs now d, secs <= 0 -> x_set_ex k v secs now d = None;
  set_ex_value : forall k v secs now d, 0 < secs -> exists d', x_set_ex k v secs now d = Some d' /\
    forall k', value k' d' = if decide (k' = k) then Some (v, Some (now + secs * 10 ^ 9)) else value k' d;
  del_value : forall k d k', value k' (x_del k d) = if decide (k' = k) then None else value k' d;
  publish_value : forall c m d k, value k (x_publish c m d) = value k d;
  sadd_value : forall s m d k, k <> s -> value k (x_sadd s m d) = value k d;
  srem_value : forall s m d k, k <> s -> value k (x_srem s m d) = value k d;
  zcard_size : forall k now d, x_zcard k now d = Z.of_nat (size (zset k now d));
  zrem_zset : forall k lo hi d t, zset k t (x_zremrangebyscore k lo hi d) =
    filter (fun e => ~ (lo <= e.2 <= hi)) (zset k t d);
  zadd_zset : forall k score m now d, zset k now (x_zadd k score m now d) = <[m := score]> (zset k now d);
  pexpire_zset : forall k ms now d t, now <= t ->
    zset k t (x_pexpire k ms now d) = if t <? now + ms * 10 ^ 6 then zset k now d else ∅;
}.

Section Leases.
Context `{RL : RedisLaws} `{JS : JsonLib} (prefix : string).

(** The keys of different parts of the store differ. *)
Lemma key_differs a b l l' x y : String.get 0 a = Some x -> String.get 0 b = Some y -> x <> y ->
  key prefix (a :: l) <> key prefix (b :: l').
Proof.
  assert (Hk : forall l p, exists r, foldl (fun k q => k +:+ ":" +:+ q) p l = p +:+ r).
  { intros m. induction m as [|q m IH]; intros p; [exists ""; by rewrite str_app_nil_r|]. cbn [foldl].
    destruct (IH (p +:+ ":" +:+ q)) as [r ->]. eexists. by rewrite str_app_assoc. }
  intros Ha Hb Hne. unfold key. cbn [foldl]. destruct (Hk l (prefix +:+ ":" +:+ a)) as [r ->], (Hk l' (prefix +:+ ":" +:+ b)) as [r' ->].
  rewrite !str_app_assoc. intros E. apply (inj (String.append prefix)) in E. destruct a, b; try done. cbn in *. congruence.
Qed.

Definition leader_key (task : string) : string := key prefix ["leader"; task].
Definition lease_of (task : string) (d : Db) : option (string * Z) :=
  match value (leader_key task) d with Some (v, Some e) => Some (v, e) | _ => None end.

(** A request that keeps a view of the data keeps it whatever happens to it. *)
Lemma call_keeps {A B} (view : Db -> B) (f : Db -> option (A * Db)) s :
  (forall a d', f (db s) = Some (a, d') -> view d' = view (db s)) -> view (db (call f s).2) = view (db s).
Proof.
  intros Hf. unfold call. destruct (f (db s)) as [[a d']|]; destruct (net s) as [|[] n]; cbn; try done; by eapply Hf.
Qed.
Lemma mbind_keeps {A B C} (view : Db -> C) (m : M A) (k : A -> M B) s :
  view (db (m s).2) = view (db s) -> (forall a s', view (db (k a s').2) = view (db s')) ->
  view (db (mbind m k s).2) = view (db s).
Proof. intros Hm Hk. unfold mbind. destruct (m s) as [[a| |] s']; cbn in *; [by rewrite Hk|done|done]. Qed.

Lemma set_ex_lease task k v secs now s : leader_key task <> k -> lease_of task (db (set_ex k v secs now s).2) = lease_of task (db s).
Proof.
  intros Hk. apply call_keeps. intros [] d' E. unfold lease_of. destruct (decide (secs <= 0)).
  - by rewrite set_ex_invalid in E.
  - destruct (set_ex_value k v secs now (db s)) as (d2 & E2 & Hv); [lia|]. rewrite E2 in E. injection E as <-.
    by rewrite Hv, decide_False.
Qed.
Lemma get_lease task k now s : lease_of task (db (get k now s).2) = lease_of task (db s).
Proof. apply call_keeps. by intros a d' [= <- <-]. Qed.
Lemma publish_lease task c m s : lease_of task (db (publish c m s).2) = lease_of task (db s).
Proof. apply call_keeps. intros [] d' [= <-]. unfold lease_of. by rewrite publish_value. Qed.
Lemma del_lease task k s : leader_key task <> k -> lease_of task (db (del k s).2) = lease_of task (db s).
Proof. intros Hk. apply call_keeps. intros [] d' [= <-]. unfold lease_of. by rewrite del_value, decide_False. Qed.
Lemma parsed_same {A} (p : string -> option A) j s : (parsed p j s).2 = s.
Proof. unfold parsed. destruct j as [j|]; [by destruct (p j)|done]. Qed.
Lemma node_get_lease task id now s : lease_of task (db (node_get prefix id now s).2) = lease_of task (db s).
Proof. apply mbind_keeps; [apply get_lease|]. intros a s'. by rewrite parsed_same. Qed.
Lemma leader_not_node task id : leader_key task <> node_key prefix id.
Proof. by eapply key_differs. Qed.
Lemma leader_not_set task : leader_key task <> nodes_set prefix.
Proof. by eapply key_differs. Qed.

Lemma acquire_outcome task id ttl now s r s' : leader_acquire prefix task id ttl now s = (r, s') ->
  (lease_of task (db s') = lease_of task (db s) /\ r <> Ok true) \/
  ((forall h x, lease_of task (db s) = Some (h, x) -> now < x -> h = id) /\
   lease_of task (db s') = Some (id, now + as_secs ttl * 10 ^ 9)).
Proof.
  unfold leader_acquire, mbind, call, leader_acquire_script. fold (leader_key task).
  rewrite get_value. unfold lease_of. set (k := leader_key task). set (cur := match value k (db s) with Some _ => _ | None => _ end).
  destruct (bool_decide (cur = None) || bool_decide (cur = Some id)) eqn:E.
  - assert (Hfree : forall h x, match value k (db s) with Some (v, Some e) => Some (v, e) | _ => None end = Some (h, x) -> now < x -> h = id).
    { intros h x Hv Hx. subst cur. destruct (value k (db s)) as [[v [e|]]|]; try done. injection Hv as -> ->.
      rewrite (proj2 (Z.ltb_lt _ _)) in E by done. apply orb_prop in E as [E%bool_decide_eq_true|E%bool_decide_eq_true]; congruence. }
    destruct (decide (as_secs ttl <= 0)) as [Hle|Hgt].
    + rewrite set_ex_invalid by done. cbn. destruct (net s) as [|[] n]; intros [= <- <-]; by left.
    + destruct (set_ex_value k id (as_secs ttl) now (db s)) as (d' & -> & Hv); [lia|]. cbn.
      destruct (net s) as [|[] n]; intros [= <- <-]; cbn; rewrite ?Hv, ?decide_True by done; (by right) || (by left).
  - cbn. destruct (net s) as [|[] n]; intros [= <- <-]; by left.
Qed.

Definition valkey_leases : LeaseLaws (H := valkey_cluster prefix) store.
Proof.
  apply (Build_LeaseLaws _ (valkey_cluster prefix) (fun task s => lease_of task (db s)) (fun ttl => as_secs ttl * 10 ^ 9));
    cbn [st_leader_acquire st_leader_release st_node_deregister st_node_heartbeat st_node_set_status st_health_set valkey_cluster].
  - intros task id ttl now s s' [[_ []]|H]%acquire_outcome; done.
  - intros task id ttl now s r s' [[H _]|H]%acquire_outcome _; [by left|by right].
  - intros task id now s h x Hne Hl. unfold leader_release. rewrite <- Hl. apply (mbind_keeps (lease_of task)); [|done].
    apply call_keeps. unfold leader_release_script. intros a d'. case_bool_decide as E; [|by intros [= <- <-]].
    exfalso. revert E Hl. rewrite get_value. unfold lease_of, leader_key. destruct (value _ _) as [[v [e|]]|]; [|done|done].
    destruct (now <? e); congruence.
  - intros task id now s. apply (mbind_keeps (lease_of task)); [apply del_lease, leader_not_node|]. intros [] s'. apply call_keeps.
    intros [] d' [= <-]. unfold lease_of. rewrite srem_value; [done|apply leader_not_set].
  - intros task id c wall now s. apply (mbind_keeps (lease_of task)); [apply node_get_lease|]. intros [info|] s'; [|done].
    apply set_ex_lease, leader_not_node.
  - intros task id st wall now s. apply (mbind_keeps (lease_of task)); [apply node_get_lease|]. intros [info|] s'; [|done].
    apply (mbind_keeps (lease_of task)); [apply set_ex_lease, leader_not_node|]. intros [] s2. case_decide; [apply publish_lease|done].
  - intros task sv u h now s. apply (mbind_keeps (lease_of task)); [apply set_ex_lease; by eapply key_differs|]. intros [] s'. apply publish_lease.
Defined.

(** The laws of [ClusterTasks] hold while the next request is delivered and no
    leader key was written without an end, which nothing here does. *)
Definition delivers (s : store) : Prop := match net s with [] | Delivered :: _ => True | _ => False end.
Definition answers (s : store) : Prop := delivers s /\ forall task v, value (leader_key task) (db s) <> Some (v, None).

Lemma call_delivered {A} (f : Db -> option (A * Db)) s a d : delivers s -> f (db s) = Some (a, d) -> exists s', call f s = (Ok a, s').
Proof. unfold delivers, call. intros Hd ->. destruct (net s) as [|[] n]; [by eexists|by eexists|done|done]. Qed.

Definition valkey_live : LeaseLive (H := valkey_cluster prefix) (LL := valkey_leases) store.
Proof.
  apply (Build_LeaseLive _ (valkey_cluster prefix) valkey_leases answers);
    cbn [st_leader_acquire st_leader_release valkey_cluster lease valkey_leases granted].
  - intros task id ttl now s [Hon Hend] Hpos Hf. destruct (set_ex_value (leader_key task) id (as_secs ttl) now (db s)) as (d' & Hd' & _); [lia|].
    destruct (call_delivered (leader_acquire_script (leader_key task) id (as_secs ttl) now) s 1 d' Hon) as [s' Hs'].
    { unfold leader_acquire_script. rewrite get_value, Hd'. specialize (Hend task). unfold lease_of in Hf.
      destruct (value (leader_key task) (db s)) as [[v [e|]]|]; [|by destruct (Hend v)|done].
      destruct (Z.ltb_spec now e); [|done]. rewrite (Hf v e) by done. rewrite (bool_decide_eq_true_2 (Some id = Some id)) by done.
      by rewrite orb_true_r. }
    exists s'. unfold leader_acquire, mbind. fold (leader_key task). by rewrite Hs'.
  - intros task id now s. unfold leader_release, mbind, call, leader_release_script. fold (leader_key task).
    assert (Hdel : lease_of task (x_del (leader_key task) (db s)) = None) by (unfold lease_of; by rewrite del_value, decide_True).
    case_bool_decide; destruct (net s) as [|[] n]; cbn; rewrite ?Hdel; auto.
Defined.
End Leases.

(** ** Health entries *)
Section HealthEntries.
Context `{RL : RedisLaws} `{JS : JsonLib} (prefix : string).
Context (json_back : forall v, health_of_json (health_json v) = Some v).

Definition health_entry (k : string) (s : store) : option (StoredHealth * option Z) :=
  '(j, e) ← value k (db s); v ← health_of_json j; Some (v, e).

(** What [DistHealth] relies on: an entry is kept for 300 seconds after the report that
    wrote it, and a report that was answered is stored. *)
Definition valkey_health : HealthLaws (H := valkey_cluster prefix) store.
Proof.
  refine (Build_HealthLaws store (valkey_cluster prefix) (fun sv u => key prefix ["health"; sv; u]) health_entry
    (fun now => Some (now + 300 * 10 ^ 9)) _ _); cbn [st_health_get st_health_set valkey_cluster].
  - intros sv u now s r s' E. unfold health_get, mbind in E. destruct (get _ now s) as [r0 s0] eqn:Eg.
    assert (Hdb : db s0 = db s /\ (r0 = Ok (x_get (key prefix ["health"; sv; u]) now (db s)) \/ exists e, r0 = Err e)).
    { unfold get, call in Eg. destruct (net s) as [|[] n]; injection Eg as <- <-; cbn; eauto. }
    destruct Hdb as [Hdb [-> | [e ->]]]; [|injection E as <- <-; split; [intros k; unfold health_entry; by rewrite Hdb|by right; exists e]].
    unfold health_entry. rewrite get_value in E. unfold parsed, mret in E.
    destruct (value _ (db s)) as [[j [x|]]|]; cbn; [destruct (now <? x) eqn:Hx| |];
      try (destruct (health_of_json j)); cbn; rewrite ?Hx; injection E as <- <-; rewrite Hdb; (split; [done|]); first [by left | by right; eexists].
  - intros sv u v now s r s' E. unfold health_set, mbind in E. set (k := key prefix ["health"; sv; u]) in *.
    destruct (set_ex_value k (health_json v) 300 now (db s)) as (d' & Ed & Hv); [lia|].
    destruct (set_ex k _ 300 now s) as [r0 s0] eqn:E0. assert (Hr : (r0 = Ok tt /\ db s0 = d') \/ (r0 <> Ok tt /\ s' = s0 /\ (db s0 = d' \/ db s0 = db s))).
    { unfold set_ex, call in E0. rewrite Ed in E0. destruct (net s) as [|[] n]; injection E0 as <- <-; cbn in *; try (by left); right; injection E as <- <-; auto. }
    assert (Hpub : r0 = Ok tt -> forall k', value k' (db s') = value k' (db s0)).
    { intros ->. intros k'. change s' with (r, s').2. rewrite <- E. apply (call_keeps (value k')). intros [] d2 [= <-]. apply publish_value. }
    assert (Hk : forall k', k' <> k -> value k' (db s') = value k' (db s)).
    { intros k' Hne. destruct Hr as [[Hr Hd]|(_ & -> & [Hd|Hd])]; [rewrite Hpub by done|..]; rewrite Hd, ?Hv, ?decide_False by done; done. }
    split; [|intros k' Hne; unfold health_entry; by rewrite Hk]. intros ->. destruct Hr as [[Hr Hd]|(Hr & -> & _)].
    + unfold health_entry. rewrite Hpub, Hd, Hv, decide_True by done. cbn. by rewrite json_back.
    + destruct r0 as [[]| |]; [done|by injection E|by injection E].
Defined.
End HealthEntries.

(** ** The limiter *)

(** The reference: the milliseconds in which a request was let through, latest
    first, of which those in the window count. *)
Definition window_log (window_ms wall : Z) (log : list Z) : list Z := filter (fun e => wall - window_ms < e) log.
Definition log_add (wall : Z) (log : list Z) : list Z := if decide (wall ∈ log) then log else wall :: log.
Definition log_check (limit window wall : Z) (log : list Z) : (bool * Z * Z) * list Z :=
  let log := window_log (window * 1000) wall log in
  let count := Z.of_nat (length log) in
  if count <? limit then ((true, limit - count - 1, wall + window * 1000), log_add wall log)
  else ((false, 0, wall + window * 1000), log).
(** A request that is lost changes nothing; one whose reply is lost counts. *)
Definition log_request (limit window : Z) (f : fate) (wall : Z) (log : list Z) : result StoreError (bool * Z * Z) * list Z :=
  match f with
  | Delivered => let '(r, log) := log_check limit window wall log in (Ok r, log)
  | RequestLost => (Err (EConnection "lost"), log)
  | ReplyLost => (Err (EConnection "lost"), (log_check limit window wall log).2)
  end.

Section Limiter.
Context `{RL : RedisLaws} (prefix k : string) (limit window : Z).

Fixpoint limiter_run (reqs : list (Z * fate)) (s : store) : list (result StoreError (bool * Z * Z)) :=
  match reqs with
  | [] => []
  | (now, f) :: reqs' =>
      let '(r, s') := rate_limit_check prefix k limit window (now / 10 ^ 6) now {| db := db s; net := [f] |} in
      r :: limiter_run reqs' s'
  end.
Fixpoint log_run (reqs : list (Z * fate)) (log : list Z) : list (result StoreError (bool * Z * Z)) :=
  match reqs with
  | [] => []
  | (now, f) :: reqs' => let '(r, log') := log_request limit window f (now / 10 ^ 6) log in r :: log_run reqs' log'
  end.

Definition entries (log : list Z) : gmap string Z := list_to_map ((fun ms => (member ms, ms)) <$> log).
Definition zkey : string := key prefix ["ratelimit"; k].

(** From instant [t] on, the sorted set holds the log's entries, except that it
    may be gone when none of them is in the window any more. *)
Record log_ok (t : Z) (d : Db) (log : list Z) : Prop := {
  log_nodup : NoDup log;
  log_past : Forall (fun ms => 0 <= ms <= t / 10 ^ 6) log;
  log_held : forall u, t <= u -> zset zkey u d = entries log \/
    (zset zkey u d = ∅ /\ Forall (fun ms => ms <= u / 10 ^ 6 - window * 1000) log);
}.

Lemma member_inj a b : 0 <= a -> 0 <= b -> member a = member b -> a = b.
Proof.
  intros Ha Hb. unfold member. cbn [String.append]. intros E.
  apply (f_equal (split_once "-")) in E. rewrite !split_once_app in E by by apply dec_no_char. injection E as E. by apply dec_inj.
Qed.

Lemma entries_lookup log m ms : Forall (fun ms => 0 <= ms) log -> NoDup log ->
  entries log !! m = Some ms <-> ms ∈ log /\ m = member ms.
Proof.
  intros Hp Hn. unfold entries. rewrite <- elem_of_list_to_map.
  - rewrite list_elem_of_fmap. split; [by intros (x & [= -> ->] & Hx)|]. intros [Hx ->]. by exists ms.
  - rewrite <- list_fmap_compose. apply NoDup_fmap_2_strong; [|done]. intros x y Hx Hy. rewrite Forall_forall in Hp.
    apply member_inj; auto.
Qed.

Lemma entries_size log : Forall (fun ms => 0 <= ms) log -> NoDup log -> size (entries log) = length log.
Proof.
  intros Hp Hn. unfold entries. rewrite map_size_list_to_map; [by rewrite length_fmap|].
  rewrite <- list_fmap_compose. apply NoDup_fmap_2_strong; [|done]. intros x y Hx Hy. rewrite Forall_forall in Hp. apply member_inj; auto.
Qed.

Lemma entries_window log wall : Forall (fun ms => 0 <= ms) log -> NoDup log ->
  filter (fun e : string * Z => ~ (0 <= e.2 <= wall - window * 1000)) (entries log) = entries (window_log (window * 1000) wall log).
Proof.
  intros Hp Hn. apply map_eq. intros m. apply option_eq. intros ms. rewrite map_lookup_filter_Some.
  unfold window_log. assert (Hf : Forall (fun ms => 0 <= ms) (filter (fun e => wall - window * 1000 < e) log)).
  { rewrite Forall_forall in *. intros x [_ Hx]%list_elem_of_filter. auto. }
  rewrite !entries_lookup by auto using NoDup_filter. rewrite list_elem_of_filter. rewrite Forall_forall in Hp. cbn [snd]. split; [intros ([Hx ->] & Hw)|intros ((Hw & Hx) & ->)];
    specialize (Hp ms Hx); repeat split; auto; lia.
Qed.

Lemma entries_add log wall : 0 <= wall -> Forall (fun ms => 0 <= ms) log -> NoDup log ->
  <[member wall := wall]> (entries log) = entries (log_add wall log).
Proof.
  intros Hw Hp Hn. unfold log_add. case_decide as Hi; [|done]. apply insert_id. by apply entries_lookup.
Qed.

Lemma window_log_ok now t d log : log_ok t d log -> 0 <= t <= now ->
  let wl := window_log (window * 1000) (now / 10 ^ 6) log in
  let d1 := x_zremrangebyscore zkey 0 (now / 10 ^ 6 - window * 1000) d in
  log_ok now d1 wl /\ zset zkey now d1 = entries wl.
Proof.
  intros [Hn Hp Hh] Ht wl d1. assert (Hp0 : Forall (fun ms => 0 <= ms) log) by (eapply Forall_impl; [exact Hp|]; cbn; lia).
  assert (Hsub : forall x, x ∈ wl -> x ∈ log) by (intros x [_ Hx]%list_elem_of_filter; done).
  assert (Hheld : forall u, now <= u -> zset zkey u d1 = entries wl \/
    (zset zkey u d1 = ∅ /\ Forall (fun ms => ms <= u / 10 ^ 6 - window * 1000) log)).
  { intros u Hu. subst d1. rewrite zrem_zset. destruct (Hh u) as [->|[-> Ha]]; [lia|..].
    - left. by apply entries_window.
    - right. by split; [apply map_filter_empty|]. }
  pose proof (Z.div_le_mono t now (10 ^ 6) ltac:(lia) ltac:(lia)).
  split; [split|].
  - by apply NoDup_filter.
  - rewrite Forall_forall in *. intros x Hx%Hsub. specialize (Hp x Hx). cbn in Hp. lia.
  - intros u Hu. destruct (Hheld u Hu) as [?|[? Ha]]; [by left|right; split; [done|]]. rewrite Forall_forall in *. auto.
  - destruct (Hheld now ltac:(lia)) as [?|[-> Ha]]; [done|]. assert (wl = []) as ->; [|done].
    apply elem_of_nil_inv. intros x Hx. pose proof Hx as [Hw _]%list_elem_of_filter. rewrite Forall_forall in Ha.
    specialize (Ha x (Hsub x Hx)). cbn in Ha. lia.
Qed.

Lemma log_add_nodup wall log : NoDup log -> NoDup (log_add wall log).
Proof. intros Hn. unfold log_add. case_decide; [done|by constructor]. Qed.
Lemma log_add_elem wall log x : x ∈ log_add wall log <-> x = wall \/ x ∈ log.
Proof. unfold log_add. case_decide as H; [|by rewrite elem_of_cons]. split; [by right|]. by intros [->|]. Qed.

Lemma script_ok now t d log : log_ok t d log -> 0 <= t <= now ->
  let '(r, d') := rate_limit_script zkey limit window (now / 10 ^ 6) now d in
  let '(r', log') := log_check limit window (now / 10 ^ 6) log in
  (r.1.1 =? 1, r.1.2, r.2) = r' /\ log_ok now d' log'.
Proof.
  intros Hok Ht. destruct (window_log_ok now t d log Hok Ht) as [Hok1 Hz]. unfold rate_limit_script, log_check.
  set (wl := window_log _ _ _) in *. set (d1 := x_zremrangebyscore _ _ _ _) in *. set (wall := now / 10 ^ 6) in *.
  pose proof Hok1 as [Hn Hp _]. assert (Hp0 : Forall (fun ms => 0 <= ms) wl) by (eapply Forall_impl; [exact Hp|]; cbn; lia).
  assert (Hw : 0 <= wall) by (apply Z.div_pos; lia).
  rewrite zcard_size, Hz, entries_size by done. destruct (Z.of_nat (length wl) <? limit); [|by split].
  split; [done|]. split; [by apply log_add_nodup|..].
  - rewrite Forall_forall in *. intros x [->|Hx]%log_add_elem; [fold wall; lia|by apply Hp].
  - intros u Hu. rewrite pexpire_zset, zadd_zset, Hz, entries_add by done. destruct (Z.ltb_spec u (now + window * 1000 * 10 ^ 6)) as [|Hge]; [by left|right].
    split; [done|]. apply (Z.div_le_mono _ _ (10 ^ 6)) in Hge; [|lia]. rewrite Z.div_add in Hge by lia. fold wall in Hge.
    rewrite Forall_forall in *. intros x [->|Hx]%log_add_elem; [lia|]. specialize (Hp x Hx). cbn in Hp. fold wall in Hp. lia.
Qed.

(** Instants in order, and times that Lua's numbers hold. *)
Fixpoint requests_ok (t : Z) (reqs : list (Z * fate)) : Prop :=
  match reqs with [] => True | (now, _) :: reqs' => t <= now /\ now / 10 ^ 6 + window * 1000 < 2 ^ 53 /\ requests_ok now reqs' end.

Lemma limiter_refines reqs : forall t s log, 0 <= limit < 2 ^ 53 -> 0 <= window -> 0 <= t -> log_ok t (db s) log -> requests_ok t reqs ->
  limiter_run reqs s = log_run reqs log.
Proof.
  induction reqs as [|[now f] reqs IH]; intros t s log Hl Hw Ht Hok Hr; [done|]. destruct Hr as (Hle & Hmax & Hr).
  pose proof (script_ok now t (db s) log Hok ltac:(lia)) as Hs. cbn [limiter_run log_run]. unfold rate_limit_check, mbind, mret, call.
  fold zkey. cbn [db net]. assert (Hd : 0 <= now / 10 ^ 6) by (apply Z.div_pos; lia).
  assert (Hin : forall r log', log_check limit window (now / 10 ^ 6) log = (r, log') -> wrap_u64 r.1.2 = r.1.2 /\ wrap_u64 r.2 = r.2).
  { unfold log_check. intros r log'. destruct (Z.ltb_spec (Z.of_nat (length (window_log (window * 1000) (now / 10 ^ 6) log))) limit);
      intros [= <- <-]; cbn [fst snd]; rewrite !wrap_u64_id; try done; unfold in_u64, u64_max; lia. }
  unfold log_request. destruct (rate_limit_script zkey limit window (now / 10 ^ 6) now (db s)) as [[[r1 r2] r3] d'].
  destruct (log_check limit window (now / 10 ^ 6) log) as [[[b rem] reset] log'] eqn:Ec. destruct Hs as [Hs Hok']. cbn [fst snd] in Hs.
  injection Hs as Hb -> ->. destruct (Hin _ _ eq_refl) as [H1 H2]. cbn [fst snd] in H1, H2.
  destruct f; cbn [fst snd db]; rewrite ?Hb, ?H1, ?H2; f_equal; (apply (IH now); cbn [db]; try done; try lia).
  destruct Hok as [Hn Hp Hh]. split; [done| |intros u Hu; apply Hh; lia].
  pose proof (Z.div_le_mono t now (10 ^ 6) ltac:(lia) Hle). eapply Forall_impl; [exact Hp|]. cbn. lia.
Qed.

(** C14. The distributed rate limiter is the sliding-window log of the reference,
    on the granularity of milliseconds. For requests at instants that do not go
    back, from a key that does not exist yet, with any of them or of their
    replies lost: the answers of the store are those of the log that keeps the
    milliseconds in which requests were let through and refuses a request when
    the window holds [limit] of them. The expiry of the key loses no entry that
    is still in the window. *)
Theorem valkey_limiter_is_log reqs s t : 0 <= limit < 2 ^ 53 -> 0 <= window -> 0 <= t -> requests_ok t reqs ->
  (forall u, zset zkey u (db s) = ∅) -> limiter_run reqs s = log_run reqs [].
Proof. intros Hl Hw Ht Hr Hz. apply (limiter_refines reqs t); try done. split; [constructor|constructor|]. intros u _. left. by rewrite Hz. Qed.
End Limiter.

(** A log never lets more milliseconds through than the limit. *)
Lemma log_check_bounded limit window wall log : 0 <= limit -> Z.of_nat (length log) <= limit ->
  Z.of_nat (length (log_check limit window wall log).2) <= limit.
Proof.
  intros Hl Hlog. unfold log_check. set (wl := window_log _ _ _).
  assert (length wl <= length log)%nat by (apply length_filter).
  destruct (Z.ltb_spec (Z.of_nat (length wl)) limit); [|cbn; lia]. cbn. unfold log_add. case_decide; [lia|]. cbn [length]. lia.
Qed.
(** Requests of one millisecond count once: with a limit of at least two, all the
    requests of a millisecond are let through. *)
Lemma same_millisecond_unlimited limit window wall log : 0 < window -> wall ∈ log ->
  Z.of_nat (length log) < limit -> (log_check limit window wall log).1.1.1 = true /\
  wall ∈ (log_check limit window wall log).2 /\ Z.of_nat (length (log_check limit window wall log).2) < limit.
Proof.
  intros Hw Hin Hl. unfold log_check. set (wl := window_log _ _ _).
  assert (length wl <= length log)%nat by (apply length_filter).
  assert (Hi : wall ∈ wl) by (apply list_elem_of_filter; split; [lia|done]).
  rewrite (proj2 (Z.ltb_lt _ _)) by lia. cbn. unfold log_add. rewrite decide_True by done. split_and!; try done. lia.
Qed.

(** ** Elections, sessions and events *)
Section Guarantees.
Context `{RL : RedisLaws} `{JS : JsonLib} (prefix : string).

(** One leader at a time on the distributed store. Nodes that share a store
    whose commands behave as documented, with any requests or replies lost, over
    any interleaving of elections, heartbeats, drains, shutdowns and reports: two
    nodes that believe they lead and ran their last election less than the whole
    seconds of the lease ago are the same node, and the store has its lease. *)
Theorem valkey_single_leader ops t0 t (w : world store) n1 n2 m1 m2 e1 e2 :
  (forall id m, managers w !! id = Some m -> cm_node_id m = id /\ cm_is_leader m = false) -> in_time t0 ops -> end_time t0 ops <= t ->
  let w' := node_run (H := valkey_cluster prefix) ops w in
  managers w' !! n1 = Some m1 -> managers w' !! n2 = Some m2 -> is_health_check_leader m1 = true -> is_health_check_leader m2 = true ->
  elected w' !! n1 = Some e1 -> elected w' !! n2 = Some e2 ->
  t < e1 + as_secs (ttl m1) * 10 ^ 9 -> t < e2 + as_secs (ttl m2) * 10 ^ 9 ->
  n1 = n2 /\ lease_of prefix health_check_task (db (w_store w')) = Some (n1, e1 + as_secs (ttl m1) * 10 ^ 9).
Proof.
  intros H0 Hi He w' Hm1 Hm2 Hl1 Hl2 He1 He2 Ht1 Ht2.
  exact (leaders_agree (LL := valkey_leases prefix) ops t0 t w n1 n2 m1 m2 e1 e2 H0 Hi He Hm1 Hm2 Hl1 Hl2 He1 He2 Ht1 Ht2).
Qed.

(** Sessions of the distributed store. With a lifetime of at least a second, a
    session that is stored is found with its server for the whole seconds of
    the lifetime, and not after; with less than a second the store reports an
    error and keeps what it had. Deleting it ends it, and a session with another
    key is not touched. *)
Theorem valkey_sessions service id url ttl now s : net s = [] ->
  let '(r, s') := sticky_session_set prefix service id url ttl now s in
  (10 ^ 9 <= ttl -> r = Ok tt /\
     (forall t, (sticky_session_get prefix service id t s').1 = Ok (if t <? now + ttl / 10 ^ 9 * 10 ^ 9 then Some url else None)) /\
     (forall t, (sticky_session_get prefix service id t (sticky_session_delete prefix service id s').2).1 = Ok None)) /\
  (ttl < 10 ^ 9 -> (exists e, r = Err (EConnection e)) /\ db s' = db s) /\
  (forall service' id' t, key prefix ["sticky"; service'; id'] <> key prefix ["sticky"; service; id] ->
     (sticky_session_get prefix service' id' t s').1 = (sticky_session_get prefix service' id' t s).1).
Proof.
  destruct s as [d n]. cbn [net]. intros ->. unfold sticky_session_set, sticky_session_get, sticky_session_delete, set_ex, get, del, call, as_secs.
  cbn [db net]. set (k := key prefix ["sticky"; service; id]).
  assert (Hdiv : 10 ^ 9 <= ttl <-> 0 < ttl / 10 ^ 9)
    by (pose proof (Z.div_mod ttl (10 ^ 9)); pose proof (Z.mod_pos_bound ttl (10 ^ 9)); lia).
  destruct (decide (0 < ttl / 10 ^ 9)) as [Hp|Hp].
  - destruct (set_ex_value k url (ttl / 10 ^ 9) now d Hp) as (d' & -> & Hv). cbn. split_and!.
    + intros _. split_and!; [done|..]; intros t; rewrite get_value, ?del_value, ?Hv, decide_True by done; done.
    + intros Hlt. lia.
    + intros sv' id' t Hne. rewrite !get_value, Hv, decide_False by done. done.
  - rewrite set_ex_invalid by lia. cbn. split_and!; [lia|intros _; split; [by eexists|done]|done].
Qed.

(** The report of a server whose address has a scheme reaches no subscriber: the
    message is cut at the first colon of the address. (JSON text does not start
    with a slash.) *)
Lemma health_event_lost service rest status :
  (forall s, health_of_json (String "/" s) = None) -> str_forall (fun c => negb (Ascii.eqb c ":")) service = true ->
  on_message prefix (key prefix ["events"; "health_change"])
    (service +:+ ":" +:+ ("http://" +:+ rest) +:+ ":" +:+ health_json status) = None.
Proof.
  intros Hj Hs. unfold on_message. rewrite bool_decide_eq_false_2, bool_decide_eq_true_2; [|done|].
  - change (":" +:+ ?x) with (String ":" x). rewrite split_once_app by done. cbn. by rewrite Hj.
  - unfold key. cbn [foldl]. rewrite !str_app_assoc. intros E. by apply (inj (String.append prefix)) in E.
Qed.
End Guarantees.

(** The database number of the settings is not used: every address with a scheme
    has a slash already. *)
Lemma database_ignored c pos endpoint : head (vc_endpoints c) = Some endpoint -> find_str "://" endpoint = Some pos ->
  vc_username c = None -> vc_password c = None -> client_url c = Ok endpoint.
Proof.
  intros He Hf Hu Hp. unfold client_url. rewrite He, Hu, Hp. cbn [ok_or res_bind].
  assert (Hc : contains "/" endpoint = true).
  { clear He. revert pos Hf. induction endpoint as [|a s IH]; intros pos; [done|]. cbn [find_str contains].
    destruct (starts_with "://" (String a s)) eqn:E.
    - apply starts_with_spec in E as [r [= -> ->]]. intros _. by rewrite orb_true_r.
    - destruct (find_str "://" s) as [q|] eqn:Eq; [|done]. intros _. rewrite (IH q eq_refl). apply orb_true_r. }
  destruct (contains "@" endpoint); by rewrite Hc, andb_false_r.
Qed.

(** ** A server in memory *)
Record memory := {
  strs : gmap string (string * option Z);
  zsets : gmap string (gmap string Z * option Z);
  sets : gmap string (gset string);
  sent : list (string * string);
}.
Definition live (now : Z) (e : option Z) : bool := match e with Some e => now <? e | None => true end.
Definition with_strs (f : gmap string (string * option Z) -> gmap string (string * option Z)) (d : memory) : memory :=
  {| strs := f (strs d); zsets := zsets d; sets := sets d; sent := sent d |}.
Definition with_zsets (f : gmap string (gmap string Z * option Z) -> gmap string (gmap string Z * option Z)) (d : memory) : memory :=
  {| strs := strs d; zsets := f (zsets d); sets := sets d; sent := sent d |}.
Definition with_set (k : string) (f : gset string -> gset string) (d : memory) : memory :=
  {| strs := strs d; zsets := zsets d; sets := <[k := f (default ∅ (sets d !! k))]> (sets d); sent := sent d |}.
Definition mem_get (k : string) (now : Z) (d : memory) : option string :=
  match strs d !! k with Some (v, e) => if live now e then Some v else None | None => None end.
Definition mem_zset (k : string) (now : Z) (d : memory) : gmap string Z :=
  match zsets d !! k with Some (m, e) => if live now e then m else ∅ | None => ∅ end.
Definition mem_expiry (k : string) (now : Z) (d : memory) : option Z :=
  match zsets d !! k with Some (_, e) => if live now e then e else None | None => None end.
Definition mem_incr (k : string) (now : Z) (d : memory) : option (Z * memory) :=
  let n := match mem_get k now d with Some s => dec_scan s 0 | None => 0 end + 1 in
  Some (n, with_strs <[k := (dec n, strs d !! k ≫= snd)]> d).

#[export] Instance mem_server : RedisServer := {|
  Db := memory;
  x_get := mem_get;
  x_set k v := with_strs <[k := (v, None)]>;
  x_set_ex k v secs now d := if secs <=? 0 then None else Some (with_strs <[k := (v, Some (now + secs * 10 ^ 9))]> d);
  x_del k := with_strs (delete k);
  x_incr := mem_incr;
  x_expire k secs now := with_strs (alter (fun v => (v.1, Some (now + secs * 10 ^ 9))) k);
  x_zremrangebyscore k lo hi := with_zsets (alter (fun z => (filter (fun e => ~ (lo <= e.2 <= hi)) z.1, z.2)) k);
  x_zcard k now d := Z.of_nat (size (mem_zset k now d));
  x_zadd k score m now d := with_zsets <[k := (<[m := score]> (mem_zset k now d), mem_expiry k now d)]> d;
  x_pexpire k ms now d := with_zsets <[k := (mem_zset k now d, Some (now + ms * 10 ^ 6))]> d;
  x_sadd k m := with_set k (fun s => {[m]} ∪ s);
  x_srem k m := with_set k (fun s => s ∖ {[m]});
  x_smembers k d := elements (default ∅ (sets d !! k) : gset string);
  x_keys pattern now d := List.filter (starts_with (str_take (String.length pattern - 1) pattern)) (fst <$> map_to_list (strs d));
  x_publish c m d := {| strs := strs d; zsets := zsets d; sets := sets d; sent := sent d ++ [(c, m)] |};
  script_random n := 1;
|}.

#[export] Instance mem_laws : RedisLaws.
Proof.
  apply (Build_RedisLaws mem_server (fun k d => strs d !! k) mem_zset);
    cbn [Db mem_server x_get x_set_ex x_del x_publish x_sadd x_srem x_zcard x_zremrangebyscore x_zadd x_pexpire].
  - intros k now d. unfold mem_get, live. by destruct (strs d !! k) as [[v [e|]]|].
  - intros k v secs now d Hs. by rewrite (proj2 (Z.leb_le _ _)).
  - intros k v secs now d Hs. rewrite (proj2 (Z.leb_gt _ _)) by done. eexists. split; [done|]. intros k'. cbn [with_strs strs].
    case_decide as E; [subst; by rewrite lookup_insert_eq|by rewrite lookup_insert_ne].
  - intros k d k'. cbn [with_strs strs]. case_decide as E; [subst; by rewrite lookup_delete_eq|by rewrite lookup_delete_ne].
  - done.
  - done.
  - done.
  - done.
  - intros k lo hi d t. unfold mem_zset. cbn [with_zsets zsets]. rewrite lookup_alter_eq. destruct (zsets d !! k) as [[m e]|]; cbn.
    + by destruct (live t e).
    + by rewrite map_filter_empty.
  - intros k score m now d. unfold mem_zset at 1. cbn [with_zsets zsets]. rewrite lookup_insert_eq. unfold mem_expiry.
    destruct (zsets d !! k) as [[z e]|]; [|done]. destruct (live now e) eqn:E; [by rewrite E|done].
  - intros k ms now d t Ht. unfold mem_zset at 1. cbn [with_zsets zsets]. rewrite lookup_insert_eq. done.
Defined.

#[export] Instance no_json : JsonLib :=
  {| health_json _ := "{}"; health_of_json _ := None; node_json _ := "{}"; node_of_json _ := None |}.

Definition mem_empty : memory := {| strs := ∅; zsets := ∅; sets := ∅; sent := [] |}.
Definition fresh : store := {| db := mem_empty : Db; net := [] |}.

Lemma valkey_limiter_is_log_witness :
  limiter_run "tc" "ip" 2 1 [(10 ^ 6, Delivered); (10 ^ 6, Delivered); (2 * 10 ^ 6, ReplyLost); (3 * 10 ^ 6, Delivered); (1001 * 10 ^ 6, Delivered)] fresh =
  [Ok (true, 1, 1001); Ok (true, 0, 1001); Err (EConnection "lost"); Ok (false, 0, 1003); Ok (true, 0, 2001)].
Proof.
  rewrite (valkey_limiter_is_log "tc" "ip" 2 1 _ fresh 0); [vm_compute; reflexivity|lia|lia|lia| |intros u; reflexivity].
  cbn [requests_ok]. repeat split; vm_compute; discriminate || reflexivity.
Defined.

Lemma valkey_sessions_witness :
  (sticky_session_get "tc" "web" "s1" (10 ^ 9) (sticky_session_set "tc" "web" "s1" "http://a" (2500 * 10 ^ 6) 0 fresh).2).1 = Ok (Some "http://a").
Proof. exact (proj1 (proj2 (proj1 (valkey_sessions "tc" "web" "s1" "http://a" (2500 * 10 ^ 6) 0 fresh eq_refl) ltac:(lia))) (10 ^ 9)). Defined.

(** Two nodes; the reply to the first election of [a] is lost, though it was
    carried out, and [b] is refused until the lease of [a] ends. *)
Definition demo_nodes : world store :=
  {| w_store := {| db := mem_empty : Db; net := [ReplyLost] |}; managers := two_managers; elected := ∅ |}.
Definition demo_ops : list (Z * string * node_op) :=
  [(0, "a", Election); (1 * sec, "b", Election); (5 * sec, "a", Election); (21 * sec, "b", Election)].

Lemma valkey_single_leader_witness :
  let w' := node_run (H := valkey_cluster "tc") demo_ops demo_nodes in
  lease_of "tc" health_check_task (db (w_store w')) = Some ("b", 36 * sec).
Proof.
  assert (Hb : managers (node_run (H := valkey_cluster "tc") demo_ops demo_nodes) !! "b" = Some (set_leader true (demo_manager "b")))
    by (vm_compute; reflexivity).
  cbn zeta. change (36 * sec) with (21 * sec + as_secs (ttl (set_leader true (demo_manager "b"))) * 10 ^ 9).
  refine (proj2 (valkey_single_leader "tc" demo_ops 0 (22 * sec) demo_nodes "b" "b" _ _ (21 * sec) (21 * sec) _ _ _ Hb Hb eq_refl eq_refl _ _ _ _)).
  - exact two_managers_ok.
  - cbn [in_time demo_ops fst]. unfold sec. lia.
  - cbn [end_time demo_ops foldl fst]. unfold sec. lia.
  - vm_compute. reflexivity.
  - vm_compute. reflexivity.
  - unfold sec. change (as_secs _) with 15. lia.
  - unfold sec. change (as_secs _) with 15. lia.
Defined.

(** A JSON library that reads back what it prints exists; with it the laws of
    [DistHealth] hold of this store. *)
Fixpoint bits_text (p : positive) : string :=
  match p with xH => "" | xO p => String "0" (bits_text p) | xI p => String "1" (bits_text p) end.
Fixpoint text_bits (s : string) : positive :=
  match s with "" => xH | String c s => if Ascii.eqb c "0" then xO (text_bits s) else xI (text_bits s) end.
Lemma text_bits_text p : text_bits (bits_text p) = p.
Proof. induction p as [p IH|p IH|]; cbn; by rewrite ?IH. Qed.

Definition health_tuple (v : StoredHealth) : bool * Z * Z * option string :=
  (sh_healthy v, sh_last_check v, sh_consecutive_failures v, sh_last_error v).
Definition tuple_health (t : bool * Z * Z * option string) : StoredHealth :=
  {| sh_healthy := t.1.1.1; sh_last_check := t.1.1.2; sh_consecutive_failures := t.1.2; sh_last_error := t.2 |}.
#[local] Instance bits_json : JsonLib :=
  {| health_json v := bits_text (encode (health_tuple v)); health_of_json s := tuple_health <$> decode (text_bits s);
     node_json _ := "{}"; node_of_json _ := None |}.
Lemma bits_json_back v : health_of_json (health_json v) = Some v.
Proof. cbn. rewrite text_bits_text, decode_encode. by destruct v. Qed.
Definition mem_health : HealthLaws (H := valkey_cluster "tc") store := valkey_health "tc" bits_json_back.

(** Two nodes on this store: the follower takes over the leader's verdict, and 300 s
    after the last report the server counts as healthy again. *)
Lemma valkey_verdict_expires :
  let run := fleet_run (CS := valkey_cluster "tc") (Uri := string) inr Some dec in
  let w := run [StartChecks "a" "web" ["http://s"] HealthCheck.new; StartChecks "b" "web" ["http://s"] HealthCheck.new; Leads "a" true;
                CheckRound 0 (answer 500) 1 1; CheckRound 0 (answer 500) 2 2; CheckRound 0 (answer 500) 3 3; CheckRound 1 (answer 200) 4 4]
             {| f_store := fresh; f_leads := ∅; f_tasks := [] |} in
  let seen w := current_health <$> (snd <$> f_tasks w !! 1%nat) in
  seen w = Some false /\
  is_server_healthy (CS := valkey_cluster "tc") "web" "http://s" (2 + 300 * sec) (f_store w) = false /\
  seen (run [CheckRound 1 (answer 500) 5 (3 + 300 * sec)] w) = Some true.
Proof. split_and!; vm_compute; reflexivity. Qed.
