(* ===== verification/Events.v ===== *)
(** * Events between the nodes

    Models the publish/subscribe side of the stores: the broadcast channels of
    src/src/store/local.rs and src/src/store/valkey.rs with their subscriptions,
    [start_pubsub_listener] and [run_pubsub_loop], which feed the channels from the
    server's messages, and [start_drain_listener] of src/src/cluster/manager.rs,
    which reads one of them. The channels of [tokio] are the interface [Broadcast];
    what a message is turned into is [Valkey.on_message]. *)
From S2P Require Import Prelude RustStr Duration LocalStore Valkey.
From stdpp Require Import list.
Open Scope Z_scope.
Open Scope list_scope.
#[local] Set Default Proof Using "Type*".

(** ** Broadcast channels *)
Inductive recv_result (A : Type) := Received (a : A) | Lagged (n : nat) | Empty (* nothing yet: [recv] waits *).
Arguments Received {A}. Arguments Lagged {A}. Arguments Empty {A}.

Class Broadcast := {
  Sender : Type -> Type;
  Receiver : Type -> Type;
  channel : forall {A}, nat -> Sender A;
  send : forall {A}, A -> Sender A -> Sender A;
  subscribe : forall {A}, Sender A -> Receiver A;
  recv : forall {A}, Sender A -> Receiver A -> recv_result A * Receiver A;
}.

(** As documented: a receiver sees what is sent after it subscribed, in order; a
    channel keeps its [capacity] latest values, and a receiver that is further
    behind is told how many it missed and goes on with the oldest one kept. [log]
    is everything ever sent, [position] how much of it a receiver is past. *)
Class BroadcastLaws `{Broadcast} := {
  log : forall {A}, Sender A -> list A;
  capacity : forall {A}, Sender A -> nat;
  position : forall {A}, Receiver A -> nat;
  channel_log : forall A n, log (channel (A := A) n) = [];
  channel_capacity : forall A n, capacity (channel (A := A) n) = n;
  send_log : forall A (a : A) s, log (send a s) = log s ++ [a];
  send_capacity : forall A (a : A) s, capacity (send a s) = capacity s;
  subscribe_position : forall A (s : Sender A), position (subscribe s) = length (log s);
  recv_next : forall A (s : Sender A) r a, log s !! position r = Some a -> (length (log s) - position r <= capacity s)%nat ->
    (recv s r).1 = Received a /\ position (recv s r).2 = S (position r);
  recv_lagged : forall A (s : Sender A) r, (capacity s < length (log s) - position r)%nat ->
    (recv s r).1 = Lagged (length (log s) - position r - capacity s) /\ position (recv s r).2 = (length (log s) - capacity s)%nat;
  recv_empty : forall A (s : Sender A) r, (length (log s) <= position r)%nat -> recv s r = (Empty, r);
}.

(** A channel as its log. *)
#[export] Instance log_channel : Broadcast := {|
  Sender A := (nat * list A)%type;
  Receiver A := nat;
  channel A n := (n, []);
  send A a s := (s.1, s.2 ++ [a]);
  subscribe A s := length s.2;
  recv A s r :=
    if (length s.2 <=? r)%nat then (Empty, r)
    else if (s.1 <? length s.2 - r)%nat then (Lagged (length s.2 - r - s.1), (length s.2 - s.1)%nat)
    else match s.2 !! r with Some a => (Received a, S r) | None => (Empty, r) end;
|}.
#[export] Instance log_channel_laws : BroadcastLaws.
Proof.
  apply (@Build_BroadcastLaws log_channel (fun A (s : nat * list A) => s.2) (fun A (s : nat * list A) => s.1) (fun A (r : nat) => r)); try done; cbn -[Nat.ltb Nat.leb].
  - intros A [n l] r a Ha Hc. cbn -[Nat.ltb Nat.leb] in *. pose proof (lookup_lt_Some _ _ _ Ha).
    destruct (Nat.leb_spec (length l) r); [lia|]. destruct (Nat.ltb_spec n (length l - r)); [lia|]. by rewrite Ha.
  - intros A [n l] r Hl. cbn -[Nat.ltb Nat.leb] in *. destruct (Nat.leb_spec (length l) r); [lia|]. destruct (Nat.ltb_spec n (length l - r)); [done|lia].
  - intros A [n l] r Hl. cbn -[Nat.ltb Nat.leb] in *. destruct (Nat.leb_spec (length l) r); [done|lia].
Defined.

(** ** The channels of a store *)
Section Stores.
Context `{BC : Broadcast}.

Record Channels := {
  config_tx : Sender unit;
  health_tx : Sender (string * string * StoredHealth);
  drain_tx : Sender string;
}.
Definition channels_new : Channels := {| config_tx := channel 16; health_tx := channel 256; drain_tx := channel 16 |}.
Definition subscribe_config_changes (c : Channels) : Receiver unit := subscribe (config_tx c).
Definition subscribe_health_changes (c : Channels) : Receiver (string * string * StoredHealth) := subscribe (health_tx c).
Definition subscribe_drain_events (c : Channels) : Receiver string := subscribe (drain_tx c).

(** The sends of the two stores. *)
Definition emit (e : event) (c : Channels) : Channels :=
  match e with
  | ConfigChanged => {| config_tx := send tt (config_tx c); health_tx := health_tx c; drain_tx := drain_tx c |}
  | HealthChanged sv u st => {| config_tx := config_tx c; health_tx := send (sv, u, st) (health_tx c); drain_tx := drain_tx c |}
  | NodeDraining id => {| config_tx := config_tx c; health_tx := health_tx c; drain_tx := send id (drain_tx c) |}
  end.

(** ** The listener of the distributed store *)

(** What the server does in one attempt: the client may not connect, one of the
    three subscriptions may fail, or messages come (a payload may not be a text)
    until the stream ends; [Streaming] has not ended. *)
Inductive attempt :=
| NoConnection
| SubscribeFailed
| Streaming (messages : list (string * option string))
| Closed (messages : list (string * option string)).

Context `{JS : JsonLib} (key_prefix : string).

Definition on_stream (c : Channels) (msg : string * option string) : Channels :=
  match msg.2 ≫= on_message key_prefix msg.1 with Some e => emit e c | None => c end.

(** [None]: the loop waits for the next message. *)
Definition run_pubsub_loop (a : attempt) (c : Channels) : Channels * option (result StoreError unit) :=
  match a with
  | NoConnection => (c, Some (Err (EConnection "connect")))
  | SubscribeFailed => (c, Some (Err (EConnection "subscribe")))
  | Streaming messages => (foldl on_stream c messages, None)
  | Closed messages => (foldl on_stream c messages, Some (Ok tt))
  end.

Inductive listener_state := Reconnecting | Listening | ListenerEnded.
(** The task: an error is followed by a pause and the next attempt, the end of the
    stream ends the task. *)
Fixpoint pubsub_listener (attempts : list attempt) (c : Channels) : Channels * listener_state :=
  match attempts with
  | [] => (c, Reconnecting)
  | a :: attempts' =>
      let '(c, r) := run_pubsub_loop a c in
      match r with
      | Some (Ok _) => (c, ListenerEnded)
      | Some _ => pubsub_listener attempts' c
      | None => (c, Listening)
      end
  end.

(** ** The drain listener of a node *)

(** [logged]: the nodes it reports as draining. *)
Record drain_listener := { rx : Receiver string; logged : list string; over : bool }.
Definition start_drain_listener (c : Channels) : drain_listener := {| rx := subscribe_drain_events c; logged := []; over := false |}.

(** One round in which [drain_rx.recv()] is taken, and one in which the signal is. *)
Definition drain_poll (self : string) (c : Channels) (d : drain_listener) : drain_listener :=
  if over d then d
  else
    let '(r, rx) := recv (drain_tx c) (rx d) in
    match r with
    | Received id => {| rx := rx; logged := if decide (id <> self) then logged d ++ [id] else logged d; over := false |}
    | Lagged _ | Empty => {| rx := rx; logged := logged d; over := false |}
    end.
Definition drain_signalled (d : drain_listener) : drain_listener := {| rx := rx d; logged := logged d; over := true |}.

(** The life of the channel and its listener. *)
Inductive drain_event := Publish (e : event) | Poll | Signal.
Definition drain_step (self : string) (s : Channels * drain_listener) (e : drain_event) : Channels * drain_listener :=
  match e with
  | Publish ev => (emit ev s.1, s.2)
  | Poll => (s.1, drain_poll self s.1 s.2)
  | Signal => (s.1, drain_signalled s.2)
  end.
Definition drain_run (self : string) (es : list drain_event) (s : Channels * drain_listener) : Channels * drain_listener :=
  foldl (drain_step self) s es.

(** The drain events of a history. *)
Definition drain_of (e : event) : option string := match e with NodeDraining id => Some id | _ => None end.
Definition published (es : list drain_event) : list string := omap (fun e => match e with Publish ev => drain_of ev | _ => None end) es.
End Stores.

Section Proofs.
Context `{BL : BroadcastLaws} `{JS : JsonLib} (key_prefix self : string).

Lemma emit_log e c : log (drain_tx (emit e c)) = log (drain_tx c) ++ (match drain_of e with Some id => [id] | None => [] end).
Proof. destruct e; cbn; by rewrite ?app_nil_r, ?send_log. Qed.
Lemma emit_capacity e c : capacity (drain_tx (emit e c)) = capacity (drain_tx c).
Proof. destruct e; cbn; by rewrite ?send_capacity. Qed.
Definition ids_of (e : drain_event) : list string := match e with Publish ev => match drain_of ev with Some id => [id] | None => [] end | _ => [] end.
Lemma published_cons e es : published (e :: es) = ids_of e ++ published es.
Proof. unfold published, ids_of. cbn. destruct e as [ev| |]; [|done|done]. by destruct (drain_of ev). Qed.

(** How much of what was sent a listener has not read. *)
Definition backlog (s : Channels * drain_listener) : nat := length (log (drain_tx s.1)) - position (rx s.2).
Definition others (l : list string) : list string := filter (fun id => id <> self) l.

(** The state of the channel and the listener after [sent] was published: what is
    logged lies, in order, in what was published before the position, and is all
    of it as long as [whole]. *)
Record drain_ok (whole : bool) (start sent : list string) (s : Channels * drain_listener) : Prop := {
  dk_log : log (drain_tx s.1) = start ++ sent;
  dk_pos : (length start <= position (rx s.2) <= length start + length sent)%nat;
  dk_part : logged s.2 `sublist_of` others (take (position (rx s.2) - length start) sent);
  dk_whole : whole = true -> logged s.2 = others (take (position (rx s.2) - length start) sent);
}.

Lemma others_take k k' l : (k <= k')%nat -> others (take k l) `sublist_of` others (take k' l).
Proof.
  intros Hk. unfold others. rewrite <- (firstn_skipn k (take k' l)), take_take, Nat.min_l, filter_app by done.
  by apply sublist_inserts_r.
Qed.
Lemma others_next k l id : l !! k = Some id -> others (take (S k) l) = others (take k l) ++ (if decide (id <> self) then [id] else []).
Proof. intros Hk. unfold others. rewrite (take_S_r _ _ id), filter_app by done. by rewrite filter_cons, filter_nil. Qed.

Lemma poll_ok whole start sent s : drain_ok whole start sent s -> drain_ok (whole && (backlog s <=? capacity (drain_tx s.1))%nat) start sent (drain_step self s Poll).
Proof.
  destruct s as [c d]. intros [Hlog Hpos Hpart Hwhole]. unfold backlog. cbn [drain_step fst snd] in *. unfold drain_poll.
  destruct (over d); [by split; [..|intros [? _]%andb_prop; auto]|].
  destruct (Nat.leb_spec (length (log (drain_tx c)) - position (rx d)) (capacity (drain_tx c))) as [Hc|Hc].
  - rewrite andb_true_r. destruct (log (drain_tx c) !! position (rx d)) as [id|] eqn:E.
    + pose proof (recv_next _ (drain_tx c) (rx d) id E Hc) as [Hr Hp]. destruct (recv (drain_tx c) (rx d)) as [r rx']. cbn in Hr, Hp. subst r.
      pose proof (lookup_lt_Some _ _ _ E) as Hlt. rewrite Hlog in E, Hlt. rewrite length_app in Hlt. rewrite lookup_app_r in E by lia.
      split; cbn [fst snd rx logged]; rewrite ?Hp; [done|lia|..];
        replace (S (position (rx d)) - length start)%nat with (S (position (rx d) - length start)) by lia; rewrite (others_next _ _ id E).
      * destruct (decide (id <> self)); [by apply sublist_app|by rewrite app_nil_r].
      * intros ->. destruct (decide (id <> self)); [by rewrite Hwhole|by rewrite app_nil_r, Hwhole].
    + apply lookup_ge_None_1 in E. rewrite (recv_empty _ _ _ E). by split.
  - rewrite andb_false_r. destruct (recv_lagged _ (drain_tx c) (rx d)) as [Hr Hp]; [lia|].
    destruct (recv (drain_tx c) (rx d)) as [r rx']. cbn in Hr, Hp. subst r. rewrite Hlog, length_app in Hp, Hc.
    split; cbn [fst snd rx logged]; [done|lia| |done]. etrans; [exact Hpart|]. apply others_take. lia.
Qed.

Lemma drain_step_ok whole start sent s e : drain_ok whole start sent s ->
  drain_ok (whole && (backlog s <=? capacity (drain_tx s.1))%nat) start (sent ++ ids_of e) (drain_step self s e).
Proof.
  intros Hok. destruct e as [ev| |]; [|rewrite app_nil_r; by apply poll_ok|].
  - destruct Hok as [Hlog Hpos Hpart Hwhole]. split; cbn [drain_step fst snd ids_of].
    + by rewrite emit_log, Hlog, app_assoc.
    + rewrite length_app. lia.
    + rewrite take_app_le by lia. done.
    + intros [-> _]%andb_prop. rewrite take_app_le by lia. auto.
  - rewrite app_nil_r. destruct Hok as [Hlog Hpos Hpart Hwhole]. split; cbn; auto. intros [-> _]%andb_prop. auto.
Qed.

(** Whether the listener kept up: never more than the capacity behind. *)
Fixpoint keeps_up (es : list drain_event) (s : Channels * drain_listener) : bool :=
  match es with
  | [] => true
  | e :: es' => (backlog s <=? capacity (drain_tx s.1))%nat && keeps_up es' (drain_step self s e)
  end.
Lemma run_ok es : forall whole start sent s, drain_ok whole start sent s ->
  drain_ok (whole && keeps_up es s) start (sent ++ published es) (drain_run self es s).
Proof.
  induction es as [|e es IH]; intros whole start sent s Hok; [by rewrite app_nil_r, andb_true_r|].
  cbn [drain_run foldl keeps_up]. rewrite published_cons, app_assoc, andb_assoc. by apply IH, drain_step_ok.
Qed.
Lemma drain_start_ok c : drain_ok true (log (drain_tx c)) [] (c, start_drain_listener c).
Proof.
  split; cbn [fst snd start_drain_listener rx logged]; unfold subscribe_drain_events; rewrite ?subscribe_position, ?app_nil_r; cbn; try lia; try done.
  - by rewrite take_nil.
  - intros _. by rewrite take_nil.
Qed.

(** Reading on empties the backlog. *)
Lemma polls_ok n : forall start sent s, drain_ok true start sent s -> over s.2 = false -> backlog s = n -> (n <= capacity (drain_tx s.1))%nat ->
  logged (drain_run self (replicate n Poll) s).2 = others sent.
Proof.
  induction n as [|n IH]; intros start sent s Hok Hov Hb Hc.
  - destruct Hok as [Hlog Hpos _ Hw]. unfold backlog in Hb. rewrite Hlog, length_app in Hb. cbn. rewrite Hw by done.
    by rewrite take_ge by lia.
  - cbn [replicate drain_run foldl]. pose proof (poll_ok _ _ _ _ Hok) as Hok'. rewrite (proj2 (Nat.leb_le _ _)) in Hok' by lia.
    destruct s as [c d]. unfold backlog in *. cbn [fst snd drain_step] in *.
    assert (Hlt : (position (rx d) < length (log (drain_tx c)))%nat) by lia. apply lookup_lt_is_Some_2 in Hlt as [id Hid].
    pose proof (recv_next _ (drain_tx c) (rx d) id Hid) as [Hr Hp]; [lia|].
    apply (IH start); [exact Hok'|..]; cbn [fst snd]; [|unfold backlog; cbn [fst snd]|lia];
      unfold drain_poll; rewrite Hov; destruct (recv (drain_tx c) (rx d)) as [r rx']; cbn in Hr, Hp; subst r; [done|]. cbn [rx]. lia.
Qed.

(** ** From the server to the channels *)
Definition failed (a : attempt) : bool := match a with NoConnection | SubscribeFailed => true | _ => false end.
Definition events_of (messages : list (string * option string)) : list event :=
  omap (fun m => m.2 ≫= on_message key_prefix m.1) messages.
Definition emits (c : Channels) (es : list event) : Channels := foldl (fun c e => emit e c) c es.

Lemma stream_emits msgs : forall c, foldl (on_stream key_prefix) c msgs = emits c (events_of msgs).
Proof.
  unfold emits, events_of. induction msgs as [|m msgs IH]; intros c; [done|]. cbn [foldl omap list_omap]. rewrite IH.
  unfold on_stream. by destruct (m.2 ≫= on_message key_prefix m.1).
Qed.
Lemma listener_skips fails : forallb failed fails = true -> forall rest c,
  pubsub_listener key_prefix (fails ++ rest) c = pubsub_listener key_prefix rest c.
Proof. induction fails as [|[] fails IH]; cbn; intros Hf rest c; by auto. Qed.

(** What the listener's events publish, and the channels after them. *)
Definition publication (e : drain_event) : option event := match e with Publish ev => Some ev | _ => None end.
Lemma run_channels es : forall s, (drain_run self es s).1 = emits s.1 (omap publication es).
Proof.
  unfold emits. induction es as [|e es IH]; intros s; [done|]. cbn [drain_run foldl omap list_omap]. fold (drain_run self es (drain_step self s e)).
  rewrite IH. by destruct e.
Qed.
Lemma published_of es : published es = omap drain_of (omap publication es).
Proof. unfold published. induction es as [|e es IH]; [done|]. cbn. destruct e as [ev| |]; cbn; [by rewrite <- IH|done|done]. Qed.

(** The nodes that the messages on the drain channel name. *)
Definition drained (messages : list (string * option string)) : list string :=
  omap (fun m => if bool_decide (m.1 = key key_prefix ["events"; "node_drain"]) then m.2 else None) messages.
Lemma channels_differ a b : a <> b -> key key_prefix ["events"; a] <> key key_prefix ["events"; b].
Proof.
  intros Hne. unfold key. cbn [foldl]. rewrite !str_app_assoc. intros E. apply (inj (String.append key_prefix)) in E.
  cbn in E. congruence.
Qed.
Lemma drained_events msgs : omap drain_of (events_of msgs) = drained msgs.
Proof.
  unfold events_of, drained. induction msgs as [|[ch pl] msgs IH]; [done|]. cbn [omap list_omap fst snd].
  assert (Hm : (pl ≫= on_message key_prefix ch) ≫= drain_of = if bool_decide (ch = key key_prefix ["events"; "node_drain"]) then pl else None).
  { destruct pl as [pl|]; [|by case_bool_decide]. cbn. unfold on_message.
    case_bool_decide as E1; [subst; rewrite bool_decide_eq_false_2 by (by apply channels_differ); done|].
    case_bool_decide as E2; [subst; rewrite bool_decide_eq_false_2 by (by apply channels_differ)|by destruct (bool_decide _)].
    destruct (split_once ":" pl) as [[sv rest]|]; [|done]. cbn. destruct (split_once ":" rest) as [[u json]|]; [|done]. cbn.
    by destruct (health_of_json json). }
  rewrite <- Hm. destruct (pl ≫= on_message key_prefix ch) as [ev|]; cbn; [|exact IH].
  destruct (drain_of ev); cbn; [f_equal|]; exact IH.
Qed.
End Proofs.

(** C32. Drain notices. After any number of failed attempts the listener of the store
    turns the server's messages into the values of its channels, in order, as long
    as the stream lasts. However its sends and the rounds of a node's drain
    listener interleave, the node reports only nodes that a message on the drain
    channel named, itself excepted, in the order of the messages and not more
    often than they came; and if it was never more behind than the channel
    holds, it reports every one of them once it has read what is left. *)
Theorem drain_announced `{BL : BroadcastLaws} `{JS : JsonLib} key_prefix self c fails msgs rest es :
  forallb failed fails = true -> omap publication es = events_of key_prefix msgs ->
  let s := drain_run self es (c, start_drain_listener c) in
  pubsub_listener key_prefix (fails ++ Streaming msgs :: rest) c = (s.1, Listening) /\
  logged s.2 `sublist_of` others self (drained key_prefix msgs) /\
  (keeps_up self es (c, start_drain_listener c) = true -> over s.2 = false -> (backlog s <= capacity (drain_tx s.1))%nat ->
   logged (drain_run self (replicate (backlog s) Poll) s).2 = others self (drained key_prefix msgs)).
Proof.
  intros Hf He s. pose proof (run_ok self es _ _ _ _ (drain_start_ok self c)) as Hok. fold s in Hok. cbn [app] in Hok.
  rewrite published_of, He, drained_events in Hok. split_and!.
  - rewrite (listener_skips key_prefix) by done. cbn. rewrite stream_emits. subst s. by rewrite run_channels, He.
  - destruct Hok as [_ Hpos Hpart _]. etrans; [exact Hpart|]. unfold others.
    rewrite <- (firstn_skipn (position (rx s.2) - length (log (drain_tx c))) (drained key_prefix msgs)) at 2. rewrite filter_app. by apply sublist_inserts_r.
  - intros Hk Hov Hb. rewrite Hk in Hok. by eapply polls_ok.
Qed.

(** When the stream ends, because the server closed the connection or it broke,
    the task ends: later attempts that would succeed are not made and no further
    event arrives. *)
Lemma listener_never_reconnects `{BL : BroadcastLaws} `{JS : JsonLib} key_prefix fails msgs rest c : forallb failed fails = true ->
  pubsub_listener key_prefix (fails ++ Closed msgs :: rest) c = (foldl (on_stream key_prefix) c msgs, ListenerEnded).
Proof. intros Hf. by rewrite (listener_skips key_prefix) by done. Qed.

(** A burst of more events than the channel holds loses the oldest ones. *)
Definition burst : list drain_event := (fun i => Publish (NodeDraining (dec (Z.of_nat i)))) <$> seq 0 20.
Lemma burst_loses : logged (drain_run "me" (burst ++ replicate 30 Poll) (channels_new, start_drain_listener channels_new)).2 =
  (fun i => dec (Z.of_nat i)) <$> seq 4 16.
Proof. vm_compute. reflexivity. Qed.

Definition demo_messages : list (string * option string) :=
  [("p:events:node_drain", Some "a"); ("p:events:config_change", Some "3"); ("p:events:node_drain", None); ("p:events:node_drain", Some "me");
   ("p:events:node_drain", Some "b")].
Definition demo_interleaving : list drain_event :=
  [Poll; Publish (NodeDraining "a"); Publish ConfigChanged; Poll; Publish (NodeDraining "me"); Publish (NodeDraining "b"); Poll].
Lemma drain_announced_witness :
  let s := drain_run "me" demo_interleaving (channels_new, start_drain_listener channels_new) in
  logged (drain_run "me" (replicate (backlog s) Poll) s).2 = ["a"; "b"].
Proof.
  intros s.
  destruct (drain_announced (JS := no_json) "p" "me" channels_new [NoConnection; SubscribeFailed] demo_messages [] demo_interleaving) as (_ & _ & Hall).
  - reflexivity.
  - vm_compute. reflexivity.
  - apply Hall; vm_compute; [reflexivity|reflexivity|]. repeat constructor.
Defined.
