(* ===== verification/Provider.v ===== *)
(** * Remote configuration

    Models src/src/cluster/provider.rs: the HTTP provider with its entity tag and
    the manager that polls providers and hands changed configurations on. The
    HTTP exchange is a function from the request sent to a reply; the YAML
    reader and writer, and whether a client can be built from the TLS files a
    provider names, are parameters; the check of a configuration is
    that of [ConfigCheck]. *)
From S2P Require Import Prelude RustStr Config Duration ConfigTypes ConfigCheck.
From stdpp Require Import list.
Open Scope Z_scope.
Open Scope list_scope.
#[local] Open Scope rust_scope.

(** What a provider sends: its configured headers and credentials, and the tag of
    the last document as [If-None-Match]. *)
Record http_request := {
  url : string;
  req_headers : list (string * string);
  req_auth : option BasicAuthCredentials.t;
  if_none_match : option string
}.
(** A reply may have a tag, and its body may fail to arrive. *)
Inductive http_reply := NoReply | HttpReply (status : Z) (etag : option string) (body : option string).
Definition server : Type := http_request -> http_reply.

Inductive provider_error :=
| ClientFailed
| RequestFailed
| NotModified
| BadStatus (status : Z)
| BodyFailed
| ParseFailed
| ValidationFailed (msg : string)
| ProviderNotFound
| AllFailed.

Record HttpConfigProvider := { p_config : HttpProviderConfig.t; last_etag : option string }.
Definition set_etag (e : option string) (p : HttpConfigProvider) : HttpConfigProvider :=
  {| p_config := p_config p; last_etag := e |}.

Definition request_of (p : HttpConfigProvider) : http_request :=
  {| url := HttpProviderConfig.endpoint (p_config p);
     req_headers := HttpProviderConfig.headers (p_config p);
     req_auth := HttpProviderConfig.basic_auth (p_config p);
     if_none_match := last_etag p |}.

(** [fetch]: the tag is stored as soon as the headers are there. *)
Definition fetch (p : HttpConfigProvider) (srv : server) : result provider_error string * HttpConfigProvider :=
  match srv (request_of p) with
  | NoReply => (Err RequestFailed, p)
  | HttpReply status etag body =>
      if status =? 304 then (Err NotModified, p)
      else if negb ((200 <=? status) && (status <? 300)) then (Err (BadStatus status), p)
      else (ok_or body BodyFailed, match etag with Some _ => set_etag etag p | None => p end)
  end.

Section Manager.
Context (url_parses : string -> bool) (from_yaml : string -> option config) (to_yaml : config -> option string).

(** The providers, the configuration in force, whether a callback is set, and
    the configurations handed to it. *)
Record ConfigProviderManager := {
  providers : list HttpConfigProvider;
  current_config : option config;
  on_config_change : bool;
  notified : list config
}.

(** [HttpConfigProvider::new] fails when a certificate file of the TLS settings
    cannot be read or used ([client_builds]). *)
Definition http_provider_new (client_builds : HttpProviderConfig.t -> bool) (c : HttpProviderConfig.t) : result provider_error HttpConfigProvider :=
  if client_builds c then Ok {| p_config := c; last_etag := None |} else Err ClientFailed.
Fixpoint providers_of (client_builds : HttpProviderConfig.t -> bool) (cs : list ConfigProviderConfig) : result provider_error (list HttpConfigProvider) :=
  match cs with
  | [] => Ok []
  | ConfigTypes.Http c :: cs' =>
      p <-? http_provider_new client_builds c ;; ps <-? providers_of client_builds cs' ;; Ok (p :: ps)
  | _ :: cs' => providers_of client_builds cs'
  end.
(** Providers other than HTTP are skipped with a warning. *)
Definition provider_manager_new (client_builds : HttpProviderConfig.t -> bool) (cs : list ConfigProviderConfig) : result provider_error ConfigProviderManager :=
  ps <-? providers_of client_builds cs ;;
  Ok {| providers := ps; current_config := None; on_config_change := false; notified := [] |}.

Definition set_on_change (m : ConfigProviderManager) : ConfigProviderManager :=
  {| providers := providers m; current_config := current_config m; on_config_change := true; notified := notified m |}.
Definition set_provider (i : nat) (p : HttpConfigProvider) (m : ConfigProviderManager) : ConfigProviderManager :=
  {| providers := <[i := p]> (providers m); current_config := current_config m; on_config_change := on_config_change m; notified := notified m |}.
Definition set_current (c : config) (m : ConfigProviderManager) : ConfigProviderManager :=
  {| providers := providers m; current_config := Some c; on_config_change := on_config_change m; notified := notified m |}.
Definition notify (c : config) (m : ConfigProviderManager) : ConfigProviderManager :=
  {| providers := providers m; current_config := current_config m; on_config_change := on_config_change m;
     notified := if on_config_change m then notified m ++ [c] else notified m |}.

Definition read_config (content : string) : result provider_error config :=
  c <-? ok_or (from_yaml content) ParseFailed ;;
  match validate url_parses c with Ok _ => Ok c | Err e => Err (ValidationFailed e) | Panic => Panic end.

(** Configurations are compared by their YAML text. *)
Definition changed (current : option config) (c : config) : bool :=
  match current with
  | None => true
  | Some c0 => negb (bool_decide (default EmptyString (to_yaml c0) = default EmptyString (to_yaml c)))
  end.

Definition poll_provider (i : nat) (srv : server) (m : ConfigProviderManager) : result provider_error unit * ConfigProviderManager :=
  match providers m !! i with
  | None => (Err ProviderNotFound, m)
  | Some p =>
      let '(r, p) := fetch p srv in
      let m := set_provider i p m in
      match res_bind r read_config with
      | Ok c => (Ok tt, if changed (current_config m) c then notify c (set_current c m) else m)
      | Err e => (Err e, m)
      | Panic => (Panic, m)
      end
  end.

(** [fetch_initial], with the server each provider meets: a provider that answers
    with a bad configuration ends the search. *)
Fixpoint initial_loop (i : nat) (srvs : list server) (m : ConfigProviderManager) : result provider_error config * ConfigProviderManager :=
  match srvs with
  | [] => (Err AllFailed, m)
  | srv :: srvs' =>
      match providers m !! i with
      | None => (Err AllFailed, m)
      | Some p =>
          let '(r, p) := fetch p srv in
          let m := set_provider i p m in
          match r with
          | Ok content =>
              match read_config content with
              | Ok c => (Ok c, set_current c m)
              | r => (r, m)
              end
          | _ => initial_loop (S i) srvs' m
          end
      end
  end.
Definition fetch_initial (srvs : list server) (m : ConfigProviderManager) : result provider_error config * ConfigProviderManager :=
  initial_loop 0 srvs m.

(** ** What is in force is valid *)
Definition all_valid (m : ConfigProviderManager) : Prop :=
  (forall c, current_config m = Some c -> valid url_parses c) /\ Forall (valid url_parses) (notified m).

Lemma read_config_valid content c : read_config content = Ok c -> valid url_parses c /\ from_yaml content = Some c.
Proof.
  unfold read_config. destruct (from_yaml content) as [c0|]; [|done]. cbn [ok_or res_bind].
  destruct (validate url_parses c0) as [[]| |] eqn:Ev; [|done|done]. intros [= <-]. split; [by apply validate_ok|done].
Qed.

Lemma notify_valid c m : all_valid m -> valid url_parses c -> all_valid (notify c (set_current c m)).
Proof.
  intros [Hc Hn] Hv. split; cbn; [by intros ? [= <-]|]. destruct (on_config_change m); [|done].
  apply Forall_app. split; [done|by constructor].
Qed.

Lemma poll_valid i srv m : all_valid m -> all_valid (poll_provider i srv m).2.
Proof.
  intros Hm. unfold poll_provider. destruct (providers m !! i) as [p|]; [|done]. destruct (fetch p srv) as [r p'].
  destruct (res_bind r read_config) as [c| |] eqn:Er; [|done|done]. cbn [snd]. destruct (changed _ c); [|done].
  apply notify_valid; [done|]. destruct r as [content| |]; [by eapply read_config_valid|done|done].
Qed.

Lemma initial_valid srvs : forall i m, all_valid m -> all_valid (initial_loop i srvs m).2.
Proof.
  induction srvs as [|srv srvs IH]; intros i m Hm; [done|]. cbn [initial_loop]. destruct (providers m !! i) as [p|]; [|done].
  destruct (fetch p srv) as [r p']. destruct r as [content| |]; [|by apply IH|by apply IH].
  destruct (read_config content) as [c| |] eqn:Er; [|done|done]. destruct Hm as [_ Hn].
  split; cbn; [|done]. intros ? [= <-]. by eapply read_config_valid.
Qed.

Lemma polls_valid polls : forall m, all_valid m -> all_valid (foldl (fun m p => (poll_provider p.1 p.2 m).2) m polls).
Proof. induction polls as [|[j sv] polls IH]; intros m Hm; [done|]. cbn [foldl]. apply IH. by apply poll_valid. Qed.

(** Only valid configurations come into force: after the initial fetch and
    any number of polls of any providers, whatever the servers reply, the
    configuration in force and every configuration handed to the callback have
    passed validation; a poll that fails leaves both as they were. *)
Theorem provider_only_valid client_builds cs m0 initial polls i srv :
  provider_manager_new client_builds cs = Ok m0 ->
  let m := foldl (fun m p => (poll_provider p.1 p.2 m).2) (fetch_initial initial (set_on_change m0)).2 polls in
  all_valid m /\
  ((poll_provider i srv m).1 <> Ok tt ->
     current_config (poll_provider i srv m).2 = current_config m /\ notified (poll_provider i srv m).2 = notified m).
Proof.
  intros Hnew. cbn zeta. split.
  - apply polls_valid, initial_valid. revert Hnew. unfold provider_manager_new.
    destruct (providers_of client_builds cs) as [ps| |]; [|done|done]. intros [= <-]. split; [done|constructor].
  - generalize (foldl (fun m p => (poll_provider p.1 p.2 m).2) (fetch_initial initial (set_on_change m0)).2 polls). intros m.
    unfold poll_provider. destruct (providers m !! i); [|done]. destruct (fetch _ srv) as [r p'].
    by destruct (res_bind r read_config) as [c| |].
Qed.

(** ** Honest servers *)

(** A server of one document: 304 when the tag is the current one. *)
Definition honest (etag content : string) : server :=
  fun q => if bool_decide (if_none_match q = Some etag) then HttpReply 304 None None else HttpReply 200 (Some etag) (Some content).
(** The same server, when the connection breaks after the headers. *)
Definition broken (etag : string) : server :=
  fun q => if bool_decide (if_none_match q = Some etag) then HttpReply 304 None None else HttpReply 200 (Some etag) None.

Lemma fetch_seen etag content p : last_etag p = Some etag -> fetch p (honest etag content) = (Err NotModified, p).
Proof. intros. unfold fetch, honest. cbn [if_none_match request_of]. by rewrite bool_decide_eq_true_2. Qed.
Lemma fetch_new etag content p : last_etag p <> Some etag -> fetch p (honest etag content) = (Ok content, set_etag (Some etag) p).
Proof. intros. unfold fetch, honest. cbn [if_none_match request_of]. by rewrite bool_decide_eq_false_2. Qed.
Lemma fetch_broken etag p : last_etag p <> Some etag -> fetch p (broken etag) = (Err BodyFailed, set_etag (Some etag) p).
Proof. intros. unfold fetch, broken. cbn [if_none_match request_of]. by rewrite bool_decide_eq_false_2. Qed.

Lemma set_provider_id i p m : providers m !! i = Some p -> set_provider i p m = m.
Proof. intros H. unfold set_provider. rewrite list_insert_id by done. by destruct m. Qed.

(** Once the provider has the document's tag, polling changes nothing. *)
Lemma polls_seen i etag content p n : forall m, providers m !! i = Some p -> last_etag p = Some etag ->
  Nat.iter n (fun m => (poll_provider i (honest etag content) m).2) m = m.
Proof.
  intros m Hp He. assert (Hfix : poll_provider i (honest etag content) m = (Err NotModified, m)).
  { unfold poll_provider. rewrite Hp, fetch_seen by done. cbn [res_bind]. by rewrite set_provider_id. }
  induction n as [|n IH]; [done|]. cbn [Nat.iter nat_rect].
  change (nat_rect _ _ _ n) with (Nat.iter n (fun m => (poll_provider i (honest etag content) m).2) m). by rewrite IH, Hfix.
Qed.

Lemma lookup_set_provider i p q m : providers m !! i = Some q -> providers (set_provider i p m) !! i = Some p.
Proof. intros H. cbn. rewrite list_lookup_insert_eq by (by eapply lookup_lt_Some). done. Qed.

(** Polling an honest server. One poll of a server whose document is valid and
    whose tag the provider has not seen brings that document into force (up to
    equality of its YAML text), hands it to the callback when it is new, and the
    next polls change nothing. But the tag is stored before the body has been
    read: when the connection breaks in between, the server answers every later
    poll with 304 and the update is lost. *)
Theorem provider_converges i etag content c m p n : providers m !! i = Some p -> last_etag p <> Some etag ->
  from_yaml content = Some c -> valid url_parses c ->
  (let m' := (poll_provider i (honest etag content) m).2 in
   (poll_provider i (honest etag content) m).1 = Ok tt /\ changed (current_config m') c = false /\
   (changed (current_config m) c = true -> on_config_change m = true -> last (notified m') = Some c) /\
   Nat.iter n (fun m => (poll_provider i (honest etag content) m).2) m' = m') /\
  (let m' := (poll_provider i (broken etag) m).2 in
   (poll_provider i (broken etag) m).1 = Err BodyFailed /\
   current_config (Nat.iter n (fun m => (poll_provider i (honest etag content) m).2) m') = current_config m).
Proof.
  intros Hp Hne Hy Hv. split; cbn zeta.
  - assert (Ep : poll_provider i (honest etag content) m = (Ok tt,
      if changed (current_config m) c then notify c (set_current c (set_provider i (set_etag (Some etag) p) m)) else set_provider i (set_etag (Some etag) p) m)).
    { unfold poll_provider. rewrite Hp, fetch_new by done. cbn [res_bind]. unfold read_config. rewrite Hy. cbn [ok_or res_bind].
      by rewrite (proj2 (validate_ok _ _) Hv). }
    rewrite Ep. cbn [fst snd]. split_and!.
    + done.
    + destruct (changed (current_config m) c) eqn:Ec; [|done]. cbn. by rewrite bool_decide_eq_true_2.
    + intros -> Ho. cbn. rewrite Ho. by rewrite last_snoc.
    + apply (polls_seen i etag content (set_etag (Some etag) p)); [|done].
      destruct (changed (current_config m) c); apply (lookup_set_provider i (set_etag (Some etag) p) p m Hp).
  - assert (Ep : poll_provider i (broken etag) m = (Err BodyFailed, set_provider i (set_etag (Some etag) p) m)).
    { unfold poll_provider. by rewrite Hp, fetch_broken. }
    rewrite Ep. cbn [fst snd]. split; [done|].
    by rewrite (polls_seen i etag content (set_etag (Some etag) p)) by (done || by eapply lookup_set_provider).
Qed.
End Manager.

(** ** A run *)
Definition demo_yaml (s : string) : option config := if bool_decide (s = "good") then Some (demo_config basic_mw "auth") else None.
Definition demo_text (c : config) : option string := Some "good".
Definition demo_provider : HttpConfigProvider := {| p_config := HttpProviderConfig.new "http://c"; last_etag := None |}.
Definition demo_manager : ConfigProviderManager :=
  {| providers := [demo_provider]; current_config := None; on_config_change := false; notified := [] |}.

Lemma provider_converges_witness :
  (poll_provider (fun _ => true) demo_yaml demo_text 0 (honest "t" "good") demo_manager).1 = Ok tt.
Proof.
  apply (provider_converges (fun _ => true) demo_yaml demo_text 0 "t" "good" (demo_config basic_mw "auth") demo_manager demo_provider 0);
    [reflexivity|done|reflexivity|apply validate_ok; vm_compute; reflexivity].
Defined.

Lemma provider_only_valid_witness :
  let m := foldl (fun m p => (poll_provider (fun _ => true) demo_yaml demo_text p.1 p.2 m).2)
    (fetch_initial (fun _ => true) demo_yaml [honest "t" "good"] (set_on_change demo_manager)).2 [(0%nat, honest "u" "bad")] in
  current_config (poll_provider (fun _ => true) demo_yaml demo_text 0 (honest "v" "bad") m).2 = current_config m.
Proof.
  apply (provider_only_valid (fun _ => true) demo_yaml demo_text (fun _ => true) [ConfigTypes.Http (HttpProviderConfig.new "http://c")]
    demo_manager [honest "t" "good"] [(0%nat, honest "u" "bad")] 0 (honest "v" "bad")); [reflexivity|vm_compute; discriminate].
Defined.
