(* ===== verification/Polling.v ===== *)
(** * The polling tasks of remote configuration

    Models [HttpConfigProvider::new] and [start_polling] of
    src/src/cluster/provider.rs: the client a provider needs, and a task per
    provider whose steps (fetching and checking, comparing with the configuration in
    force, storing, calling back) interleave with those of the other tasks and with
    the shutdown. [Provider.poll_provider] is one undisturbed round of a task. Files
    and what the HTTP library makes of them are parameters. *)
From S2P Require Import Prelude RustStr Config Duration ConfigTypes ConfigCheck Provider.
From stdpp Require Import list.
Open Scope Z_scope.
Open Scope list_scope.
#[local] Open Scope rust_scope.
#[local] Set Default Proof Using "Type*".

(** ** The client *)
Section Client.
Context (read : string -> option string) (certificate_ok identity_ok : string -> bool) (builds : HttpProviderConfig.t -> bool).

Inductive client_error := CaUnreadable | CaInvalid | CertUnreadable | KeyUnreadable | IdentityInvalid | NotBuilt.
(** What the builder is told: whether certificates are verified, the added root
    and the identity. *)
Record http_client := { hc_accepts_invalid : bool; hc_root : option string; hc_identity : option string }.

Definition ca_of (tls : HttpProviderTls.t) : result client_error (option string) :=
  match HttpProviderTls.ca tls with
  | None => Ok None
  | Some path =>
      pem <-? ok_or (read path) CaUnreadable ;;
      if certificate_ok pem then Ok (Some pem) else Err CaInvalid
  end.
(** An identity needs both the certificate and the key. *)
Definition identity_of (tls : HttpProviderTls.t) : result client_error (option string) :=
  match HttpProviderTls.cert tls, HttpProviderTls.key tls with
  | Some cert_path, Some key_path =>
      cert <-? ok_or (read cert_path) CertUnreadable ;;
      key <-? ok_or (read key_path) KeyUnreadable ;;
      if identity_ok (cert +:+ key) then Ok (Some (cert +:+ key)) else Err IdentityInvalid
  | _, _ => Ok None
  end.
Definition http_client_of (c : HttpProviderConfig.t) : result client_error http_client :=
  client <-? match HttpProviderConfig.tls c with
             | None => Ok {| hc_accepts_invalid := false; hc_root := None; hc_identity := None |}
             | Some tls =>
                 root <-? ca_of tls ;; identity <-? identity_of tls ;;
                 Ok {| hc_accepts_invalid := HttpProviderTls.insecure_skip_verify tls; hc_root := root; hc_identity := identity |}
             end ;;
  if builds c then Ok client else Err NotBuilt.
Definition client_builds (c : HttpProviderConfig.t) : bool := match http_client_of c with Ok _ => true | _ => false end.

(** A certificate without its key, or a key alone, is left out without an error. *)
Lemma half_identity_ignored c tls client : HttpProviderConfig.tls c = Some tls -> HttpProviderTls.cert tls = None \/ HttpProviderTls.key tls = None ->
  http_client_of c = Ok client -> hc_identity client = None.
Proof.
  intros Ht Hh. unfold http_client_of. rewrite Ht. destruct (ca_of tls) as [root| |]; cbn; [|done..].
  assert (Hi : identity_of tls = Ok None) by (unfold identity_of; destruct Hh as [-> | ->]; [done|by destruct (HttpProviderTls.cert tls)]).
  rewrite Hi. cbn. destruct (builds c); [|done]. by intros [= <-].
Qed.
End Client.

(** ** The tasks *)
Section Tasks.
Context (url_parses : string -> bool) (from_yaml : string -> option config) (to_yaml : config -> option string).

(** Between two rounds; a configuration fetched and checked, found to be new, and
    stored; after the loop. *)
Inductive phase := Idle | Fetched (c : config) | Differs (c : config) | Stored (c : config) | Finished.
Record polling := { pl_manager : ConfigProviderManager; pl_tasks : list phase; pl_signalled : bool }.

Definition start_polling (m : ConfigProviderManager) : polling :=
  {| pl_manager := m; pl_tasks := (fun _ => Idle) <$> providers m; pl_signalled := false |}.

Inductive poll_event :=
| PollTick (i : nat) (srv : server)
| PollCompare (i : nat)
| PollStore (i : nat)
| PollCallback (i : nat)
| PollShutdown
| PollEnds (i : nat).

Definition at_phase (i : nat) (p : phase) (m : ConfigProviderManager) (w : polling) : polling :=
  {| pl_manager := m; pl_tasks := <[i := p]> (pl_tasks w); pl_signalled := pl_signalled w |}.

(** A step that is possible; a task whose timer is due while the shutdown is
    signalled may take either branch. *)
Definition poll_step (w : polling) (e : poll_event) : option polling :=
  let m := pl_manager w in
  match e with
  | PollTick i srv =>
      match pl_tasks w !! i, providers m !! i with
      | Some Idle, Some p =>
          let '(r, p) := fetch p srv in
          Some (at_phase i (match res_bind r (read_config url_parses from_yaml) with Ok c => Fetched c | _ => Idle end) (set_provider i p m) w)
      | _, _ => None
      end
  | PollCompare i =>
      match pl_tasks w !! i with
      | Some (Fetched c) => Some (at_phase i (if changed to_yaml (current_config m) c then Differs c else Idle) m w)
      | _ => None
      end
  | PollStore i => match pl_tasks w !! i with Some (Differs c) => Some (at_phase i (Stored c) (set_current c m) w) | _ => None end
  | PollCallback i => match pl_tasks w !! i with Some (Stored c) => Some (at_phase i Idle (notify c m) w) | _ => None end
  | PollShutdown => Some {| pl_manager := m; pl_tasks := pl_tasks w; pl_signalled := true |}
  | PollEnds i =>
      match pl_tasks w !! i with
      | Some Idle => if pl_signalled w then Some (at_phase i Finished m w) else None
      | _ => None
      end
  end.
Fixpoint poll_steps (es : list poll_event) (w : polling) : option polling :=
  match es with [] => Some w | e :: es' => poll_step w e ≫= poll_steps es' end.

(** ** One round is one poll *)
Lemma at_phase_idle i m w : pl_tasks w !! i = Some Idle -> at_phase i Idle m w = {| pl_manager := m; pl_tasks := pl_tasks w; pl_signalled := pl_signalled w |}.
Proof. intros Hi. unfold at_phase. by rewrite list_insert_id. Qed.
Lemma round_is_poll i srv w : pl_tasks w !! i = Some Idle -> is_Some (providers (pl_manager w) !! i) -> exists es w',
  poll_steps (PollTick i srv :: es) w = Some w' /\ pl_manager w' = (poll_provider url_parses from_yaml to_yaml i srv (pl_manager w)).2 /\
  pl_tasks w' = pl_tasks w.
Proof.
  intros Hi [p Hp]. unfold poll_provider. cbn. rewrite Hi, Hp. destruct (fetch p srv) as [r p'].
  assert (Hlt := lookup_lt_Some _ _ _ Hi). destruct (res_bind r (read_config url_parses from_yaml)) as [c| |].
  2, 3: (exists []; eexists; split; [done|]; by rewrite at_phase_idle).
  cbn. destruct (changed to_yaml (current_config (pl_manager w)) c) eqn:Ec.
  - exists [PollCompare i; PollStore i; PollCallback i]. eexists. cbn. rewrite list_lookup_insert_eq by done. cbn. rewrite Ec, list_lookup_insert_eq by by rewrite length_insert.
    cbn. rewrite list_lookup_insert_eq by by rewrite !length_insert. split; [done|]. cbn. split; [done|].
    rewrite !list_insert_insert_eq. by apply list_insert_id.
  - exists [PollCompare i]. eexists. cbn. rewrite list_lookup_insert_eq by done. cbn. rewrite Ec. split; [done|]. cbn. split; [done|].
    rewrite list_insert_insert_eq. by apply list_insert_id.
Qed.

(** ** What holds at any time *)
Definition pending (p : phase) : option config := match p with Fetched c | Differs c | Stored c => Some c | _ => None end.
Definition polling_ok (w : polling) : Prop :=
  all_valid url_parses (pl_manager w) /\ forall i p c, pl_tasks w !! i = Some p -> pending p = Some c -> valid url_parses c.

Lemma at_phase_ok i p m w : polling_ok w -> all_valid url_parses m -> (forall c, pending p = Some c -> valid url_parses c) -> polling_ok (at_phase i p m w).
Proof.
  intros [_ Ht] Hm Hp. split; [done|]. cbn. intros j q c Hj Hq. destruct (decide (i = j)) as [->|Hne].
  - apply list_lookup_insert_Some in Hj as [(_ & <- & _)|[? _]]; [by apply Hp|done].
  - rewrite list_lookup_insert_ne in Hj by done. by eapply Ht.
Qed.
Lemma poll_step_ok w e w' : polling_ok w -> poll_step w e = Some w' -> polling_ok w'.
Proof.
  intros Hok. assert (Hm := proj1 Hok). assert (Ht := proj2 Hok). destruct e as [i srv|i|i|i| |i]; cbn.
  - destruct (pl_tasks w !! i) as [[]|], (providers (pl_manager w) !! i) as [p|]; try done. destruct (fetch p srv) as [r p']. intros [= <-].
    apply at_phase_ok; [done|done|]. destruct r as [content| |]; cbn; [|done..].
    destruct (read_config url_parses from_yaml content) as [c0| |] eqn:Er; cbn; [|done..]. intros c [= <-]. by eapply read_config_valid.
  - destruct (pl_tasks w !! i) as [[|c| | |]|] eqn:E; try done. intros [= <-]. apply at_phase_ok; [done|done|].
    destruct (changed _ _ c); [|done]. intros c' [= <-]. by eapply Ht.
  - destruct (pl_tasks w !! i) as [[| |c| |]|] eqn:E; try done. intros [= <-]. assert (Hv : valid url_parses c) by by eapply Ht.
    apply at_phase_ok; [done| |by intros c' [= <-]]. destruct Hm as [_ Hn]. split; [by intros ? [= <-]|done].
  - destruct (pl_tasks w !! i) as [[| | |c|]|] eqn:E; try done. intros [= <-]. assert (Hv : valid url_parses c) by by eapply Ht.
    apply at_phase_ok; [done| |done]. destruct Hm as [Hc Hn]. split; [done|]. cbn. destruct (on_config_change _); [|done].
    apply Forall_app. split; [done|by constructor].
  - intros [= <-]. by split.
  - destruct (pl_tasks w !! i) as [[]|] eqn:E; try done. destruct (pl_signalled w); [|done]. intros [= <-]. by apply at_phase_ok.
Qed.
Lemma poll_steps_ok es : forall w w', polling_ok w -> poll_steps es w = Some w' -> polling_ok w'.
Proof. induction es as [|e es IH]; intros w w' Hok; [by intros [= <-]|]. cbn. intros (w1 & Hs & Hr)%bind_Some. eapply IH, Hr. by eapply poll_step_ok. Qed.

(** ** One provider *)
(** What the callback's owner runs with: the last configuration it was handed, and
    before that the one it started with. *)
Definition handed (c0 : option config) (m : ConfigProviderManager) : option config := match last (notified m) with Some c => Some c | None => c0 end.
Definition in_step (c0 : option config) (w : polling) : Prop :=
  length (pl_tasks w) = 1%nat /\ on_config_change (pl_manager w) = true /\
  match pl_tasks w !! 0%nat with
  | Some (Stored c) => current_config (pl_manager w) = Some c
  | _ => current_config (pl_manager w) = handed c0 (pl_manager w)
  end.
Lemma only_task (w : polling) i p : length (pl_tasks w) = 1%nat -> pl_tasks w !! i = Some p -> i = 0%nat.
Proof. intros Hl Hi%lookup_lt_Some. lia. Qed.
Lemma in_step_at c0 p m w : length (pl_tasks w) = 1%nat -> on_config_change m = true ->
  match p with Stored c => current_config m = Some c | _ => current_config m = handed c0 m end -> in_step c0 (at_phase 0 p m w).
Proof. intros Hl Hc Hp. split; [by cbn; rewrite length_insert|]. split; [done|]. cbn. by rewrite list_lookup_insert_eq by lia. Qed.
Lemma step_in_step c0 w e w' : in_step c0 w -> poll_step w e = Some w' -> in_step c0 w'.
Proof.
  intros (Hl & Hc & Hs). destruct e as [i srv|i|i|i| |i]; cbn; [..|by intros [= <-]|];
    destruct (pl_tasks w !! i) as [p|] eqn:E; try done; pose proof (only_task w i p Hl E) as ->; rewrite E in Hs; destruct p as [|c|c|c|]; try done.
  - destruct (providers (pl_manager w) !! 0%nat) as [q|]; [|done]. destruct (fetch q srv) as [r q']. intros [= <-].
    apply in_step_at; [done..|]. by destruct (res_bind r _).
  - intros [= <-]. apply in_step_at; [done..|]. by destruct (changed _ _ c).
  - intros [= <-]. by apply in_step_at.
  - intros [= <-]. apply in_step_at; [done..|]. unfold handed. cbn. rewrite Hc, last_snoc. done.
  - destruct (pl_signalled w); [|done]. intros [= <-]. by apply in_step_at.
Qed.
Lemma steps_in_step c0 es : forall w w', in_step c0 w -> poll_steps es w = Some w' -> in_step c0 w'.
Proof. induction es as [|e es IH]; intros w w' Hok; [by intros [= <-]|]. cbn. intros (w1 & Hs & Hr)%bind_Some. eapply IH, Hr. by eapply step_in_step. Qed.
End Tasks.

(** The polling tasks. However the steps of the tasks of all providers and the
    shutdown interleave, and whatever the servers reply: only configurations that
    passed validation are stored or handed to the callback. A task that waits is
    able to make its round, which undisturbed is one poll. With one provider the
    callback keeps up: between two rounds the configuration in force is the one the
    callback was handed last. And when all tasks have ended, nothing changes. *)
Theorem polling_tasks url_parses from_yaml to_yaml m es w :
  all_valid url_parses m -> poll_steps url_parses from_yaml to_yaml es (start_polling m) = Some w ->
  all_valid url_parses (pl_manager w) /\
  (forall i srv, pl_tasks w !! i = Some Idle -> is_Some (providers (pl_manager w) !! i) -> exists es' w',
     poll_steps url_parses from_yaml to_yaml (PollTick i srv :: es') w = Some w' /\
     pl_manager w' = (poll_provider url_parses from_yaml to_yaml i srv (pl_manager w)).2 /\ pl_tasks w' = pl_tasks w) /\
  (length (providers m) = 1%nat -> on_config_change m = true -> notified m = [] -> (forall c, pl_tasks w !! 0%nat <> Some (Stored c)) ->
     current_config (pl_manager w) = handed (current_config m) (pl_manager w)) /\
  (Forall (eq Finished) (pl_tasks w) -> forall e w', poll_step url_parses from_yaml to_yaml w e = Some w' -> pl_manager w' = pl_manager w).
Proof.
  intros Hv Hs. split_and!.
  - eapply poll_steps_ok; [|done]. split; [done|]. intros i p c. cbn. rewrite list_lookup_fmap. by intros (q & _ & ->)%fmap_Some.
  - intros i srv. apply round_is_poll.
  - intros Hl Hc Hn Hst. assert (H0 : in_step (current_config m) (start_polling m)).
    { split; [by cbn; rewrite length_fmap|]. split; [done|]. cbn. destruct (providers m) as [|p [|]]; [done| |done]. cbn. unfold handed. by rewrite Hn. }
    destruct (steps_in_step _ _ _ _ es _ _ H0 Hs) as (_ & _ & Hw). destruct (pl_tasks w !! 0%nat) as [[| | |c|]|]; try done. by destruct (Hst c).
  - intros Hf e w'. assert (Hfin : forall i p, pl_tasks w !! i = Some p -> p = Finished) by (intros i p Hi; symmetry; by eapply Forall_lookup_1 in Hf).
    destruct e as [i srv|i|i|i| |i]; cbn; [..|by intros [= <-]|]; destruct (pl_tasks w !! i) as [p|] eqn:E; try done; by rewrite (Hfin i p E).
Qed.

(** ** Concrete runs *)
Definition two_yaml (s : string) : option config :=
  if bool_decide (s = "A") then Some (demo_config basic_mw "auth") else if bool_decide (s = "B") then Some (demo_config basic_mw "auth@file") else None.
Definition names (c : config) : option string := Some (String.concat "," ((ConfigTypes.Router.middlewares ∘ snd <$> ConfigCheck.routers c) ≫= id)).
Definition plain (content : string) : server := fun _ => HttpReply 200 None (Some content).
Definition two_providers : ConfigProviderManager :=
  {| providers := [demo_provider; demo_provider]; current_config := None; on_config_change := true; notified := [] |}.
Definition one_provider : ConfigProviderManager :=
  {| providers := [demo_provider]; current_config := None; on_config_change := true; notified := [] |}.
Definition demo_polls (es : list poll_event) (m : ConfigProviderManager) : polling :=
  default (start_polling m) (poll_steps (fun _ => true) two_yaml names es (start_polling m)).
Definition poll_all (i : nat) (srv : server) : list poll_event := [PollTick i srv; PollCompare i; PollStore i; PollCallback i].
Definition demo_round : list poll_event := poll_all 0 (honest "1" "A") ++ [PollTick 0 (honest "1" "A")] ++ poll_all 0 (honest "2" "B") ++ [PollShutdown].

Lemma polling_tasks_witness :
  let w := demo_polls demo_round one_provider in
  current_config (pl_manager w) = handed None (pl_manager w) /\ two_yaml "B" = current_config (pl_manager w) /\ length (notified (pl_manager w)) = 2%nat.
Proof.
  intros w. split; [|split; vm_compute; reflexivity].
  assert (Hs : poll_steps (fun _ => true) two_yaml names demo_round (start_polling one_provider) = Some w) by (vm_compute; reflexivity).
  assert (Hv : all_valid (fun _ => true) one_provider) by (split; [done|constructor]).
  destruct (polling_tasks (fun _ => true) two_yaml names one_provider demo_round w Hv Hs) as (_ & _ & H & _).
  apply H; [reflexivity..|]. intros c Hc. vm_compute in Hc. discriminate.
Defined.

(** With two providers a callback can overtake another: the configuration in force
    is then not the one the callback was handed last, and polls that find it in
    force again do not repair this. *)
Lemma callbacks_overtake :
  let w := demo_polls [PollTick 0 (plain "A"); PollCompare 0; PollTick 1 (plain "B"); PollCompare 1; PollStore 0; PollStore 1; PollCallback 1; PollCallback 0;
                       PollTick 1 (plain "B"); PollCompare 1] two_providers in
  current_config (pl_manager w) = two_yaml "B" /\ last (notified (pl_manager w)) = two_yaml "A" /\ pl_tasks w = [Idle; Idle].
Proof. split_and!; vm_compute; reflexivity. Qed.
(** Two providers that send different documents without a tag replace each other's
    configuration at every poll. *)
Lemma providers_alternate :
  (fun c => names c) <$> notified (pl_manager (demo_polls (mjoin (replicate 3 (poll_all 0 (plain "A") ++ poll_all 1 (plain "B")))) two_providers)) =
    mjoin (replicate 3 [Some "auth"; Some "auth@file"]).
Proof. vm_compute. reflexivity. Qed.
