(* ===== verification/AccessLog.v ===== *)
(** * Access log

    Models src/src/middleware/builtin/access_log.rs: the entry of a request, its
    builder, the timestamp text and the writer that appends entries to a file.
    The JSON writer is a parameter; the duration of an entry is kept in
    nanoseconds. *)
From S2P Require Import Prelude RustStr Duration.
From stdpp Require Import list.
Open Scope Z_scope.
Open Scope list_scope.

Record AccessLogEntry := {
  timestamp : string;
  remote_addr : string;
  method : string;
  path : string;
  query : option string;
  host : option string;
  status : Z; (* u16 *)
  body_bytes : option Z;
  duration : Z;
  user_agent : option string;
  referer : option string;
  forwarded_for : option string;
  request_id : option string;
  route : option string;
  service : option string;
  backend : option string;
  tls_version : option string;
  protocol : string;
}.

(** [{:0w}] *)
Fixpoint zeros (k : nat) : string := match k with O => "" | S k' => String "0" (zeros k') end.
Definition zero_pad (w : nat) (s : string) : string := zeros (w - String.length s) +:+ s.

(** [chrono_lite_now], for a wall clock of [secs] and [millis]. *)
Definition chrono_lite (secs millis : Z) : string :=
  let days_since_epoch := secs / 86400 in
  let secs_today := secs mod 86400 in
  let hours := secs_today / 3600 in
  let mins := secs_today mod 3600 / 60 in
  let secs_remaining := secs_today mod 60 in
  let years_approx := days_since_epoch / 365 in
  let year := 1970 + years_approx in
  let day_of_year := days_since_epoch mod 365 in
  let month := Z.min (day_of_year / 30) 11 + 1 in
  let day := day_of_year mod 30 + 1 in
  zero_pad 4 (dec year) +:+ "-" +:+ zero_pad 2 (dec month) +:+ "-" +:+ zero_pad 2 (dec day) +:+ "T" +:+
  zero_pad 2 (dec hours) +:+ ":" +:+ zero_pad 2 (dec mins) +:+ ":" +:+ zero_pad 2 (dec secs_remaining) +:+ "." +:+
  zero_pad 3 (dec millis) +:+ "Z".

(** [b_start] is the instant at which the builder was made. *)
Record AccessLogBuilder := {
  b_start : Z;
  b_remote_addr : string;
  b_method : string;
  b_path : string;
  b_query : option string;
  b_host : option string;
  b_user_agent : option string;
  b_referer : option string;
  b_forwarded_for : option string;
  b_request_id : option string;
  b_protocol : string;
  b_is_tls : bool;
}.

(** The builder of [handle], with the setters it calls. *)
Definition builder (now : Z) (remote method path protocol : string) (host query user_agent referer forwarded_for : option string)
    (is_tls : bool) : AccessLogBuilder :=
  {| b_start := now; b_remote_addr := remote; b_method := method; b_path := path; b_query := query; b_host := host;
     b_user_agent := user_agent; b_referer := referer; b_forwarded_for := forwarded_for; b_request_id := None;
     b_protocol := protocol; b_is_tls := is_tls |}.

Definition finish (b : AccessLogBuilder) (now secs millis status : Z) (body_bytes : option Z) (route service backend : option string)
    : AccessLogEntry :=
  {| timestamp := chrono_lite secs millis; remote_addr := b_remote_addr b; method := b_method b; path := b_path b;
     query := b_query b; host := b_host b; status := status; body_bytes := body_bytes; duration := now - b_start b;
     user_agent := b_user_agent b; referer := b_referer b; forwarded_for := b_forwarded_for b; request_id := b_request_id b;
     route := route; service := service; backend := backend;
     tls_version := if b_is_tls b then Some "TLSv1.3" else None; protocol := b_protocol b |}.

(** The file of a writer is the list of its lines; no file, no log. *)
Definition AccessLogWriter : Type := option (list string).
Definition writer_new (file_path : option (option string)) (opens : string -> option (list string)) : AccessLogWriter :=
  p ← file_path; p ← p; opens p.
Definition write_entry (to_json : AccessLogEntry -> option string) (e : AccessLogEntry) (w : AccessLogWriter) : AccessLogWriter :=
  match w with
  | Some ls => Some (match to_json e with Some j => ls ++ [j] | None => ls end)
  | None => None
  end.

(** ** Timestamps *)
Lemma zero_pad_reads w n : 0 <= n -> dec_scan (zero_pad w (dec n)) 0 = n.
Proof.
  intros Hn. unfold zero_pad. rewrite dec_scan_app. destruct (dec_ok n Hn) as [Hs _].
  induction (w - String.length (dec n))%nat as [|k IH]; [done|]. cbn. by rewrite Z.mul_0_r.
Qed.

Lemma digits_no c s : is_digit c = false -> str_forall is_digit s = true -> str_forall (fun d => negb (Ascii.eqb d c)) s = true.
Proof.
  intros Hc. induction s as [|d s IH]; [done|]. cbn. intros [Hd Hs]%andb_prop. rewrite (IH Hs), andb_true_r.
  destruct (Ascii.eqb_spec d c) as [->|]; [congruence|done].
Qed.

Lemma zero_pad_digits w n : 0 <= n -> str_forall is_digit (zero_pad w (dec n)) = true.
Proof.
  intros Hn. unfold zero_pad. rewrite str_forall_app. destruct (dec_ok n Hn) as (_ & -> & _). rewrite andb_true_r.
  by induction (w - String.length (dec n))%nat.
Qed.

(** The fields of a timestamp, as texts. *)
Definition read_timestamp (t : string) : option (list string) :=
  '(date, time) ← split_once "T" t;
  '(hms, rest) ← split_once "." time;
  '(ms, _) ← split_once "Z" rest;
  Some (split_on "-" date ++ split_on ":" hms ++ [ms]).

Lemma padded_single c w n : is_digit c = false -> 0 <= n -> str_forall (fun d => negb (Ascii.eqb d c)) (zero_pad w (dec n)) = true.
Proof. intros. apply digits_no; [done|]. by apply zero_pad_digits. Qed.

Lemma three_fields c a b d : str_forall (fun x => negb (Ascii.eqb x c)) a = true -> str_forall (fun x => negb (Ascii.eqb x c)) b = true ->
  str_forall (fun x => negb (Ascii.eqb x c)) d = true -> split_on c (a +:+ String c (b +:+ String c d)) = [a; b; d].
Proof. intros Ha Hb Hd. by rewrite !split_on_app, !split_on_single. Qed.

Lemma read_back y mo d h mi s ms : 0 <= y -> 0 <= mo -> 0 <= d -> 0 <= h -> 0 <= mi -> 0 <= s -> 0 <= ms ->
  read_timestamp (zero_pad 4 (dec y) +:+ "-" +:+ zero_pad 2 (dec mo) +:+ "-" +:+ zero_pad 2 (dec d) +:+ "T" +:+
    zero_pad 2 (dec h) +:+ ":" +:+ zero_pad 2 (dec mi) +:+ ":" +:+ zero_pad 2 (dec s) +:+ "." +:+ zero_pad 3 (dec ms) +:+ "Z") =
  Some [zero_pad 4 (dec y); zero_pad 2 (dec mo); zero_pad 2 (dec d); zero_pad 2 (dec h); zero_pad 2 (dec mi); zero_pad 2 (dec s); zero_pad 3 (dec ms)].
Proof.
  intros Hy Hmo Hd Hh Hmi Hs Hms. unfold read_timestamp.
  set (Y := zero_pad 4 (dec y)). set (MO := zero_pad 2 (dec mo)). set (D := zero_pad 2 (dec d)).
  set (HH := zero_pad 2 (dec h)). set (MI := zero_pad 2 (dec mi)). set (SS := zero_pad 2 (dec s)). set (MS := zero_pad 3 (dec ms)).
  replace (Y +:+ "-" +:+ MO +:+ "-" +:+ D +:+ "T" +:+ HH +:+ ":" +:+ MI +:+ ":" +:+ SS +:+ "." +:+ MS +:+ "Z")
    with ((Y +:+ String "-" (MO +:+ String "-" D)) +:+ String "T" ((HH +:+ String ":" (MI +:+ String ":" SS)) +:+ String "." (MS +:+ String "Z" "")))
    by (rewrite !str_app_assoc; cbn; rewrite !str_app_assoc; done).
  assert (Hdig : forall c, is_digit c = false -> forall x, x ∈ [Y; MO; D; HH; MI; SS; MS] -> str_forall (fun e => negb (Ascii.eqb e c)) x = true).
  { intros c Hc x Hx. repeat (apply elem_of_cons in Hx as [->|Hx]; [by apply padded_single|]). by apply not_elem_of_nil in Hx. }
  rewrite split_once_app by (rewrite str_forall_app; cbn; rewrite str_forall_app; cbn; rewrite !Hdig by (done || (rewrite !elem_of_cons; tauto)); done).
  cbn [mbind option_bind].
  rewrite split_once_app by (rewrite str_forall_app; cbn; rewrite str_forall_app; cbn; rewrite !Hdig by (done || (rewrite !elem_of_cons; tauto)); done).
  cbn [mbind option_bind]. rewrite split_once_app by (apply Hdig; [done|rewrite !elem_of_cons; tauto]). cbn [mbind option_bind].
  rewrite !three_fields by (apply Hdig; [done|rewrite !elem_of_cons; tauto]). done.
Qed.

(** What the timestamps of the access log say. Every timestamp has the shape of
    RFC 3339, its time of day is exact, its month is from 1 to 12 and its day
    from 1 to 30. Its date is not: years count 365 days and months 30, so that
    the last five days of such a year have the dates of the first five days of
    its last month, and instants 30 days apart have the same timestamp. *)
Theorem access_log_timestamp secs millis : 0 <= secs -> 0 <= millis < 1000 ->
  (exists y mo d h mi s ms, read_timestamp (chrono_lite secs millis) = Some [y; mo; d; h; mi; s; ms] /\
     dec_scan h 0 * 3600 + dec_scan mi 0 * 60 + dec_scan s 0 = secs mod 86400 /\ dec_scan ms 0 = millis /\
     0 <= dec_scan h 0 < 24 /\ 0 <= dec_scan mi 0 < 60 /\ 0 <= dec_scan s 0 < 60 /\
     dec_scan y 0 = 1970 + secs / 86400 / 365 /\ 1 <= dec_scan mo 0 <= 12 /\ 1 <= dec_scan d 0 <= 30) /\
  (330 <= secs / 86400 mod 365 < 335 -> chrono_lite (secs + 30 * 86400) millis = chrono_lite secs millis).
Proof.
  intros Hs Hm.
  assert (Hd : 0 <= secs / 86400) by (apply Z.div_pos; lia).
  assert (Ht : 0 <= secs mod 86400 < 86400) by (apply Z.mod_pos_bound; lia).
  assert (Hy : 0 <= secs / 86400 mod 365 < 365) by (apply Z.mod_pos_bound; lia).
  split.
  - unfold chrono_lite. do 7 eexists. split; [apply read_back; Z.to_euclidean_division_equations; lia|].
    rewrite !zero_pad_reads by (Z.to_euclidean_division_equations; lia). split_and!; Z.to_euclidean_division_equations; lia.
  - intros Hl. unfold chrono_lite.
    assert (E1 : (secs + 30 * 86400) / 86400 = secs / 86400 + 30) by (rewrite Z.div_add by lia; lia).
    assert (E2 : (secs + 30 * 86400) mod 86400 = secs mod 86400) by (by rewrite Z_mod_plus_full).
    assert (E3 : (secs / 86400 + 30) / 365 = secs / 86400 / 365) by (Z.to_euclidean_division_equations; lia).
    assert (E4 : (secs / 86400 + 30) mod 365 = secs / 86400 mod 365 + 30) by (Z.to_euclidean_division_equations; lia).
    rewrite E1, E2, E3, E4. set (k := secs / 86400 mod 365) in *.
    assert (E5 : Z.min ((k + 30) / 30) 11 = Z.min (k / 30) 11) by (Z.to_euclidean_division_equations; lia).
    assert (E6 : (k + 30) mod 30 = k mod 30) by (Z.to_euclidean_division_equations; lia).
    by rewrite E5, E6.
Qed.

(** The first second of 2024 is written as the 14th of January. *)
Lemma access_log_timestamp_witness :
  chrono_lite 1704067200 5 = "2024-01-14T00:00:00.005Z" /\
  chrono_lite (330 * 86400 + 30 * 86400) 0 = chrono_lite (330 * 86400) 0.
Proof. split; [vm_compute; reflexivity|]. apply (access_log_timestamp (330 * 86400) 0); [lia|lia|vm_compute; split; congruence]. Defined.
