(* ===== verification/WebSocket.v ===== *)
(** * WebSocket upgrades

    Models src/src/proxy/websocket.rs: the detection of upgrade requests and the
    handshake with the backend over a connection whose reads are given. The URL
    parser and SHA-1 are parameters; once the handshake is done bytes are copied
    both ways, which is not modelled. Texts are their bytes; a search for ASCII
    characters in the lossy UTF-8 text finds the same as in the bytes. *)
From S2P Require Import Prelude RustStr Encoding BasicAuth Rule Net Http Duration Grpc.
From stdpp Require Import list.
Open Scope Z_scope.
Open Scope list_scope.
#[local] Set Default Proof Using "Type*".

Class UrlLib := {
  Url : Type;
  url_parse : string -> option Url;
  host_str : Url -> option string;
  port_or_known_default : Url -> option Z;
  url_scheme : Url -> string;
}.

Definition header_end : string := of_bytes [13; 10; 13; 10]%nat.
Fixpoint find_header_end (s : string) : option nat :=
  match RustStr.strip_prefix header_end s with
  | Some _ => Some 4%nat
  | None => match s with EmptyString => None | String _ s' => S <$> find_header_end s' end
  end.

(** What the successive reads of the handshake give; an empty read is the end of
    the stream. *)
Inductive read_result := ReadError | Read (bytes : string).

(** The loop that fills a buffer of [cap] bytes up to the end of the headers:
    the headers, and what was read after them. *)
Fixpoint read_head (cap : nat) (buf : string) (reads : list read_result) : option (string * string) :=
  match reads with
  | [] | ReadError :: _ => None
  | Read chunk :: reads' =>
      let chunk := str_take (cap - String.length buf) chunk in
      if bool_decide (chunk = "") then None
      else
        let buf := buf +:+ chunk in
        match find_header_end buf with
        | Some pos => Some (str_take pos buf, str_drop pos buf)
        | None => if (cap <=? String.length buf)%nat then None else read_head cap buf reads'
        end
  end.

Definition BUF_SIZE : nat := 4096.

(** A connection to the backend: which steps of it succeed, and its reads. *)
Record connection := {
  tcp_connects : bool;
  tls_handshake : bool;
  accepts_write : bool;
  reads : list read_result;
}.

(** [base64_encode] of this file: a chunk of up to three bytes, missing ones read
    as zero, gives four characters. *)
Definition encode_chunk (c0 : ascii) (c1 c2 : option ascii) : string :=
  let b0 := byte_of c0 in let b1 := from_option byte_of 0 c1 in let b2 := from_option byte_of 0 c2 in
  String (sextet_char (Z.shiftr b0 2)) (String (sextet_char (Z.lor (Z.shiftl (Z.land b0 3) 4) (Z.shiftr b1 4)))
    (String (match c1 with Some _ => sextet_char (Z.lor (Z.shiftl (Z.land b1 15) 2) (Z.shiftr b2 6)) | None => "="%char end)
      (String (match c2 with Some _ => sextet_char (Z.land b2 63) | None => "="%char end) ""))).
Fixpoint ws_base64_encode (data : string) : string :=
  match data with
  | String c0 (String c1 (String c2 rest)) => encode_chunk c0 (Some c1) (Some c2) +:+ ws_base64_encode rest
  | String c0 (String c1 "") => encode_chunk c0 (Some c1) None
  | String c0 "" => encode_chunk c0 None None
  | EmptyString => ""
  end.
(** It is the encoder of the gRPC-Web bodies, and so that of RFC 4648. *)
Lemma ws_encode_body s : ws_base64_encode s = base64_encode ALPHABET s.
Proof.
  rewrite <- web_encode_body. induction s as [|a|a b|a b c s IH] using string_ind3; [done|..].
  - cbn [ws_base64_encode web_base64_encode]. unfold encode_chunk. cbn [from_option]. by rewrite Z.shiftr_0_l, Z.lor_0_r.
  - cbn [ws_base64_encode web_base64_encode]. unfold encode_chunk. cbn [from_option]. by rewrite Z.shiftr_0_l, Z.lor_0_r.
  - cbn [ws_base64_encode web_base64_encode]. rewrite IH. reflexivity.
Qed.

Section WebSocket.
Context `{HO : HttpOps} `{UL : UriLib} `{IL : IpLib} `{URL : UrlLib}.
Context (sha1 : string -> string) (server_name_ok : string -> bool).

Definition is_websocket_upgrade (req : Request) : bool :=
  let has_upgrade := match header_text (rq_headers req) "upgrade" with Some v => eq_ignore_ascii_case v "websocket" | None => false end in
  let has_connection :=
    match header_text (rq_headers req) "connection" with
    | Some v => existsb (fun part => eq_ignore_ascii_case (trim part) "upgrade") (split_on "," v)
    | None => false
    end in
  has_upgrade && has_connection.

Definition GUID : string := "258EAFA5-E914-47DA-95CA-C5AB0DC85B11".
Definition compute_accept_key (key : string) : string := ws_base64_encode (sha1 (key +:+ GUID)).

(** [host_header] defaults to the address. *)
Definition upgrade_request (req : Request) (addr : string) : string :=
  let ws_key := default "" (header_text (rq_headers req) "sec-websocket-key") in
  let path := default "/" (uri_path_and_query (rq_uri req)) in
  let host_header := default addr (header_text (rq_headers req) "host") in
  "GET " +:+ path +:+ " HTTP/1.1" +:+ crlf +:+
  "Host: " +:+ host_header +:+ crlf +:+
  "Upgrade: websocket" +:+ crlf +:+
  "Connection: Upgrade" +:+ crlf +:+
  "Sec-WebSocket-Key: " +:+ ws_key +:+ crlf +:+
  "Sec-WebSocket-Version: 13" +:+ crlf +:+
  crlf.

Definition ws_error : Response := {| rs_status := 502; rs_headers := hm_empty; rs_body := Text "" |}.

(** The 101 response. *)
Definition switching (req : Request) : result Empty_set Response :=
  res_bind (build_header "upgrade" "websocket" hm_empty) (fun h =>
  res_bind (build_header "connection" "Upgrade" h) (fun h =>
  res_map (fun h => {| rs_status := 101; rs_headers := h; rs_body := Text "" |})
    (build_header "sec-websocket-accept" (compute_accept_key (default "" (header_text (rq_headers req) "sec-websocket-key"))) h))).

(** The response to the client, and what was written to the backend. *)
Definition handle_websocket_upgrade (connect : string -> connection) (req : Request) (backend_addr : string)
    : result Empty_set Response * option string :=
  match url_parse backend_addr with
  | None => (Ok ws_error, None)
  | Some u =>
      let host := default "localhost" (host_str u) in
      let port := default 80 (port_or_known_default u) in
      let addr := host +:+ ":" +:+ dec port in
      let is_tls_backend := eq_ignore_ascii_case (url_scheme u) "https" || eq_ignore_ascii_case (url_scheme u) "wss" in
      let c := connect addr in
      if negb (tcp_connects c) then (Ok ws_error, None)
      else if is_tls_backend && negb (server_name_ok host && tls_handshake c) then (Ok ws_error, None)
      else if negb (accepts_write c) then (Ok ws_error, None)
      else
        (match read_head BUF_SIZE "" (reads c) with
         | Some (head, _) => if contains "101" head then switching req else Ok ws_error
         | None => Ok ws_error
         end, Some (upgrade_request req addr))
  end.
End WebSocket.

(** ** Reading the head of the backend's answer *)
Lemma find_end_unfold s : find_header_end s =
  match RustStr.strip_prefix header_end s with
  | Some _ => Some 4%nat
  | None => match s with EmptyString => None | String _ s' => S <$> find_header_end s' end
  end.
Proof. by destruct s. Qed.

(** The position found is that of the first end of headers. *)
Lemma find_end_prefix s : forall pos, find_header_end s = Some pos -> (pos <= String.length s)%nat /\
  exists a b, s = a +:+ header_end +:+ b /\ pos = (String.length a + 4)%nat.
Proof.
  induction s as [|c s IH]; intros pos; rewrite find_end_unfold; destruct (RustStr.strip_prefix header_end _) as [r|] eqn:E.
  - done.
  - done.
  - intros [= <-]. apply strip_prefix_Some in E. rewrite E, str_length_app. split; [cbn; lia|]. by exists "", r.
  - destruct (find_header_end s) as [p|]; [|done]. intros [= <-]. destruct (IH p eq_refl) as (Hl & a & b & -> & ->).
    split; [cbn [String.length]; lia|]. by exists (String c a), b.
Qed.

Lemma strip_prefix_long p s t : (String.length p <= String.length s)%nat -> RustStr.strip_prefix p s = None -> RustStr.strip_prefix p (s +:+ t) = None.
Proof.
  revert s. induction p as [|c p IH]; intros [|d s] Hl; cbn in *; [done|done|lia|]. destruct (Ascii.eqb c d); [|done]. apply IH. lia.
Qed.

Lemma find_end_app s t pos : find_header_end s = Some pos -> find_header_end (s +:+ t) = Some pos.
Proof.
  revert pos. induction s as [|c s IH]; intros pos; [done|]. rewrite find_end_unfold, (find_end_unfold (String c s +:+ t)).
  destruct (RustStr.strip_prefix header_end (String c s)) as [r|] eqn:E.
  - apply strip_prefix_Some in E. rewrite E, str_app_assoc, strip_prefix_app. done.
  - destruct (find_header_end s) as [p|] eqn:Ep; [|done]. intros [= <-].
    destruct (RustStr.strip_prefix header_end (String c s +:+ t)) as [r|] eqn:E2.
    + exfalso. destruct (find_end_prefix _ _ Ep) as (Hl & a & b & Hs & Hp). rewrite strip_prefix_long in E2; [done| |done].
      cbn. cbn in Hl. lia.
    + cbn [String.append]. by rewrite (IH p).
Qed.

(** What follows the first end does not matter. *)
Lemma find_end_cut a b : find_header_end (a +:+ header_end +:+ b) = Some (String.length a + 4)%nat ->
  find_header_end (a +:+ header_end) = Some (String.length a + 4)%nat.
Proof.
  induction a as [|c a IH]; [done|]. rewrite find_end_unfold, (find_end_unfold (String c a +:+ header_end)).
  destruct (RustStr.strip_prefix header_end (String c a +:+ header_end +:+ b)) eqn:E; [cbn; intros [= H]; lia|].
  destruct (RustStr.strip_prefix header_end (String c a +:+ header_end)) as [r|] eqn:E2.
  - exfalso. apply strip_prefix_Some in E2. rewrite <- str_app_assoc, E2, str_app_assoc, strip_prefix_app in E. done.
  - cbn [String.append String.length Nat.add]. destruct (find_header_end (a +:+ header_end +:+ b)) as [p|] eqn:Ep; [|done].
    cbn [fmap option_fmap option_map]. intros [= ->]. by rewrite IH.
Qed.

Lemma find_end_take s cap pos : find_header_end (str_take cap s) = Some pos <-> find_header_end s = Some pos /\ (pos <= cap)%nat.
Proof.
  split.
  - intros H. pose proof (find_end_prefix _ _ H) as [Hl _]. rewrite str_take_length in Hl. split; [|lia].
    destruct (decide (cap <= String.length s)%nat) as [Hc|Hc]; [|by rewrite str_take_all in H by lia].
    rewrite <- (str_take_drop cap s). by apply find_end_app.
  - intros [H Hp]. destruct (find_end_prefix _ _ H) as (Hl & a & b & Hs & Hpos). subst s pos.
    rewrite <- str_app_assoc, str_take_app_ge.
    + by apply find_end_app, (find_end_cut a b).
    + rewrite str_length_app. cbn. lia.
Qed.

(** The loop finds the first end of headers within the buffer, however the
    stream is cut into reads. *)
Fixpoint concat_str (l : list string) : string := match l with [] => "" | s :: l' => s +:+ concat_str l' end.

Lemma read_head_spec cap chunks : Forall (fun c => c <> "") chunks -> forall buf, find_header_end buf = None -> (String.length buf < cap)%nat ->
  fst <$> read_head cap buf (Read <$> chunks) =
  (fun pos => str_take pos (buf +:+ concat_str chunks)) <$> find_header_end (str_take cap (buf +:+ concat_str chunks)).
Proof.
  induction 1 as [|c chunks Hc Hcs IH]; intros buf Hb Hl; cbn [fmap list_fmap read_head concat_str].
  - rewrite str_app_nil_r, str_take_all by lia. by rewrite Hb.
  - set (k := (cap - String.length buf)%nat). rewrite bool_decide_eq_false_2; [|destruct c; [done|]; destruct k eqn:Ek; [lia|done]].
    assert (Hpre : exists t, str_take cap (buf +:+ c +:+ concat_str chunks) = (buf +:+ str_take k c) +:+ t).
    { rewrite str_take_app_ge by lia. fold k. destruct (decide (k <= String.length c)%nat).
      - rewrite str_take_app_le by done. exists "". by rewrite str_app_nil_r.
      - rewrite str_take_app_ge, (str_take_all k c) by lia. exists (str_take (k - String.length c) (concat_str chunks)). by rewrite str_app_assoc. }
    destruct Hpre as [t Ht].
    destruct (find_header_end (buf +:+ str_take k c)) as [pos|] eqn:Ef.
    + rewrite Ht, (find_end_app _ t pos Ef). cbn [fmap option_fmap option_map fst]. f_equal.
      destruct (find_end_prefix _ _ Ef) as [Hp _].
      transitivity (str_take pos (str_take cap (buf +:+ c +:+ concat_str chunks))); [rewrite Ht; by rewrite (str_take_app_le pos (buf +:+ str_take k c) t)|].
      revert Hp. rewrite str_length_app, str_take_length. intros Hp. assert (Hpc : (pos <= cap)%nat) by lia. clear -Hpc.
      revert cap Hpc. generalize (buf +:+ c +:+ concat_str chunks). intros s. revert pos. induction s as [|d s IHs]; intros [|p] [|n] H; cbn; try done; try lia.
      f_equal. apply IHs. lia.
    + destruct (Nat.leb_spec cap (String.length (buf +:+ str_take k c))) as [Hfull|Hroom].
      * assert (Ht0 : t = "").
        { apply (f_equal String.length) in Ht. rewrite !str_length_app, str_take_length in Ht. rewrite str_length_app in Hfull.
          destruct t; [done|]. cbn in Ht. lia. }
        rewrite Ht, Ht0, str_app_nil_r, Ef. done.
      * rewrite str_length_app, str_take_length in Hroom. rewrite (str_take_all k c) in * by lia.
        rewrite IH; [by rewrite str_app_assoc|done|rewrite str_length_app; lia].
Qed.

Lemma sextet_visible v : 0 <= v < 64 -> visible_byte (enc BasicAuth.ALPHABET v) = true.
Proof.
  intros Hv. assert (H : forallb (fun n => visible_byte (enc BasicAuth.ALPHABET (Z.of_nat n))) (seq 0 64) = true) by (vm_compute; reflexivity).
  rewrite forallb_forall in H. specialize (H (Z.to_nat v)). rewrite Z2Nat.id in H by lia. apply H. apply in_seq. lia.
Qed.

Section Proofs.
Context `{HL : HttpLaws} `{UL : UriLib} `{IL : IpLib} `{URL : UrlLib}.
Context (sha1 : string -> string) (server_name_ok : string -> bool).

(** The end of the headers lies in the first 4096 bytes and 101 stands before it. *)
Definition handshake_ok (stream : string) : bool :=
  match find_header_end stream with
  | Some pos => (pos <=? BUF_SIZE)%nat && contains "101" (str_take pos stream)
  | None => false
  end.

Lemma visible_base64 s : str_forall visible_byte (ws_base64_encode s) = true.
Proof.
  rewrite ws_encode_body. unfold base64_encode. rewrite str_forall_app. apply andb_true_intro. split.
  - apply body_forall. intros v Hv. apply (sextet_visible v Hv).
  - unfold b64_pad. by destruct (String.length s mod 3)%nat as [|[|]].
Qed.
Lemma switching_ok req : exists r, switching sha1 req = Ok r /\ rs_status r = 101 /\
  header_text (rs_headers r) "sec-websocket-accept" =
    Some (base64_encode ALPHABET (sha1 (default "" (header_text (rq_headers req) "sec-websocket-key") +:+ GUID))).
Proof.
  unfold switching. destruct (build_header_ok (E := Empty_set) "upgrade" "websocket" hm_empty eq_refl) as (v1 & -> & _). cbn [res_bind].
  destruct (build_header_ok (E := Empty_set) "connection" "Upgrade" (hm_insert "upgrade" v1 hm_empty) eq_refl) as (v2 & -> & _). cbn [res_bind].
  match goal with |- context [build_header ?k ?t ?h] =>
    destruct (build_header_ok (E := Empty_set) k t h) as (v3 & -> & H3); [apply visible_base64|] end.
  cbn [res_map]. eexists. split_and!; [done|done|]. cbn [rs_headers]. unfold header_text. rewrite get_insert_eq. cbn [mbind option_bind].
  rewrite H3. unfold compute_accept_key. by rewrite ws_encode_body.
Qed.

Lemma upgrade_answers connect req backend :
  exists r, (handle_websocket_upgrade sha1 server_name_ok connect req backend).1 = Ok r /\ (rs_status r = 101 \/ rs_status r = 502).
Proof.
  assert (Herr : exists r, Ok (E := Empty_set) ws_error = Ok r /\ (rs_status r = 101 \/ rs_status r = 502)) by (exists ws_error; split; [done|by right]).
  unfold handle_websocket_upgrade. destruct (url_parse backend) as [u|]; [|exact Herr]. cbv zeta.
  repeat (match goal with |- context [if ?b then _ else _] => destruct b; [exact Herr|] end). cbn [fst].
  destruct (read_head _ _ _) as [[head rest]|]; [|exact Herr]. destruct (contains "101" head); [|exact Herr].
  destruct (switching_ok req) as (r & -> & H1 & _). exists r. split; [done|by left].
Qed.

(** The handshake with the backend. Against a backend that is reached and whose
    answer arrives in any number of non-empty reads, cut anywhere, the client
    gets 101 exactly when the headers of the answer end within its first 4096
    bytes and contain 101, and 502 otherwise; the 101 response carries the key
    of RFC 6455, the base64 text of the SHA-1 hash of the client's key and the
    protocol's GUID. A backend that is not reached gives 502. The answer never
    aborts. *)
Theorem websocket_handshake connect req backend u chunks :
  url_parse backend = Some u ->
  let host := default "localhost" (host_str u) in
  let c := connect (host +:+ ":" +:+ dec (default 80 (port_or_known_default u))) in
  reads c = Read <$> chunks -> Forall (fun x => x <> "") chunks ->
  exists r, (handle_websocket_upgrade sha1 server_name_ok connect req backend).1 = Ok r /\
    (rs_status r = 101 \/ rs_status r = 502) /\
    (rs_status r = 101 -> handshake_ok (concat_str chunks) = true /\
       header_text (rs_headers r) "sec-websocket-accept" =
         Some (base64_encode ALPHABET (sha1 (default "" (header_text (rq_headers req) "sec-websocket-key") +:+ GUID)))) /\
    (tcp_connects c = true -> server_name_ok host = true -> tls_handshake c = true -> accepts_write c = true ->
       handshake_ok (concat_str chunks) = true -> rs_status r = 101).
Proof.
  intros Hu host c Hr Hne. unfold handle_websocket_upgrade. rewrite Hu. cbv zeta. fold host. fold c. cbn [fst].
  destruct (tcp_connects c); cbn [negb]; [|exists ws_error; cbn; naive_solver].
  destruct (_ && negb (server_name_ok host && tls_handshake c)) eqn:Et.
  { exists ws_error. apply andb_prop in Et as [_ Et]. cbn [fst rs_status ws_error]. split_and!; [done|by right|done|].
    intros _ H1 H2. rewrite H1, H2 in Et. done. }
  destruct (accepts_write c); cbn [negb]; [|exists ws_error; cbn; naive_solver]. cbn [fst].
  assert (Hspec := read_head_spec BUF_SIZE chunks Hne "" eq_refl (proj1 (Nat.ltb_lt 0 BUF_SIZE) eq_refl)). cbn [String.append] in Hspec.
  rewrite Hr. destruct (read_head BUF_SIZE "" (Read <$> chunks)) as [[head rest]|].
  - destruct (find_header_end (str_take BUF_SIZE _)) as [pos|] eqn:Ef; [|done]. injection Hspec as ->.
    apply find_end_take in Ef as [Ef Hp]. unfold handshake_ok. rewrite Ef.
    rewrite (proj2 (Nat.leb_le _ _) Hp). cbn [andb].
    destruct (contains "101" (str_take pos (concat_str chunks))).
    + destruct (switching_ok req) as (r & -> & H1 & H2). exists r. split_and!; try done. by left.
    + exists ws_error. cbn. naive_solver.
  - exists ws_error. cbn [rs_status ws_error]. split_and!; [done|by right|done|]. intros _ _ _ _. unfold handshake_ok.
    destruct (find_header_end (concat_str chunks)) as [pos|] eqn:Ef; [|done].
    destruct (Nat.leb_spec pos BUF_SIZE); [|done].
    rewrite (proj2 (find_end_take _ BUF_SIZE pos)) in Hspec by done. done.
Qed.

Definition lacks_breaks (s : string) : bool := str_forall (fun c => negb (Ascii.eqb c (byte_at 10))) s && str_forall (fun c => negb (Ascii.eqb c (byte_at 13))) s.
Definition cr : string := of_bytes [13%nat].

Lemma visible_no_breaks s : str_forall visible_byte s = true -> lacks_breaks s = true.
Proof.
  unfold lacks_breaks. induction s as [|c s IH]; [done|]. cbn [str_forall]. intros [Hc Hs]%andb_prop. specialize (IH Hs).
  apply andb_prop in IH as [-> ->]. rewrite !andb_true_r.
  destruct (Ascii.eqb_spec c (byte_at 10)) as [->|]; [done|]. destruct (Ascii.eqb_spec c (byte_at 13)) as [->|]; done.
Qed.

Lemma header_no_breaks h k d : lacks_breaks d = true -> lacks_breaks (default d (header_text h k)) = true.
Proof.
  intros Hd. unfold header_text. destruct (hm_get h k) as [v|]; cbn; [|done]. destruct (hv_to_str v) as [s|] eqn:E; cbn; [|done].
  by eapply visible_no_breaks, to_str_visible.
Qed.

Lemma split_line a b : str_forall (fun c => negb (Ascii.eqb c (byte_at 10))) a = true ->
  split_on (byte_at 10) (a +:+ crlf +:+ b) = (a +:+ cr) :: split_on (byte_at 10) b.
Proof.
  intros Ha. change (crlf +:+ b) with (cr +:+ String (byte_at 10) b). rewrite <- str_app_assoc, split_on_app, split_on_single; [done|].
  rewrite str_forall_app, Ha. done.
Qed.

Lemma split_line2 a b d : str_forall (fun c => negb (Ascii.eqb c (byte_at 10))) a = true ->
  str_forall (fun c => negb (Ascii.eqb c (byte_at 10))) b = true ->
  split_on (byte_at 10) (a +:+ b +:+ crlf +:+ d) = ((a +:+ b) +:+ cr) :: split_on (byte_at 10) d.
Proof. intros Ha Hb. rewrite <- str_app_assoc. apply split_line. by rewrite str_forall_app, Ha, Hb. Qed.

(** No injection through the handshake. Whatever headers the client sends, the
    text written to the backend has exactly these lines: the request line with
    the path, the client's Host, the four fixed upgrade headers with the
    client's key, and the empty line; in particular a client cannot add lines. *)
Theorem websocket_no_injection req addr :
  lacks_breaks (default "/" (uri_path_and_query (rq_uri req))) = true -> lacks_breaks addr = true ->
  split_on (byte_at 10) (upgrade_request req addr) =
    ((fun l => l +:+ cr) <$> ["GET " +:+ default "/" (uri_path_and_query (rq_uri req)) +:+ " HTTP/1.1";
      "Host: " +:+ default addr (header_text (rq_headers req) "host"); "Upgrade: websocket"; "Connection: Upgrade";
      "Sec-WebSocket-Key: " +:+ default "" (header_text (rq_headers req) "sec-websocket-key"); "Sec-WebSocket-Version: 13"; ""]) ++ [""].
Proof.
  intros Hp Ha. unfold upgrade_request.
  pose proof (header_no_breaks (rq_headers req) "host" addr Ha) as Hh.
  pose proof (header_no_breaks (rq_headers req) "sec-websocket-key" "" eq_refl) as Hk.
  set (p := default "/" _) in *. set (hst := default addr _) in *. set (key := default "" _) in *.
  apply andb_prop in Hp as [Hp _]. apply andb_prop in Hh as [Hh _]. apply andb_prop in Hk as [Hk _].
  rewrite <- (str_app_assoc p), split_line2 by (rewrite ?str_forall_app, ?Hp; done).
  rewrite split_line2 by done.
  rewrite (split_line "Upgrade: websocket") by done. rewrite (split_line "Connection: Upgrade") by done.
  rewrite split_line2 by done. rewrite (split_line "Sec-WebSocket-Version: 13") by done.
  change crlf with ("" +:+ crlf +:+ "") at 1. rewrite (split_line "" "") by done. done.
Qed.
End Proofs.

(** Bytes the backend sends right behind its headers, in the same read, are
    dropped: only the first part of the pair is used. *)
Lemma websocket_drops_early_bytes :
  let head := "HTTP/1.1 101 Switching Protocols" +:+ header_end in
  read_head BUF_SIZE "" [Read (head +:+ "frame")] = Some (head, "frame").
Proof. vm_compute. reflexivity. Qed.

(** An answer of another status with 101 anywhere in its headers is accepted. *)
Lemma websocket_accepts_any_101 :
  handshake_ok ("HTTP/1.1 403 Forbidden" +:+ crlf +:+ "X-Request: 91012" +:+ header_end) = true.
Proof. vm_compute. reflexivity. Qed.

(** ** A run *)
Definition text_url : UrlLib :=
  {| Url := string; url_parse s := if starts_with "http://" s then Some s else None; host_str u := RustStr.strip_prefix "http://" u;
     port_or_known_default _ := Some 80; url_scheme _ := "http" |}.
#[local] Existing Instance map_http.
#[local] Existing Instance text_uri.
#[local] Existing Instance two_hosts.
#[local] Existing Instance text_url.

Definition ws_request : Request :=
  {| rq_method := "GET"; rq_uri := (None, None, "/chat") : Uri;
     rq_headers := foldr (fun kv h => match hv_from_str kv.2 with Some v => hm_insert kv.1 v h | None => h end) hm_empty
       [("upgrade", "WebSocket"); ("connection", "keep-alive, Upgrade"); ("sec-websocket-key", "k")];
     rq_context := None |}.
Definition ws_backend (chunks : list string) (addr : string) : connection :=
  {| tcp_connects := bool_decide (addr = "b:80"); tls_handshake := true; accepts_write := true; reads := Read <$> chunks |}.

Lemma websocket_handshake_witness :
  is_websocket_upgrade ws_request = true /\
  exists r, (handle_websocket_upgrade (fun s => s) (fun _ => true) (ws_backend ["HTTP/1.1 101 "; "OK" +:+ cr; of_bytes [10; 13; 10]%nat]) ws_request "http://b").1 = Ok r /\
    rs_status r = 101.
Proof.
  split; [vm_compute; reflexivity|].
  destruct (websocket_handshake (URL := text_url) (fun s => s) (fun _ => true) (ws_backend ["HTTP/1.1 101 "; "OK" +:+ cr; of_bytes [10; 13; 10]%nat]) ws_request
    "http://b" "http://b" ["HTTP/1.1 101 "; "OK" +:+ cr; of_bytes [10; 13; 10]%nat] eq_refl eq_refl) as (r & H1 & _ & _ & H4).
  - repeat constructor; discriminate.
  - exists r. split; [exact H1|]. apply H4; reflexivity.
Defined.

Lemma websocket_no_injection_witness :
  split_on (byte_at 10) (upgrade_request ws_request "b:80") !! 1%nat = Some ("Host: b:80" +:+ cr).
Proof. rewrite (websocket_no_injection ws_request "b:80") by reflexivity. reflexivity. Defined.
