(* ===== verification/Handler.v ===== *)
(** * The request handler

    Models [ProxyHandler::handle] and [forward_to_backend_inner] of
    src/src/proxy/handler.rs from end to end: the route is looked up ([Router]),
    its middlewares run ([Pipeline]), a backend is chosen and its health
    recorded ([Service], [Health]), the request is rewritten ([Pipeline.Forward])
    or upgraded ([WebSocket]), and the access is logged ([AccessLog]). A request
    runs to its end in one step here; [forward_refines] relates that step to the
    interleaved system of [Service]. What backends reply is part of the
    environment of a request. *)
From S2P Require Import Prelude RustStr ConfigCheck.
From S2P Require Import Config Balancer LoadBalancer Health Service Rule RuleProofs Router Net Http Middleware Pipeline Grpc WebSocket.
From S2P Require Import AccessLog.
From stdpp Require Import list.
Open Scope Z_scope.
Open Scope list_scope.
#[local] Set Default Proof Using "Type*".

(** Parsing of whole URIs ([s.parse::<Uri>()]) and their host. *)
Class UriParser `{UriLib} := {
  uri_parse : string -> option Uri;
  uri_host : Uri -> option string;
}.

Section Handler.
Context `{HO : HttpOps} `{UL : UriLib} `{UP : !UriParser} `{IL : IpLib} `{RO : RegexOps} `{URL : UrlLib}.
Context (sha1 : string -> string) (server_name_ok : string -> bool).

(** ** Addresses of backends *)
Definition build_backend_uri (backend_url : string) (original_uri : Uri) : option Uri :=
  backend_base ← uri_parse backend_url;
  let path_and_query := default "/" (uri_path_and_query original_uri) in
  let scheme := default "http" (uri_scheme backend_base) in
  let authority := default "" (uri_authority backend_base) in
  uri_parse (scheme +:+ "://" +:+ authority +:+ path_and_query).

Definition build_backend_uri_fast (backend_url : string) (original_uri : Uri) (parsed : option ParsedBackendUri) : option Uri :=
  match parsed with
  | None => build_backend_uri backend_url original_uri
  | Some p => uri_build (Some (scheme p)) (Some (authority p)) (default "/" (uri_path_and_query original_uri))
  end.

Definition is_h2c_backend (parsed : option ParsedBackendUri) (raw_url : string) : bool :=
  match parsed with
  | Some p => bool_decide (scheme p = "h2c")
  | None => starts_with "h2c://" raw_url
  end.

(** [Uri::from_parts] needs all three parts. *)
Definition rewrite_h2c_scheme (u : Uri) : result Empty_set Uri :=
  if bool_decide (uri_scheme u = Some "h2c") then
    match (a ← uri_authority u; pq ← uri_path_and_query u; uri_build (Some "http") (Some a) pq) with
    | Some u' => Ok u'
    | None => match uri_parse "/" with Some u' => Ok u' | None => Panic end
    end
  else Ok u.

(** ** Error responses *)
Definition plain_error (status : Z) (message : string) : result Empty_set Response :=
  res_map (fun h => {| rs_status := status; rs_headers := h; rs_body := Text message |})
    (build_header "content-type" "text/plain; charset=utf-8" hm_empty).
Definition error_response_maybe_grpc (status : Z) (message : string) (is_grpc : bool) : result Empty_set Response :=
  if is_grpc then grpc_gateway_error status message else plain_error status message.

(** ** Forwarding *)
Inductive backend_reply := Replied (r : Response) | RequestFailed | TimedOut.
Definition exchange_of (x : backend_reply) : exchange :=
  match x with Replied r => Service.Response (rs_status r) | RequestFailed => RequestError | TimedOut => RequestTimeout end.

(** The time a backend has, in nanoseconds. *)
Definition request_timeout (is_grpc : bool) : Z := if is_grpc then 300 * 10 ^ 9 else 30 * 10 ^ 9.
(** [timeout(limit, request)] of a request that is settled after [r.1]. *)
Definition await (limit : Z) (r : Z * option Response) : backend_reply :=
  if limit <? r.1 then TimedOut else match r.2 with Some rs => Replied rs | None => RequestFailed end.

(** What the world does during one request: when and what backends reply over
    HTTP/1 or HTTP/2, WebSocket connections, and the clocks. *)
Record env := {
  e_reply : bool (* http2 *) -> Request -> Z * option Response;
  e_connect : string -> connection;
  e_elapsed : Z;
  e_now_window : Z;
  e_now_mark : Z;
}.

(** What was sent, and to which backend. *)
Inductive message := Http (http2 : bool) (r : Request) | WebSocketText (t : option string).

Record world := {
  w_services : manager;
  w_passive : Passive.Checker;
  w_rng : Z;
  w_sent : list (string * message);
}.

Definition sending (u : string) (m : message) (w : world) : world :=
  {| w_services := w_services w; w_passive := w_passive w; w_rng := w_rng w; w_sent := w_sent w ++ [(u, m)] |}.

(** [record_response] and [apply_health_change] *)
Definition record_reply (e : env) (u service : string) (x : backend_reply) (w : world) : world :=
  let '(change, p) := Passive.record_response u
    {| Passive.status_code := recorded_status (exchange_of x); Passive.response_time := e_elapsed e;
       Passive.now_window := e_now_window e; Passive.now_mark := e_now_mark e |} (w_passive w) in
  {| w_services := apply_health_change change u service (w_services w); w_passive := p; w_rng := w_rng w; w_sent := w_sent w |}.

(** The reply the client gets. *)
Definition client_response (x : backend_reply) (is_grpc : bool) : result Empty_set Response :=
  match x with
  | Replied r => Ok (if is_grpc then r else with_rs_headers (remove_all Forward.hop_by_hop_headers (rs_headers r)) r)
  | RequestFailed => error_response_maybe_grpc 502 "Bad Gateway" is_grpc
  | TimedOut => error_response_maybe_grpc 504 "Gateway Timeout" is_grpc
  end.

(** The part after a backend was chosen. *)
Definition send_to (e : env) (ip : IpAddr) (service : string) (host : option string) (is_tls is_grpc : bool)
    (u : string) (parsed : option ParsedBackendUri) (req : Request) (w : world) : result Empty_set Response * world :=
  let use_h2 := is_grpc || is_h2c_backend parsed u in
  if negb use_h2 && is_websocket_upgrade req then
    let '(r, text) := handle_websocket_upgrade sha1 server_name_ok (e_connect e) req u in
    (r, sending u (WebSocketText text) w)
  else
    match build_backend_uri_fast u (rq_uri req) parsed with
    | None => (error_response_maybe_grpc 500 "Internal Server Error" is_grpc, w)
    | Some uri =>
        match (if use_h2 then rewrite_h2c_scheme uri else Ok uri) with
        | Ok uri =>
            let proxied := Forward.build_proxied_request req uri ip host is_tls is_grpc in
            let x := await (request_timeout is_grpc) (e_reply e use_h2 proxied) in
            (client_response x is_grpc, record_reply e u service x (sending u (Http use_h2 proxied) w))
        | _ => (Panic, w)
        end
    end.

Definition forward_to_backend_inner (e : env) (ip : IpAddr) (service : string) (host : option string) (is_tls is_grpc : bool)
    (req : Request) (w : world) : result Empty_set Response * world :=
  let '(sel, m, rng) := select_backend service (w_services w) (w_rng w) in
  let w := {| w_services := m; w_passive := w_passive w; w_rng := rng; w_sent := w_sent w |} in
  match sel with
  | ServiceUnavailable => (error_response_maybe_grpc 503 "Service Unavailable" is_grpc, w)
  | NoHealthyBackends => (error_response_maybe_grpc 503 "No Healthy Backends" is_grpc, w)
  | NotConfigured => (error_response_maybe_grpc 503 "Service Not Configured" is_grpc, w)
  | Selected u parsed => send_to e ip service host is_tls is_grpc u parsed req w
  end.

(** ** The handler *)
Definition host_of (req : Request) : option string :=
  match header_text (rq_headers req) "host" with
  | Some h => Some (default h (head (split_on ":" h)))
  | None => uri_host (rq_uri req)
  end.
Definition attrs_of (req : Request) : Attrs :=
  {| a_host := host_of req; a_path := uri_path (rq_uri req); a_query := uri_query (rq_uri req);
     a_method := Some (rq_method req); a_headers := rq_headers req |}.

(** The clock when the entry is built, and the wall clock. *)
Definition log_of (req : Request) (remote : string) (is_tls : bool) (clock : Z * Z * Z) (status : Z) (route service : option string)
    : AccessLogEntry :=
  finish (builder clock.1.1 remote (rq_method req) (uri_path (rq_uri req)) "HTTP/1.1" (host_of req) (uri_query (rq_uri req))
    (header_text (rq_headers req) "user-agent") (header_text (rq_headers req) "referer") (header_text (rq_headers req) "x-forwarded-for") is_tls)
    clock.1.1 clock.1.2 clock.2 status None route service None.

Definition handle (to_json : AccessLogEntry -> option string) (e : env) (now : nat -> Z * Z) (clock : Z * Z * Z)
    (rt : Router) (entrypoint : string) (ip : IpAddr) (remote : string) (is_tls : bool)
    (req : Request) (reg : gmap string Instance) (log : AccessLogWriter) (w : world)
    : result Empty_set Response * gmap string Instance * AccessLogWriter * world :=
  let is_grpc := is_grpc_request req || is_grpc_web_request req in
  match match_request rt entrypoint (attrs_of req) with
  | Ok None =>
      let r := error_response_maybe_grpc 404 "Not Found" is_grpc in
      (r, reg, match r with Ok rs => write_entry to_json (log_of req remote is_tls clock (rs_status rs) None None) log | _ => log end, w)
  | Ok (Some route) =>
      let fwd := forward_to_backend_inner e ip (r_service route) (host_of req) is_tls is_grpc in
      let '(r, reg, w) :=
        if bool_decide (resolve reg (r_middlewares route) = []) then let '(r, w) := fwd req w in (r, reg, w)
        else run fwd now (resolve reg (r_middlewares route)) req reg w in
      (r, reg,
       match r with
       | Ok rs => write_entry to_json (log_of req remote is_tls clock (rs_status rs) (Some (r_name route)) (Some (r_service route))) log
       | _ => log
       end, w)
  | _ => (Panic, reg, log, w)
  end.
End Handler.

(** ** Error responses are built *)
Section Proofs.
Context `{HL : HttpLaws} `{UL : UriLib} `{UP : !UriParser} `{IL : IpLib} `{RO : RegexOps} `{URL : UrlLib}.
Context (sha1 : string -> string) (server_name_ok : string -> bool).

(** The error response for a status: plain, or in the gRPC form. *)
Definition is_error (r : Response) (status : Z) (is_grpc : bool) : Prop :=
  if is_grpc then rs_status r = 200 /\ header_text (rs_headers r) "grpc-status" = Some (Duration.dec (code (from_http_status status)))
  else rs_status r = status /\ header_text (rs_headers r) "content-type" = Some "text/plain; charset=utf-8".

Lemma error_built status message is_grpc : exists r, error_response_maybe_grpc status message is_grpc = Ok r /\ is_error r status is_grpc.
Proof.
  destruct is_grpc; cbn [error_response_maybe_grpc is_error].
  - destruct (grpc_error_built status message) as (r & H1 & H2 & _ & H3 & _). by exists r.
  - unfold plain_error. destruct (build_header_ok (E := Empty_set) "content-type" "text/plain; charset=utf-8" hm_empty eq_refl) as (v & -> & Hv).
    cbn [res_map]. eexists. split; [done|]. cbn. split; [done|]. unfold header_text. rewrite get_insert_eq. done.
Qed.

(** ** One request as steps of the interleaved system *)
Definition system_of (w : world) : system :=
  {| services := w_services w; passive := w_passive w; rng := w_rng w; inflight := []; pending := [] |}.

(** The steps of a request: it chooses a backend, and if it gets that far,
    records the reply and applies the health change. *)
Inductive request_steps (service : string) : list event -> Prop :=
| refused : request_steps service [Begin service]
| unrecorded : request_steps service [Begin service; Leave 0]
| recorded x el nw nm : request_steps service [Begin service; Service.Reply 0 x el nw nm; Apply 0].

Lemma steps_cons e es s s' : steps (e :: es) s = Some s' -> exists s1, step e s = Some s1 /\ steps es s1 = Some s'.
Proof. cbn [steps]. destruct (step e s) as [s1|]; [|done]. cbn. by exists s1. Qed.

Lemma request_steps_reach service es s s' : request_steps service es -> steps es s = Some s' -> reaches s s'.
Proof.
  intros [| |x el nw nm] Hs; repeat (apply steps_cons in Hs as (? & ? & Hs)); injection Hs as <-;
    repeat (eapply reaches_step; [..|eassumption]); try apply reaches_refl; try done.
  intros j c u n c' n' Hj. lia.
Qed.

Lemma forward_steps e ip service host is_tls is_grpc req w :
  exists es, request_steps service es /\
    steps es (system_of w) = Some (system_of (forward_to_backend_inner sha1 server_name_ok e ip service host is_tls is_grpc req w).2).
Proof.
  unfold forward_to_backend_inner. destruct (select_backend service (w_services w) (w_rng w)) as [[sel m] rng'] eqn:Es.
  assert (Hb : step (Begin service) (system_of w) = Some {| services := m; passive := w_passive w; rng := rng';
    inflight := match sel with Selected u _ => [(service, u)] | _ => [] end; pending := [] |}).
  { cbn [step system_of services rng]. rewrite Es. by destruct sel. }
  destruct sel as [u parsed| | |]; try (exists [Begin service]; split; [constructor|]; cbn [steps]; by rewrite Hb).
  assert (Hleave : steps [Begin service; Leave 0] (system_of w) =
    Some {| services := m; passive := w_passive w; rng := rng'; inflight := []; pending := [] |}) by (cbn [steps]; by rewrite Hb).
  unfold send_to. destruct (_ && is_websocket_upgrade req).
  { exists [Begin service; Leave 0]. split; [constructor|]. by destruct (handle_websocket_upgrade _ _ _ req u) as [r text]. }
  destruct (build_backend_uri_fast u (rq_uri req) parsed) as [uri|]; [|exists [Begin service; Leave 0]; by split; [constructor|]].
  destruct (if is_grpc || is_h2c_backend parsed u then rewrite_h2c_scheme uri else Ok uri) as [uri'| |];
    [|exists [Begin service; Leave 0]; by split; [constructor|]..].
  set (x := await _ _). exists [Begin service; Service.Reply 0 (exchange_of x) (e_elapsed e) (e_now_window e) (e_now_mark e); Apply 0].
  split; [constructor|]. cbn [steps]. rewrite Hb. cbn [mbind option_bind step inflight lookup list_lookup passive services rng pending].
  unfold record_reply. cbn [sending w_passive w_services w_rng].
  destruct (Passive.record_response u _ (w_passive w)) as [change p']. done.
Qed.

(** At most one message leaves, and to a configured server of the service. *)
Lemma forward_sends e ip service host is_tls is_grpc req w : manager_wf (w_services w) ->
  let w' := (forward_to_backend_inner sha1 server_name_ok e ip service host is_tls is_grpc req w).2 in
  w_sent w' = w_sent w \/
  exists u msg ss hs srv, w_sent w' = w_sent w ++ [(u, msg)] /\ view (w_services w) service = Some (ss, hs) /\ srv ∈ ss /\ backend_url srv = u.
Proof.
  intros Hwf. cbn zeta. unfold forward_to_backend_inner.
  destruct (select_backend service (w_services w) (w_rng w)) as [[sel m] rng'] eqn:Es.
  destruct (select_backend_spec _ _ _ _ _ _ Hwf Es) as (_ & _ & Hsel). destruct sel as [u parsed| | |]; try by left.
  destruct (Hsel u parsed eq_refl) as (ss & hs & srv & H1 & H2 & H3 & _). unfold send_to.
  destruct (_ && is_websocket_upgrade req).
  { right. destruct (handle_websocket_upgrade _ _ _ req u) as [r text]. exists u, (WebSocketText text), ss, hs, srv. done. }
  destruct (build_backend_uri_fast u (rq_uri req) parsed) as [uri|]; [|by left].
  destruct (if is_grpc || is_h2c_backend parsed u then rewrite_h2c_scheme uri else Ok uri) as [uri'| |]; [|by left..].
  right. exists u, (Http (is_grpc || is_h2c_backend parsed u) (Forward.build_proxied_request req uri' ip host is_tls is_grpc)), ss, hs, srv.
  split; [|done]. unfold record_reply. by destruct (Passive.record_response u _ _) as [change p'].
Qed.

(** ** The handler *)
Abbreviation handled := (handle sha1 server_name_ok).

(** With a route, the answer is that of its chain; an empty chain is the
    forwarding itself. *)
Lemma handle_routed to_json e now clock rt ep ip remote is_tls req reg log w route :
  match_request rt ep (attrs_of req) = Ok (Some route) ->
  let fwd := forward_to_backend_inner sha1 server_name_ok e ip (r_service route) (host_of req) is_tls
    (is_grpc_request req || is_grpc_web_request req) in
  let '(r, reg', w') := run_chain (E := Empty_set) fwd now (r_middlewares route) req reg w in
  handled to_json e now clock rt ep ip remote is_tls req reg log w =
    (r, reg', match r with
              | Ok rs => write_entry to_json (log_of req remote is_tls clock (rs_status rs) (Some (r_name route)) (Some (r_service route))) log
              | _ => log
              end, w').
Proof.
  intros Hm. cbn zeta. unfold handle, run_chain. rewrite Hm. case_bool_decide as He.
  - rewrite He. cbn [run]. by destruct (forward_to_backend_inner _ _ _ _ _ _ _ _ _ _) as [r w'].
  - by destruct (run _ _ _ _ _ _) as [[r reg'] w'].
Qed.

(** Whatever the handler does to balancers and health records is a run of the
    interleaved system. *)
Lemma handle_reaches to_json e now clock rt ep ip remote is_tls req reg log w :
  reaches (system_of w) (system_of (handled to_json e now clock rt ep ip remote is_tls req reg log w).2).
Proof.
  destruct (match_request rt ep (attrs_of req)) as [[route|]| |] eqn:Ho; try (unfold handle; rewrite Ho; apply reaches_refl).
  pose proof (handle_routed to_json e now clock rt ep ip remote is_tls req reg log w route Ho) as Hh. cbn zeta in Hh.
  set (fwd := forward_to_backend_inner sha1 server_name_ok e ip (r_service route) (host_of req) is_tls _) in Hh.
  pose proof (run_once (E := Empty_set) fwd now (resolve reg (r_middlewares route)) req reg w) as Hone.
  fold (run_chain (E := Empty_set) fwd now (r_middlewares route) req reg w) in Hone.
  destruct (run_chain (E := Empty_set) fwd now (r_middlewares route) req reg w) as [[r reg'] w']. rewrite Hh. cbn [snd].
  destruct Hone as [[-> _]|(req' & after & _ & -> & _)]; [apply reaches_refl|].
  destruct (forward_steps e ip (r_service route) (host_of req) is_tls (is_grpc_request req || is_grpc_web_request req) req' w) as (es & Hes & Hs).
  by eapply request_steps_reach.
Qed.

(** At most one message, to a server of some service. *)
Lemma handle_sends to_json e now clock rt ep ip remote is_tls req reg log w : manager_wf (w_services w) ->
  let w' := (handled to_json e now clock rt ep ip remote is_tls req reg log w).2 in
  w_sent w' = w_sent w \/
  exists n u msg ss hs srv, w_sent w' = w_sent w ++ [(u, msg)] /\ view (w_services w) n = Some (ss, hs) /\ srv ∈ ss /\ backend_url srv = u.
Proof.
  intros Hwf. cbn zeta. destruct (match_request rt ep (attrs_of req)) as [[route|]| |] eqn:Ho; try (left; unfold handle; by rewrite Ho).
  pose proof (handle_routed to_json e now clock rt ep ip remote is_tls req reg log w route Ho) as Hh. cbn zeta in Hh.
  set (fwd := forward_to_backend_inner sha1 server_name_ok e ip (r_service route) (host_of req) is_tls _) in Hh.
  pose proof (run_once (E := Empty_set) fwd now (resolve reg (r_middlewares route)) req reg w) as Hone.
  fold (run_chain (E := Empty_set) fwd now (r_middlewares route) req reg w) in Hone.
  destruct (run_chain (E := Empty_set) fwd now (r_middlewares route) req reg w) as [[r reg'] w']. rewrite Hh. cbn [snd].
  destruct Hone as [[-> _]|(req' & after & _ & -> & _)]; [by left|].
  destruct (forward_sends e ip (r_service route) (host_of req) is_tls (is_grpc_request req || is_grpc_web_request req) req' w Hwf) as [Hs|Hs]; [by left|].
  right. exists (r_service route). exact Hs.
Qed.

(** C3. A request from end to end. The router of a configuration never aborts the
    handler. Without an eligible route the answer is the 404 error, nothing is
    sent and nothing changes. Otherwise the route that is taken is a configured
    and eligible one that no eligible route outranks (up to host precedence);
    at most one message is sent, and only to a configured server of that
    route's service; what happens to the balancers and health records is a run
    of the interleaved system; and if the route names a registered IP filter
    that rejects the client, nothing is sent and nothing changes. *)
Theorem handle_end_to_end to_json e now clock cfg rt ep ip remote is_tls req reg log w :
  from_config cfg = Some rt -> manager_wf (w_services w) ->
  let '(r, reg', _, w') := handled to_json e now clock rt ep ip remote is_tls req reg log w in
  exists o, match_request rt ep (attrs_of req) = Ok o /\
  match o with
  | None => (forall route, configured cfg route -> eligible route ep (attrs_of req) = false) /\ w' = w /\ reg' = reg /\
      exists rs, r = Ok rs /\ is_error rs 404 (is_grpc_request req || is_grpc_web_request req)
  | Some route =>
      configured cfg route /\ eligible route ep (attrs_of req) = true /\
      (forall r', configured cfg r' -> eligible r' ep (attrs_of req) = true ->
         r_host_indexed r' = true \/ r_host_indexed route = false -> r_priority r' <= r_priority route) /\
      reaches (system_of w) (system_of w') /\
      (w_sent w' = w_sent w \/
       exists u msg ss hs srv, w_sent w' = w_sent w ++ [(u, msg)] /\ view (w_services w) (r_service route) = Some (ss, hs) /\
         srv ∈ ss /\ backend_url srv = u) /\
      (forall n i a, n ∈ r_middlewares route -> reg !! n = Some i -> client_ip req = Some a -> guard_rejects i a = true -> w' = w)
  end.
Proof.
  intros Hcfg Hwf. destruct (match_request_spec cfg rt ep (attrs_of req) Hcfg) as (o & Ho & Hspec). destruct o as [route|].
  - pose proof (handle_routed to_json e now clock rt ep ip remote is_tls req reg log w route Ho) as Hh. cbn zeta in Hh.
    set (fwd := forward_to_backend_inner sha1 server_name_ok e ip (r_service route) (host_of req) is_tls _) in Hh.
    pose proof (run_once (E := Empty_set) fwd now (resolve reg (r_middlewares route)) req reg w) as Hone. fold (run_chain (E := Empty_set) fwd now (r_middlewares route) req reg w) in Hone.
    assert (Hguard : forall n i a, n ∈ r_middlewares route -> reg !! n = Some i -> client_ip req = Some a -> guard_rejects i a = true ->
      (run_chain (E := Empty_set) fwd now (r_middlewares route) req reg w).2 = w).
    { intros n i a Hn Hi Ha Hg. apply (run_guard fwd fwd now n a _ req reg w i Ha); [|done|done]. apply list_elem_of_filter. split; [by eexists|done]. }
    destruct (run_chain (E := Empty_set) fwd now (r_middlewares route) req reg w) as [[r reg'] w'] eqn:Er. rewrite Hh. exists (Some route).
    split; [done|]. destruct Hspec as (H1 & H2 & H3). split_and!; [done|done|done| | |exact Hguard].
    + pose proof (handle_reaches to_json e now clock rt ep ip remote is_tls req reg log w) as Hr. by rewrite Hh in Hr.
    + destruct Hone as [[-> _]|(req' & after & _ & -> & _)]; [by left|]. by apply forward_sends.
  - unfold handle. rewrite Ho. exists None. split; [done|]. split_and!; [exact Hspec|done|done|apply error_built].
Qed.

(** ** Any number of requests *)
Record arrival := {
  ar_env : env; ar_now : nat -> Z * Z; ar_clock : Z * Z * Z; ar_entrypoint : string;
  ar_ip : IpAddr; ar_remote : string; ar_tls : bool; ar_request : Request;
}.
Definition serve (to_json : AccessLogEntry -> option string) (rt : Router) (st : gmap string Instance * AccessLogWriter * world) (a : arrival)
    : gmap string Instance * AccessLogWriter * world :=
  let '(_, reg, log, w) := handled to_json (ar_env a) (ar_now a) (ar_clock a) rt (ar_entrypoint a) (ar_ip a) (ar_remote a) (ar_tls a)
    (ar_request a) st.1.1 st.1.2 st.2 in (reg, log, w).
Definition world_start (cfg : list (string * ServiceConfig)) (pc : Passive.PassiveHealthConfig) (seed : Z) : world :=
  {| w_services := manager_new cfg; w_passive := Passive.new pc; w_rng := seed; w_sent := [] |}.

Lemma reaches_trans s1 s2 s3 : reaches s1 s2 -> reaches s2 s3 -> reaches s1 s3.
Proof. intros H1 H2. induction H2 as [|s e s' _ IH Hq Hs]; [done|]. by eapply reaches_step. Qed.

Lemma serve_reaches to_json rt arrivals : forall st, reaches (system_of st.2) (system_of (foldl (serve to_json rt) st arrivals).2).
Proof.
  induction arrivals as [|a arrivals IH]; intros st; [apply reaches_refl|]. cbn [foldl]. eapply reaches_trans; [|apply IH].
  unfold serve at 1. pose proof (handle_reaches to_json (ar_env a) (ar_now a) (ar_clock a) rt (ar_entrypoint a) (ar_ip a) (ar_remote a) (ar_tls a)
    (ar_request a) st.1.1 st.1.2 st.2) as Hr. by destruct (handled _ _ _ _ _ _ _ _ _ _ _ _ _) as [[[r reg] log] w].
Qed.

(** Health stays consistent over any requests. After the proxy has served any
    requests one after the other, through any routes and middlewares and with
    any replies, errors and timeouts of the backends: the flag each balancer
    holds for a server whose address no other server has is the passive
    checker's verdict on it. *)
Theorem served_health_agrees to_json rt cfg pc seed reg log arrivals n st b i srv :
  sizes_ok cfg -> keys_ok cfg -> occurs_once cfg (url srv) ->
  let w := (foldl (serve to_json rt) (reg, log, world_start cfg pc seed) arrivals).2 in
  w_services w !! n = Some st -> balancer st = Some b -> lb_servers b !! i = Some srv ->
  lb_health b !! i = Some (Passive.is_healthy (w_passive w) (url srv)).
Proof.
  intros Hcfg Hk Hu w Hn Hb Hi. pose proof (serve_reaches to_json rt arrivals (reg, log, world_start cfg pc seed)) as Hr. fold w in Hr.
  pose proof (reaches_inv _ _ _ (start_inv cfg pc seed _ Hcfg Hk Hu) Hr) as Hinv.
  assert (Hv : view (services (system_of w)) n = Some (lb_servers b, lb_health b)) by (apply view_Some; eauto 6).
  destruct (inv_agree _ _ Hinv _ _ _ _ _ Hv Hi eq_refl) as (f & Hf & Hs). rewrite Hf. f_equal. exact Hs.
Qed.

(** ** Answers *)

(** What the client gets for what the backend did. *)
Lemma client_answer x is_grpc : exists r, client_response x is_grpc = Ok r /\
  match x with
  | Replied rs => rs_status r = rs_status rs /\ rs_body r = rs_body rs /\
      forall k, hm_get (rs_headers r) k = if decide (is_grpc = false /\ k ∈ Forward.hop_by_hop_headers) then None else hm_get (rs_headers rs) k
  | RequestFailed => is_error r 502 is_grpc
  | TimedOut => is_error r 504 is_grpc
  end.
Proof.
  destruct x as [rs| |]; cbn [client_response]; [|apply error_built..]. eexists. split; [done|]. destruct is_grpc.
  - split_and!; [done|done|]. intros k. rewrite decide_False; [done|]. by intros [? _].
  - split_and!; [done|done|]. intros k. cbn [with_rs_headers rs_headers]. rewrite get_remove_all.
    destruct (decide (k ∈ Forward.hop_by_hop_headers)); [by rewrite decide_True|]. rewrite decide_False; [done|]. by intros [_ ?].
Qed.
(** The address a request is sent to: that of the backend with the client's path,
    where an HTTP/2 request names [http] in the place of [h2c]. *)
Definition sent_address (use_h2 : bool) (uri uri' : Uri) : Prop :=
  (use_h2 = false \/ uri_scheme uri <> Some "h2c" -> uri' = uri) /\
  (forall a pq v, use_h2 = true -> uri_scheme uri = Some "h2c" -> uri_authority uri = Some a -> uri_path_and_query uri = Some pq ->
     uri_build (Some "http") (Some a) pq = Some v -> uri' = v).
Lemma rewritten_address (use_h2 : bool) (uri u0 : Uri) : uri_parse "/" = Some u0 ->
  exists uri' : Uri, (if use_h2 then rewrite_h2c_scheme uri else Ok uri) = Ok uri' /\ sent_address use_h2 uri uri'.
Proof.
  intros Hroot. unfold rewrite_h2c_scheme, sent_address. destruct use_h2; [|exists uri; by split].
  case_bool_decide as E; [|exists uri; split; [done|split; [done|by intros]]].
  destruct (uri_authority uri) as [a|] eqn:Ea; [|exists u0; cbn; rewrite Hroot; split; [done|split; [by intros [?|?]|by intros]]].
  destruct (uri_path_and_query uri) as [pq|] eqn:Ep; [|exists u0; cbn; rewrite Hroot; split; [done|split; [by intros [?|?]|by intros]]]. cbn.
  destruct (uri_build _ _ pq) as [v|] eqn:Eb; [exists v|exists u0; rewrite Hroot]; (split; [done|split; [by intros [?|?]|]]); intros; by simplify_eq.
Qed.
(** What a recorded status does to the health record of the backend and the flags
    of the service. *)
Definition records (e : env) (u service : string) (code : Z) (p : Passive.Checker) (m : manager) (w' : world) : Prop :=
  let '(change, p') := Passive.record_response u
    {| Passive.status_code := code; Passive.response_time := e_elapsed e; Passive.now_window := e_now_window e; Passive.now_mark := e_now_mark e |} p in
  w_passive w' = p' /\ w_services w' = apply_health_change change u service m.

End Proofs.

(** ** Addresses, with and without pre-parsing *)

(** What printing, parsing and building have in common, for texts that name a
    scheme and an authority and paths that start with a slash. *)
Class UriRoundTrip `{UP : UriParser} := {
  uri_show : Uri -> string;
  build_typed : forall text v s a pq, uri_parse text = Some v -> uri_scheme v = Some s -> uri_authority v = Some a ->
    starts_with "/" pq = true -> is_Some (uri_build (Some s) (Some a) pq);
  show_built : forall s a pq u, starts_with "/" pq = true -> uri_build (Some s) (Some a) pq = Some u ->
    uri_show u = s +:+ "://" +:+ a +:+ pq;
  parse_shown : forall text v s a pq u, uri_parse text = Some v -> uri_scheme v = Some s -> uri_authority v = Some a ->
    uri_build (Some s) (Some a) pq = Some u -> uri_parse (uri_show u) = Some u;
}.

Section Addresses.
Context `{RT : UriRoundTrip} `{UW : !UriLaws}.

Definition parts_of (text : string) : option (option string * option string) :=
  (fun u => (uri_scheme u, uri_authority u)) <$> uri_parse text.

(** The pre-parsed address is the parsed one. For a server that went through
    the pre-parsing of the configuration and a request whose path starts with a
    slash, the optimised construction of the backend's address gives the same
    result as parsing the server's URL on every request; and an address built
    from a URL with scheme and authority has that scheme and that authority,
    and exactly the path and query of the request (the server's own path is not
    used). *)
Theorem backend_uri_equivalence s orig : parsed_uri s = None ->
  let pq := default "/" (uri_path_and_query orig) in
  starts_with "/" pq = true ->
  let parsed := parsed_uri (pre_parse_server parts_of s) in
  build_backend_uri_fast (url s) orig parsed = build_backend_uri (url s) orig /\
  (forall v sc au, uri_parse (url s) = Some v -> uri_scheme v = Some sc -> uri_authority v = Some au ->
     exists u, build_backend_uri (url s) orig = Some u /\ uri_scheme u = Some sc /\ uri_authority u = Some au /\
       (str_forall (fun c => negb (Ascii.eqb c "#")) pq = true ->
        (uri_path u, uri_query u) = match split_once "?" pq with Some (p, q) => (p, Some q) | None => (pq, None) end)).
Proof.
  intros Hnone pq Hpq parsed.
  assert (Hslow : forall v sc au, uri_parse (url s) = Some v -> uri_scheme v = Some sc -> uri_authority v = Some au ->
    build_backend_uri (url s) orig = uri_build (Some sc) (Some au) pq).
  { intros v sc au Hv Hsc Hau. unfold build_backend_uri. rewrite Hv. cbn [mbind option_bind]. rewrite Hsc, Hau. cbn [default from_option id]. fold pq.
    destruct (build_typed (url s) v sc au pq Hv Hsc Hau Hpq) as [u Hu]. rewrite Hu.
    rewrite <- (show_built sc au pq u Hpq Hu). by apply (parse_shown (url s) v sc au pq). }
  split.
  - unfold parsed, pre_parse_server, parts_of. cbn [parsed_uri]. destruct (uri_parse (url s)) as [v|] eqn:Hv; cbn [fmap option_fmap option_map];
      [|by rewrite Hnone].
    destruct (uri_scheme v) as [sc|] eqn:Hsc; [|by rewrite Hnone]. destruct (uri_authority v) as [au|] eqn:Hau; [|by rewrite Hnone].
    cbn [build_backend_uri_fast scheme authority]. fold pq. symmetry. by apply (Hslow v).
  - intros v sc au Hv Hsc Hau. rewrite (Hslow v sc au Hv Hsc Hau). destruct (build_typed (url s) v sc au pq Hv Hsc Hau Hpq) as [u Hu].
    rewrite Hu. exists u. split_and!; [done|by eapply build_scheme|by eapply build_authority|]. intros Hh. by eapply build_path.
Qed.
End Addresses.

(** ** A run *)
#[local] Existing Instance map_http.
#[local] Existing Instance text_uri.
#[local] Existing Instance two_hosts.
#[local] Existing Instance no_regex_ops.
#[local] Existing Instance text_url.

(** Two backends have addresses that parse. *)
#[local] Instance demo_parser : UriParser := {|
  uri_parse s :=
    match RustStr.strip_prefix "http://a" s, RustStr.strip_prefix "http://b" s with
    | Some pq, _ => Some (Some "http", Some "a", if bool_decide (pq = "") then "/" else pq)
    | None, Some pq => Some (Some "http", Some "b", if bool_decide (pq = "") then "/" else pq)
    | None, None => if starts_with "/" s then Some (None, None, s) else None
    end;
  uri_host u := uri_authority u;
|}.

#[local] Instance demo_roundtrip : UriRoundTrip.
Proof.
  apply (Build_UriRoundTrip _ _ (fun u : @Uri text_uri => default "" u.1.1 +:+ "://" +:+ default "" u.1.2 +:+ u.2)).
  - cbn. intros text v s a pq _ _ _ ->. by eexists.
  - cbn. intros s a pq u -> [= <-]. done.
  - intros text v s a pq u Hv Hs Ha. cbn [uri_build text_uri]. destruct (starts_with "/" pq) eqn:Hpq; [|done]. intros [= <-].
    cbn [uri_scheme uri_authority text_uri fst snd default from_option id] in *.
    assert (Hne : pq <> "") by (by intros ->).
    assert (Hsa : s = "http" /\ (a = "a" \/ a = "b")).
    { cbn [uri_parse demo_parser] in Hv. destruct (RustStr.strip_prefix "http://a" text), (RustStr.strip_prefix "http://b" text);
        try destruct (starts_with "/" text); simplify_eq/=; auto. }
    destruct Hsa as [-> [-> | ->]]; cbn [uri_parse demo_parser String.append RustStr.strip_prefix Ascii.eqb Bool.eqb andb];
      by rewrite bool_decide_eq_false_2.
Defined.

Definition demo_router : option Router :=
  from_config [("all", {| rc_entry_points := []; rc_rule := "PathPrefix(`/`)"; rc_service := "web"; rc_middlewares := ["deny"]; rc_priority := 0 |})].
Definition demo_rt : Router :=
  match demo_router with Some rt => rt | None => {| routes := []; candidates_by_ep := ∅; catch_all := []; host_index := ∅ |} end.
Definition demo_env (d : Z) (o : option Response) : env :=
  {| e_reply _ _ := (d, o); e_connect := ws_backend []; e_elapsed := 0; e_now_window := 0; e_now_mark := 0 |}.
Definition demo_world : world := world_start two_backends trip_once 7.
Definition demo_reply : Response := {| rs_status := 500; rs_headers := hm_empty; rs_body := Streamed |}.

Definition demo_run (client : @IpAddr two_hosts) :=
  handle (fun s => s) (fun _ => true) (fun e => Some (path e)) (demo_env 0 (Some demo_reply)) (fun _ => (0, 0)) (0, 0, 0) demo_rt
    "web" client "1.2.3.4:5" false (demo_request client) demo_registry (Some []) demo_world.
Definition answered (r : result Empty_set Response) : option Z := match r with Ok r => Some (rs_status r) | _ => None end.

Lemma demo_router_ok : demo_router = Some demo_rt.
Proof. vm_compute. reflexivity. Qed.

(** The client the filter accepts reaches the first backend; the other one is
    turned away. *)
Lemma handle_end_to_end_witness :
  answered (demo_run true).1.1.1 = Some 500 /\ (demo_run true).1.2 = Some ["/x"] /\ fst <$> w_sent (demo_run true).2 = ["http://a"] /\
  answered (demo_run false).1.1.1 = Some 403 /\ (demo_run false).2 = demo_world.
Proof.
  split_and!; [vm_compute; reflexivity..|].
  pose proof (handle_end_to_end (fun s => s) (fun _ => true) (fun e => Some (path e)) (demo_env 0 (Some demo_reply)) (fun _ => (0, 0)) (0, 0, 0)
    _ demo_rt "web" (false : @IpAddr two_hosts) "1.2.3.4:5" false (demo_request false) demo_registry (Some []) demo_world demo_router_ok
    (start_wf two_backends two_backends_ok)) as H.
  unfold demo_run. destruct (handle _ _ _ _ _ _ _ _ _ _ _ _ _ _ _) as [[[r reg'] log'] w']. cbn [snd].
  destruct H as (o & Ho & Hm). vm_compute in Ho. injection Ho as <-. destruct Hm as (_ & _ & _ & _ & _ & Hg).
  apply (Hg "deny" (IIpDeny (IpFilter.new ["192.168.1.1"] None None)) false); [left|reflexivity|reflexivity|vm_compute; reflexivity].
Defined.

Definition demo_arrival (client : bool) : arrival :=
  {| ar_env := demo_env 0 (Some demo_reply); ar_now _ := (0, 0); ar_clock := (0, 0, 0); ar_entrypoint := "web"; ar_ip := client : @IpAddr two_hosts;
     ar_remote := "1.2.3.4:5"; ar_tls := false; ar_request := demo_request client |}.

Definition demo_after : world :=
  (foldl (serve (fun s => s) (fun _ => true) (fun _ => None) demo_rt) (demo_registry, None, demo_world) [demo_arrival true]).2.

(** One failed request: the first server is marked, as the checker says. *)
Lemma served_health_agrees_witness :
  Passive.is_healthy (w_passive demo_after) "http://a" = false /\
  exists st b, w_services demo_after !! "web" = Some st /\ balancer st = Some b /\
    lb_health b !! 0%nat = Some (Passive.is_healthy (w_passive demo_after) (url (mk_server "http://a" 1))).
Proof.
  split; [vm_compute; reflexivity|].
  destruct (w_services demo_after !! "web") as [st|] eqn:Est; [|vm_compute in Est; discriminate].
  destruct (balancer st) as [b|] eqn:Eb; [|exfalso; vm_compute in Est; injection Est as <-; vm_compute in Eb; discriminate].
  exists st, b. split_and!; [done|done|].
  apply (served_health_agrees (fun s => s) (fun _ => true) (fun _ => None) demo_rt two_backends trip_once 7 demo_registry None [demo_arrival true]
    "web" st b 0 (mk_server "http://a" 1) two_backends_ok two_backends_keys eq_refl Est Eb).
  vm_compute in Est. injection Est as <-. vm_compute in Eb. injection Eb as <-. vm_compute. reflexivity.
Defined.


Lemma backend_uri_equivalence_witness :
  let s := mk_server "http://b" 1 in
  let parsed := parsed_uri (pre_parse_server parts_of s) in
  build_backend_uri_fast (url s) ((None, None, "/x?y") : @Uri text_uri) parsed = Some (Some "http", Some "b", "/x?y") /\
  build_backend_uri_fast (url s) ((None, None, "/x?y") : @Uri text_uri) parsed = build_backend_uri (url s) ((None, None, "/x?y") : @Uri text_uri).
Proof.
  split; [vm_compute; reflexivity|]. apply (backend_uri_equivalence (mk_server "http://b" 1) ((None, None, "/x?y") : @Uri text_uri)); reflexivity.
Defined.
