(* ===== verification/TcpProxy.v ===== *)
(** * The TCP proxy

    Models src/src/tcp/proxy.rs: the reader of the server name in a TLS
    ClientHello, the peeking at a new connection, and the handling of a
    connection up to the point where bytes are copied both ways. Texts are their
    bytes; an index or slice out of range aborts. What the peeks of the
    socket give and whether a backend can be reached are inputs. *)
From S2P Require Import Prelude RustStr Net Encoding L4.
From stdpp Require Import list.
Open Scope nat_scope.
Open Scope list_scope.
Open Scope rust_scope.

(** ** Bytes *)

(** [data\[i\]], the two-byte number at [i], and [&data\[a..b\]] *)
Definition byte (data : string) (i : nat) : result Empty_set nat :=
  match String.get i data with Some c => Ok (nat_of_ascii c) | None => Panic end.
Definition u16_at (data : string) (i : nat) : result Empty_set nat :=
  hi <-? byte data i ;; lo <-? byte data (i + 1) ;; Ok (Nat.lor (Nat.shiftl hi 8) lo).
Definition slice (data : string) (a b : nat) : result Empty_set string :=
  if (a <=? b) && (b <=? String.length data) then Ok (str_take (b - a) (str_drop a data)) else Panic.

(** ** The server name *)
Definition parse_sni_extension (data : string) : result Empty_set (option string) :=
  if String.length data <? 5 then Ok None
  else
    _ <-? u16_at data 0 ;;
    name_type <-? byte data 2 ;;
    if negb (name_type =? 0) then Ok None
    else
      name_len <-? u16_at data 3 ;;
      if String.length data <? 5 + name_len then Ok None
      else
        name <-? slice data 5 (5 + name_len) ;;
        Ok (if utf8_valid name then Some name else None).

(** A read of the data inside the loop and the reader. *)
Definition read {A B} (r : result Empty_set A) (k : A -> option (result Empty_set B)) : option (result Empty_set B) :=
  match r with Ok a => k a | _ => Some Panic end.
#[local] Notation "x <-! r ;; k" := (read r (fun x => k)) (at level 100, r at next level, right associativity).

(** The loop over the extensions. Each takes at least four bytes, so as many
    rounds as there are bytes suffice ([ext_loop_ends]). *)
Fixpoint ext_loop (fuel : nat) (data : string) (offset extensions_end : nat) : option (result Empty_set (option string)) :=
  match fuel with
  | O => None
  | S fuel' =>
      if offset + 4 <=? extensions_end then
        ext_type <-! u16_at data offset ;;
        ext_len <-! u16_at data (offset + 2) ;;
        let offset := offset + 4 in
        if ext_type =? 0 then Some (e <-? slice data offset (offset + ext_len) ;; parse_sni_extension e)
        else ext_loop fuel' data (offset + ext_len) extensions_end
      else Some (Ok None)
  end.

Definition parse_sni_fuel (fuel : nat) (data : string) : option (result Empty_set (option string)) :=
  let len := String.length data in
  if len <? 38 then Some (Ok None)
  else
    ty <-! byte data 0 ;;
    if negb (ty =? 1) then Some (Ok None)
    else
      let offset := 1 + 3 + 2 + 32 in
      if len <=? offset then Some (Ok None)
      else
        session_id_len <-! byte data offset ;;
        let offset := offset + (1 + session_id_len) in
        if len <? offset + 2 then Some (Ok None)
        else
          cipher_suites_len <-! u16_at data offset ;;
          let offset := offset + (2 + cipher_suites_len) in
          if len <? offset + 1 then Some (Ok None)
          else
            compression_len <-! byte data offset ;;
            let offset := offset + (1 + compression_len) in
            if len <? offset + 2 then Some (Ok None)
            else
              extensions_len <-! u16_at data offset ;;
              let offset := offset + 2 in
              let extensions_end := offset + extensions_len in
              if len <? extensions_end then Some (Ok None)
              else ext_loop fuel data offset extensions_end.
Definition parse_sni (data : string) : result Empty_set (option string) :=
  default (Ok None) (parse_sni_fuel (S (String.length data)) data).

(** ** Peeking *)
Inductive peek := PeekError | PeekTimeout | Peeked (bytes : string).

Fixpoint zero_bytes (n : nat) : string := match n with O => "" | S n' => String (byte_at 0) (zero_bytes n') end.
(** [peek(&mut buf)]: the bytes that fit overwrite the start of the buffer. *)
Definition fill (buf bytes : string) : string * nat :=
  let got := str_take (String.length buf) bytes in (got +:+ str_drop (String.length got) buf, String.length got).
Definition resize (n : nat) (buf : string) : string := str_take n buf +:+ zero_bytes (n - String.length buf).

(** The server name; [Err] is an error of the socket. *)
Definition peek_tls_sni (first second : peek) : result unit (option string) :=
  match first with
  | PeekError => Err tt
  | PeekTimeout => Ok None
  | Peeked bytes =>
      let '(buf, n) := fill (zero_bytes 1024) bytes in
      if n <? 5 then Ok None
      else match byte buf 0, u16_at buf 3 with
      | Ok content_type, Ok record_length =>
        if negb (content_type =? 22) then Ok None
        else
          let total_needed := 5 + record_length in
          let buf := if String.length buf <? total_needed then resize (total_needed `min` (16 * 1024)) buf else buf in
          match second with
          | PeekError => Err tt
          | PeekTimeout => Ok None
          | Peeked bytes =>
              let '(buf, n) := fill buf bytes in
              if n <? total_needed `min` String.length buf then Ok None
              else match parse_sni (str_drop 5 buf) with Ok sni => Ok sni | Err e => match e with end | Panic => Panic end
          end
      | _, _ => Panic
      end
  end.

(** ** Connections *)
Inductive tcp_end := NoRoute | NoService | NoBackend | ConnectFailed (address : string) | Proxied (address : string).

Section Connection.
Context `{IL : IpLib}.

(** The part after the server name is known; [connects] tells which backends
    accept a connection in time. *)
Definition dispatch (rt : L4Router) (m : gmap string (L4Service TcpBackendServer)) (sni : option string)
    (client : IpAddr) (ep : string) (connects : string -> bool) : tcp_end * gmap string (L4Service TcpBackendServer) :=
  match l4_match rt ep sni (Some client) with
  | None => (NoRoute, m)
  | Some route =>
      let name := l4_service (rt_config route) in
      match l4_get_service m name with
      | None => (NoService, m)
      | Some s =>
          let '(backend, s') := next_server s in
          let m := <[name := s']> m in
          match backend with
          | None => (NoBackend, m)
          | Some b => (if connects (tcp_address b) then Proxied (tcp_address b) else ConnectFailed (tcp_address b), m)
          end
      end
  end.

Definition handle_connection (rt : L4Router) (m : gmap string (L4Service TcpBackendServer)) (first second : peek)
    (client : IpAddr) (ep : string) (connects : string -> bool)
    : result Empty_set (tcp_end * gmap string (L4Service TcpBackendServer)) :=
  sni <-? match peek_tls_sni first second with Ok sni => Ok sni | Err _ => Ok None | Panic => Panic end ;;
  Ok (dispatch rt m sni client ep connects).
End Connection.

(** ** A ClientHello, as RFC 8446 lays it out *)
Definition be16 (n : nat) : string := String (byte_at (n / 256)) (String (byte_at (n mod 256)) "").
Definition vec8 (s : string) : string := String (byte_at (String.length s)) s.
Definition vec16 (s : string) : string := be16 (String.length s) +:+ s.
Definition str_concat (l : list string) : string := foldr String.append "" l.

Record client_hello := {
  ch_length : string; (* three bytes *)
  ch_version : string; (* two bytes *)
  ch_random : string; (* 32 bytes *)
  ch_session : string;
  ch_ciphers : string;
  ch_compression : string;
  ch_extensions : list (nat * string);
}.
Definition ext_bytes (e : nat * string) : string := be16 e.1 +:+ vec16 e.2.
Definition hello_head (h : client_hello) : string :=
  String (byte_at 1) (ch_length h +:+ ch_version h +:+ ch_random h) +:+ vec8 (ch_session h) +:+ vec16 (ch_ciphers h) +:+ vec8 (ch_compression h).
Definition hello_bytes (h : client_hello) : string := hello_head h +:+ vec16 (str_concat (ext_bytes <$> ch_extensions h)).
Definition hello_ok (h : client_hello) : bool :=
  (String.length (ch_length h) =? 3) && (String.length (ch_version h) =? 2) && (String.length (ch_random h) =? 32) &&
  (String.length (ch_session h) <? 256) && (String.length (ch_ciphers h) <? 256 * 256) && (String.length (ch_compression h) <? 256) &&
  forallb (fun e => (e.1 <? 256 * 256) && (String.length e.2 <? 256 * 256)) (ch_extensions h) &&
  (String.length (str_concat (ext_bytes <$> ch_extensions h)) <? 256 * 256).
(** The extension with one host name. *)
Definition sni_ext (host : string) : string := vec16 (String (byte_at 0) (vec16 host)).

(** ** Reading what was written *)
Lemma get_app a b i : String.get (String.length a + i) (a +:+ b) = String.get i b.
Proof. induction a as [|c a IH]; [done|exact IH]. Qed.
Lemma byte_app a c b : byte (a +:+ String c b) (String.length a) = Ok (nat_of_ascii c).
Proof. unfold byte. by rewrite <- (Nat.add_0_r (String.length a)), get_app. Qed.
Lemma byte_at_nat n : n < 256 -> nat_of_ascii (byte_at n) = n.
Proof. apply Ascii.nat_ascii_embedding. Qed.

Lemma lor_shiftl hi lo : lo < 256 -> Nat.lor (Nat.shiftl hi 8) lo = hi * 256 + lo.
Proof.
  intros Hl. assert (Hd : Nat.land (Nat.shiftl hi 8) lo = 0).
  { apply Nat.bits_inj. intros n. rewrite Nat.land_spec, Nat.bits_0. destruct (Nat.lt_ge_cases n 8) as [Hn|Hn].
    - by rewrite Nat.shiftl_spec_low.
    - rewrite <- (Nat.mod_small lo (2 ^ 8)) by (cbn; lia). by rewrite Nat.mod_pow2_bits_high, andb_false_r. }
  rewrite <- Nat.lxor_lor, <- Nat.add_nocarry_lxor by done. by rewrite Nat.shiftl_mul_pow2.
Qed.

Lemma u16_app a n b : n < 256 * 256 -> u16_at (a +:+ be16 n +:+ b) (String.length a) = Ok n.
Proof.
  intros Hn. unfold u16_at, be16. cbn [String.append]. rewrite byte_app. cbn [res_bind].
  change (String (byte_at (n / 256)) ?r) with (String (byte_at (n / 256)) "" +:+ r). rewrite <- str_app_assoc.
  replace (String.length a + 1) with (String.length (a +:+ String (byte_at (n / 256)) "")) by (rewrite str_length_app; cbn; lia).
  rewrite byte_app. cbn [res_bind]. pose proof (Nat.mod_upper_bound n 256). assert (n / 256 < 256) by (apply Nat.Div0.div_lt_upper_bound; lia).
  rewrite !byte_at_nat, lor_shiftl by lia. f_equal. pose proof (Nat.div_mod_eq n 256). lia.
Qed.

Lemma slice_app a b c : slice (a +:+ b +:+ c) (String.length a) (String.length a + String.length b) = Ok b.
Proof.
  unfold slice. rewrite !str_length_app, (proj2 (Nat.leb_le _ _)), (proj2 (Nat.leb_le _ _)) by lia. cbn [andb].
  by rewrite str_drop_app, Nat.add_comm, Nat.add_sub, str_take_app.
Qed.

(** The extension reader gives back the host name. *)
Lemma sni_ext_parsed host : String.length host + 3 < 256 * 256 ->
  parse_sni_extension (sni_ext host) = Ok (if utf8_valid host then Some host else None).
Proof.
  intros Hh. assert (Hlen : String.length (sni_ext host) = 5 + String.length host)
    by (unfold sni_ext, vec16, be16; cbn [String.append String.length]; done).
  unfold parse_sni_extension. rewrite Hlen, (proj2 (Nat.ltb_ge _ _)) by lia.
  assert (H0 : u16_at (sni_ext host) 0 = Ok (3 + String.length host)).
  { apply (u16_app "" (3 + String.length host) (String (byte_at 0) (vec16 host))). lia. }
  assert (H2 : byte (sni_ext host) 2 = Ok 0) by (apply (byte_app (be16 (3 + String.length host)) (byte_at 0) (vec16 host))).
  assert (H3 : u16_at (sni_ext host) 3 = Ok (String.length host)).
  { apply (u16_app (be16 (3 + String.length host) +:+ String (byte_at 0) "") (String.length host) host). lia. }
  rewrite H0, H2. cbn [res_bind negb Nat.eqb]. rewrite H3. cbn [res_bind]. rewrite (proj2 (Nat.ltb_ge _ _)) by lia.
  assert (Hs : slice (sni_ext host) 5 (5 + String.length host) = Ok host).
  { rewrite <- (slice_app (be16 (3 + String.length host) +:+ String (byte_at 0) (be16 (String.length host))) host "").
    rewrite str_app_nil_r. unfold sni_ext, vec16, be16. done. }
  by rewrite Hs.
Qed.

(** The loop finds the first extension of type zero. *)
Fixpoint first_sni (exts : list (nat * string)) : result Empty_set (option string) :=
  match exts with
  | [] => Ok None
  | e :: exts' => if e.1 =? 0 then parse_sni_extension e.2 else first_sni exts'
  end.

Lemma ext_loop_parsed exts : forall fuel pre rest, length exts < fuel ->
  forallb (fun e => (e.1 <? 256 * 256) && (String.length e.2 <? 256 * 256)) exts = true ->
  ext_loop fuel (pre +:+ str_concat (ext_bytes <$> exts) +:+ rest) (String.length pre)
    (String.length pre + String.length (str_concat (ext_bytes <$> exts))) = Some (first_sni exts).
Proof.
  induction exts as [|[t d] exts IH]; intros [|fuel] pre rest Hf Hok; try (cbn in Hf; lia).
  - cbn [ext_loop]. by rewrite (proj2 (Nat.leb_gt _ _)) by (cbn; lia).
  - cbn [forallb fst snd] in Hok. apply andb_prop in Hok as [[Ht%Nat.ltb_lt Hd%Nat.ltb_lt]%andb_prop Hok].
    cbn [fmap list_fmap str_concat foldr]. fold (str_concat (ext_bytes <$> exts)). set (tail := str_concat (ext_bytes <$> exts)) in *.
    assert (Hlen : String.length (ext_bytes (t, d)) = 4 + String.length d) by (unfold ext_bytes, vec16, be16; done).
    cbn [ext_loop]. rewrite (proj2 (Nat.leb_le _ _)) by (rewrite str_length_app, Hlen; lia).
    assert (H1 : u16_at (pre +:+ (ext_bytes (t, d) +:+ tail) +:+ rest) (String.length pre) = Ok t).
    { unfold ext_bytes. cbn [fst]. rewrite !str_app_assoc. by apply u16_app. }
    assert (H2 : u16_at (pre +:+ (ext_bytes (t, d) +:+ tail) +:+ rest) (String.length pre + 2) = Ok (String.length d)).
    { unfold ext_bytes, vec16. cbn [fst snd]. rewrite !str_app_assoc, <- (str_app_assoc pre).
      replace (String.length pre + 2) with (String.length (pre +:+ be16 t)) by (rewrite str_length_app; done). by apply u16_app. }
    rewrite H1. cbn [read]. rewrite H2. cbn [read first_sni fst].
    assert (Hpre : String.length pre + 4 = String.length (pre +:+ be16 t +:+ be16 (String.length d))) by (rewrite !str_length_app; cbn; lia).
    destruct (t =? 0).
    + assert (Hs : slice (pre +:+ (ext_bytes (t, d) +:+ tail) +:+ rest) (String.length pre + 4) (String.length pre + 4 + String.length d) = Ok d).
      { rewrite Hpre, <- (slice_app (pre +:+ be16 t +:+ be16 (String.length d)) d (tail +:+ rest)).
        unfold ext_bytes, vec16. cbn [fst snd]. by rewrite !str_app_assoc. }
      by rewrite Hs.
    + rewrite <- (IH fuel (pre +:+ ext_bytes (t, d)) rest); [|cbn in Hf; lia|done]. fold tail.
      rewrite !str_app_assoc. f_equal; [rewrite str_length_app, Hlen; lia|rewrite !str_length_app, Hlen; lia].
Qed.

Lemma exts_length exts : 4 * length exts <= String.length (str_concat (ext_bytes <$> exts)).
Proof.
  induction exts as [|e exts IH]; [cbn; lia|]. cbn [fmap list_fmap str_concat foldr length].
  fold (str_concat (ext_bytes <$> exts)). rewrite str_length_app. unfold ext_bytes at 1, vec16, be16. cbn [String.append String.length]. lia.
Qed.

Lemma hello_parsed h rest : hello_ok h = true -> parse_sni (hello_bytes h +:+ rest) = first_sni (ch_extensions h).
Proof.
  unfold hello_ok. rewrite !andb_true_iff, !Nat.eqb_eq, !Nat.ltb_lt. intros [[[[[[[Hl Hv] Hr] Hs] Hc] Hm] Hx] Ht].
  set (exts := str_concat (ext_bytes <$> ch_extensions h)) in *.
  set (A := String (byte_at 1) (ch_length h +:+ ch_version h +:+ ch_random h)).
  assert (HA : String.length A = 38) by (unfold A; cbn [String.length]; rewrite !str_length_app; lia).
  set (B := A +:+ vec8 (ch_session h)). set (C := B +:+ vec16 (ch_ciphers h)). set (D := C +:+ vec8 (ch_compression h)).
  assert (HB : String.length B = 38 + (1 + String.length (ch_session h))) by (unfold B; rewrite str_length_app, HA; done).
  assert (HC : String.length C = String.length B + (2 + String.length (ch_ciphers h))) by (unfold C, vec16; rewrite !str_length_app; done).
  assert (HD : String.length D = String.length C + (1 + String.length (ch_compression h))) by (unfold D; rewrite str_length_app; done).
  set (data := hello_bytes h +:+ rest).
  assert (E : data = (D +:+ be16 (String.length exts)) +:+ exts +:+ rest)
    by (unfold data, hello_bytes, hello_head, D, C, B, A, vec16; fold exts; by rewrite !str_app_assoc).
  assert (Hlen : String.length data = String.length D + 2 + String.length exts + String.length rest)
    by (rewrite E, !str_length_app; cbn [be16 String.length]; lia).
  assert (E0 : byte data 0 = Ok 1) by done.
  assert (E1 : byte data 38 = Ok (String.length (ch_session h))).
  { rewrite E, <- HA. unfold D, C, B, vec8. rewrite !str_app_assoc. cbn [String.append]. by rewrite byte_app, byte_at_nat. }
  assert (E2 : u16_at data (String.length B) = Ok (String.length (ch_ciphers h))).
  { rewrite E. unfold D, C, vec16 at 1. rewrite !str_app_assoc. by apply u16_app. }
  assert (E3 : byte data (String.length C) = Ok (String.length (ch_compression h))).
  { rewrite E. unfold D, vec8. rewrite !str_app_assoc. cbn [String.append]. by rewrite byte_app, byte_at_nat. }
  assert (E4 : u16_at data (String.length D) = Ok (String.length exts)) by (rewrite E, str_app_assoc; by apply u16_app).
  unfold parse_sni, parse_sni_fuel. rewrite E0. cbn [read negb Nat.eqb]. change (1 + 3 + 2 + 32) with 38. rewrite E1. cbn [read].
  rewrite <- HB, E2. cbn [read]. rewrite <- HC, E3. cbn [read]. rewrite <- HD, E4. cbn [read].
  rewrite !(proj2 (Nat.ltb_ge _ _)) by lia. rewrite (proj2 (Nat.leb_gt _ _)) by lia.
  rewrite E at 2. replace (String.length D + 2) with (String.length (D +:+ be16 (String.length exts))) by (rewrite str_length_app; done).
  unfold exts. rewrite ext_loop_parsed; [done| |done]. pose proof (exts_length (ch_extensions h)). fold exts in H. lia.
Qed.

(** ** Aborts *)
Lemma get_lt data : forall i, i < String.length data -> is_Some (String.get i data).
Proof. induction data as [|c s IH]; intros [|i] Hi; cbn in *; [lia|lia|by eexists|apply IH; lia]. Qed.
Lemma byte_lt data i : i < String.length data -> exists n, byte data i = Ok n.
Proof. intros [c Hc]%get_lt. unfold byte. rewrite Hc. by eexists. Qed.
Lemma u16_lt data i : i + 2 <= String.length data -> exists n, u16_at data i = Ok n.
Proof.
  intros Hi. unfold u16_at. destruct (byte_lt data i) as [x ->]; [lia|]. destruct (byte_lt data (i + 1)) as [y ->]; [lia|].
  cbn. by eexists.
Qed.
Lemma slice_lt data a b : a <= b <= String.length data -> exists s, slice data a b = Ok s.
Proof. intros H. unfold slice. rewrite !(proj2 (Nat.leb_le _ _)) by lia. by eexists. Qed.

Lemma extension_never_aborts e : exists o, parse_sni_extension e = Ok o.
Proof.
  unfold parse_sni_extension. destruct (Nat.ltb_spec (String.length e) 5) as [|H5]; [by eexists|].
  destruct (u16_lt e 0) as [x ->]; [lia|]. destruct (byte_lt e 2) as [y ->]; [lia|]. cbn [res_bind].
  destruct (negb (y =? 0)); [by eexists|]. destruct (u16_lt e 3) as [n ->]; [lia|]. cbn [res_bind].
  destruct (Nat.ltb_spec (String.length e) (5 + n)) as [|Hn]; [by eexists|]. destruct (slice_lt e 5 (5 + n)) as [s ->]; [lia|].
  by eexists.
Qed.

(** The position of an extension, counted from the first one at [start]: a chain of
    complete headers of other types than the server name's, inside the block of
    extensions that ends at [stop]. *)
Inductive extension_at (data : string) (start stop : nat) : nat -> Prop :=
  | first_extension : extension_at data start stop start
  | next_extension off t len : extension_at data start stop off -> off + 4 <= stop -> u16_at data off = Ok t -> t <> 0 ->
      u16_at data (off + 2) = Ok len -> extension_at data start stop (off + 4 + len).

(** A ClientHello, its block of extensions complete, whose first server name extension
    claims more bytes than follow. The positions are those of RFC 8446: one byte of
    type, 37 bytes of length, version and random, then the session identifier,
    the cipher suites and the compression methods, each with its length. *)
Definition overrun (data : string) : Prop :=
  exists session ciphers compression total off len,
    byte data 0 = Ok 1 /\ byte data 38 = Ok session /\ u16_at data (39 + session) = Ok ciphers /\
    byte data (41 + session + ciphers) = Ok compression /\ u16_at data (42 + session + ciphers + compression) = Ok total /\
    let start := 44 + session + ciphers + compression in
    start + total <= String.length data /\ extension_at data start (start + total) off /\ off + 4 <= start + total /\
    u16_at data off = Ok 0 /\ u16_at data (off + 2) = Ok len /\ String.length data < off + 4 + len.

(** The first server name extension from [off] on. *)
Lemma ext_loop_outcome data start stop : stop <= String.length data -> forall fuel off, stop - off < fuel -> extension_at data start stop off ->
  exists r, ext_loop fuel data off stop = Some r /\
    ((exists o, r = Ok o) /\ (forall off' len, extension_at data off stop off' -> off' + 4 <= stop -> u16_at data off' = Ok 0 ->
        u16_at data (off' + 2) = Ok len -> off' + 4 + len <= String.length data) \/
     r = Panic /\ exists off' len, extension_at data start stop off' /\ off' + 4 <= stop /\ u16_at data off' = Ok 0 /\
       u16_at data (off' + 2) = Ok len /\ String.length data < off' + 4 + len).
Proof.
  intros Hstop. induction fuel as [|fuel IH]; intros off Hf Hoff; [lia|]. cbn [ext_loop].
  assert (Hmono : forall off', extension_at data off stop off' -> off <= off') by (induction 1; lia).
  destruct (Nat.leb_spec (off + 4) stop) as [Hle|Hgt].
  2: { eexists. split; [done|]. left. split; [by eexists|]. intros off' len Ho%Hmono. lia. }
  destruct (u16_lt data off) as [t Et]; [lia|]. destruct (u16_lt data (off + 2)) as [l El]; [lia|]. rewrite Et. cbn [read]. rewrite El. cbn [read].
  assert (Hfirst : forall off', extension_at data off stop off' -> off' = off \/ (t <> 0 /\ extension_at data (off + 4 + l) stop off')).
  { induction 1 as [|o t' l' Ho IHo Hs Ht Hne Hl]; [by left|]. right. destruct IHo as [->|[? ?]].
    - assert (t' = t) as -> by congruence. assert (l' = l) as -> by congruence. split; [done|constructor].
    - split; [done|]. by eapply next_extension. }
  destruct (Nat.eqb_spec t 0) as [->|Hne].
  - eexists. split; [done|]. destruct (Nat.le_gt_cases (off + 4 + l) (String.length data)) as [Hin|Hout].
    + left. destruct (slice_lt data (off + 4) (off + 4 + l)) as [e ->]; [lia|]. split; [apply extension_never_aborts|].
      intros off' len [->|[? _]]%Hfirst _ _ Hl; [|done]. congruence.
    + right. split; [|by exists off, l]. unfold slice. by rewrite (proj2 (Nat.leb_gt (off + 4 + l) _)), andb_false_r by lia.
  - destruct (IH (off + 4 + l)) as (r & Hr & H); [lia|by eapply next_extension|]. exists r. split; [done|].
    destruct H as [[Hok Hall]|Hp]; [left|by right]. split; [done|]. intros off' len [->|[_ Ho]]%Hfirst Hs H0 Hl; [congruence|by eapply Hall].
Qed.

(** Reads succeed only inside the data. *)
Lemma byte_inside data i n : byte data i = Ok n -> i < String.length data.
Proof.
  unfold byte. destruct (String.get i data) eqn:E; [|done]. intros _. revert i E.
  induction data as [|c s IH]; intros [|i] E; cbn in *; [done|done|lia|]. specialize (IH i E). lia.
Qed.
Lemma u16_inside data i n : u16_at data i = Ok n -> i + 2 <= String.length data.
Proof.
  unfold u16_at. destruct (byte data i); [|done|done]. cbn. destruct (byte data (i + 1)) eqn:E; [|done|done]. intros _. apply byte_inside in E. lia.
Qed.

(** An overrun's reads, identified with those already made. *)
Ltac no_overrun := intros (s' & c' & m' & x' & off & len & B0 & B1 & B2 & B3 & B4 & B5 & BR);
    repeat match goal with E : ?r = Ok ?x, E' : ?r = Ok ?y |- _ => assert (x = y) by congruence; subst; clear E' end.

(** An answer is given, or the reader aborts at an overrun. *)
Lemma parse_sni_outcome data : exists r, parse_sni_fuel (S (String.length data)) data = Some r /\
  (((exists o, r = Ok o) /\ ~ overrun data) \/ (r = Panic /\ overrun data)).
Proof.
  assert (Hend : ~ overrun data -> exists r : result Empty_set (option string), Some (Ok None) = Some r /\
    (((exists o, r = Ok o) /\ ~ overrun data) \/ (r = Panic /\ overrun data))) by (intros Hn; eexists; split; [done|left; by eauto]).
  pose proof (byte_inside data) as I1. pose proof (u16_inside data) as I2.
  unfold parse_sni_fuel. destruct (Nat.ltb_spec (String.length data) 38) as [Hs|H38].
  { apply Hend. no_overrun. apply I1 in B1. lia. }
  destruct (byte_lt data 0) as [ty E0]; [lia|]. rewrite E0. cbn [read]. destruct (Nat.eqb_spec ty 1) as [->|Hty]; cbn [negb].
  2: { apply Hend. no_overrun. congruence. }
  change (1 + 3 + 2 + 32) with 38. destruct (Nat.leb_spec (String.length data) 38) as [Hs|H1].
  { apply Hend. no_overrun. apply I1 in B1. lia. }
  destruct (byte_lt data 38) as [s E1]; [lia|]. rewrite E1. cbn [read]. change (38 + (1 + s)) with (39 + s).
  destruct (Nat.ltb_spec (String.length data) (39 + s + 2)) as [Hs|H2].
  { apply Hend. no_overrun. apply I2 in B2. lia. }
  destruct (u16_lt data (39 + s)) as [c E2]; [lia|]. rewrite E2. cbn [read]. replace (39 + s + (2 + c)) with (41 + s + c) by lia.
  destruct (Nat.ltb_spec (String.length data) (41 + s + c + 1)) as [Hs|H3].
  { apply Hend. no_overrun. apply I1 in B3. lia. }
  destruct (byte_lt data (41 + s + c)) as [m E3]; [lia|]. rewrite E3. cbn [read]. replace (41 + s + c + (1 + m)) with (42 + s + c + m) by lia.
  destruct (Nat.ltb_spec (String.length data) (42 + s + c + m + 2)) as [Hs|H4].
  { apply Hend. no_overrun. apply I2 in B4. lia. }
  destruct (u16_lt data (42 + s + c + m)) as [x E4]; [lia|]. rewrite E4. cbn [read]. replace (42 + s + c + m + 2) with (44 + s + c + m) by lia.
  destruct (Nat.ltb_spec (String.length data) (44 + s + c + m + x)) as [Hs|H5].
  { apply Hend. no_overrun. lia. }
  destruct (ext_loop_outcome data (44 + s + c + m) (44 + s + c + m + x) H5 (S (String.length data)) (44 + s + c + m)) as (r & Hr & H); [lia|constructor|].
  exists r. split; [done|]. destruct H as [[Hok Hall]|[Hp (off & len & H)]].
  - left. split; [done|]. no_overrun. destruct BR as (Hx & Hs & H0 & Hl & Hout). specialize (Hall off len Hx Hs H0 Hl). lia.
  - right. split; [done|]. exists s, c, m, x, off, len. split_and!; try done; apply H.
Qed.

(** C29. The reader of server names on any bytes: it ends, it aborts exactly when the
    data are a ClientHello with a complete block of extensions whose first server
    name extension claims more bytes than follow, and in all other cases it gives
    an answer. So it answers for every well-formed ClientHello, whatever follows. *)
Theorem sni_reader_bounds data :
  is_Some (parse_sni_fuel (S (String.length data)) data) /\
  (parse_sni data = Panic <-> overrun data) /\ (~ overrun data -> exists o, parse_sni data = Ok o) /\
  (forall h rest, data = hello_bytes h +:+ rest -> hello_ok h = true -> exists o, parse_sni data = Ok o).
Proof.
  destruct (parse_sni_outcome data) as (r & E & H). unfold parse_sni. rewrite E. cbn [default from_option id]. split_and!.
  - by eexists.
  - destruct H as [[[o ->] Hn]|[-> Ho]]; by split.
  - destruct H as [[Hok _]|[_ Ho]]; [by intros _|done].
  - intros h rest -> Hh. pose proof (hello_parsed h rest Hh) as Hp. unfold parse_sni in Hp. rewrite E in Hp. cbn in Hp. rewrite Hp.
    clear. induction (ch_extensions h) as [|e exts IH]; cbn [first_sni]; [by eexists|].
    destruct (e.1 =? 0); [apply extension_never_aborts|done].
Qed.

Lemma sni_found h exts exts' host rest :
  hello_ok h = true -> ch_extensions h = exts ++ (0, sni_ext host) :: exts' -> Forall (fun e => e.1 <> 0) exts -> utf8_valid host = true ->
  parse_sni (hello_bytes h +:+ rest) = Ok (Some host).
Proof.
  intros Hok He Hx Hu. rewrite hello_parsed by done. rewrite He.
  assert (Hlen : String.length host + 3 < 256 * 256).
  { unfold hello_ok in Hok. rewrite !andb_true_iff in Hok. destruct Hok as [[_ Hall] _]. rewrite He, forallb_app, andb_true_iff in Hall.
    destruct Hall as [_ [[_ Hl%Nat.ltb_lt]%andb_prop _]%andb_prop]. cbn [snd] in Hl. unfold sni_ext, vec16, be16 in Hl.
    cbn [String.append String.length] in Hl. lia. }
  clear He. induction Hx as [|e exts Hne Hx IH]; cbn [app first_sni fst snd].
  - cbn [Nat.eqb]. rewrite sni_ext_parsed, Hu by done. done.
  - by rewrite (proj2 (Nat.eqb_neq _ _)).
Qed.

(** C31. Server names round trip: whatever the version, random bytes, session,
    cipher suites, compression methods, other extensions and bytes that follow,
    the name in the first server name extension of a ClientHello is read back. *)
Theorem sni_roundtrip h exts exts' host rest :
  hello_ok h = true -> ch_extensions h = exts ++ (0, sni_ext host) :: exts' -> Forall (fun e => e.1 <> 0) exts -> utf8_valid host = true ->
  parse_sni (hello_bytes h +:+ rest) = Ok (Some host).
Proof. apply sni_found. Qed.

(** ** Connections *)
Definition record_bytes (version : string) (h : client_hello) : string := String (byte_at 22) version +:+ vec16 (hello_bytes h).

Lemma zero_bytes_length n : String.length (zero_bytes n) = n.
Proof. induction n as [|n IH]; [done|]. cbn. by rewrite IH. Qed.
Lemma resize_length n buf : String.length (resize n buf) = n.
Proof. unfold resize. rewrite str_length_app, str_take_length, zero_bytes_length. lia. Qed.
(** A buffer that holds [a] keeps it at its start when a peek gives it. *)
Lemma fill_prefix a b buf k : String.length a <= String.length buf -> String.length a <= k ->
  exists x n, fill buf (str_take k (a +:+ b)) = (a +:+ x, n) /\ String.length a <= n /\ n <= String.length buf /\ String.length (a +:+ x) = String.length buf.
Proof.
  intros Hb Hk. unfold fill. rewrite str_take_app_ge, str_take_app_ge by lia. set (y := str_take _ (str_take _ b)).
  exists (y +:+ str_drop (String.length (a +:+ y)) buf), (String.length (a +:+ y)). rewrite str_app_assoc. split; [done|].
  assert (String.length y <= String.length buf - String.length a) by (unfold y; rewrite str_take_length; lia).
  rewrite !str_length_app, str_drop_length. lia.
Qed.

(** The stream of a client that opens with a ClientHello. *)
Lemma peek_finds_sni version h exts exts' host more k1 k2 :
  hello_ok h = true -> ch_extensions h = exts ++ (0, sni_ext host) :: exts' -> Forall (fun e => e.1 <> 0) exts -> utf8_valid host = true ->
  String.length version = 2 -> String.length (record_bytes version h) <= 16 * 1024 -> String.length (hello_bytes h) < 256 * 256 -> 5 <= k1 -> String.length (record_bytes version h) <= k2 ->
  peek_tls_sni (Peeked (str_take k1 (record_bytes version h +:+ more))) (Peeked (str_take k2 (record_bytes version h +:+ more))) = Ok (Some host).
Proof.
  intros Hok He Hx Hu Hv Hmax Hl Hk1 Hk2.
  set (P := String (byte_at 22) version +:+ be16 (String.length (hello_bytes h))).
  assert (HP : String.length P = 5) by (unfold P; rewrite str_length_app; cbn; lia).
  assert (E : record_bytes version h = P +:+ hello_bytes h) by (unfold record_bytes, vec16, P; by rewrite str_app_assoc).
  assert (Hrl : String.length (record_bytes version h) = 5 + String.length (hello_bytes h)) by (rewrite E, str_length_app; lia).
  unfold peek_tls_sni. rewrite E at 1. rewrite str_app_assoc.
  destruct (fill_prefix P (hello_bytes h +:+ more) (zero_bytes 1024) k1) as (x & n & -> & Hn & Hn' & Hbl); rewrite ?zero_bytes_length in *; try lia.
  rewrite (proj2 (Nat.ltb_ge _ _)) by lia. change (byte (P +:+ x) 0) with (@Ok Empty_set nat 22).
  assert (E3 : u16_at (P +:+ x) 3 = Ok (String.length (hello_bytes h))).
  { unfold P. rewrite str_app_assoc. pose proof (u16_app (String (byte_at 22) version) _ x Hl) as Hr.
    cbn [String.length] in Hr. by rewrite Hv in Hr. }
  rewrite E3. cbn [negb Nat.eqb]. rewrite <- Hrl. set (R := record_bytes version h) in *.
  set (buf := if String.length (P +:+ x) <? String.length R then _ else _).
  assert (Hbuf : String.length R <= String.length buf).
  { unfold buf. destruct (Nat.ltb_spec (String.length (P +:+ x)) (String.length R)); [|done]. rewrite resize_length. lia. }
  destruct (fill_prefix R more buf k2) as (y & m & -> & Hm & _ & _); [done|done|]. rewrite (proj2 (Nat.ltb_ge _ _)) by lia.
  rewrite E, str_app_assoc, <- HP, str_drop_app.
  by rewrite (sni_found h exts exts' host y).
Qed.

Section Routing.
Context `{IL : IpLib}.


Lemma dispatch_proxied rt m sni client ep connects a m' : dispatch rt m sni client ep connects = (Proxied a, m') ->
  exists route s b, l4_match rt ep sni (Some client) = Some route /\ m !! l4_service (rt_config route) = Some s /\
    b ∈ servers s /\ tcp_address b = a /\ connects a = true /\ (next_server s).1 = Some b /\
    m' = <[l4_service (rt_config route) := (next_server s).2]> m.
Proof.
  unfold dispatch, l4_get_service. destruct (l4_match rt ep sni (Some client)) as [route|]; [|done].
  destruct (m !! l4_service (rt_config route)) as [s|] eqn:Es; [|done]. destruct (next_server s) as [[b|] s'] eqn:En; [|done].
  destruct (connects (tcp_address b)) eqn:Ec; [|done]. intros [= <- <-]. exists route, s, b. rewrite En.
  split_and!; try done. apply next_server_elem. by rewrite En.
Qed.

(** TLS connections are routed by their server name. When the client's first
    bytes are a record with a ClientHello that names a host, of at most 16 KB,
    and the proxy's second look finds it complete, the connection is handled as
    one to that host: with [l4_match] for it, and if bytes are proxied, they go
    to a backend of that route's service that accepted the connection, and only
    that service's round-robin counter moves. *)
Theorem tcp_routes_by_sni rt m version h exts exts' host more k1 k2 client ep connects :
  hello_ok h = true -> ch_extensions h = exts ++ (0, sni_ext host) :: exts' -> Forall (fun e => e.1 <> 0) exts -> utf8_valid host = true ->
  String.length version = 2 -> String.length (record_bytes version h) <= 16 * 1024 -> 5 <= k1 -> String.length (record_bytes version h) <= k2 ->
  let stream := record_bytes version h +:+ more in
  handle_connection rt m (Peeked (str_take k1 stream)) (Peeked (str_take k2 stream)) client ep connects =
    Ok (dispatch rt m (Some host) client ep connects) /\
  forall a m', dispatch rt m (Some host) client ep connects = (Proxied a, m') ->
    exists route s b, l4_match rt ep (Some host) (Some client) = Some route /\ m !! l4_service (rt_config route) = Some s /\
      b ∈ servers s /\ tcp_address b = a /\ connects a = true /\ (next_server s).1 = Some b /\
      m' = <[l4_service (rt_config route) := (next_server s).2]> m.
Proof.
  intros Hok He Hx Hu Hv Hmax Hk1 Hk2. cbn zeta. split; [|intros a m'; apply dispatch_proxied].
  unfold handle_connection. rewrite (peek_finds_sni version h exts exts' host more k1 k2); try done.
  unfold record_bytes, vec16 in Hmax. rewrite !str_length_app in Hmax. lia.
Qed.
End Routing.

(** ** Concrete connections *)
Definition demo_hello (exts : list (nat * string)) : client_hello :=
  {| ch_length := zero_bytes 3; ch_version := zero_bytes 2; ch_random := zero_bytes 32; ch_session := "sid";
     ch_ciphers := zero_bytes 4; ch_compression := zero_bytes 1; ch_extensions := exts |}.
Definition hello_a : client_hello := demo_hello [(43, zero_bytes 3); (0, sni_ext "a.test"); (16, zero_bytes 5)].

Lemma sni_roundtrip_witness : parse_sni (hello_bytes hello_a +:+ "more") = Ok (Some "a.test").
Proof.
  apply (sni_roundtrip hello_a [(43, zero_bytes 3)] [(16, zero_bytes 5)]); [reflexivity|reflexivity| |reflexivity].
  constructor; [discriminate|constructor].
Defined.

(** An ordinary ClientHello is no overrun. *)
Lemma sni_reader_bounds_witness :
  ~ overrun (hello_bytes hello_a +:+ "more") /\ exists o, parse_sni (hello_bytes hello_a +:+ "more") = Ok o.
Proof.
  destruct (sni_reader_bounds (hello_bytes hello_a +:+ "more")) as (_ & Hp & _ & Hh). split.
  - intros Ho. apply Hp in Ho. revert Ho. vm_compute. discriminate.
  - apply (Hh hello_a "more"); reflexivity.
Defined.

(** An extension that says it has 2000 bytes. *)
Lemma sni_overrun_aborts :
  parse_sni (hello_head (demo_hello []) +:+ be16 4 +:+ be16 0 +:+ be16 2000) = Panic.
Proof. vm_compute. reflexivity. Qed.

(** A ClientHello that has not arrived completely when the proxy looks again is
    routed as if it named no host. *)
Lemma sni_incomplete_ignored bytes n : 5 <= n -> n < String.length (record_bytes (zero_bytes 2) hello_a) ->
  bytes = str_take n (record_bytes (zero_bytes 2) hello_a) -> peek_tls_sni (Peeked bytes) (Peeked bytes) = Ok None.
Proof.
  intros H5 Hn ->. assert (Hl : String.length (record_bytes (zero_bytes 2) hello_a) = 88) by (vm_compute; reflexivity). rewrite Hl in Hn.
  do 88 (destruct n as [|n]; [try lia; vm_compute; reflexivity|]). lia.
Qed.

Definition demo_backend : TcpBackendServer := {| tcp_address := "b:443"; tcp_weight := 1; use_tls := false |}.
Definition demo_route : L4Route (IL := two_hosts) :=
  {| rt_name := "r"; rt_config := {| l4_entry_points := ["tls"]; l4_rule := "HostSNI(`a.test`)"; l4_service := "s"; l4_middlewares := [];
       l4_priority := 0; l4_tls_passthrough := None |}; rt_rule := HostSNI (IL := two_hosts) ["a.test"] |}.
Definition demo_router : L4Router (IL := two_hosts) := {| l4_routers := {["tls" := [demo_route]]}; l4_catch_all := ∅ |}.
Definition demo_manager : gmap string (L4Service TcpBackendServer) := {["s" := l4_new "s" [demo_backend]]}.

Lemma tcp_routes_by_sni_witness :
  handle_connection demo_router demo_manager (Peeked (str_take 5 (record_bytes (zero_bytes 2) hello_a +:+ "")))
    (Peeked (str_take 88 (record_bytes (zero_bytes 2) hello_a +:+ ""))) (true : @IpAddr two_hosts) "tls" (fun _ => true) =
  Ok (Proxied "b:443", <["s" := advance 1 (l4_new "s" [demo_backend])]> demo_manager).
Proof.
  assert (E : dispatch demo_router demo_manager (Some "a.test") (true : @IpAddr two_hosts) "tls" (fun _ => true) =
    (Proxied "b:443", <["s" := advance 1 (l4_new "s" [demo_backend])]> demo_manager)) by (vm_compute; reflexivity).
  assert (Hl : String.length (record_bytes (zero_bytes 2) hello_a) = 88) by (vm_compute; reflexivity).
  rewrite <- E. apply (tcp_routes_by_sni demo_router demo_manager (zero_bytes 2) hello_a [(43, zero_bytes 3)] [(16, zero_bytes 5)] "a.test" "" 5 88
    (true : @IpAddr two_hosts) "tls" (fun _ => true)); try reflexivity; try (rewrite Hl; lia); try lia.
  constructor; [discriminate|constructor].
Defined.
