(* ===== verification/UdpProxy.v ===== *)
(** * The UDP proxy

    Models src/src/udp/proxy.rs for one entry point ([UdpListener::serve] makes a
    proxy per entry point): sessions by client address, a socket per session, a
    listener task per session that sends replies back, and the cleanup task.
    A datagram of a new client is handled in two steps, before and after the
    task waits for its socket, so that the tasks of several datagrams and the
    listeners interleave. Whether the system's calls succeed and what the clocks
    read are inputs; the hash of an address and the parser of socket addresses
    are parameters. *)
From S2P Require Import Prelude RustStr Net Balancer L4.
From stdpp Require Import list gmap.
Open Scope Z_scope.
Open Scope list_scope.

Section Udp.
Context `{IL : IpLib} {EA : EqDecision IpAddr} {CA : Countable IpAddr}.

Definition SocketAddr : Type := IpAddr * Z.

Context (hash_ip : IpAddr -> Z) (parse_socket : string -> option SocketAddr).

(** Sockets are numbered; 0 is the socket of the entry point. *)
Record UdpSession := {
  backend_addr : SocketAddr;
  service_name : string;
  last_activity : Z;
  backend_socket : nat;
}.

(** A listener between two rounds of its loop, or waiting for a reply. *)
Record listener := { l_socket : nat; l_response : nat; l_client : SocketAddr; waiting : bool }.

(** A datagram whose task waits for its socket. *)
Record opening := { o_client : SocketAddr; o_data : string; o_service : string; o_backend : SocketAddr }.

Inductive packet :=
| ToBackend (client : SocketAddr) (socket : nat) (backend : SocketAddr) (data : string)
| ToClient (client : SocketAddr) (socket : nat) (source : nat) (data : string).

Record UdpProxyStats := {
  packets_received : Z;
  packets_sent : Z;
  bytes_received : Z;
  bytes_sent : Z;
}.

Record UdpProxy := {
  services : gmap string (L4Service UdpBackendServer);
  sessions : gmap SocketAddr UdpSession;
  openings : list opening;
  listeners : list listener;
  next_socket : nat;
  out : list packet;
  stats : UdpProxyStats;
}.

Definition MAX_DATAGRAM_SIZE : Z := 65535.
Definition DEFAULT_SESSION_TIMEOUT : Z := 60 * 10 ^ 9.

Definition no_stats : UdpProxyStats := {| packets_received := 0; packets_sent := 0; bytes_received := 0; bytes_sent := 0 |}.
Definition new (m : gmap string (L4Service UdpBackendServer)) : UdpProxy :=
  {| services := m; sessions := ∅; openings := []; listeners := []; next_socket := 1; out := []; stats := no_stats |}.

Definition hash_addr (a : SocketAddr) : Z := hash_ip a.1.

Definition set_sessions (f : gmap SocketAddr UdpSession -> gmap SocketAddr UdpSession) (p : UdpProxy) : UdpProxy :=
  {| services := services p; sessions := f (sessions p); openings := openings p; listeners := listeners p;
     next_socket := next_socket p; out := out p; stats := stats p |}.
Definition set_openings (l : list opening) (p : UdpProxy) : UdpProxy :=
  {| services := services p; sessions := sessions p; openings := l; listeners := listeners p;
     next_socket := next_socket p; out := out p; stats := stats p |}.
Definition set_listeners (l : list listener) (p : UdpProxy) : UdpProxy :=
  {| services := services p; sessions := sessions p; openings := openings p; listeners := l;
     next_socket := next_socket p; out := out p; stats := stats p |}.
Definition set_services (m : gmap string (L4Service UdpBackendServer)) (p : UdpProxy) : UdpProxy :=
  {| services := m; sessions := sessions p; openings := openings p; listeners := listeners p;
     next_socket := next_socket p; out := out p; stats := stats p |}.
Definition take_sockets (n : nat) (p : UdpProxy) : UdpProxy :=
  {| services := services p; sessions := sessions p; openings := openings p; listeners := listeners p;
     next_socket := next_socket p + n; out := out p; stats := stats p |}.
Definition emit (k : packet) (p : UdpProxy) : UdpProxy :=
  {| services := services p; sessions := sessions p; openings := openings p; listeners := listeners p;
     next_socket := next_socket p; out := out p ++ [k]; stats := stats p |}.
Definition count_received (data : string) (p : UdpProxy) : UdpProxy :=
  {| services := services p; sessions := sessions p; openings := openings p; listeners := listeners p; next_socket := next_socket p; out := out p;
     stats := {| packets_received := wrap_u64 (packets_received (stats p) + 1); packets_sent := packets_sent (stats p);
                 bytes_received := wrap_u64 (bytes_received (stats p) + Z.of_nat (String.length data)); bytes_sent := bytes_sent (stats p) |} |}.
Definition count_sent (data : string) (p : UdpProxy) : UdpProxy :=
  {| services := services p; sessions := sessions p; openings := openings p; listeners := listeners p; next_socket := next_socket p; out := out p;
     stats := {| packets_received := packets_received (stats p); packets_sent := wrap_u64 (packets_sent (stats p) + 1);
                 bytes_received := bytes_received (stats p); bytes_sent := wrap_u64 (bytes_sent (stats p) + Z.of_nat (String.length data)) |} |}.

Definition touch (now : Z) (s : UdpSession) : UdpSession :=
  {| backend_addr := backend_addr s; service_name := service_name s; last_activity := now; backend_socket := backend_socket s |}.

(** [forward_to_backend]: whether it succeeded, and the proxy. *)
Definition forward_to_backend (client : SocketAddr) (socket : nat) (backend : SocketAddr) (data : string) (sent : bool) (p : UdpProxy)
    : bool * UdpProxy :=
  if sent then (true, count_sent data (emit (ToBackend client socket backend data) p)) else (false, p).

(** [handle_datagram] up to the binding of the socket, after the counters of
    [run]. *)
Definition arrive (rt : L4Router) (ep : string) (client : SocketAddr) (data : string) (now : Z) (sent : bool) (p : UdpProxy) : UdpProxy :=
  let p := count_received data p in
  match sessions p !! client with
  | Some s =>
      (forward_to_backend client (backend_socket s) (backend_addr s) data sent (set_sessions <[client := touch now s]> p)).2
  | None =>
      match match_datagram rt ep (Some client.1) with
      | None => p
      | Some route =>
          let name := l4_service (rt_config route) in
          match l4_get_service (services p) name with
          | None => p
          | Some s =>
              let '(b, s') := get_server_by_hash (hash_addr client) s in
              let p := set_services (<[name := s']> (services p)) p in
              match b ≫= (fun b => parse_socket (udp_address b)) with
              | None => p
              | Some addr =>
                  set_openings (openings p ++ [{| o_client := client; o_data := data; o_service := name; o_backend := addr |}]) p
              end
          end
      end
  end.

(** The rest of it: the session is stored, the datagram sent, and the listener
    started, which binds a socket of its own for the replies. It is one step here; the
    source waits for the sending and the binding in between, where other datagrams
    of the client may already use the stored session. *)
Definition open_session (i : nat) (bound sent response_bound : bool) (now : Z) (p : UdpProxy) : UdpProxy :=
  match openings p !! i with
  | None => p
  | Some o =>
      let p := set_openings (delete i (openings p)) p in
      if bound then
        let sock := next_socket p in
        let p := set_sessions <[o_client o := {| backend_addr := o_backend o; service_name := o_service o; last_activity := now;
                                                 backend_socket := sock |}]> (take_sockets 1 p) in
        let '(ok, p) := forward_to_backend (o_client o) sock (o_backend o) (o_data o) sent p in
        if ok && response_bound then
          set_listeners (listeners p ++ [{| l_socket := sock; l_response := next_socket p; l_client := o_client o; waiting := false |}])
            (take_sockets 1 p)
        else p
      else p
  end.

(** The listener's loop: the check at its top, then a reply, an error or the
    timeout. Leaving the loop removes the client's session. *)
Definition leave (i : nat) (l : listener) (p : UdpProxy) : UdpProxy :=
  set_listeners (delete i (listeners p)) (set_sessions (delete (l_client l)) p).
Definition listener_check (i : nat) (p : UdpProxy) : UdpProxy :=
  match listeners p !! i with
  | Some l =>
      if waiting l then p
      else match sessions p !! l_client l with
           | Some _ => set_listeners (<[i := {| l_socket := l_socket l; l_response := l_response l; l_client := l_client l; waiting := true |}]>
                                       (listeners p)) p
           | None => leave i l p
           end
  | None => p
  end.
Definition listener_reply (i : nat) (data : string) (now : Z) (sent : bool) (p : UdpProxy) : UdpProxy :=
  match listeners p !! i with
  | Some l =>
      if waiting l then
        let p := set_sessions (alter (touch now) (l_client l)) p in
        let p := if sent then emit (ToClient (l_client l) (l_socket l) (l_response l) data) p else p in
        set_listeners (<[i := {| l_socket := l_socket l; l_response := l_response l; l_client := l_client l; waiting := false |}]> (listeners p)) p
      else p
  | None => p
  end.
Definition listener_stop (i : nat) (p : UdpProxy) : UdpProxy :=
  match listeners p !! i with
  | Some l => if waiting l then leave i l p else p
  | None => p
  end.

Definition cleanup_expired_sessions (timeout now : Z) (p : UdpProxy) : UdpProxy :=
  set_sessions (filter (fun cs => ~ timeout < now - last_activity cs.2)) p.

(** ** Runs *)
Inductive udp_op :=
| Arrive (client : SocketAddr) (data : string) (now : Z) (sent : bool)
| Open (i : nat) (bound sent response_bound : bool) (now : Z)
| Check (i : nat)
| Reply (i : nat) (data : string) (now : Z) (sent : bool)
| Stop (i : nat)
| Cleanup (timeout now : Z).

Definition udp_step (rt : L4Router) (ep : string) (p : UdpProxy) (o : udp_op) : UdpProxy :=
  match o with
  | Arrive c d now sent => arrive rt ep c d now sent p
  | Open i b s r now => open_session i b s r now p
  | Check i => listener_check i p
  | Reply i d now sent => listener_reply i d now sent p
  | Stop i => listener_stop i p
  | Cleanup timeout now => cleanup_expired_sessions timeout now p
  end.
Definition udp_run (rt : L4Router) (ep : string) (ops : list udp_op) (p : UdpProxy) : UdpProxy := foldl (udp_step rt ep) p ops.

(** ** Where datagrams go *)
Section Routed.
Context (rt : L4Router) (ep : string) (m0 : gmap string (L4Service UdpBackendServer)).

(** A backend for a client: one of the service the client's route names, and the
    one its hash gives when that is healthy. *)
Definition backend_for (client addr : SocketAddr) : Prop :=
  exists route s b, match_datagram rt ep (Some client.1) = Some route /\ m0 !! l4_service (rt_config route) = Some s /\
    b ∈ servers s /\ parse_socket (udp_address b) = Some addr /\
    let idx := Z.to_nat (hash_addr client mod Z.of_nat (length (servers s))) in
    (load_flag (healthy s) idx = true -> servers s !! idx = Some b).

Definition static (s : L4Service UdpBackendServer) : list UdpBackendServer * list bool := (servers s, healthy s).

Record routed_ok (p : UdpProxy) : Prop := {
  ro_services : static <$> services p = static <$> m0;
  ro_sessions : forall c s, sessions p !! c = Some s -> backend_for c (backend_addr s);
  ro_openings : forall o, o ∈ openings p -> backend_for (o_client o) (o_backend o);
  ro_out : forall c k b d, ToBackend c k b d ∈ out p -> backend_for c b;
}.

Lemma next_static (s : L4Service UdpBackendServer) : static (next_server s).2 = static s.
Proof. unfold next_server. by destruct (next_with _ s). Qed.
Lemma hash_static h (s : L4Service UdpBackendServer) : static (get_server_by_hash h s).2 = static s.
Proof. unfold get_server_by_hash. destruct (servers s); [done|]. destruct (load_flag _ _); [done|apply next_static]. Qed.

Lemma forward_routed c k b d sent p : routed_ok p -> backend_for c b -> routed_ok (forward_to_backend c k b d sent p).2.
Proof.
  intros [H1 H2 H3 H4] Hb. destruct sent; cbn [forward_to_backend snd]; [|by split]. split; cbn; try done.
  intros c' k' b' d' [Hin|[= -> -> -> ->]%list_elem_of_singleton]%elem_of_app; eauto.
Qed.

Lemma chosen_backend client name s b addr route (p : UdpProxy) : routed_ok p ->
  match_datagram rt ep (Some client.1) = Some route -> name = l4_service (rt_config route) -> services p !! name = Some s ->
  (get_server_by_hash (hash_addr client) s).1 = Some b -> parse_socket (udp_address b) = Some addr -> backend_for client addr.
Proof.
  intros [Hs _ _ _] Hr -> Hn Hb Ha. assert (Hm : static <$> m0 !! l4_service (rt_config route) = Some (static s))
    by (rewrite <- lookup_fmap, <- Hs, lookup_fmap, Hn; done).
  destruct (m0 !! l4_service (rt_config route)) as [s0|] eqn:E0; [|done]. injection Hm as E1 E2.
  exists route, s0, b. split_and!; [done|done| |done|].
  - rewrite E1. by eapply hash_server_elem.
  - cbn zeta. rewrite E1, E2. intros Hf. revert Hb. unfold get_server_by_hash. rewrite Hf. by destruct (servers s).
Qed.

Lemma arrive_routed client d now sent p : routed_ok p -> routed_ok (arrive rt ep client d now sent p).
Proof.
  intros Hp. unfold arrive. set (q := count_received d p). assert (Hq : routed_ok q) by (destruct Hp; by split).
  destruct (sessions q !! client) as [s|] eqn:Es.
  { apply forward_routed; [|by apply (ro_sessions q Hq)]. destruct Hq as [H1 H2 H3 H4]. split; cbn [set_sessions services sessions openings out]; try done.
    intros c s'. rewrite lookup_insert. case_decide as E; [|apply H2]. intros [= <-]. cbn. subst c. by apply H2. }
  destruct (match_datagram rt ep (Some client.1)) as [route|] eqn:Er; [|done]. unfold l4_get_service.
  destruct (services q !! l4_service (rt_config route)) as [s|] eqn:Ev; [|done].
  destruct (get_server_by_hash (hash_addr client) s) as [b s'] eqn:Eh.
  set (q' := set_services _ q). assert (Hq' : routed_ok q').
  { destruct Hq as [H1 H2 H3 H4]. split; try done. cbn [q' set_services services]. rewrite fmap_insert, <- H1.
    apply insert_id. rewrite lookup_fmap, Ev. cbn. f_equal. rewrite <- (hash_static (hash_addr client) s), Eh. done. }
  destruct b as [b|]; [|done]. cbn [mbind option_bind]. destruct (parse_socket (udp_address b)) as [addr|] eqn:Ea; [|done].
  assert (Hb : backend_for client addr) by (eapply (chosen_backend client _ s b addr route q); eauto; by rewrite Eh).
  destruct Hq' as [H1 H2 H3 H4]. split; cbn [set_openings services sessions openings out]; try done.
  intros o [Hin|Heq%list_elem_of_singleton]%elem_of_app; [eauto|by subst o].
Qed.

Lemma open_routed i b se r now p : routed_ok p -> routed_ok (open_session i b se r now p).
Proof.
  intros Hp. unfold open_session. destruct (openings p !! i) as [o|] eqn:Eo; [|done].
  assert (Ho : backend_for (o_client o) (o_backend o)) by (apply (ro_openings p Hp); by eapply list_elem_of_lookup_2).
  set (q := set_openings _ p). assert (Hq : routed_ok q).
  { destruct Hp as [H1 H2 H3 H4]. split; try done. cbn [q set_openings openings]. intros o' Hin. apply H3.
    by eapply list_elem_of_delete_inv. }
  destruct b; [|done]. set (q1 := set_sessions _ (take_sockets 1 q)). assert (Hq1 : routed_ok q1).
  { destruct Hq as [H1 H2 H3 H4]. split; try done. cbn [q1 set_sessions sessions take_sockets]. intros c s. rewrite lookup_insert.
    case_decide as E; [|apply H2]. intros [= <-]. by subst. }
  pose proof (forward_routed (o_client o) (next_socket q) (o_backend o) (o_data o) se q1 Hq1 Ho) as Hf.
  destruct (forward_to_backend _ _ _ _ _ q1) as [ok q2]. cbn [snd] in Hf. destruct (ok && r); [|done]. by destruct Hf.
Qed.

Lemma delete_routed c p : routed_ok p -> routed_ok (set_sessions (delete c) p).
Proof. intros [H1 H2 H3 H4]. split; try done. cbn. intros c' s [_ Hs]%lookup_delete_Some. eauto. Qed.

Lemma step_routed o p : routed_ok p -> routed_ok (udp_step rt ep p o).
Proof.
  intros Hp. destruct o as [c d now se|i b se r now|i|i d now se|i|t now]; cbn [udp_step].
  - by apply arrive_routed.
  - by apply open_routed.
  - unfold listener_check. destruct (listeners p !! i) as [l|]; [|done]. destruct (waiting l); [done|].
    destruct (sessions p !! l_client l); [by destruct Hp|]. apply (delete_routed (l_client l)) in Hp. by destruct Hp.
  - unfold listener_reply. destruct (listeners p !! i) as [l|]; [|done]. destruct (waiting l); [|done]. destruct Hp as [H1 H2 H3 H4].
    assert (Ha : forall c s, alter (touch now) (l_client l) (sessions p) !! c = Some s -> backend_for c (backend_addr s)).
    { intros c s. rewrite lookup_alter. case_decide as E; [|apply H2]. destruct (sessions p !! l_client l) as [s0|] eqn:E0; [|done].
      intros [= <-]. subst c. by apply (H2 _ s0). }
    destruct se; split; cbn [emit set_listeners set_sessions services sessions openings out]; try done.
    intros c k b d' [Hin|Heq%list_elem_of_singleton]%elem_of_app; [eauto|done].
  - unfold listener_stop. destruct (listeners p !! i) as [l|]; [|done]. destruct (waiting l); [|done].
    apply (delete_routed (l_client l)) in Hp. by destruct Hp.
  - destruct Hp as [H1 H2 H3 H4]. split; try done. cbn. intros c s [Hs _]%map_lookup_filter_Some. eauto.
Qed.

Lemma run_routed ops : forall p, routed_ok p -> routed_ok (udp_run rt ep ops p).
Proof. unfold udp_run. induction ops as [|o ops IH]; intros p Hp; [done|]. cbn [foldl]. by apply IH, step_routed. Qed.

Lemma new_routed : routed_ok (new m0).
Proof. split; cbn; [done|by intros c s|by intros o Ho%elem_of_nil|by intros c k b d Hin%elem_of_nil]. Qed.

(** The backend a client's hash gives, when it is healthy. *)
Definition hashed_healthy (ip : IpAddr) : Prop :=
  forall route s, match_datagram rt ep (Some ip) = Some route -> m0 !! l4_service (rt_config route) = Some s ->
    load_flag (healthy s) (Z.to_nat (hash_ip ip mod Z.of_nat (length (servers s)))) = true.

(** C39. Affinity of UDP clients. Over any interleaving of datagrams of any
    clients, openings of sessions, replies, timeouts and cleanups: every
    datagram goes to a backend of the service that the client's route names, and
    all datagrams of one host, whatever its ports and whether or not its
    sessions end in between, go to one backend, as long as the backend its hash
    gives is marked healthy. *)
Theorem udp_affinity ops c k b d :
  let p := udp_run rt ep ops (new m0) in
  ToBackend c k b d ∈ out p ->
  backend_for c b /\
  forall c' k' b' d', ToBackend c' k' b' d' ∈ out p -> c'.1 = c.1 -> hashed_healthy c.1 -> b' = b.
Proof.
  intros p Hin. pose proof (run_routed ops (new m0) new_routed) as [_ _ _ Hout]. fold p in Hout.
  pose proof (Hout _ _ _ _ Hin) as Hb. split; [done|]. intros c' k' b' d' Hin' Heq Hh.
  destruct Hb as (route & s & x & Hr & Hs & _ & Hx & Hi). destruct (Hout _ _ _ _ Hin') as (route' & s' & x' & Hr' & Hs' & _ & Hx' & Hi').
  rewrite Heq, Hr in Hr'. injection Hr' as <-. rewrite Hs in Hs'. injection Hs' as <-. unfold hash_addr in Hi, Hi'. rewrite Heq in Hi'.
  cbn zeta in Hi, Hi'. rewrite Hi in Hi' by (by apply (Hh route)). injection (Hi' (Hh route s Hr Hs)) as <-. congruence.
Qed.
End Routed.

(** ** Replies reach their client *)

(** A socket is in use for a client by a session, a listener or a past packet. *)
Definition uses (p : UdpProxy) (k : nat) (c : SocketAddr) : Prop :=
  (exists s, sessions p !! c = Some s /\ backend_socket s = k) \/
  (exists l, l ∈ listeners p /\ l_socket l = k /\ l_client l = c) \/
  (exists b d, ToBackend c k b d ∈ out p) \/
  (exists src d, ToClient c k src d ∈ out p).

Record sockets_ok (p : UdpProxy) : Prop := {
  so_open : forall k c, uses p k c -> (k < next_socket p)%nat;
  so_owner : forall k c c', uses p k c -> uses p k c' -> c = c';
  so_entry : (0 < next_socket p)%nat;
  so_response : forall l, l ∈ listeners p -> (0 < l_response l)%nat;
  so_source : forall c k src d, ToClient c k src d ∈ out p -> (0 < src)%nat;
}.

(** A step that takes no socket into use, or one new socket for one client. *)
Lemma sockets_step p q c0 : sockets_ok p -> (next_socket p <= next_socket q)%nat ->
  (forall k c, uses q k c -> uses p k c \/ (k = next_socket p /\ Some c = c0 /\ (next_socket p < next_socket q)%nat)) ->
  (forall l, l ∈ listeners q -> (0 < l_response l)%nat) ->
  (forall c k src d, ToClient c k src d ∈ out q -> (0 < src)%nat) -> sockets_ok q.
Proof.
  intros [Ho Hf He Hr Hs] Hle Hu Hr' Hs'. split; try done; try lia.
  - intros k c [Hk%Ho|(-> & _ & Hlt)]%Hu; lia.
  - intros k c c' [H1|(-> & Hc & Hlt)]%Hu [H2|(Hk & Hc' & _)]%Hu; [by eapply Hf|..|congruence].
    + apply Ho in H1. lia.
    + apply Ho in H2. lia.
Qed.

Lemma uses_each q (P : nat -> SocketAddr -> Prop) :
  (forall c s, sessions q !! c = Some s -> P (backend_socket s) c) -> (forall l, l ∈ listeners q -> P (l_socket l) (l_client l)) ->
  (forall c k b d, ToBackend c k b d ∈ out q -> P k c) -> (forall c k src d, ToClient c k src d ∈ out q -> P k c) ->
  forall k c, uses q k c -> P k c.
Proof. intros H1 H2 H3 H4 k c [(s & Hs & <-)|[(l & Hl & <- & <-)|[(b & d & Hin)|(src & d & Hin)]]]; eauto. Qed.

Lemma uses_session p c s : sessions p !! c = Some s -> uses p (backend_socket s) c.
Proof. intros Hs. left. eauto. Qed.
Lemma uses_listener p l : l ∈ listeners p -> uses p (l_socket l) (l_client l).
Proof. intros Hl. right; left. eauto. Qed.
Lemma uses_backend p c k b d : ToBackend c k b d ∈ out p -> uses p k c.
Proof. intros Hl. do 2 right; left. eauto. Qed.
Lemma uses_client p c k src d : ToClient c k src d ∈ out p -> uses p k c.
Proof. intros Hl. do 3 right. eauto. Qed.

#[local] Hint Resolve uses_session uses_listener uses_backend uses_client : core.

(** The datagram of a client leaves through a socket of its own. *)
Lemma forward_sockets c k b d sent p : sockets_ok p -> uses p k c -> sockets_ok (forward_to_backend c k b d sent p).2.
Proof.
  intros Hp Hk. destruct sent; cbn [forward_to_backend snd]; [|done].
  apply (sockets_step p _ None Hp); [done| |apply Hp|].
  - intros k' c' Hu. left. revert k' c' Hu. apply uses_each; cbn; eauto.
    + intros c' k' b' d' [Hin|[= -> -> -> ->]%list_elem_of_singleton]%elem_of_app; eauto.
    + intros c' k' src d' [Hin|Heq%list_elem_of_singleton]%elem_of_app; [eauto|done].
  - cbn. intros c' k' src d' [Hin|Heq%list_elem_of_singleton]%elem_of_app; [by eapply Hp|done].
Qed.

(** Steps that only end or touch sessions and listeners. *)
Lemma shrink_sockets p q : sockets_ok p -> next_socket q = next_socket p -> out q = out p ->
  (forall c s, sessions q !! c = Some s -> exists s0, sessions p !! c = Some s0 /\ backend_socket s0 = backend_socket s) ->
  (forall l, l ∈ listeners q -> exists l0, l0 ∈ listeners p /\ l_socket l0 = l_socket l /\ l_client l0 = l_client l /\ l_response l0 = l_response l) ->
  sockets_ok q.
Proof.
  intros Hp Hn Ho Hs Hl. apply (sockets_step p q None Hp); [lia|..].
  - intros k c Hu. left. revert k c Hu. apply uses_each; rewrite ?Ho; eauto.
    + intros c s (s0 & H0 & <-)%Hs. eauto.
    + intros l (l0 & H0 & <- & <- & _)%Hl. eauto.
  - intros l (l0 & H0 & _ & _ & <-)%Hl. by apply Hp.
  - rewrite Ho. apply Hp.
Qed.

Lemma leave_sockets i l p : sockets_ok p -> sockets_ok (leave i l p).
Proof.
  intros Hp. apply (shrink_sockets p); try done; cbn.
  - intros c s [_ Hs]%lookup_delete_Some. eauto.
  - intros l' Hl%list_elem_of_delete_inv. eauto.
Qed.

Lemma relisten_sockets i l w p : sockets_ok p -> listeners p !! i = Some l ->
  sockets_ok (set_listeners (<[i := {| l_socket := l_socket l; l_response := l_response l; l_client := l_client l; waiting := w |}]> (listeners p)) p).
Proof.
  intros Hp Hi. apply (shrink_sockets p); try done; cbn; [eauto|]. intros l' [n Hn]%list_elem_of_lookup.
  rewrite list_lookup_insert in Hn. case_decide as E; [|exists l'; split; [by eapply list_elem_of_lookup_2|done]]. injection Hn as <-. exists l.
  split; [by eapply list_elem_of_lookup_2|done].
Qed.

Lemma arrive_sockets rt ep c d now sent p : sockets_ok p -> sockets_ok (arrive rt ep c d now sent p).
Proof.
  intros Hp. unfold arrive. set (q := count_received d p). assert (Hq : sockets_ok q) by (apply (shrink_sockets p); try done; cbn; eauto).
  destruct (sessions q !! c) as [s|] eqn:Es.
  - set (q1 := set_sessions _ q). assert (Hs1 : sessions q1 !! c = Some (touch now s)) by apply lookup_insert_eq.
    apply forward_sockets; [|exact (uses_session q1 c _ Hs1)]. apply (shrink_sockets q); try done; cbn; [|eauto].
    intros c' s'. rewrite lookup_insert. case_decide; [intros [= <-]; subst|]; eauto.
  - destruct (match_datagram rt ep (Some c.1)) as [route|]; [|done]. destruct (l4_get_service _ _) as [s|]; [|done].
    destruct (get_server_by_hash _ s) as [b s']. destruct (b ≫= _); apply (shrink_sockets q); try done; cbn; eauto.
Qed.

Lemma open_sockets i b se r now p : sockets_ok p -> sockets_ok (open_session i b se r now p).
Proof.
  intros Hp. unfold open_session. destruct (openings p !! i) as [o|]; [|done].
  set (q := set_openings _ p). assert (Hq : sockets_ok q) by (apply (shrink_sockets p); try done; cbn; eauto).
  destruct b; [|done]. set (q1 := set_sessions _ (take_sockets 1 q)).
  assert (Hs1 : sessions q1 !! o_client o = Some {| backend_addr := o_backend o; service_name := o_service o; last_activity := now;
    backend_socket := next_socket q |}) by apply lookup_insert_eq.
  assert (Hq1 : sockets_ok q1).
  { apply (sockets_step q q1 (Some (o_client o)) Hq); [cbn; lia| |apply Hq|apply Hq]. apply uses_each; cbn [q1 set_sessions take_sockets sessions listeners out];
      eauto. intros c s. rewrite lookup_insert. case_decide as E; [|eauto]. intros [= <-]. right. cbn. subst c. split_and!; [done|done|lia]. }
  pose proof (uses_session q1 _ _ Hs1) as Hu. cbn [backend_socket] in Hu.
  destruct se; cbn [forward_to_backend andb]; [|done].
  pose proof (forward_sockets (o_client o) (next_socket q) (o_backend o) (o_data o) true q1 Hq1 Hu) as Hf. cbn [forward_to_backend snd] in Hf.
  destruct r; [|done]. set (q2 := count_sent _ _) in *. apply (sockets_step q2 _ None Hf); [cbn; lia|..].
  - intros k c Huk. left. revert k c Huk. apply uses_each; cbn [set_listeners take_sockets sessions listeners out]; eauto.
    intros l [Hin|Heq%list_elem_of_singleton]%elem_of_app; [eauto|]. subst l. exact (uses_session q2 _ _ Hs1).
  - cbn [set_listeners listeners take_sockets]. intros l [Hin|Heq%list_elem_of_singleton]%elem_of_app; [by apply Hf|]. subst l. cbn. lia.
  - apply Hf.
Qed.

Lemma step_sockets rt ep o p : sockets_ok p -> sockets_ok (udp_step rt ep p o).
Proof.
  intros Hp. destruct o as [c d now se|i b se r now|i|i d now se|i|t now]; cbn [udp_step].
  - by apply arrive_sockets.
  - by apply open_sockets.
  - unfold listener_check. destruct (listeners p !! i) as [l|] eqn:El; [|done]. destruct (waiting l); [done|].
    destruct (sessions p !! l_client l); [by apply relisten_sockets|by apply leave_sockets].
  - unfold listener_reply. destruct (listeners p !! i) as [l|] eqn:El; [|done]. destruct (waiting l); [|done].
    set (q := set_sessions _ p). assert (Hq : sockets_ok q).
    { apply (shrink_sockets p); try done; cbn; [|eauto]. intros c s. rewrite lookup_alter. case_decide as E; [|eauto].
      destruct (sessions p !! l_client l) as [s0|] eqn:E0; [|done]. intros [= <-]. subst c. eauto. }
    destruct se; [|by apply relisten_sockets]. apply relisten_sockets; [|done].
    assert (Hl : l ∈ listeners q) by (by eapply list_elem_of_lookup_2).
    apply (sockets_step q _ None Hq); [done| |apply Hq|].
    + intros k c Hu. left. revert k c Hu. apply uses_each; cbn [emit sessions listeners out]; eauto.
      * intros c k b d' [Hin|Heq%list_elem_of_singleton]%elem_of_app; [eauto|done].
      * intros c k src d' [Hin|[= -> -> -> ->]%list_elem_of_singleton]%elem_of_app; eauto.
    + cbn [emit out]. intros c k src d' [Hin|[= -> -> -> ->]%list_elem_of_singleton]%elem_of_app; by eapply Hq.
  - unfold listener_stop. destruct (listeners p !! i) as [l|]; [|done]. destruct (waiting l); [by apply leave_sockets|done].
  - apply (shrink_sockets p); try done; cbn; [|eauto]. intros c s [Hs _]%map_lookup_filter_Some. eauto.
Qed.

Lemma run_sockets rt ep ops : forall p, sockets_ok p -> sockets_ok (udp_run rt ep ops p).
Proof. unfold udp_run. induction ops as [|o ops IH]; intros p Hp; [done|]. cbn [foldl]. by apply IH, step_sockets. Qed.

Lemma new_sockets m : sockets_ok (new m).
Proof.
  assert (Hu : forall k c, uses (new m) k c -> False).
  { apply uses_each; cbn; [by intros c s|by intros l Hl%elem_of_nil|by intros c k b d Hl%elem_of_nil|by intros c k b d Hl%elem_of_nil]. }
  split; cbn; try lia; intros; exfalso; eauto.
Qed.

(** C40. Replies go to the client that asked. Over any interleaving, a packet that
    is sent to a client was received on a socket through which only that
    client's datagrams ever left. (It is not sent from the entry point's socket,
    socket 0, but from one that the client has not addressed.) *)
Theorem udp_replies_isolated rt ep m ops c k src d :
  let p := udp_run rt ep ops (new m) in
  ToClient c k src d ∈ out p ->
  (forall c' b' d', ToBackend c' k b' d' ∈ out p -> c' = c) /\ (forall c' src' d', ToClient c' k src' d' ∈ out p -> c' = c) /\ src <> 0%nat.
Proof.
  intros p Hin. pose proof (run_sockets rt ep ops (new m) (new_sockets m)) as Hok. fold p in Hok. split_and!.
  - intros c' b' d' Hb. eapply (so_owner p Hok k); eauto.
  - intros c' src' d' Hb. eapply (so_owner p Hok k); eauto.
  - apply (so_source p Hok) in Hin. lia.
Qed.

(** ** The loop of [run] *)
(** The proxy with its timeout, and whether the loop runs. *)
Record udp_server := { sv_proxy : UdpProxy; sv_session_timeout : Z; sv_running : bool }.
Definition server_new (m : gmap string (L4Service UdpBackendServer)) : udp_server :=
  {| sv_proxy := new m; sv_session_timeout := DEFAULT_SESSION_TIMEOUT; sv_running := true |}.
Definition with_session_timeout (timeout : Z) (s : udp_server) : udp_server :=
  {| sv_proxy := sv_proxy s; sv_session_timeout := timeout; sv_running := sv_running s |}.
Definition sv_set (p : UdpProxy) (s : udp_server) : udp_server :=
  {| sv_proxy := p; sv_session_timeout := sv_session_timeout s; sv_running := sv_running s |}.

(** What the loop meets: a datagram (the task it starts for it goes on with
    [Open]), an error that is logged, the shutdown; the cleanup task, which ends
    with the loop; and the tasks started before, which do not. *)
Inductive run_event :=
| Datagram (client : SocketAddr) (data : string) (now : Z) (sent : bool)
| ReceiveError
| Shutdown
| CleanupDue (now : Z)
| OpenTask (i : nat) (bound sent response_bound : bool) (now : Z)
| CheckTask (i : nat)
| ReplyTask (i : nat) (data : string) (now : Z) (sent : bool)
| StopTask (i : nat).

Definition event_op (timeout : Z) (e : run_event) : option udp_op :=
  match e with
  | Datagram c d now sent => Some (Arrive c d now sent)
  | CleanupDue now => Some (Cleanup timeout now)
  | OpenTask i b s r now => Some (Open i b s r now)
  | CheckTask i => Some (Check i)
  | ReplyTask i d now sent => Some (Reply i d now sent)
  | StopTask i => Some (Stop i)
  | ReceiveError | Shutdown => None
  end.
(** [None]: the event cannot happen, since the loop has ended. *)
Definition server_step (rt : L4Router) (ep : string) (s : udp_server) (e : run_event) : option udp_server :=
  match e with
  | Datagram _ _ _ _ | ReceiveError | CleanupDue _ => if sv_running s then Some (sv_set (from_option (udp_step rt ep (sv_proxy s)) (sv_proxy s) (event_op (sv_session_timeout s) e)) s) else None
  | Shutdown => if sv_running s then Some {| sv_proxy := sv_proxy s; sv_session_timeout := sv_session_timeout s; sv_running := false |} else None
  | _ => Some (sv_set (from_option (udp_step rt ep (sv_proxy s)) (sv_proxy s) (event_op (sv_session_timeout s) e)) s)
  end.
Fixpoint server_steps (rt : L4Router) (ep : string) (es : list run_event) (s : udp_server) : option udp_server :=
  match es with [] => Some s | e :: es' => server_step rt ep s e ≫= server_steps rt ep es' end.

Definition metrics (p : UdpProxy) : UdpProxyStats * nat := (stats p, size (sessions p)).

(** Every run of the loop is a run of the operations, so what holds of those holds
    of it. *)
Lemma server_run_ops rt ep es : forall s s', server_steps rt ep es s = Some s' ->
  sv_session_timeout s' = sv_session_timeout s /\ sv_proxy s' = udp_run rt ep (omap (event_op (sv_session_timeout s)) es) (sv_proxy s).
Proof.
  induction es as [|e es IH]; intros s s'; [by intros [= <-]|]. cbn [server_steps]. intros (s1 & Hs & Hr)%bind_Some. apply IH in Hr as [Ht Hp].
  assert (H1 : sv_session_timeout s1 = sv_session_timeout s /\
    sv_proxy s1 = from_option (udp_step rt ep (sv_proxy s)) (sv_proxy s) (event_op (sv_session_timeout s) e)).
  { destruct e; cbn in Hs; try (destruct (sv_running s); [|done]); by injection Hs as <-. }
  destruct H1 as [H1 H2]. rewrite Ht, Hp, H1. split; [done|]. cbn [omap list_omap]. rewrite H2. by destruct (event_op _ e).
Qed.

(** The packets that left for the backends. *)
Definition forwarded (p : UdpProxy) : list packet := List.filter (fun k => match k with ToBackend _ _ _ _ => true | _ => false end) (out p).
Definition quiet (s : udp_server) : Prop := sv_running s = false /\ openings (sv_proxy s) = [].
Lemma quiet_step rt ep s e s' : quiet s -> server_step rt ep s e = Some s' -> quiet s' /\ forwarded (sv_proxy s') = forwarded (sv_proxy s).
Proof.
  intros [Hr Ho]. destruct e; cbn; rewrite ?Hr; try done; intros [= <-]; unfold quiet, forwarded; cbn.
  - unfold open_session. by rewrite Ho.
  - unfold listener_check. by repeat case_match.
  - unfold listener_reply. destruct (listeners _ !! i) as [l|]; [|done]. destruct (waiting l); [|done].
    destruct sent; cbn; [|done]. rewrite List.filter_app. cbn. by rewrite app_nil_r.
  - unfold listener_stop. by repeat case_match.
Qed.
(** After the shutdown, once the tasks that were binding their sockets are
    through, nothing more is sent to a backend, while replies still reach their
    clients. *)
Lemma stopped_proxy_forwards_none rt ep es : forall s s', quiet s -> server_steps rt ep es s = Some s' -> forwarded (sv_proxy s') = forwarded (sv_proxy s).
Proof.
  induction es as [|e es IH]; intros s s' Hq; [by intros [= <-]|]. cbn [server_steps]. intros (s1 & Hs & Hr)%bind_Some.
  destruct (quiet_step _ _ _ _ _ Hq Hs) as [Hq1 <-]. by apply IH.
Qed.
End Udp.

(** ** Concrete runs *)
#[local] Existing Instance two_hosts.
#[local] Instance hosts_eq : EqDecision (@IpAddr two_hosts) := bool_eq_dec.
#[local] Instance hosts_countable : Countable (@IpAddr two_hosts) := bool_countable.

Definition demo_route : L4Route :=
  {| rt_name := "dns"; rt_config := {| l4_entry_points := ["udp"]; l4_rule := "*"; l4_service := "dns"; l4_middlewares := [];
       l4_priority := 0; l4_tls_passthrough := None |}; rt_rule := CatchAll |}.
Definition demo_rt : L4Router := {| l4_routers := ∅; l4_catch_all := {["udp" := demo_route]} |}.
Definition demo_services : gmap string (L4Service UdpBackendServer) :=
  {["dns" := l4_new "dns" [{| udp_address := "a:53"; udp_weight := 1 |}; {| udp_address := "b:53"; udp_weight := 1 |}]]}.
Definition demo_hash (a : @IpAddr two_hosts) : Z := if (a : bool) then 7 else 8.
Definition demo_parse (s : string) : option SocketAddr :=
  if decide (s = "a:53") then Some ((true : IpAddr), 53) else Some ((false : IpAddr), 53).
Definition backend_b : SocketAddr := ((false : @IpAddr two_hosts), 53).
Definition client (port : Z) : SocketAddr := ((true : @IpAddr two_hosts), port).
Abbreviation demo_run := (fun ops => udp_run demo_hash demo_parse demo_rt "udp" ops (new demo_services)).

(** Two datagrams of a client race, its session ends, and it comes back. *)
Definition demo_ops : list udp_op :=
  [Arrive (client 1) "q1" 0 true; Arrive (client 1) "q2" 0 true; Open 0 true true true 0; Open 0 true true true 0; Check 0;
   Reply 0 "r1" 5 true; Cleanup 60 100; Arrive (client 2) "q3" 110 true; Open 0 true true true 110].
Definition demo_out : list packet :=
  [ToBackend (client 1) 1 backend_b "q1"; ToBackend (client 1) 3 backend_b "q2";
   ToClient (client 1) 1 2 "r1"; ToBackend (client 2) 5 backend_b "q3"].
Lemma demo_out_eq : out (demo_run demo_ops) = demo_out.
Proof. vm_compute. reflexivity. Qed.

Lemma udp_affinity_witness : backend_for demo_hash demo_parse demo_rt "udp" demo_services (client 1) backend_b.
Proof.
  apply (udp_affinity demo_hash demo_parse demo_rt "udp" demo_services demo_ops (client 1) 1 backend_b "q1").
  rewrite demo_out_eq. by left.
Defined.

Lemma udp_replies_isolated_witness : ToClient (client 1) 1 2 "r1" ∈ demo_out /\ (forall c' b' d', ToBackend c' 1 b' d' ∈ demo_out -> c' = client 1).
Proof.
  split; [right; right; by left|].
  rewrite <- demo_out_eq.
  apply (udp_replies_isolated demo_hash demo_parse demo_rt "udp" demo_services demo_ops (client 1) 1 2 "r1").
  rewrite demo_out_eq. right; right. by left.
Defined.

(** A client that keeps sending loses its session when its backend does not
    reply for the listener's timeout. *)
Lemma active_session_dropped :
  sessions (demo_run [Arrive (client 1) "a" 0 true; Open 0 true true true 0; Check 0; Arrive (client 1) "b" (59 * 10 ^ 9) true; Stop 0]) !! client 1 = None.
Proof. vm_compute. reflexivity. Qed.
(** A first datagram that cannot be sent leaves a session without a listener. *)
Lemma session_without_listener :
  let p := demo_run [Arrive (client 1) "a" 0 true; Open 0 true false true 0; Arrive (client 1) "b" 1 true] in
  is_Some (sessions p !! client 1) /\ listeners p = [].
Proof. vm_compute. split; [by eexists|reflexivity]. Qed.
(** Replies are not counted: the listener counts in counters of its own. *)
Lemma replies_not_counted : packets_sent (stats (demo_run demo_ops)) = 3 /\ packets_received (stats (demo_run demo_ops)) = 3.
Proof. vm_compute. split; reflexivity. Qed.
