(* ===== verification/Trace.v ===== *)
(** * Trace contexts

    Models src/src/telemetry/propagation.rs: reading a trace context from W3C, B3
    or Jaeger headers, making one, and writing it to the headers of a request.
    The generator's shared state and the clock are arguments. *)
From S2P Require Import Prelude RustStr Rule Net Http Hash.
From stdpp Require Import list.
Open Scope Z_scope.
Open Scope list_scope.
#[local] Set Default Proof Using "Type*".

Record TraceContext := {
  trace_id : string;
  parent_id : string;
  trace_flags : Z; (* u8 *)
  trace_state : option string;
}.

(** ** Identifiers *)

(** One round of the generator. *)
Definition xorshift (state : Z) : Z :=
  let state := Z.lxor state (wrap_u64 (Z.shiftl state 13)) in
  let state := Z.lxor state (Z.shiftr state 7) in
  Z.lxor state (wrap_u64 (Z.shiftl state 17)).
Fixpoint random_bytes (n : nat) (state : Z) : list Z * Z :=
  match n with
  | O => ([], state)
  | S n' => let state := xorshift state in let '(l, st) := random_bytes n' state in (state mod 256 :: l, st)
  end.
(** The state is seeded from the clock the first time. *)
Definition fill_random (n : nat) (state nanos : Z) : list Z * Z :=
  random_bytes n (if state =? 0 then Z.lor (wrap_u64 nanos) 1 else state).
Fixpoint to_hex (bytes : list Z) : string :=
  match bytes with
  | [] => ""
  | b :: bytes' => String (hex_digit (Z.shiftr b 4)) (String (hex_digit (Z.land b 15)) (to_hex bytes'))
  end.
Definition generate_trace_id (state nanos : Z) : string * Z := let '(l, st) := fill_random 16 state nanos in (to_hex l, st).
Definition generate_span_id (state nanos : Z) : string * Z := let '(l, st) := fill_random 8 state nanos in (to_hex l, st).

Definition trace_new (state nanos nanos' : Z) : TraceContext * Z :=
  let '(t, state) := generate_trace_id state nanos in
  let '(p, state) := generate_span_id state nanos' in
  ({| trace_id := t; parent_id := p; trace_flags := 1; trace_state := None |}, state).
Definition child (state nanos : Z) (c : TraceContext) : TraceContext * Z :=
  let '(p, state) := generate_span_id state nanos in
  ({| trace_id := trace_id c; parent_id := p; trace_flags := trace_flags c; trace_state := trace_state c |}, state).

(** ** The traceparent header *)

(** [u8::from_str_radix(s, 16)] *)
Fixpoint hex_scan (s : string) (acc : Z) : Z :=
  match s with EmptyString => acc | String c s' => hex_scan s' (acc * 16 + Z.of_nat (hex_val c)) end.
Definition u8_from_hex (s : string) : option Z :=
  let digits := default s (RustStr.strip_prefix "+" s) in
  if bool_decide (digits = "") || negb (str_forall is_hexdigit digits) then None
  else if hex_scan digits 0 <=? 255 then Some (hex_scan digits 0) else None.

Fixpoint zeros (n : nat) : string := match n with O => "" | S n' => String "0" (zeros n') end.
Definition id_ok (n : nat) (s : string) : bool :=
  (String.length s =? n)%nat && str_forall is_hexdigit s && negb (bool_decide (s = zeros n)).
Definition parse_traceparent (value : string) : option TraceContext :=
  match split_on "-" value with
  | [version; tid; pid; flags] =>
      if negb (bool_decide (version = "00")) then None
      else if negb (id_ok 32 tid) then None
      else if negb (id_ok 16 pid) then None
      else f ← u8_from_hex flags;
           Some {| trace_id := to_ascii_lowercase tid; parent_id := to_ascii_lowercase pid; trace_flags := f; trace_state := None |}
  | _ => None
  end.

Definition hex2 (n : Z) : string := String (hex_digit (n / 16)) (String (hex_digit (n mod 16)) "").
Definition to_traceparent (c : TraceContext) : string :=
  "00-" +:+ trace_id c +:+ "-" +:+ parent_id c +:+ "-" +:+ hex2 (trace_flags c).
Definition is_sampled (c : TraceContext) : bool := negb (Z.land (trace_flags c) 1 =? 0).

(** ** Headers *)
Section Headers.
Context `{HO : HttpOps}.

(** Identifiers of 16 digits are padded to 32. *)
Definition normalized (tid : string) : string := if (String.length tid =? 16)%nat then zeros 16 +:+ tid else tid.

Definition from_w3c (h : HeaderMap) : option TraceContext :=
  value ← header_text h "traceparent";
  c ← parse_traceparent value;
  Some (match header_text h "tracestate" with
        | Some st => {| trace_id := trace_id c; parent_id := parent_id c; trace_flags := trace_flags c; trace_state := Some st |}
        | None => c
        end).
Definition from_b3 (h : HeaderMap) : option TraceContext :=
  tid ← header_text h "x-b3-traceid";
  sid ← header_text h "x-b3-spanid";
  let sampled := match header_text h "x-b3-sampled" with
                 | Some v => bool_decide (v = "1") || eq_ignore_ascii_case v "true"
                 | None => true
                 end in
  Some {| trace_id := to_ascii_lowercase (normalized tid); parent_id := to_ascii_lowercase sid;
          trace_flags := if sampled then 1 else 0; trace_state := None |}.
Definition from_jaeger (h : HeaderMap) : option TraceContext :=
  value ← header_text h "uber-trace-id";
  match split_on ":" value with
  | tid :: sid :: _ :: flags :: _ =>
      Some {| trace_id := to_ascii_lowercase (normalized tid); parent_id := to_ascii_lowercase sid;
              trace_flags := default 1 (u8_from_hex flags); trace_state := None |}
  | _ => None
  end.
Definition extract_context (state nanos nanos' : Z) (h : HeaderMap) : TraceContext * Z :=
  match from_w3c h with
  | Some c => (c, state)
  | None => match from_b3 h with
            | Some c => (c, state)
            | None => match from_jaeger h with Some c => (c, state) | None => trace_new state nanos nanos' end
            end
  end.

(** [insert] of a text that is a legal header value. *)
Definition put (k s : string) (h : HeaderMap) : HeaderMap := match hv_from_str s with Some v => hm_insert k v h | None => h end.
Definition inject_context (c : TraceContext) (h : HeaderMap) : HeaderMap :=
  let h := put "traceparent" (to_traceparent c) h in
  let h := match trace_state c with Some st => put "tracestate" st h | None => h end in
  let h := put "x-b3-traceid" (trace_id c) h in
  let h := put "x-b3-spanid" (parent_id c) h in
  put "x-b3-sampled" (if is_sampled c then "1" else "0") h.
End Headers.

(** ** Well-formed contexts *)
Definition ctx_ok (c : TraceContext) : bool :=
  id_ok 32 (trace_id c) && bool_decide (to_ascii_lowercase (trace_id c) = trace_id c) &&
  id_ok 16 (parent_id c) && bool_decide (to_ascii_lowercase (parent_id c) = parent_id c) &&
  (0 <=? trace_flags c) && (trace_flags c <=? 255) &&
  match trace_state c with Some st => str_forall visible_byte st | None => true end.

Lemma all_bytes (p : Z -> bool) : forallb (fun n => p (Z.of_nat n)) (seq 0 256) = true -> forall b, 0 <= b < 256 -> p b = true.
Proof.
  intros H b Hb. rewrite forallb_forall in H. rewrite <- (Z2Nat.id b) by lia. apply H. apply List.in_seq. lia.
Qed.
Lemma hex2_parsed f : 0 <= f < 256 -> u8_from_hex (hex2 f) = Some f.
Proof.
  intros Hf. assert (H : forall b, 0 <= b < 256 -> bool_decide (u8_from_hex (hex2 b) = Some b) = true)
    by (apply all_bytes; vm_compute; reflexivity). by eapply bool_decide_eq_true, H.
Qed.
Lemma hex2_plain f : 0 <= f < 256 -> str_forall (fun c => negb (Ascii.eqb c "-") && visible_byte c) (hex2 f) = true.
Proof. apply (all_bytes (fun f => str_forall (fun c => negb (Ascii.eqb c "-") && visible_byte c) (hex2 f))). vm_compute. reflexivity. Qed.

Lemma hex_plain c : is_hexdigit c = true -> negb (Ascii.eqb c "-") && visible_byte c = true.
Proof. destruct c as [[] [] [] [] [] [] [] []]; vm_compute; congruence. Qed.
Lemma id_plain n s : id_ok n s = true -> str_forall (fun c => negb (Ascii.eqb c "-") && visible_byte c) s = true.
Proof.
  unfold id_ok. intros [[_ Hs]%andb_prop _]%andb_prop. induction s as [|c s IH]; [done|]. cbn [str_forall] in *.
  apply andb_prop in Hs as [Hc Hs]. by rewrite hex_plain, IH.
Qed.
Lemma str_forall_and p q s : str_forall (fun c => p c && q c) s = true -> str_forall p s = true /\ str_forall q s = true.
Proof.
  induction s as [|c s IH]; [done|]. cbn [str_forall]. intros [[-> ->]%andb_prop H]%andb_prop. by destruct (IH H) as [-> ->].
Qed.

Lemma traceparent_parsed c : ctx_ok c = true ->
  parse_traceparent (to_traceparent c) =
    Some {| trace_id := trace_id c; parent_id := parent_id c; trace_flags := trace_flags c; trace_state := None |} /\
  str_forall visible_byte (to_traceparent c) = true.
Proof.
  unfold ctx_ok. rewrite !andb_true_iff, !bool_decide_eq_true, !Z.leb_le. intros [[[[[[Ht Hlt] Hp] Hlp] H0] H1] _].
  destruct (str_forall_and _ _ _ (id_plain _ _ Ht)) as [Ht1 Ht2], (str_forall_and _ _ _ (id_plain _ _ Hp)) as [Hp1 Hp2].
  destruct (str_forall_and _ _ _ (hex2_plain (trace_flags c) ltac:(lia))) as [Hf1 Hf2].
  unfold to_traceparent. split.
  - unfold parse_traceparent. change ("00-" +:+ ?r) with ("00" +:+ String "-" r). rewrite split_on_app.
    change ("-" +:+ ?r) with (String "-" r). rewrite split_on_app. change ("-" +:+ ?r) with (String "-" r). rewrite split_on_app.
    rewrite !split_on_single by done. cbn [app]. rewrite Ht, Hp, bool_decide_eq_true_2 by done. cbn [negb].
    rewrite hex2_parsed by lia. cbn [mbind option_bind]. by rewrite Hlt, Hlp.
  - rewrite !str_forall_app, Ht2, Hp2, Hf2. done.
Qed.

Section Propagation.
Context `{HL : HttpLaws}.

Lemma put_text k s h : str_forall visible_byte s = true -> header_text (put k s h) k = Some s.
Proof. intros (v & Hv & Hs)%from_visible. unfold put, header_text. rewrite Hv, get_insert_eq. done. Qed.
Lemma put_other k k' s h : k <> k' -> header_text (put k s h) k' = header_text h k'.
Proof. intros Hne. unfold put, header_text. destruct (hv_from_str s); [by rewrite get_insert_ne|done]. Qed.

Lemma context_roundtrip c h state nanos nanos' : ctx_ok c = true ->
  extract_context state nanos nanos' (inject_context c h) =
    ({| trace_id := trace_id c; parent_id := parent_id c; trace_flags := trace_flags c;
        trace_state := match trace_state c with Some st => Some st | None => header_text h "tracestate" end |}, state).
Proof.
  intros Hok. destruct (traceparent_parsed c Hok) as [Hp Hv]. set (h' := inject_context c h).
  assert (H1 : header_text h' "traceparent" = Some (to_traceparent c)).
  { unfold h', inject_context. rewrite !put_other by done. destruct (trace_state c); rewrite ?put_other by done; by apply put_text. }
  assert (H2 : header_text h' "tracestate" = match trace_state c with Some st => Some st | None => header_text h "tracestate" end).
  { unfold h', inject_context. rewrite !put_other by done. unfold ctx_ok in Hok. destruct (trace_state c) as [st|].
    - apply andb_prop in Hok as [_ Hst]. by apply put_text.
    - by rewrite put_other. }
  unfold extract_context, from_w3c. rewrite H1. cbn [mbind option_bind]. rewrite Hp. cbn [mbind option_bind]. rewrite H2.
  by destruct (trace_state c), (header_text h "tracestate").
Qed.

(** Trace contexts round trip: whatever headers a request had, a context that
    is written to it is read back by the next hop, identifiers, flags and
    vendor state; without vendor state of its own, the request's old one stays. *)
Theorem trace_roundtrip c h state nanos nanos' : ctx_ok c = true ->
  extract_context state nanos nanos' (inject_context c h) =
    ({| trace_id := trace_id c; parent_id := parent_id c; trace_flags := trace_flags c;
        trace_state := match trace_state c with Some st => Some st | None => header_text h "tracestate" end |}, state).
Proof. apply context_roundtrip. Qed.

(** A span of another format is passed on as it is: the traceparent made of a
    short one is not valid. *)
Lemma short_span_not_propagated :
  parse_traceparent (to_traceparent {| trace_id := zeros 16 +:+ "6f6f6d646e6f6873"; parent_id := "1"; trace_flags := 1; trace_state := None |}) = None.
Proof. vm_compute. reflexivity. Qed.
End Propagation.

(** ** Generated identifiers *)
Lemma random_bytes_range n : forall st, length (random_bytes n st).1 = n /\ Forall (fun b => 0 <= b < 256) (random_bytes n st).1.
Proof.
  induction n as [|n IH]; intros st; [by split|]. cbn [random_bytes]. specialize (IH (xorshift st)).
  destruct (random_bytes n (xorshift st)) as [l st']. cbn [fst] in *. destruct IH as [IH1 IH2]. cbn [length]. split; [by rewrite IH1|].
  constructor; [apply Z.mod_pos_bound; lia|done].
Qed.
Lemma to_hex_ok l : Forall (fun b => 0 <= b < 256) l ->
  String.length (to_hex l) = (2 * length l)%nat /\ str_forall is_hexdigit (to_hex l) = true /\ to_ascii_lowercase (to_hex l) = to_hex l.
Proof.
  assert (Hd : forall b, 0 <= b < 256 -> is_hexdigit (hex_digit (Z.shiftr b 4)) && is_hexdigit (hex_digit (Z.land b 15)) &&
    bool_decide (lower_ascii (hex_digit (Z.shiftr b 4)) = hex_digit (Z.shiftr b 4)) &&
    bool_decide (lower_ascii (hex_digit (Z.land b 15)) = hex_digit (Z.land b 15)) = true)
    by (apply all_bytes; vm_compute; reflexivity).
  induction 1 as [|b l Hb _ (H1 & H2 & H3)]; [done|]. specialize (Hd b Hb). rewrite !andb_true_iff, !bool_decide_eq_true in Hd.
  destruct Hd as [[[D1 D2] D3] D4]. cbn [to_hex String.length str_forall length]. rewrite H1, D1, D2, H2.
  unfold to_ascii_lowercase in *. cbn [str_map]. rewrite D3, D4, H3. split_and!; [lia|done|done].
Qed.

(** Identifiers that are made have the form the headers need: 32 and 16 lower
    case hexadecimal digits, from any state of the generator and any clock. *)
Theorem trace_ids_formed state nanos nanos' :
  let c := (trace_new state nanos nanos').1 in
  String.length (trace_id c) = 32%nat /\ String.length (parent_id c) = 16%nat /\ str_forall is_hexdigit (trace_id c) = true /\
  str_forall is_hexdigit (parent_id c) = true /\ to_ascii_lowercase (trace_id c) = trace_id c /\ to_ascii_lowercase (parent_id c) = parent_id c.
Proof.
  assert (H : forall n st ns, String.length (to_hex (fill_random n st ns).1) = (2 * n)%nat /\
    str_forall is_hexdigit (to_hex (fill_random n st ns).1) = true /\ to_ascii_lowercase (to_hex (fill_random n st ns).1) = to_hex (fill_random n st ns).1).
  { intros n st ns. unfold fill_random. set (s := if st =? 0 then _ else _). destruct (random_bytes_range n s) as [Hl Hr].
    destruct (to_hex_ok _ Hr) as (H1 & H2 & H3). rewrite Hl in H1. done. }
  cbn zeta. unfold trace_new, generate_trace_id, generate_span_id. pose proof (H 16%nat state nanos) as (A1 & A2 & A3).
  destruct (fill_random 16 state nanos) as [l st]. pose proof (H 8%nat st nanos') as (B1 & B2 & B3).
  destruct (fill_random 8 st nanos') as [l' st']. cbn [fst trace_id parent_id] in *. split_and!; done.
Qed.

Definition demo_ctx : TraceContext :=
  {| trace_id := "4bf92f3577b34da6a3ce929d0e0e4736"; parent_id := "00f067aa0ba902b7"; trace_flags := 1; trace_state := None |}.
Lemma trace_roundtrip_witness :
  (extract_context (HO := map_http) 5 0 0 (inject_context demo_ctx hm_empty)).1 = demo_ctx.
Proof. rewrite (trace_roundtrip (H := map_http) demo_ctx hm_empty 5 0 0); reflexivity. Defined.
