(* ===== verification/TraceIds.v ===== *)
(** * The generator of trace identifiers

    [fill_random] of src/src/telemetry/propagation.rs is a xorshift generator, a
    linear map over bits. Nine of its bytes determine its state: a linear map
    that computes the state back from them is given as a table and checked on
    the 64 unit vectors. So no two states give the same trace identifier, none
    is the forbidden all-zero one, and whoever sees one knows all that follow.
    Span identifiers have one byte too few for that. *)
From S2P Require Import Prelude RustStr Rule Hash Trace.
From stdpp Require Import list.
Open Scope Z_scope.
Open Scope list_scope.

(** ** Linear maps *)
Class Linear (f : Z -> Z) := { lin_0 : f 0 = 0; lin_xor : forall a b, f (Z.lxor a b) = Z.lxor (f a) (f b) }.

Lemma split_high n s : 0 <= s < 2 ^ (n + 1) -> 0 <= n -> s = Z.lxor (s mod 2 ^ n) (if Z.testbit s n then 2 ^ n else 0).
Proof.
  intros Hs Hn. apply Z.bits_inj'. intros i Hi. rewrite Z.lxor_spec. destruct (Z.lt_total i n) as [H|[->|H]].
  - rewrite Z.mod_pow2_bits_low by lia. destruct (Z.testbit s n); [rewrite Z.pow2_bits_false by lia|rewrite Z.bits_0]; by rewrite xorb_false_r.
  - rewrite Z.mod_pow2_bits_high by lia. destruct (Z.testbit s n); [by rewrite Z.pow2_bits_true by lia|by rewrite Z.bits_0].
  - rewrite Z.mod_pow2_bits_high by lia. rewrite (Z.bits_above_log2 s i).
    + destruct (Z.testbit s n); [by rewrite Z.pow2_bits_false by lia|by rewrite Z.bits_0].
    + lia.
    + destruct (Z.eq_dec s 0) as [->|]; [cbn; lia|]. apply Z.log2_lt_pow2; [lia|]. eapply Z.lt_le_trans; [apply Hs|]. apply Z.pow_le_mono_r; lia.
Qed.
(** Linear maps that agree on the unit vectors agree. *)
Lemma linear_ext f g `{!Linear f} `{!Linear g} n : (forall i, (i < n)%nat -> f (2 ^ Z.of_nat i) = g (2 ^ Z.of_nat i)) ->
  forall s, 0 <= s < 2 ^ Z.of_nat n -> f s = g s.
Proof.
  induction n as [|n IH]; intros H s Hs; [replace s with 0 by lia; by rewrite !lin_0|].
  rewrite Nat2Z.inj_succ, <- Z.add_1_r in Hs. rewrite (split_high (Z.of_nat n) s Hs) by lia. rewrite !lin_xor.
  rewrite (IH (fun i Hi => H i ltac:(lia))) by (apply Z.mod_pos_bound; lia).
  f_equal. destruct (Z.testbit s (Z.of_nat n)); [apply H; lia|by rewrite !lin_0].
Qed.

Lemma xor_swap a b c d : Z.lxor (Z.lxor a b) (Z.lxor c d) = Z.lxor (Z.lxor a c) (Z.lxor b d).
Proof. rewrite !Z.lxor_assoc. f_equal. rewrite <- !Z.lxor_assoc. f_equal. apply Z.lxor_comm. Qed.

#[export] Instance linear_id : Linear (fun s => s).
Proof. by split. Qed.
#[export] Instance linear_xor f g : Linear f -> Linear g -> Linear (fun s => Z.lxor (f s) (g s)).
Proof.
  intros Hf Hg. split; [by rewrite !lin_0|]. intros a b. rewrite !lin_xor. apply xor_swap.
Qed.
#[export] Instance linear_comp f g : Linear f -> Linear g -> Linear (fun s => f (g s)) | 10.
Proof. intros Hf Hg. split; [by rewrite !lin_0|]. intros a b. by rewrite !lin_xor. Qed.
#[export] Instance linear_shiftl n : Linear (fun s => Z.shiftl s n).
Proof. split; [apply Z.shiftl_0_l|]. intros a b. apply Z.shiftl_lxor. Qed.
#[export] Instance linear_shiftr n : Linear (fun s => Z.shiftr s n).
Proof. split; [apply Z.shiftr_0_l|]. intros a b. apply Z.shiftr_lxor. Qed.
Lemma linear_mod n : 0 <= n -> Linear (fun s => s mod 2 ^ n).
Proof.
  intros Hn. split; [apply Z.mod_0_l; lia|]. intros a b. apply Z.bits_inj'. intros i Hi. rewrite Z.lxor_spec. destruct (Z.lt_ge_cases i n).
  - by rewrite !Z.mod_pow2_bits_low, Z.lxor_spec by lia.
  - by rewrite !Z.mod_pow2_bits_high by lia.
Qed.

(** ** The generator is linear *)
#[export] Instance linear_wrap : Linear wrap_u64.
Proof. exact (linear_mod 64 ltac:(lia)). Qed.
#[export] Instance linear_byte : Linear (fun s => s mod 256).
Proof. exact (linear_mod 8 ltac:(lia)). Qed.
Lemma linear_xorshift : Linear xorshift.
Proof.
  assert (H1 : Linear (fun s => Z.lxor s (wrap_u64 (Z.shiftl s 13)))) by exact _.
  assert (H2 : Linear (fun s => Z.lxor s (Z.shiftr s 7))) by exact _.
  assert (H3 : Linear (fun s => Z.lxor s (wrap_u64 (Z.shiftl s 17)))) by exact _.
  exact (linear_comp _ _ H3 (linear_comp _ _ H2 H1)).
Qed.
#[export] Existing Instance linear_xorshift.

(** Bytes as one number, the first the lowest. *)
Fixpoint packed (l : list Z) : Z := match l with [] => 0 | b :: l' => Z.lxor b (Z.shiftl (packed l') 8) end.
Definition output (n : nat) (s : Z) : Z := packed (random_bytes n s).1.
Lemma output_S n s : output (S n) s = Z.lxor (xorshift s mod 256) (Z.shiftl (output n (xorshift s)) 8).
Proof. unfold output. cbn [random_bytes]. by destruct (random_bytes n (xorshift s)) as [l st]. Qed.
Lemma linear_output n : Linear (output n).
Proof.
  induction n as [|n IH]; [by split|]. split.
  - rewrite output_S. change (xorshift 0) with 0. rewrite (@lin_0 _ IH). done.
  - intros a b. rewrite !output_S, (@lin_xor _ linear_xorshift), (@lin_xor _ IH), (@lin_xor _ linear_byte), Z.shiftl_lxor. apply xor_swap.
Qed.

(** ** Back to the state *)
Definition recover_table : list Z :=
  [
   12180119120477027643; 6141374938170318845; 12278245726890336251; 6114250430009778167;
   12223996710703472623; 6005753497147678687; 12007002844845055935; 260430828694766277;
   0; 2579317316002949200; 5154130482555613345; 9000940453597159488;
   17997377857389879425; 27162889370992640; 54325778741985280; 7749342886012302956;
   0; 11473052412009646096; 14814450098216161570; 11182156122722771524;
   3913065121931551881; 11492184464151676944; 4537624854593802272; 11823935276363133540;
   0; 13944846559595200512; 9442949045480849408; 439154017252147200;
   878308034504294400; 1756616069008588800; 3513232138017177600; 14182970425014071908;
   0; 16822496084612181145; 15198248095514810674; 6210889537849488230;
   12426283225015043789; 12326776725797432473; 11944825090996836400; 12711068770673562664;
   0; 18299791626145898560; 18157343328032546945; 292769160151171072;
   585538320302342144; 1171076640604684288; 2342153281209368576; 14887840923697480712;
   0; 11473052961761265680; 14814448998696145186; 11182153923682738756;
   3913060723851486345; 11492193260177590288; 4537642446645628960; 72057594037927936;
   0; 17431058234128515330; 16415372394547479044; 14384000715385406472;
   10321257357061261328; 2195770640412971040; 4391541280825942080; 8787586711102185601;
   0; 17575173422204371202; 16703602770699190788; 14960461467688829960;
   11474178861668108304; 4501613649626664992; 9003227299253329984; 18010958747956961409].
Fixpoint combine (t : list Z) (v : Z) : Z :=
  match t with [] => 0 | m :: t' => Z.lxor (if Z.odd v then m else 0) (combine t' (Z.shiftr v 1)) end.
Lemma linear_combine t : Linear (combine t).
Proof.
  induction t as [|m t IH]; [by split|]. split; [cbn; by rewrite lin_0|]. intros a b. cbn [combine].
  rewrite Z.shiftr_lxor, (@lin_xor _ IH), <- !Z.bit0_odd, Z.lxor_spec. rewrite <- xor_swap. f_equal.
  destruct (Z.testbit a 0), (Z.testbit b 0); cbn [xorb]; by rewrite ?Z.lxor_nilpotent, ?Z.lxor_0_r.
Qed.
Definition recover (v : Z) : Z := combine recover_table v.
Lemma recover_output s : 0 <= s < 2 ^ 64 -> recover (output 9 s) = s.
Proof.
  pose proof (linear_combine recover_table) as Hc. pose proof (linear_output 9) as Ho.
  apply (linear_ext (fun s => recover (output 9 s)) (fun s => s) (Linear0 := linear_comp _ _ Hc Ho) 64).
  assert (H : forallb (fun i => recover (output 9 (2 ^ Z.of_nat i)) =? 2 ^ Z.of_nat i) (seq 0 64) = true) by (vm_compute; reflexivity).
  intros i Hi. rewrite forallb_forall in H. apply Z.eqb_eq, H, in_seq. lia.
Qed.

(** ** What an identifier tells *)
Lemma random_bytes_app n m s : (random_bytes (n + m) s).1 = (random_bytes n s).1 ++ (random_bytes m (random_bytes n s).2).1.
Proof.
  revert s. induction n as [|n IH]; intros s; [done|]. cbn [Nat.add random_bytes]. specialize (IH (xorshift s)).
  destruct (random_bytes (n + m) (xorshift s)) as [l st], (random_bytes n (xorshift s)) as [l' st']. cbn [fst snd app] in *. by rewrite IH.
Qed.
Fixpoint of_hex (s : string) : list Z :=
  match s with String a (String b s') => Z.of_nat (hex_val a) * 16 + Z.of_nat (hex_val b) :: of_hex s' | _ => [] end.
Lemma of_to_hex l : Forall (fun b => 0 <= b < 256) l -> of_hex (to_hex l) = l.
Proof.
  assert (Hd : forall b, 0 <= b < 256 -> (Z.of_nat (hex_val (hex_digit (Z.shiftr b 4))) * 16 + Z.of_nat (hex_val (hex_digit (Z.land b 15))) =? b) = true)
    by (apply all_bytes; vm_compute; reflexivity).
  induction 1 as [|b l Hb _ IH]; [done|]. cbn [to_hex of_hex]. rewrite IH. f_equal. by apply Z.eqb_eq, Hd.
Qed.

(** The state after an identifier, computed from the identifier. *)
Definition state_after (id : string) : Z := (random_bytes 16 (recover (packed (take 9 (of_hex id))))).2.
Definition seeded (state nanos : Z) : Z := if state =? 0 then Z.lor (wrap_u64 nanos) 1 else state.
Lemma seeded_range state nanos : 0 <= state < 2 ^ 64 -> 0 < seeded state nanos < 2 ^ 64.
Proof.
  intros Hs. unfold seeded. destruct (Z.eqb_spec state 0) as [->|]; [|lia]. pose proof (Z.mod_pos_bound nanos (2 ^ 64) ltac:(lia)) as Hw.
  assert (Hp : 0 < Z.lor (wrap_u64 nanos) 1).
  { assert (H0 : 0 <= Z.lor (wrap_u64 nanos) 1) by (apply Z.lor_nonneg; split; [apply Hw|lia]).
    destruct (Z.eq_dec (Z.lor (wrap_u64 nanos) 1) 0) as [E|]; [|lia]. by apply Z.lor_eq_0_iff in E as [_ ?]. }
  split; [done|]. apply Z.log2_lt_pow2; [done|]. rewrite Z.log2_lor by (lia || apply Hw). apply Z.max_lub_lt; [|done].
  destruct (Z.eq_dec (wrap_u64 nanos) 0) as [->|]; [done|]. apply Z.log2_lt_pow2; [|apply Hw]. unfold wrap_u64 in *. lia.
Qed.
Lemma recovered s : 0 <= s < 2 ^ 64 -> recover (packed (take 9 (of_hex (to_hex (random_bytes 16 s).1)))) = s.
Proof.
  intros Hs. rewrite of_to_hex by apply random_bytes_range. rewrite (random_bytes_app 9 7).
  rewrite take_app_le by (rewrite (proj1 (random_bytes_range 9 s)); lia).
  rewrite take_ge by (rewrite (proj1 (random_bytes_range 9 s)); lia). by apply recover_output.
Qed.

(** Trace identifiers are unique to the generator's state, and give it away.
    From any state a new identifier is not the forbidden all-zero one, and the
    state after it, which determines all later identifiers, can be computed from
    the identifier alone; so two different states never give the same one. *)
Theorem trace_id_reveals_state state nanos : 0 <= state < 2 ^ 64 ->
  let '(id, state') := generate_trace_id state nanos in
  id <> zeros 32 /\ state' = state_after id /\ recover (packed (take 9 (of_hex id))) = seeded state nanos.
Proof.
  intros Hs. pose proof (seeded_range state nanos Hs) as Hr. unfold generate_trace_id, fill_random. fold (seeded state nanos).
  pose proof (recovered (seeded state nanos) ltac:(lia)) as Hrec. destruct (random_bytes 16 (seeded state nanos)) as [l st] eqn:E. cbn [fst] in Hrec.
  split_and!; [|unfold state_after; by rewrite Hrec, E|exact Hrec]. intros Hz. rewrite Hz in Hrec.
  change (recover (packed (take 9 (of_hex (zeros 32))))) with 0 in Hrec. lia.
Qed.

(** A span identifier can be all zeros, which the next hop refuses. *)
Lemma span_id_can_be_zero : (generate_span_id 144469984048829738 0).1 = zeros 16.
Proof. vm_compute. reflexivity. Qed.

Lemma trace_id_reveals_state_witness :
  let '(id, state') := generate_trace_id 88172645463325252 0 in id <> zeros 32 /\ state' = state_after id /\ recover (packed (take 9 (of_hex id))) = 88172645463325252.
Proof. exact (trace_id_reveals_state 88172645463325252 0 ltac:(lia)). Defined.

(** Two threads that load the state before one of them stores it make the same
    identifier. *)
Lemma racing_ids_equal state nanos nanos' : state <> 0 -> generate_trace_id state nanos = generate_trace_id state nanos'.
Proof. intros Hs. unfold generate_trace_id, fill_random. by rewrite (proj2 (Z.eqb_neq state 0) Hs). Qed.
