(* ===== verification/Telemetry.v ===== *)
(** * Spans and metrics

    Models src/src/telemetry/span.rs and src/src/metrics/mod.rs: the spans of a
    request with what they log, and the calls to the recorder of metrics. The
    tracing and metrics libraries are the lists of what they are given. *)
From S2P Require Import Prelude RustStr Rule Net Http Hash Duration Trace.
From stdpp Require Import list.
Open Scope Z_scope.
Open Scope list_scope.

(** ** Spans *)
Inductive SpanKind := Server | Client | Internal.
Definition kind_text (k : SpanKind) : string := match k with Server => "server" | Client => "client" | Internal => "internal" end.
Record RequestSpan := {
  context : TraceContext;
  span_id : string;
  kind : SpanKind;
  name : string;
  start : Z; (* ns *)
  http_method : option string;
  http_url : option string;
  http_status : option Z;
  service_name : option string;
  remote_addr : option string;
  error : option string;
  attributes : list (string * string);
}.
Definition span_of (c : TraceContext) (k : SpanKind) (n : string) (now : Z) : RequestSpan :=
  {| context := c; span_id := parent_id c; kind := k; name := n; start := now; http_method := None; http_url := None; http_status := None;
     service_name := None; remote_addr := None; error := None; attributes := [] |}.
Definition server (c : TraceContext) (n : string) (now : Z) : RequestSpan := span_of c Server n now.
(** The generator's state and the clock that may seed it come first. *)
Definition client (state nanos : Z) (parent : TraceContext) (n : string) (now : Z) : RequestSpan * Z :=
  let '(c, state) := child state nanos parent in (span_of c Client n now, state).
Definition internal (state nanos : Z) (parent : TraceContext) (n : string) (now : Z) : RequestSpan * Z :=
  let '(c, state) := child state nanos parent in (span_of c Internal n now, state).

Definition edit (m u : option string) (st : option Z) (sv r e : option string) (l : list (string * string)) (s : RequestSpan) : RequestSpan :=
  {| context := context s; span_id := span_id s; kind := kind s; name := name s; start := start s; http_method := m; http_url := u; http_status := st;
     service_name := sv; remote_addr := r; error := e; attributes := l |}.
Definition with_method (m : string) (s : RequestSpan) : RequestSpan :=
  edit (Some m) (http_url s) (http_status s) (service_name s) (remote_addr s) (error s) (attributes s) s.
Definition with_url (u : string) (s : RequestSpan) : RequestSpan :=
  edit (http_method s) (Some u) (http_status s) (service_name s) (remote_addr s) (error s) (attributes s) s.
Definition with_service (v : string) (s : RequestSpan) : RequestSpan :=
  edit (http_method s) (http_url s) (http_status s) (Some v) (remote_addr s) (error s) (attributes s) s.
Definition with_remote_addr (a : string) (s : RequestSpan) : RequestSpan :=
  edit (http_method s) (http_url s) (http_status s) (service_name s) (Some a) (error s) (attributes s) s.
Definition with_attribute (k v : string) (s : RequestSpan) : RequestSpan :=
  edit (http_method s) (http_url s) (http_status s) (service_name s) (remote_addr s) (error s) (attributes s ++ [(k, v)]) s.
Definition record_status (status : Z) (s : RequestSpan) : RequestSpan :=
  edit (http_method s) (http_url s) (Some status) (service_name s) (remote_addr s) (error s) (attributes s) s.
Definition record_error (e : string) (s : RequestSpan) : RequestSpan :=
  edit (http_method s) (http_url s) (http_status s) (service_name s) (remote_addr s) (Some e) (attributes s) s.
Definition elapsed (now : Z) (s : RequestSpan) : Z := Z.max 0 (now - start s).
Definition has_error (s : RequestSpan) : bool :=
  match error s with Some _ => true | None => match http_status s with Some st => 500 <=? st | None => false end end.

(** A logged event: the level, the fields in order, the message. *)
Inductive value := Display (text : string) | Debug (o : option string) | Nanos (n : Z).
Record event := { at_error : bool; fields : list (string * value); message : string }.
Definition log (now : Z) (s : RequestSpan) : event :=
  let status := match http_status s with Some st => dec st | None => "" end in
  let common :=
    [("trace_id", Display (trace_id (context s))); ("span_id", Display (span_id s)); ("parent_id", Display (parent_id (context s)));
     ("span_kind", Display (kind_text (kind s))); ("name", Display (name s)); ("http.method", Debug (http_method s)); ("http.url", Debug (http_url s));
     ("http.status_code", Display status); ("service", Debug (service_name s)); ("remote_addr", Debug (remote_addr s));
     ("duration_ms", Nanos (elapsed now s))] in
  if has_error s then {| at_error := true; fields := common ++ [("error", Debug (error s))]; message := "request completed with error" |}
  else {| at_error := false; fields := common; message := "request completed" |}.

(** ** Metrics *)
Definition labels : Type := list (string * string).
Inductive sample := Increment (metric : string) (l : labels) (n : Z) | Record_ (metric : string) (l : labels) (nanos : Z) | SetGauge (metric : string) (l : labels) (v : Z).
Definition record_request (entrypoint router service method : string) (status duration : Z) : list sample :=
  let l := [("entrypoint", entrypoint); ("router", router); ("service", service); ("method", method); ("status", dec status)] in
  [Increment "http_requests_total" l 1; Record_ "http_request_duration_seconds" l duration].
Definition record_backend_request (service server : string) (status duration : Z) : list sample :=
  let l := [("service", service); ("server", server); ("status", dec status)] in
  [Increment "backend_requests_total" l 1; Record_ "backend_request_duration_seconds" l duration].
Definition set_backend_health (service server : string) (healthy : bool) : list sample :=
  [SetGauge "backend_health" [("service", service); ("server", server)] (if healthy then 1 else 0)].
Definition record_connection_pool_size (service : string) (size : Z) : list sample := [SetGauge "connection_pool_size" [("service", service)] size].
Definition record_active_connections (entrypoint : string) (count : Z) : list sample := [SetGauge "active_connections" [("entrypoint", entrypoint)] count].
Record RequestTimer := { t_start : Z; t_entrypoint : string; t_router : string; t_service : string; t_method : string }.
Definition timer_new (entrypoint router service method : string) (now : Z) : RequestTimer :=
  {| t_start := now; t_entrypoint := entrypoint; t_router := router; t_service := service; t_method := method |}.
Definition finish (status now : Z) (t : RequestTimer) : list sample :=
  record_request (t_entrypoint t) (t_router t) (t_service t) (t_method t) status (Z.max 0 (now - t_start t)).

(** ** A trace over several hops *)
Section Chain.
Context `{HL : HttpLaws}.
#[local] Set Default Proof Using "Type*".

(** A client span whose context is sent with a request, and the server span of the
    next hop that receives it. *)
Definition next_hop (state nanos : Z) (sp : RequestSpan) (h : HeaderMap) (n : string) (now : Z) : RequestSpan :=
  server (extract_context state nanos nanos (inject_context (context sp) h)).1 n now.

Lemma child_ok c state nanos : ctx_ok c = true -> parent_id (child state nanos c).1 <> zeros 16 -> ctx_ok (child state nanos c).1 = true.
Proof.
  unfold ctx_ok, child, generate_span_id, fill_random. set (s := if state =? 0 then _ else _). destruct (random_bytes_range 8 s) as [Hl Hr].
  destruct (random_bytes 8 s) as [l st]. cbn [fst snd trace_id parent_id trace_flags trace_state] in *.
  destruct (to_hex_ok l Hr) as (H1 & H2 & H3). rewrite Hl in H1. rewrite !andb_true_iff. intros [[[[[[A1 A2] A3] A4] A5] A6] A7] Hz.
  split_and!; try done; [|by apply bool_decide_eq_true_2]. unfold id_ok. rewrite H1, H2, bool_decide_eq_false_2 by done. done.
Qed.

(** A trace is continued over hops. The span a proxy opens for an outgoing
    request keeps the identifier, the sampling and the vendor state of the trace
    it received; and when its context is sent with the request, whatever headers
    that had, the next hop's span belongs to the same trace and names this span. *)
Theorem trace_continues c n now state nanos h state' nanos' n' now' :
  ctx_ok c = true -> let '(sp, _) := client state nanos c n now in
  trace_id (context sp) = trace_id c /\ is_sampled (context sp) = is_sampled c /\ trace_state (context sp) = trace_state c /\
  (span_id sp <> zeros 16 ->
     let next := next_hop state' nanos' sp h n' now' in
     trace_id (context next) = trace_id c /\ is_sampled (context next) = is_sampled c /\ span_id next = span_id sp).
Proof.
  intros Hc. unfold client. destruct (child state nanos c) as [cc st] eqn:E. assert (Hcc : cc = (child state nanos c).1) by (by rewrite E).
  assert (Hk : trace_id cc = trace_id c /\ trace_flags cc = trace_flags c /\ trace_state cc = trace_state c).
  { rewrite Hcc. unfold child. by destruct (generate_span_id state nanos). }
  destruct Hk as (K1 & K2 & K3). cbn [span_of context span_id]. unfold is_sampled. rewrite K1, K2, K3. split_and!; try done. intros Hz.
  unfold next_hop. cbn [span_of context]. rewrite (context_roundtrip cc).
  - cbn [server span_of context span_id fst trace_id trace_flags parent_id]. by rewrite K1, K2.
  - rewrite Hcc in *. by apply child_ok.
Qed.
End Chain.

Lemma trace_continues_witness : trace_id (context (client 5 0 demo_ctx "upstream" 0).1) = trace_id demo_ctx.
Proof. exact (proj1 (trace_continues (H := map_http) demo_ctx "upstream" 0 5 0 hm_empty 7 0 "handle" 0 eq_refl)). Defined.
