(* ===== verification/Der.v ===== *)
(** * Certificate requests

    Models the encoders of src/src/tls/acme/client.rs (DER lengths and tags, the
    PKCS#10 request of [build_csr], [pem_encode]) and the base64 and PEM encoders
    of src/src/tls/mtls.rs. Bytes are strings; the signature function of the key
    is a parameter. A strict reader of DER and of PKCS#10 and a reader of PEM
    state what the encoders have to produce. *)
From S2P Require Import Prelude RustStr Encoding BasicAuth.
From stdpp Require Import list.
Open Scope Z_scope.
Open Scope list_scope.
Open Scope rust_scope.

(** ** DER *)
Definition bytes (l : list Z) : string := String.string_of_list_ascii (as_u8 <$> l).

(** [encode_length] appends to its output. *)
Definition encode_length (len : nat) : string :=
  let n := Z.of_nat len in
  if n <? 128 then bytes [n] else if n <? 256 then bytes [129; n] else bytes [130; Z.shiftr n 8; n].

Definition tagged (tag : Z) (data : string) : string := bytes [tag] +:+ encode_length (String.length data) +:+ data.
Definition wrap_sequence (data : string) : string := tagged 48 data.
Definition wrap_set (data : string) : string := tagged 49 data.
Definition wrap_octet_string (data : string) : string := tagged 4 data.
Definition wrap_bit_string (data : string) : string := bytes [3] +:+ encode_length (String.length data + 1) +:+ bytes [0] +:+ data.

Definition cn_oid : string := bytes [6; 3; 85; 4; 3].
Definition build_cn (cn : string) : string :=
  let cn_value := tagged 12 cn in
  wrap_sequence (wrap_set (wrap_sequence (cn_oid +:+ cn_value))).

Definition ec_algorithm : string :=
  bytes ([48; 19; 6; 7; 42; 134; 72] ++ [206; 61; 2; 1; 6; 8; 42; 134] ++ [72; 206; 61; 3; 1; 7]).
Definition build_ec_spki (public_key : string) : string := wrap_sequence (ec_algorithm +:+ wrap_bit_string public_key).

Fixpoint san_entries (domains : list string) : string :=
  match domains with [] => "" | d :: ds => tagged 130 d +:+ san_entries ds end.
Definition san_oid : string := bytes [6; 3; 85; 29; 17].
Definition ext_req_oid : string := bytes [6; 9; 42; 134; 72; 134; 247; 13; 1; 9; 14].
Definition build_san_attribute (domains : list string) : string :=
  let san_seq := wrap_sequence (san_entries domains) in
  let ext_seq := wrap_sequence (san_oid +:+ wrap_octet_string san_seq) in
  let exts_seq := wrap_sequence ext_seq in
  let attr_seq := wrap_sequence (ext_req_oid +:+ wrap_set exts_seq) in
  tagged 160 attr_seq.

Definition ecdsa_sha256 : string := bytes [48; 10; 6; 8; 42; 134; 72; 206; 61; 4; 3; 2].

(** The part of a request that is signed. *)
Definition csr_info (cn : string) (domains : list string) (public_key : string) : string :=
  wrap_sequence (bytes [2; 1; 0] +:+ build_cn cn +:+ build_ec_spki public_key +:+ build_san_attribute domains).

(** [domains[0]] aborts for an empty list; [None] is the error of a signature
    that fails. *)
Definition build_csr (domains : list string) (public_key : string) (sign : string -> option string) : result unit string :=
  match domains with
  | [] => Panic
  | cn :: _ =>
      let info := csr_info cn domains public_key in
      signature <-? ok_or (sign info) tt ;;
      Ok (wrap_sequence (info +:+ ecdsa_sha256 +:+ wrap_bit_string signature))
  end.

(** ** PEM *)
Fixpoint str_chunks_loop (fuel n : nat) (s : string) : list string :=
  match fuel, s with
  | S fuel', String _ _ => str_take n s :: str_chunks_loop fuel' n (str_drop n s)
  | _, _ => []
  end.
(** [chunks(n)] of the bytes, for [n > 0]. *)
Definition str_chunks (n : nat) (s : string) : list string := str_chunks_loop (String.length s) n s.

Definition newline : ascii := byte_at 10.
Definition pem_begin (label : string) : string := "-----BEGIN " +:+ label +:+ "-----".
Definition pem_end (label : string) : string := "-----END " +:+ label +:+ "-----".
Fixpoint lines_of (l : list string) : string := match l with [] => "" | c :: l' => c +:+ String newline (lines_of l') end.
Definition pem_encode (label data : string) : string :=
  pem_begin label +:+ String newline
    (lines_of (str_chunks 64 (base64_encode ALPHABET data)) +:+ pem_end label +:+ String newline "").

(** *** The encoder of client certificates *)
Section ClientCert.
(** [while bits >= 6]: the loop runs at most twice for a byte, as fewer than six
    bits are left over from the one before. *)
Fixpoint emit (fuel : nat) (buffer bits : Z) (result : string) : Z * string :=
  match fuel with
  | O => (bits, result)
  | S fuel' =>
      if 6 <=? bits then
        emit fuel' buffer (bits - 6) (result +:+ String (enc ALPHABET (Z.land (Z.shiftr buffer (bits - 6)) 63)) "")
      else (bits, result)
  end.
(** [buffer] is a [u32] from which shifts drop the high bits. *)
Fixpoint mtls_loop (input : string) (buffer bits : Z) (result : string) : Z * Z * string :=
  match input with
  | EmptyString => (buffer, bits, result)
  | String c input' =>
      let buffer := Z.lor (wrap_u32 (Z.shiftl buffer 8)) (byte_of c) in
      let '(bits, result) := emit 2 buffer (bits + 8) result in
      mtls_loop input' buffer bits result
  end.
(** [while !result.len().is_multiple_of(4)] *)
Fixpoint pad4 (fuel : nat) (s : string) : string :=
  match fuel with
  | O => s
  | S fuel' => if (String.length s mod 4 =? 0)%nat then s else pad4 fuel' (s +:+ "=")
  end.
Definition mtls_base64_encode (input : string) : string :=
  let '(buffer, bits, result) := mtls_loop input 0 0 "" in
  let result :=
    if 0 <? bits then result +:+ String (enc ALPHABET (Z.land (wrap_u32 (Z.shiftl buffer (6 - bits))) 63)) "" else result in
  pad4 3 result.

Fixpoint join_lines (l : list string) : string :=
  match l with [] => "" | [c] => c | c :: l' => c +:+ String newline (join_lines l') end.

Record ClientCertInfo := {
  chain : list string;
  subject_cn : option string;
  subject_dn : option string;
  issuer_dn : option string;
  serial : option string;
  ci_not_before : option string;
  ci_not_after : option string;
}.
Definition cert_info_empty : ClientCertInfo :=
  {| chain := []; subject_cn := None; subject_dn := None; issuer_dn := None; serial := None; ci_not_before := None; ci_not_after := None |}.
Definition has_cert (i : ClientCertInfo) : bool := match chain i with [] => false | _ => true end.
Definition cert_pem (i : ClientCertInfo) : option string :=
  match chain i with
  | [] => None
  | cert :: _ =>
      Some (pem_begin "CERTIFICATE" +:+ String newline (join_lines (str_chunks 64 (mtls_base64_encode cert))) +:+ String newline (pem_end "CERTIFICATE"))
  end.
End ClientCert.

(** ** Readers *)
Definition read_length (s : string) : option (nat * string) :=
  match s with
  | EmptyString => None
  | String a r =>
      let n := byte_of a in
      if n <? 128 then Some (Z.to_nat n, r)
      else if n =? 129 then
        match r with String b r' => if 128 <=? byte_of b then Some (Z.to_nat (byte_of b), r') else None | _ => None end
      else if n =? 130 then
        match r with
        | String b (String c r') => if 1 <=? byte_of b then Some (Z.to_nat (byte_of b * 256 + byte_of c), r') else None
        | _ => None
        end
      else None
  end.
(** A value with the given tag: its contents and what follows it. Lengths have
    to be the shortest ones, as DER demands. *)
Definition read_tagged (tag : Z) (s : string) : option (string * string) :=
  match s with
  | String t r =>
      if byte_of t =? tag then
        '(n, r') ← read_length r;
        if (n <=? String.length r')%nat then Some (str_take n r', str_drop n r') else None
      else None
  | _ => None
  end.
(** The value is all there is. *)
Definition read_only (tag : Z) (s : string) : option string :=
  '(v, r) ← read_tagged tag s; match r with EmptyString => Some v | _ => None end.
Definition read_bits (s : string) : option (string * string) :=
  '(v, r) ← read_tagged 3 s; match v with String z v' => if byte_of z =? 0 then Some (v', r) else None | _ => None end.
Fixpoint read_all (fuel : nat) (tag : Z) (s : string) : option (list string) :=
  match fuel, s with
  | _, EmptyString => Some []
  | O, _ => None
  | S fuel', _ => '(v, r) ← read_tagged tag s; vs ← read_all fuel' tag r; Some (v :: vs)
  end.
Definition require (b : bool) : option unit := if b then Some tt else None.

Definition read_cn (s : string) : option (string * string) :=
  '(name, r) ← read_tagged 48 s;
  rdn ← read_only 49 name;
  atv ← read_only 48 rdn;
  v ← RustStr.strip_prefix cn_oid atv;
  cn ← read_only 12 v;
  Some (cn, r).
Definition read_spki (s : string) : option (string * string) :=
  '(spki, r) ← read_tagged 48 s;
  b ← RustStr.strip_prefix ec_algorithm spki;
  '(key, e) ← read_bits b;
  _ ← require (bool_decide (e = ""));
  Some (key, r).
Definition read_san (s : string) : option (list string) :=
  attr_seq ← read_only 160 s;
  attr ← read_only 48 attr_seq;
  v ← RustStr.strip_prefix ext_req_oid attr;
  set ← read_only 49 v;
  exts ← read_only 48 set;
  ext ← read_only 48 exts;
  o ← RustStr.strip_prefix san_oid ext;
  oct ← read_only 4 o;
  names ← read_only 48 oct;
  read_all (String.length names) 130 names.

Record Csr := { csr_cn : string; csr_key : string; csr_names : list string; csr_signed : string; csr_signature : string }.
Definition read_csr (s : string) : option Csr :=
  body ← read_only 48 s;
  '(info, r) ← read_tagged 48 body;
  let signed := str_take (String.length body - String.length r) body in
  sig ← RustStr.strip_prefix ecdsa_sha256 r;
  '(signature, e) ← read_bits sig;
  _ ← require (bool_decide (e = ""));
  subject ← RustStr.strip_prefix (bytes [2; 1; 0]) info;
  '(cn, r1) ← read_cn subject;
  '(key, r2) ← read_spki r1;
  names ← read_san r2;
  Some {| csr_cn := cn; csr_key := key; csr_names := names; csr_signed := signed; csr_signature := signature |}.

(** A reader of PEM: the lines between the markers, decoded. *)
Fixpoint until (stop : string) (l : list string) : option string :=
  match l with
  | [] => None
  | c :: l' => if bool_decide (c = stop) then Some "" else r ← until stop l'; Some (c +:+ r)
  end.
Definition pem_decode (label text : string) : option string :=
  body ← RustStr.strip_prefix (pem_begin label +:+ String newline "") text;
  b64 ← until (pem_end label) (split_on newline body);
  decode_loop ALPHABET (trim_end_matches "=" b64) 0 0.

(** ** What is written is read *)
Lemma byte_of_as_u8 x : byte_of (as_u8 x) = x mod 256.
Proof. unfold byte_of, as_u8. pose proof (Z.mod_pos_bound x 256). rewrite nat_ascii_embedding; lia. Qed.

(** Lengths of two bytes at most; [encode_length] drops the rest of larger ones. *)
Definition short (n : nat) : Prop := Z.of_nat n < 65536.

Lemma read_length_ok n r : short n -> read_length (encode_length n +:+ r) = Some (n, r).
Proof.
  unfold short, encode_length. intros Hn. destruct (Z.ltb_spec (Z.of_nat n) 128) as [H|H]; [|destruct (Z.ltb_spec (Z.of_nat n) 256) as [H'|H']];
    cbn [bytes fmap list_fmap String.string_of_list_ascii String.append read_length]; rewrite !byte_of_as_u8.
  - rewrite Z.mod_small by lia. rewrite (proj2 (Z.ltb_lt _ _) H). by rewrite Nat2Z.id.
  - change (129 mod 256 <? 128) with false. change (129 mod 256 =? 129) with true. cbv iota.
    rewrite Z.mod_small by lia. rewrite (proj2 (Z.leb_le _ _)) by lia. by rewrite Nat2Z.id.
  - change (130 mod 256 <? 128) with false. change (130 mod 256 =? 129) with false. change (130 mod 256 =? 130) with true. cbv iota.
    rewrite Z.shiftr_div_pow2 by lia. change (2 ^ 8) with 256. rewrite (Z.mod_small (Z.of_nat n / 256)) by (Z.to_euclidean_division_equations; lia).
    rewrite (proj2 (Z.leb_le _ _)) by (Z.to_euclidean_division_equations; lia). do 2 f_equal. Z.to_euclidean_division_equations; lia.
Qed.

Lemma read_tagged_ok tag d r : 0 <= tag < 256 -> short (String.length d) -> read_tagged tag (tagged tag d +:+ r) = Some (d, r).
Proof.
  intros Ht Hd. unfold tagged. rewrite !str_app_assoc. cbn [bytes fmap list_fmap String.string_of_list_ascii String.append read_tagged].
  rewrite byte_of_as_u8, Z.mod_small, Z.eqb_refl, read_length_ok by done. cbn [mbind option_bind].
  rewrite (proj2 (Nat.leb_le _ _)) by (rewrite str_length_app; lia). by rewrite str_take_app, str_drop_app.
Qed.

Lemma read_only_ok tag d : 0 <= tag < 256 -> short (String.length d) -> read_only tag (tagged tag d) = Some d.
Proof. intros Ht Hd. unfold read_only. rewrite <- (str_app_nil_r (tagged tag d)), read_tagged_ok by done. done. Qed.

Lemma wrap_bits_tagged d : wrap_bit_string d = tagged 3 (bytes [0] +:+ d).
Proof. unfold wrap_bit_string, tagged. rewrite str_length_app. do 3 f_equal. cbn. lia. Qed.

Lemma read_bits_ok d r : short (S (String.length d)) -> read_bits (wrap_bit_string d +:+ r) = Some (d, r).
Proof. intros Hd. unfold read_bits. rewrite wrap_bits_tagged, read_tagged_ok by done. done. Qed.

Lemma read_bits_only d : short (S (String.length d)) -> read_bits (wrap_bit_string d) = Some (d, "").
Proof. intros Hd. rewrite <- (str_app_nil_r (wrap_bit_string d)). by apply read_bits_ok. Qed.

Lemma tagged_length tag d : (2 + String.length d <= String.length (tagged tag d))%nat.
Proof.
  unfold tagged. rewrite !str_length_app. assert (H : (1 <= String.length (encode_length (String.length d)))%nat); [|cbn; lia].
  unfold encode_length. repeat case_match; cbn; lia.
Qed.

(** Sizes of parts from the size of the whole. *)
Lemma short_tagged t d : short (String.length (tagged t d)) -> short (String.length d).
Proof. pose proof (tagged_length t d). unfold short. lia. Qed.
Lemma short_app a b : short (String.length (a +:+ b)) -> short (String.length a) /\ short (String.length b).
Proof. rewrite str_length_app. unfold short. lia. Qed.
Lemma short_bits d : short (String.length (wrap_bit_string d)) -> short (S (String.length d)).
Proof. rewrite wrap_bits_tagged. intros H%short_tagged. by rewrite str_length_app in H. Qed.
Ltac sizes :=
  unfold wrap_sequence, wrap_set, wrap_octet_string in *;
  repeat match goal with
  | H : short ?n |- short ?n => exact H
  | H : short (String.length (tagged _ _)) |- _ => apply short_tagged in H
  | H : short (String.length (_ +:+ _)) |- _ => apply short_app in H as [? ?]
  | H : short (String.length (wrap_bit_string _)) |- _ => apply short_bits in H
  end.

Lemma read_all_ok ds : forall fuel, short (String.length (san_entries ds)) -> (String.length (san_entries ds) <= fuel)%nat ->
  read_all fuel 130 (san_entries ds) = Some ds.
Proof.
  induction ds as [|d ds IH]; intros fuel Hs Hf; [by destruct fuel|]. cbn [san_entries] in *.
  rewrite str_length_app in Hf. apply short_app in Hs as [Hd%short_tagged Hs]. pose proof (tagged_length 130 d) as Hl. destruct fuel as [|fuel]; [lia|]. cbn [read_all].
  destruct (tagged 130 d +:+ san_entries ds) eqn:E; [discriminate E|]. rewrite <- E, read_tagged_ok by first [lia | sizes].
  cbn [mbind option_bind]. rewrite IH; [done|sizes|lia].
Qed.

(** A reader's steps, one at a time. *)
Lemma bind_step {A B} (o : option A) (f : A -> option B) a r : o = Some a -> f a = r -> (o ≫= f) = r.
Proof. by intros ->. Qed.
Ltac read_step :=
  eapply bind_step;
  [first [apply strip_prefix_app | apply read_only_ok; first [lia | sizes] | apply read_tagged_ok; first [lia | sizes]]|cbv beta iota].

Lemma read_cn_ok cn r : short (String.length (build_cn cn)) -> read_cn (build_cn cn +:+ r) = Some (cn, r).
Proof. intros Hs. unfold read_cn, build_cn in *. cbv zeta in *. unfold wrap_sequence, wrap_set in *. by do 5 read_step. Qed.

Lemma read_spki_ok key r : short (String.length (build_ec_spki key)) -> read_spki (build_ec_spki key +:+ r) = Some (key, r).
Proof.
  intros Hs. unfold read_spki, build_ec_spki, wrap_sequence in *. do 2 read_step.
  eapply bind_step; [apply read_bits_only; sizes|done].
Qed.

Lemma read_san_ok ds : short (String.length (build_san_attribute ds)) -> read_san (build_san_attribute ds) = Some ds.
Proof.
  intros Hs. unfold read_san, build_san_attribute in *. cbv zeta in *. unfold wrap_sequence, wrap_set, wrap_octet_string in *.
  do 9 read_step. apply read_all_ok; [sizes|done].
Qed.

(** A request with any contents that name a subject, a key and domains. *)
Lemma read_csr_ok body cn key ds signature :
  RustStr.strip_prefix (bytes [2; 1; 0]) body = Some (build_cn cn +:+ build_ec_spki key +:+ build_san_attribute ds) ->
  short (String.length (tagged 48 (tagged 48 body +:+ ecdsa_sha256 +:+ wrap_bit_string signature))) ->
  read_csr (tagged 48 (tagged 48 body +:+ ecdsa_sha256 +:+ wrap_bit_string signature)) =
  Some {| csr_cn := cn; csr_key := key; csr_names := ds; csr_signed := tagged 48 body; csr_signature := signature |}.
Proof.
  intros Hp Hs. assert (Hb : short (String.length (build_cn cn +:+ build_ec_spki key +:+ build_san_attribute ds))).
  { apply strip_prefix_Some in Hp. apply short_tagged, short_app in Hs as [Hs%short_tagged _]. by rewrite Hp in Hs; apply short_app in Hs as [_ Hs]. }
  unfold read_csr. do 3 read_step.
  eapply bind_step; [apply read_bits_only; sizes|]. eapply bind_step; [done|]. eapply bind_step; [exact Hp|]. cbv beta iota.
  eapply bind_step; [apply read_cn_ok; sizes|]. cbv beta iota. eapply bind_step; [apply read_spki_ok; sizes|]. cbv beta iota.
  eapply bind_step; [apply read_san_ok; sizes|]. cbv beta iota.
  do 2 f_equal. rewrite (str_length_app (tagged 48 body)), Nat.add_sub. apply str_take_app.
Qed.

Lemma ok_inj {E A} (x y : A) : @Ok E A x = Ok y -> x = y.
Proof. congruence. Qed.

(** A request for a list of domains. *)
Lemma build_csr_reads cn ds key sign csr : build_csr (cn :: ds) key sign = Ok csr -> short (String.length csr) ->
  exists signature, sign (csr_info cn (cn :: ds) key) = Some signature /\
    read_csr csr = Some {| csr_cn := cn; csr_key := key; csr_names := cn :: ds; csr_signed := csr_info cn (cn :: ds) key; csr_signature := signature |}.
Proof.
  cbn [build_csr]. destruct (sign (csr_info cn (cn :: ds) key)) as [signature|]; [|done]. cbn [ok_or res_bind]. intros <-%ok_inj Hs.
  exists signature. split; [done|]. apply read_csr_ok; [apply strip_prefix_app|exact Hs].
Qed.

(** C15. The certificate request the client sends is the one it means. For a
    request of less than 64 KiB, a strict reader of DER and PKCS#10 finds the
    first domain as the common name, all the domains as alternative names, in
    order, the public key, and a signature over exactly the bytes it covers; an
    empty list of domains aborts. *)
Theorem csr_roundtrip domains key sign :
  match build_csr domains key sign with
  | Ok csr => short (String.length csr) -> exists cn signature,
      head domains = Some cn /\ sign (csr_info cn domains key) = Some signature /\
      read_csr csr = Some {| csr_cn := cn; csr_key := key; csr_names := domains; csr_signed := csr_info cn domains key; csr_signature := signature |}
  | Err _ => exists cn, head domains = Some cn /\ sign (csr_info cn domains key) = None
  | Panic => domains = []
  end.
Proof.
  destruct domains as [|cn ds]; [done|]. destruct (build_csr (cn :: ds) key sign) as [csr|e|] eqn:E.
  - intros Hs. destruct (build_csr_reads _ _ _ _ _ E Hs) as (signature & ? & ?). by exists cn, signature.
  - exists cn. split; [done|]. cbn [build_csr] in E. by destruct (sign _).
  - cbn [build_csr] in E. by destruct (sign _).
Qed.

Lemma csr_roundtrip_witness :
  exists csr, build_csr ["a.test"; "b.test"] "key" (fun s => Some ("signed")) = Ok csr /\
    csr_names <$> read_csr csr = Some ["a.test"; "b.test"].
Proof.
  pose proof (csr_roundtrip ["a.test"; "b.test"] "key" (fun s => Some "signed")) as H.
  eexists. split; [reflexivity|]. destruct (H ltac:(vm_compute; reflexivity)) as (cn & sg & _ & _ & Hr). exact (f_equal (fmap csr_names) Hr).
Defined.

(** ** PEM *)
Lemma chunks_concat n s : (0 < n)%nat -> foldr String.append "" (str_chunks n s) = s.
Proof.
  intros Hn. unfold str_chunks. assert (H : forall fuel s, (String.length s <= fuel)%nat -> foldr String.append "" (str_chunks_loop fuel n s) = s); [|by apply H].
  clear s. induction fuel as [|fuel IH]; intros [|c s] Hs; [done|cbn in Hs; lia|done|]. cbn [str_chunks_loop foldr].
  rewrite IH by (rewrite str_drop_length; cbn [String.length] in *; lia). apply str_take_drop.
Qed.

(** Characters of encoded text: neither line breaks nor dashes. *)
Definition pem_char (c : ascii) : bool := negb (Ascii.eqb c newline) && negb (Ascii.eqb c "-").
Lemma encoded_chars s : str_forall pem_char (base64_encode ALPHABET s) = true.
Proof.
  unfold base64_encode. rewrite str_forall_app. apply andb_true_iff. split.
  - apply body_forall. intros v Hv.
    assert (Hall : forallb (fun k => pem_char (enc ALPHABET (Z.of_nat k))) (seq 0 64) = true) by (vm_compute; reflexivity).
    rewrite forallb_forall in Hall. specialize (Hall (Z.to_nat v)). rewrite Z2Nat.id in Hall by lia. apply Hall, in_seq. lia.
  - unfold b64_pad. by destruct (_ mod 3)%nat as [|[|]].
Qed.

Lemma chunks_chars p n s c : str_forall p s = true -> c ∈ str_chunks n s -> str_forall p c = true.
Proof.
  unfold str_chunks. generalize (String.length s) as fuel. intros fuel. revert s.
  induction fuel as [|fuel IH]; intros [|d s] Hs; try by intros ?%elem_of_nil. cbn [str_chunks_loop].
  intros [->|Hc]%elem_of_cons; [by apply str_take_forall|]. eapply IH; [|done]. by apply str_drop_forall.
Qed.

Lemma split_lines l rest : (forall c, c ∈ l -> str_forall pem_char c = true) ->
  split_on newline (lines_of l +:+ rest) = l ++ split_on newline rest.
Proof.
  induction l as [|c l IH]; intros Hl; [done|]. cbn [lines_of]. rewrite str_app_assoc. cbn [String.append].
  rewrite split_on_app, IH by (intros; apply Hl; by right). rewrite split_on_single; [done|].
  eapply str_forall_impl; [|apply Hl; by left]. intros d [Hd _]%andb_true_iff. exact Hd.
Qed.

Lemma until_marker stop l rest : contains "-" stop = true -> (forall c, c ∈ l -> str_forall pem_char c = true) ->
  until stop (l ++ stop :: rest) = Some (foldr String.append "" l).
Proof.
  intros Hstop. induction l as [|c l IH]; intros Hl; cbn [app until foldr]; [by rewrite bool_decide_eq_true_2|].
  rewrite bool_decide_eq_false_2.
  - rewrite IH by (intros; apply Hl; by right). done.
  - intros ->. assert (Hc : str_forall pem_char stop = true) by (apply Hl; by left). clear -Hstop Hc.
    induction stop as [|d s IH]; [done|]. cbn [str_forall] in Hc. apply andb_true_iff in Hc as [Hd Hc].
    apply IH; [|done]. revert Hstop. cbn [contains]. unfold starts_with. cbn [RustStr.strip_prefix].
    destruct (Ascii.eqb_spec "-" d) as [<-|]; [by vm_compute in Hd|]. cbn. done.
Qed.
Lemma marker_dash label : contains "-" (pem_end label) = true.
Proof. done. Qed.

(** What the reader finds between the markers. *)
Lemma pem_decode_lines label data body rest :
  split_on newline body = str_chunks 64 (base64_encode ALPHABET data) ++ pem_end label :: rest \/
  (data = "" /\ split_on newline body = "" :: pem_end label :: rest) ->
  pem_decode label (pem_begin label +:+ String newline body) = Some data.
Proof.
  intros Hb. unfold pem_decode. change (String newline body) with (String newline "" +:+ body). rewrite <- str_app_assoc, strip_prefix_app.
  cbn [mbind option_bind]. assert (Hu : until (pem_end label) (split_on newline body) = Some (base64_encode ALPHABET data)).
  { destruct Hb as [->|[-> ->]].
    - rewrite until_marker, chunks_concat by (done || lia || (intros; by eapply chunks_chars; [apply encoded_chars|])). done.
    - apply (until_marker (pem_end label) [""]); [done|]. by intros c ->%list_elem_of_singleton. }
  rewrite Hu. cbn [mbind option_bind]. rewrite trim_encoded by apply _. apply decode_body, _.
Qed.

(** Keys survive their text form. The PEM text of any bytes reads back to
    them, under any label of one line. *)
Lemma pem_decode_encode label data : str_forall (fun c => negb (Ascii.eqb c newline)) label = true ->
  pem_decode label (pem_encode label data) = Some data.
Proof.
  intros Hl. unfold pem_encode. eapply pem_decode_lines with (rest := [""]). left.
  rewrite split_lines by (intros; by eapply chunks_chars; [apply encoded_chars|]). f_equal.
  rewrite split_on_app, split_on_single; [done|]. unfold pem_end. rewrite !str_forall_app, Hl. done.
Qed.

(** ** The second base64 encoder *)
Definition push (buffer : Z) (c : ascii) : Z := Z.lor (wrap_u32 (Z.shiftl buffer 8)) (byte_of c).
Lemma push_eq x c : push x c = x mod 2 ^ 24 * 256 + byte_of c.
Proof.
  unfold push, wrap_u32. rewrite Z.shiftl_mul_pow2 by lia. pose proof (byte_of_range c).
  replace (x * 2 ^ 8 mod 2 ^ 32) with (x mod 2 ^ 24 * 2 ^ 8); [by rewrite (lor_low 8) by lia|].
  change (2 ^ 32) with (2 ^ 24 * 2 ^ 8). by rewrite Z.mul_mod_distr_r.
Qed.
Lemma emitted x k v : 0 <= k -> 0 <= x -> x / 2 ^ k mod 64 = v -> Z.land (Z.shiftr x k) 63 = v.
Proof. intros Hk Hx <-. rewrite Z.shiftr_div_pow2, land_63; [done| |done]. apply Z.div_pos; lia. Qed.
Ltac bits_arith := unfold wrap_u32 in *; Z.to_euclidean_division_equations; lia.

(** One step of the loop, for each number of bits that can be left over. *)
Lemma mtls_step0 c s x r : 0 <= x -> exists x', 0 <= x' /\ x' mod 256 = byte_of c /\
  mtls_loop (String c s) x 0 r = mtls_loop s x' 2 (r +:+ String (enc ALPHABET (byte_of c / 4)) "").
Proof.
  intros Hx. exists (push x c). pose proof (byte_of_range c). rewrite push_eq. split_and!; [bits_arith|bits_arith|]. cbn [mtls_loop]. fold (push x c).
  rewrite push_eq. cbn [emit]. change (6 <=? 0 + 8) with true. change (6 <=? 0 + 8 - 6) with false. cbv iota beta. change (0 + 8 - 6) with 2.
  rewrite (emitted _ 2 (byte_of c / 4)); [done|lia|bits_arith|]. change (2 ^ 2) with 4. bits_arith.
Qed.
Lemma mtls_step2 a c s x r : 0 <= x -> x mod 256 = byte_of a -> exists x', 0 <= x' /\ x' mod 65536 = byte_of a * 256 + byte_of c /\
  mtls_loop (String c s) x 2 r = mtls_loop s x' 4 (r +:+ String (enc ALPHABET (byte_of a mod 4 * 16 + byte_of c / 16)) "").
Proof.
  intros Hx Ha. exists (push x c). pose proof (byte_of_range c). pose proof (byte_of_range a). rewrite push_eq.
  assert (Hm : x mod 2 ^ 24 mod 256 = byte_of a) by (rewrite <- Ha; bits_arith).
  split_and!; [bits_arith|bits_arith|]. cbn [mtls_loop]. fold (push x c).
  rewrite push_eq. cbn [emit]. change (6 <=? 2 + 8) with true. change (6 <=? 2 + 8 - 6) with false. cbv iota beta. change (2 + 8 - 6) with 4.
  rewrite (emitted _ 4 (byte_of a mod 4 * 16 + byte_of c / 16)); [done|lia|bits_arith|]. change (2 ^ 4) with 16.
  revert Hm. generalize (x mod 2 ^ 24). intros y Hm. bits_arith.
Qed.
Lemma mtls_step4 a b c s x r : 0 <= x -> x mod 65536 = byte_of a * 256 + byte_of b -> exists x', 0 <= x' /\
  mtls_loop (String c s) x 4 r =
  mtls_loop s x' 0 (r +:+ String (enc ALPHABET (byte_of b mod 16 * 4 + byte_of c / 64)) (String (enc ALPHABET (byte_of c mod 64)) "")).
Proof.
  intros Hx Ha. exists (push x c). pose proof (byte_of_range c). pose proof (byte_of_range a). pose proof (byte_of_range b). rewrite push_eq.
  assert (Hm : x mod 2 ^ 24 mod 256 = byte_of b) by (bits_arith).
  split_and!; [bits_arith|]. cbn [mtls_loop]. fold (push x c). rewrite push_eq. cbn [emit].
  change (6 <=? 4 + 8) with true. change (6 <=? 4 + 8 - 6) with true. cbv iota beta. change (4 + 8 - 6) with 6. change (6 - 6) with 0.
  rewrite (emitted _ 6 (byte_of b mod 16 * 4 + byte_of c / 64)); [|lia|bits_arith|].
  2: { change (2 ^ 6) with 64. revert Hm. generalize (x mod 2 ^ 24). intros y Hm. bits_arith. }
  rewrite (emitted _ 0 (byte_of c mod 64)); [|lia|bits_arith|change (2 ^ 0) with 1; bits_arith].
  by rewrite str_app_assoc.
Qed.

Lemma mtls_loop_body s : forall x r, 0 <= x ->
  let '(buffer, bits, result) := mtls_loop s x 0 r in
  (if 0 <? bits then result +:+ String (enc ALPHABET (Z.land (wrap_u32 (Z.shiftl buffer (6 - bits))) 63)) "" else result) =
  r +:+ b64_body ALPHABET s.
Proof.
  induction s as [|a|a b|a b c s IH] using string_ind3; intros x r Hx.
  - cbn. by rewrite str_app_nil_r.
  - destruct (mtls_step0 a "" x r Hx) as (x' & Hx' & Hm & ->). cbn [mtls_loop b64_body]. change (0 <? 2) with true. cbv iota.
    change (6 - 2) with 4. rewrite Z.shiftl_mul_pow2, land_63 by bits_arith. rewrite str_app_assoc. cbn [String.append].
    do 4 f_equal. f_equal. unfold wrap_u32. bits_arith.
  - destruct (mtls_step0 a (String b "") x r Hx) as (x' & Hx' & Hm & ->). 
    edestruct (mtls_step2 a b "" x') as (y & Hy & Hm' & ->); [done..|].
    cbn [mtls_loop b64_body]. change (0 <? 4) with true. cbv iota.
    change (6 - 4) with 2. rewrite Z.shiftl_mul_pow2, land_63 by bits_arith. rewrite !str_app_assoc. cbn [String.append].
    do 5 f_equal. f_equal. unfold wrap_u32. pose proof (byte_of_range a). pose proof (byte_of_range b). bits_arith.
  - destruct (mtls_step0 a (String b (String c s)) x r Hx) as (x' & Hx' & Hm & ->).
    edestruct (mtls_step2 a b (String c s) x') as (y & Hy & Hm' & ->); [done..|].
    edestruct (mtls_step4 a b c s y) as (z & Hz & ->); [done..|].
    match goal with |- context [mtls_loop s z 0 ?r'] => specialize (IH z r' Hz) end. cbn [b64_body]. rewrite !str_app_assoc in *. cbn [String.append] in *. exact IH.
Qed.

Lemma pad4_eq s : pad4 3 s = s +:+ match (String.length s mod 4)%nat with O => "" | 1%nat => "===" | 2%nat => "==" | _ => "=" end.
Proof.
  assert (H : forall fuel s, pad4 (S fuel) s = if (String.length s mod 4 =? 0)%nat then s else pad4 fuel (s +:+ "=")) by done.
  assert (Hl : forall s, (String.length (s +:+ "=") mod 4 = S (String.length s mod 4) mod 4)%nat).
  { intros t. rewrite str_length_app. cbn [String.length]. rewrite Nat.add_1_r. symmetry. apply (Nat.Div0.add_mod_idemp_r 1). }
  rewrite !H. rewrite !Hl. pose proof (Nat.mod_upper_bound (String.length s) 4 ltac:(done)).
  destruct (String.length s mod 4)%nat as [|[|[|[|n]]]]; [by rewrite str_app_nil_r| | | |lia]; cbn; by rewrite ?str_app_assoc.
Qed.

Lemma body_pad s : (match String.length (b64_body ALPHABET s) mod 4 with O => "" | 1 => "===" | 2 => "==" | _ => "=" end)%nat = b64_pad s.
Proof.
  induction s as [|a|a b|a b c s IH] using string_ind3; [done..|]. rewrite b64_pad_three, <- IH. cbn [b64_body String.length].
  replace (S (S (S (S (String.length (b64_body ALPHABET s)))))) with (String.length (b64_body ALPHABET s) + 1 * 4)%nat by lia.
  by rewrite Nat.Div0.mod_add.
Qed.

Lemma mtls_encode_eq s : mtls_base64_encode s = base64_encode ALPHABET s.
Proof.
  unfold mtls_base64_encode, base64_encode. pose proof (mtls_loop_body s 0 "" ltac:(lia)) as H.
  destruct (mtls_loop s 0 0 "") as [[buffer bits] r]. rewrite H, pad4_eq. cbn [String.append]. by rewrite body_pad.
Qed.

Lemma join_lines_split l rest : l <> [] -> join_lines l +:+ String newline rest = lines_of l +:+ rest.
Proof.
  induction l as [|c [|c' l] IH]; intros Hl; [done|cbn; by rewrite str_app_assoc|].
  change (join_lines (c :: c' :: l)) with (c +:+ String newline (join_lines (c' :: l))). cbn [lines_of]. rewrite !str_app_assoc. cbn [String.append].
  f_equal. f_equal. rewrite IH by done. cbn [lines_of]. by rewrite str_app_assoc.
Qed.

(** A client certificate handed to a backend is the one the client showed. The
    hand-written encoder agrees with standard base64 on all input, although its
    buffer loses bits as it overflows; the PEM text of a client's certificate
    reads back to the first certificate of its chain, and there is none exactly
    when the client sent none. *)
Theorem client_cert_pem i :
  match cert_pem i with
  | Some text => exists cert, head (chain i) = Some cert /\ has_cert i = true /\ mtls_base64_encode cert = base64_encode ALPHABET cert /\
                   pem_decode "CERTIFICATE" text = Some cert
  | None => has_cert i = false
  end.
Proof.
  unfold cert_pem, has_cert. destruct (chain i) as [|cert l]; [done|]. exists cert. split_and!; [done|done|apply mtls_encode_eq|].
  rewrite mtls_encode_eq. cbn [String.append]. eapply pem_decode_lines with (rest := []).
  destruct (str_chunks 64 (base64_encode ALPHABET cert)) as [|c cs] eqn:E.
  - right. split; [|done]. pose proof (chunks_concat 64 (base64_encode ALPHABET cert) ltac:(lia)) as Hc. rewrite E in Hc. cbn in Hc.
    unfold base64_encode in Hc. destruct (b64_body ALPHABET cert) as [|? ?] eqn:Eb; [by apply body_empty in Eb; [|apply _]|done].
  - left. rewrite join_lines_split, <- E by done. rewrite split_lines by (intros; by eapply chunks_chars; [apply encoded_chars|]). done.
Qed.

(** Lengths of more than two bytes lose their high bytes. *)
Lemma long_length_truncated : encode_length (256 * 256) = bytes [130; 0; 0].
Proof. vm_compute. reflexivity. Qed.
