(* ===== verification/Certs.v ===== *)
(** * Certificates

    Models src/src/tls/resolver.rs (which certificate a TLS client is shown),
    src/src/tls/acme/storage.rs, src/src/tls/acme/challenge.rs and the renewal
    logic of src/src/tls/acme/manager.rs. The PEM and X.509 readers, the JSON
    serializer and the exchange with the certificate authority are parameters;
    outcomes of file operations are inputs. A hash map that is iterated gives its
    entries in an order that is an argument. Instants are in seconds. *)
From S2P Require Import Prelude RustStr L4.
From stdpp Require Import list gmap.
Open Scope Z_scope.
Open Scope list_scope.
Open Scope rust_scope.

Record AcmeAccount := { acc_url : string; acc_private_key_pem : string; acc_email : string }.

Record StoredCertificate := {
  domain : string;
  domains : list string;
  certificate_pem : string;
  private_key_pem : string;
  not_after : Z; (* u64 *)
  not_before : Z;
}.

Record AcmeStorage := { account : option AcmeAccount; certificates : gmap string StoredCertificate }.
Definition storage_default : AcmeStorage := {| account := None; certificates := ∅ |}.

Definition needs_renewal (now : Z) (c : StoredCertificate) : bool := saturating_sub (not_after c) (30 * 24 * 60 * 60) <? now.
Definition is_expired (now : Z) (c : StoredCertificate) : bool := not_after c <? now.

(** ** Storage *)
Section Storage.
Context (to_json : AcmeStorage -> string) (of_json : string -> option AcmeStorage).

(** The manager: what is in memory and what is on disk. *)
Record StorageManager := { data : AcmeStorage; file : option string }.

Definition storage_new (on_disk : option string) : option StorageManager :=
  match on_disk with
  | Some text => d ← of_json text; Some {| data := d; file := Some text |}
  | None => Some {| data := storage_default; file := None |}
  end.

(** [saved]: whether the directory, the temporary file and the renaming
    succeed. *)
Definition save (saved : bool) (s : StorageManager) : bool * StorageManager :=
  if saved then (true, {| data := data s; file := Some (to_json (data s)) |}) else (false, s).

Definition with_data (d : AcmeStorage) (s : StorageManager) : StorageManager := {| data := d; file := file s |}.
Definition get_account (s : StorageManager) : option AcmeAccount := account (data s).
Definition set_account (a : AcmeAccount) (saved : bool) (s : StorageManager) : bool * StorageManager :=
  save saved (with_data {| account := Some a; certificates := certificates (data s) |} s).
Definition store_certificate (c : StoredCertificate) (saved : bool) (s : StorageManager) : bool * StorageManager :=
  save saved (with_data {| account := account (data s); certificates := <[domain c := c]> (certificates (data s)) |} s).
Definition remove_certificate (d : string) (saved : bool) (s : StorageManager) : bool * StorageManager :=
  save saved (with_data {| account := account (data s); certificates := delete d (certificates (data s)) |} s).

Definition get_certificates_needing_renewal (now : Z) (values : list StoredCertificate) : list StoredCertificate :=
  List.filter (needs_renewal now) values.
Definition get_all_certificates (now : Z) (values : list StoredCertificate) : list StoredCertificate :=
  List.filter (fun c => negb (is_expired now c)) values.

(** The length of the part before the wildcard's base; one less wraps around at
    zero, and then the slice aborts. *)
Definition wildcard_covers (d cert_domain : string) : result Empty_set bool :=
  match RustStr.strip_prefix "*." cert_domain with
  | Some base =>
      if ends_with base d then
        let n := (String.length d - String.length base)%nat in
        head <-? slice_to d n ;;
        if negb (contains "." head) then
          if (n =? 0)%nat then Panic
          else label <-? slice_to d (n - 1) ;; Ok (negb (contains "." label))
        else Ok false
      else Ok false
  | None => Ok false
  end.
Fixpoint any_wildcard (d : string) (ds : list string) : result Empty_set bool :=
  match ds with
  | [] => Ok false
  | cd :: ds' => b <-? wildcard_covers d cd ;; if b : bool then Ok true else any_wildcard d ds'
  end.
Fixpoint scan_certificates (d : string) (values : list StoredCertificate) : result Empty_set (option StoredCertificate) :=
  match values with
  | [] => Ok None
  | c :: values' =>
      if existsb (fun x => bool_decide (x = d)) (domains c) then Ok (Some c)
      else b <-? any_wildcard d (domains c) ;; if b : bool then Ok (Some c) else scan_certificates d values'
  end.
Definition get_certificate (d : string) (values : list StoredCertificate) (s : AcmeStorage) : result Empty_set (option StoredCertificate) :=
  match certificates s !! d with Some c => Ok (Some c) | None => scan_certificates d values end.
End Storage.

(** ** Certificates in files *)
(** What the resolver reads of a parsed certificate: its common names, [None] if
    one is not text, and its alternative names, if the extension is there and
    well formed. *)
Inductive GeneralName := DNSName (dns : string) | OtherName.
Record X509 := { common_names : list (option string); alternative_names : option (list GeneralName) }.
Definition add_domain (ds : list string) (s : string) : list string :=
  if bool_decide (s = "") || bool_decide (s ∈ ds) then ds else ds ++ [s].
Definition dns_names (x : X509) : list string :=
  omap id (common_names x) ++ omap (fun n => match n with DNSName d => Some d | OtherName => None end) (default [] (alternative_names x)).
Definition extract_cert_domains (parsed : option X509) : result unit (list string) :=
  x <-? ok_or parsed tt ;; Ok (foldl add_domain [] (dns_names x)).

Section Files.
Context {Cert SigningKey : Type} (read_certs : string -> option (list Cert)) (read_key : string -> option SigningKey) (parse : Cert -> option X509).
Record CertifiedKey := { cert : list Cert; signing_key : SigningKey }.
(** [load_certificate_files] on a certificate file and a key file. *)
Definition load_certificate_files (tc : string * string) : option CertifiedKey :=
  cs ← read_certs tc.1; k ← read_key tc.2; Some {| cert := cs; signing_key := k |}.
(** The first certificate of the file is looked at; if there is none, this
    aborts. *)
Definition load_static (tc : string * string) : result unit (CertifiedKey * list string) :=
  k <-? ok_or (load_certificate_files tc) tt ;;
  match cert k with
  | [] => Panic
  | c :: _ => ds <-? extract_cert_domains (parse c) ;; Ok (k, ds)
  end.
End Files.

(** ** The resolver *)
Section Resolver.
Context {Key : Type} (load_stored_certificate : StoredCertificate -> option Key).

Record CertificateResolver := {
  static_certs : gmap string Key;
  acme_storage : option AcmeStorage; (* shared with the storage manager *)
  acme_cache : gmap string Key;
  default_cert : option Key;
}.
Definition resolver_new : CertificateResolver :=
  {| static_certs := ∅; acme_storage := None; acme_cache := ∅; default_cert := None |}.

Definition register (k : Key) (m : gmap string Key) (d : string) : gmap string Key := <[d := k]> m.
Definition add_certificate (ds : list string) (k : Key) (r : CertificateResolver) : CertificateResolver :=
  {| static_certs := foldl (register k) (static_certs r) ds; acme_storage := acme_storage r; acme_cache := acme_cache r;
     default_cert := match default_cert r, ds with None, _ :: _ => Some k | o, _ => o end |}.

(** [load] reads a pair of files to a key and the domains of its certificate. *)
Fixpoint from_static_certs (load : string * string -> result unit (Key * list string)) (certs : list (string * string)) (r : CertificateResolver)
    : result unit CertificateResolver :=
  match certs with
  | [] => Ok r
  | tc :: certs' =>
      kd <-? load tc ;;
      from_static_certs load certs' (match kd.2 with [] => r | _ => add_certificate kd.2 kd.1 r end)
  end.

(** The loop shared by [set_acme_storage] and [refresh_acme_cache]. *)
Definition cache_all (stored : list StoredCertificate) (cache : gmap string Key) : gmap string Key :=
  foldl (fun cache c => match load_stored_certificate c with Some k => foldl (register k) cache (domains c) | None => cache end) cache stored.
Definition with_cache (cache : gmap string Key) (r : CertificateResolver) : CertificateResolver :=
  {| static_certs := static_certs r; acme_storage := acme_storage r; acme_cache := cache; default_cert := default_cert r |}.
Definition set_acme_storage (now : Z) (values : list StoredCertificate) (s : AcmeStorage) (r : CertificateResolver) : CertificateResolver :=
  {| static_certs := static_certs r; acme_storage := Some s; acme_cache := cache_all (get_all_certificates now values) (acme_cache r);
     default_cert := default_cert r |}.
Definition set_default (k : Key) (r : CertificateResolver) : CertificateResolver :=
  {| static_certs := static_certs r; acme_storage := acme_storage r; acme_cache := acme_cache r; default_cert := Some k |}.
Definition refresh_acme_cache (now : Z) (values : list StoredCertificate) (r : CertificateResolver) : CertificateResolver :=
  match acme_storage r with Some _ => with_cache (cache_all (get_all_certificates now values) ∅) r | None => r end.

(** [*] and the part of the name from its first dot on. *)
Definition wildcard_of (d : string) : option string := (fun p => String "*" (str_drop p d)) <$> find_byte "." d.
Definition find_wildcard_match (d : string) (certs : gmap string Key) : option Key := w ← wildcard_of d; certs !! w.

(** The last resort before the default: the storage itself. *)
Definition from_storage (now : Z) (values : list StoredCertificate) (d : string) (r : CertificateResolver)
    : result Empty_set (option Key * CertificateResolver) :=
  match acme_storage r with
  | None => Ok (default_cert r, r)
  | Some s =>
      o <-? get_certificate d values s ;;
      match o with
      | Some c =>
          if is_expired now c then Ok (default_cert r, r)
          else match load_stored_certificate c with
               | Some k => Ok (Some k, with_cache (foldl (register k) (acme_cache r) (domains c)) r)
               | None => Ok (default_cert r, r)
               end
      | None => Ok (default_cert r, r)
      end
  end.
Definition find_cert (now : Z) (values : list StoredCertificate) (d : string) (r : CertificateResolver)
    : result Empty_set (option Key * CertificateResolver) :=
  match static_certs r !! d with
  | Some k => Ok (Some k, r)
  | None =>
      match find_wildcard_match d (static_certs r) with
      | Some k => Ok (Some k, r)
      | None =>
          match acme_cache r !! d with
          | Some k => Ok (Some k, r)
          | None =>
              match find_wildcard_match d (acme_cache r) with
              | Some k => Ok (Some k, r)
              | None => from_storage now values d r
              end
          end
      end
  end.
(** Without a server name no certificate is chosen. *)
Definition resolve (now : Z) (values : list StoredCertificate) (sni : option string) (r : CertificateResolver)
    : result Empty_set (option Key * CertificateResolver) :=
  match sni with Some d => find_cert now values d r | None => Ok (None, r) end.
End Resolver.

(** ** Challenges *)
Definition challenge_prefix : string := "/.well-known/acme-challenge/".
Inductive challenge_reply := Authorization (text : string) | ChallengeNotFound.
Definition is_challenge_request (path : string) : bool := starts_with challenge_prefix path.
Definition handle_challenge (pending : gmap string string) (path : string) : option challenge_reply :=
  if is_challenge_request path then
    let token := strip_all (String.length path) [challenge_prefix] path in
    if bool_decide (token = "") then Some ChallengeNotFound
    else Some (match pending !! token with Some auth => Authorization auth | None => ChallengeNotFound end)
  else None.

(** ** Renewal *)
Section Manager.
Context {Key : Type} (load_stored_certificate : StoredCertificate -> option Key) (to_json : AcmeStorage -> string).
(** The order in which a storage's certificates are iterated. *)
Context (values : AcmeStorage -> list StoredCertificate).

Record AcmeManager := { m_storage : StorageManager; m_resolver : CertificateResolver (Key := Key) }.

(** The resolver sees the manager's storage. *)
Definition sync (st : StorageManager) (r : CertificateResolver) : CertificateResolver (Key := Key) :=
  {| static_certs := static_certs r; acme_storage := Some (data st); acme_cache := acme_cache r; default_cert := default_cert r |}.

Definition manager_new (now : Z) (st : StorageManager) : AcmeManager :=
  {| m_storage := st; m_resolver := set_acme_storage load_stored_certificate now (values (data st)) (data st) resolver_new |}.

(** [issued]: the certificate that the authority gives for the order, stored
    under its first domain. *)
Definition obtain_certificate (issued : option StoredCertificate) (saved : bool) (now : Z) (m : AcmeManager) : bool * AcmeManager :=
  match issued with
  | None => (false, m)
  | Some c =>
      let '(ok, st) := store_certificate to_json c saved (m_storage m) in
      let r := sync st (m_resolver m) in
      if ok then (true, {| m_storage := st; m_resolver := refresh_acme_cache load_stored_certificate now (values (data st)) r |})
      else (false, {| m_storage := st; m_resolver := r |})
  end.

Definition current (now : Z) (p : string) (m : AcmeManager) : result Empty_set bool :=
  o <-? get_certificate p (values (data (m_storage m))) (data (m_storage m)) ;;
  Ok (match o with Some c => negb (needs_renewal now c) | None => false end).
(** Errors of single orders are logged. *)
Fixpoint ensure_certificates (issue : list string -> option StoredCertificate) (saved : bool) (now : Z) (sets : list (list string)) (m : AcmeManager)
    : result Empty_set AcmeManager :=
  match sets with
  | [] => Ok m
  | [] :: sets' => ensure_certificates issue saved now sets' m
  | (p :: ds) :: sets' =>
      b <-? current now p m ;;
      ensure_certificates issue saved now sets' (if b : bool then m else (obtain_certificate (issue (p :: ds)) saved now m).2)
  end.

(** One round of the renewal task. *)
Definition renewal_tick (issue : list string -> option StoredCertificate) (saved : bool) (now : Z) (m : AcmeManager) : AcmeManager :=
  foldl (fun m c => (obtain_certificate (issue (domains c)) saved now m).2) m
    (get_certificates_needing_renewal now (values (data (m_storage m)))).

(** [AcmeManagerBuilder] *)
Record AcmeManagerBuilder := { b_storage_path : string; b_email : string; b_ca_server : option string; b_domains : list (list string) }.
Definition builder_new (email storage_path : string) : AcmeManagerBuilder :=
  {| b_storage_path := storage_path; b_email := email; b_ca_server := None; b_domains := [] |}.
Definition ca_server (url : string) (b : AcmeManagerBuilder) : AcmeManagerBuilder :=
  {| b_storage_path := b_storage_path b; b_email := b_email b; b_ca_server := Some url; b_domains := b_domains b |}.
Definition staging : AcmeManagerBuilder -> AcmeManagerBuilder := ca_server "https://acme-staging-v02.api.letsencrypt.org/directory".
Definition production : AcmeManagerBuilder -> AcmeManagerBuilder := ca_server "https://acme-v02.api.letsencrypt.org/directory".
Definition domain_set (ds : list string) (b : AcmeManagerBuilder) : AcmeManagerBuilder :=
  {| b_storage_path := b_storage_path b; b_email := b_email b; b_ca_server := b_ca_server b; b_domains := b_domains b ++ [ds] |}.
(** [build]: the storage is read, the client initialized, and certificates are
    ordered for all domains. *)
Definition build (storage : option StorageManager) (initialized : bool) (issue : list string -> option StoredCertificate) (saved : bool) (now : Z)
    (b : AcmeManagerBuilder) : result unit AcmeManager :=
  match storage with
  | Some st =>
      if initialized then
        match ensure_certificates issue saved now (b_domains b) (manager_new now st) with Ok m => Ok m | Err e => match e with end | Panic => Panic end
      else Err tt
  | None => Err tt
  end.
End Manager.

(** ** Proofs *)
Lemma register_all {Key} (k : Key) ds : forall m d, foldl (register k) m ds !! d = if decide (d ∈ ds) then Some k else m !! d.
Proof.
  induction ds as [|x ds IH]; intros m d; cbn [foldl]; [by rewrite decide_False by apply not_elem_of_nil|].
  rewrite IH. unfold register. destruct (decide (d ∈ ds)) as [Hin|Hni]; [by rewrite decide_True by by right|].
  rewrite lookup_insert. destruct (decide (x = d)) as [->|Hne]; [by rewrite decide_True by by left|].
  rewrite decide_False; [done|]. intros [?|?]%elem_of_cons; congruence.
Qed.

Section Proofs.
Context {Key : Type} (load : StoredCertificate -> option Key).

(** What the cache has for a domain that one certificate covers. *)
Lemma cache_all_lookup k d l : forall m, (forall c, c ∈ l -> d ∈ domains c -> load c = Some k) ->
  cache_all load l m !! d = Some k \/ (cache_all load l m !! d = m !! d /\ forall c, c ∈ l -> d ∉ domains c).
Proof.
  unfold cache_all. induction l as [|c l IH]; intros m Hl; cbn [foldl]; [right; split; [done|by intros c Hc%elem_of_nil]|].
  set (m1 := match load c with Some _ => _ | None => _ end). destruct (IH m1) as [H|[H Hno]]; [intros c' Hc'; apply Hl; by right|by left|].
  destruct (decide (d ∈ domains c)) as [Hd|Hd].
  - left. rewrite H. unfold m1. rewrite (Hl c) by (done || by left). by rewrite register_all, decide_True.
  - right. split; [|intros c' [->|Hc']%elem_of_cons; auto]. rewrite H. unfold m1. destruct (load c); [|done].
    by rewrite register_all, decide_False.
Qed.

(** The names under which a certificate serves a domain. *)
Definition covers (name d : string) : Prop := name = d \/ wildcard_of d = Some name.

Lemma find_cert_table d (m : gmap string Key) k : m !! d = Some k \/ (m !! d = None /\ find_wildcard_match d m = Some k) ->
  exists name, covers name d /\ m !! name = Some k.
Proof.
  intros [H|[_ H]]; [exists d; by split; [left|]|]. unfold find_wildcard_match in H. destruct (wildcard_of d) as [w|] eqn:E; [|done].
  exists w. split; [by right|done].
Qed.

(** The certificate a client is shown. It is one registered for the name the
    client asked for or for the wildcard over its first label: a static one if
    there is any, else a cached one from the authority, in both cases the exact
    name first; only without any of them the storage and then the default
    certificate are used. *)
Theorem resolver_serves_covering now values d (r : CertificateResolver (Key := Key)) :
  let hit (m : gmap string Key) k := exists name, covers name d /\ m !! name = Some k in
  match find_cert load now values d r with
  | Ok (o, r') =>
      ((exists k, hit (static_certs r) k) -> exists k, o = Some k /\ hit (static_certs r) k /\ r' = r /\ (forall k', static_certs r !! d = Some k' -> k' = k)) /\
      (~ (exists k, hit (static_certs r) k) -> (exists k, hit (acme_cache r) k) ->
         exists k, o = Some k /\ hit (acme_cache r) k /\ r' = r /\ (forall k', acme_cache r !! d = Some k' -> k' = k)) /\
      (~ (exists k, hit (static_certs r) k) -> ~ (exists k, hit (acme_cache r) k) -> from_storage load now values d r = Ok (o, r'))
  | Err _ => False
  | Panic => ~ (exists k, hit (static_certs r) k) /\ ~ (exists k, hit (acme_cache r) k) /\ from_storage load now values d r = Panic
  end.
Proof.
  cbn zeta. assert (Hmiss : forall m : gmap string Key, m !! d = None -> find_wildcard_match d m = None ->
    ~ exists k name, covers name d /\ m !! name = Some k).
  { intros m Hd Hw (k & name & [->|Hn] & Hk); [congruence|]. unfold find_wildcard_match in Hw. rewrite Hn in Hw. cbn in Hw. congruence. }
  unfold find_cert. destruct (static_certs r !! d) as [k|] eqn:E1.
  { split_and!; [|intros []; exists k, d; by split; [left|]..]. intros _. exists k. split_and!; try done; [exists d; by split; [left|]|congruence]. }
  destruct (find_wildcard_match d (static_certs r)) as [k|] eqn:E2.
  { assert (Hh : exists name, covers name d /\ static_certs r !! name = Some k) by (apply (find_cert_table d); eauto).
    split_and!; [|intros []; by exists k..]. intros _. exists k. split_and!; done. }
  pose proof (Hmiss _ E1 E2) as Hs. destruct (acme_cache r !! d) as [k|] eqn:E3.
  { split_and!; [done| |intros _ []; exists k, d; by split; [left|]]. intros _ _. exists k. split_and!; try done; [exists d; by split; [left|]|congruence]. }
  destruct (find_wildcard_match d (acme_cache r)) as [k|] eqn:E4.
  { assert (Hh : exists name, covers name d /\ acme_cache r !! name = Some k) by (apply (find_cert_table d); eauto).
    split_and!; [done| |intros _ []; by exists k]. intros _ _. exists k. split_and!; done. }
  pose proof (Hmiss _ E3 E4) as Ha. destruct (from_storage load now values d r) as [[o r']|[]|] eqn:E5; [|done].
  split_and!; done.
Qed.

Context (to_json : AcmeStorage -> string) (values : AcmeStorage -> list StoredCertificate).

(** A certificate that is obtained is served. When the authority issues a
    certificate that can be loaded and has not expired, and it can be saved, then
    every client that asks for one of its domains is shown it, unless a static
    certificate covers the domain or another stored certificate names it too. *)
Theorem acme_renewal_served c k d now later m :
  (forall s, values s ≡ₚ (map_to_list (certificates s)).*2) ->
  load c = Some k -> is_expired now c = false -> d ∈ domains c ->
  (forall n c', certificates (data (m_storage m)) !! n = Some c' -> d ∈ domains c' -> n = domain c) ->
  static_certs (m_resolver m) !! d = None -> find_wildcard_match d (static_certs (m_resolver m)) = None ->
  let '(ok, m') := obtain_certificate load to_json values (Some c) true now m in
  ok = true /\ forall vals, find_cert load later vals d (m_resolver m') = Ok (Some k, m_resolver m').
Proof.
  intros Hv Hk He Hd Hu Hs Hw. cbn [obtain_certificate store_certificate save with_data data file]. split; [done|]. intros vals.
  set (st := {| account := account (data (m_storage m)); certificates := <[domain c := c]> (certificates (data (m_storage m))) |}).
  assert (Hin : forall c', c' ∈ get_all_certificates now (values st) <-> is_expired now c' = false /\ c' ∈ (map_to_list (certificates st)).*2).
  { intros c'. unfold get_all_certificates. rewrite <- (Hv st). rewrite !list_elem_of_In, List.filter_In, negb_true_iff. tauto. }
  assert (Hc : acme_cache (m_resolver {| m_storage := {| data := st; file := Some (to_json st) |};
    m_resolver := refresh_acme_cache load now (values st) (sync {| data := st; file := Some (to_json st) |} (m_resolver m)) |}) !! d = Some k).
  { cbn [m_resolver refresh_acme_cache sync acme_storage with_cache acme_cache data].
    destruct (cache_all_lookup k d (get_all_certificates now (values st)) ∅) as [H|[_ Hno]]; [|done|].
    - intros c' [_ ([n x] & -> & He')%list_elem_of_fmap]%Hin Hd'. apply elem_of_map_to_list in He'. cbn [snd st certificates] in *.
      rewrite lookup_insert in He'. case_decide as En; [by injection He' as <-|]. by destruct En; symmetry; eapply Hu.
    - destruct (Hno c); [|done]. apply Hin. split; [done|]. apply list_elem_of_fmap. exists (domain c, c). split; [done|].
      apply elem_of_map_to_list, lookup_insert_eq. }
  unfold find_cert. cbn [m_resolver refresh_acme_cache sync acme_storage with_cache static_certs acme_cache data] in *.
  by rewrite Hs, Hw, Hc.
Qed.
End Proofs.

(** ** Durability *)
Section Durability.
Context (to_json : AcmeStorage -> string) (of_json : string -> option AcmeStorage).
Hypothesis json_inverse : forall s, of_json (to_json s) = Some s.

Inductive storage_op := SetAccount (a : AcmeAccount) | StoreCert (c : StoredCertificate) | RemoveCert (d : string).
Definition storage_step (s : StorageManager) (o : storage_op * bool) : StorageManager :=
  match o.1 with
  | SetAccount a => (set_account to_json a o.2 s).2
  | StoreCert c => (store_certificate to_json c o.2 s).2
  | RemoveCert d => (remove_certificate to_json d o.2 s).2
  end.
(** The last contents that were saved. *)
Definition op_data (d : AcmeStorage) (o : storage_op) : AcmeStorage :=
  match o with
  | SetAccount a => {| account := Some a; certificates := certificates d |}
  | StoreCert c => {| account := account d; certificates := <[domain c := c]> (certificates d) |}
  | RemoveCert n => {| account := account d; certificates := delete n (certificates d) |}
  end.

Lemma storage_step_data s o : data (storage_step s o) = op_data (data s) o.1 /\
  file (storage_step s o) = if o.2 then Some (to_json (op_data (data s) o.1)) else file s.
Proof. destruct o as [[] []]; done. Qed.

(** Stored certificates survive a restart. After any sequence of changes, some
    of which could not be saved, memory has all of them, and a restart finds
    exactly what memory had at the last save that succeeded: no save leaves a
    file that cannot be read. *)
Theorem storage_durable ops ops' o s :
  Forall (fun o => o.2 = false) ops' -> o.2 = true ->
  let s' := foldl storage_step s (ops ++ o :: ops') in
  data s' = foldl op_data (data s) (ops ++ o :: ops').*1 /\
  data <$> storage_new of_json (file s') = Some (foldl op_data (data s) (ops ++ [o]).*1).
Proof using Type*.
  intros Hf Ho. cbn zeta. assert (Hd : forall l s0, data (foldl storage_step s0 l) = foldl op_data (data s0) l.*1).
  { induction l as [|x l IH]; intros s0; [done|]. cbn [foldl fmap list_fmap]. rewrite IH. by destruct (storage_step_data s0 x) as [-> _]. }
  split; [apply Hd|]. assert (Hk : forall l s0, Forall (fun o => o.2 = false) l -> file (foldl storage_step s0 l) = file s0).
  { intros l s0 Hl. revert s0. induction Hl as [|x l Hx Hl IH]; intros s0; [done|]. cbn [foldl]. rewrite IH.
    destruct (storage_step_data s0 x) as [_ ->]. by rewrite Hx. }
  rewrite foldl_app. cbn [foldl]. rewrite Hk by done. set (s1 := foldl storage_step s ops).
  destruct (storage_step_data s1 o) as [_ ->]. rewrite Ho. unfold storage_new. rewrite json_inverse. cbn.
  unfold s1. rewrite Hd, fmap_app, foldl_app. done.
Qed.
End Durability.

(** ** The storage's wildcards *)
Definition demo_cert (d : string) (ds : list string) : StoredCertificate :=
  {| domain := d; domains := ds; certificate_pem := "c"; private_key_pem := "k"; not_after := 100; not_before := 0 |}.

(** Looking a name up in the storage does not find the wildcard certificate that
    covers it, finds one that does not, and aborts for the wildcard's base. *)
Lemma storage_wildcards :
  wildcard_covers "www.example.com" "*.example.com" = Ok false /\
  wildcard_covers "badexample.com" "*.example.com" = Ok true /\
  wildcard_covers "example.com" "*.example.com" = Panic.
Proof. vm_compute. done. Qed.

(** The domains of a certificate: its names without repetitions and empty ones. *)
Lemma add_domains l : forall ds, NoDup ds -> "" ∉ ds ->
  NoDup (foldl add_domain ds l) /\ forall d, d ∈ foldl add_domain ds l <-> d ∈ ds \/ (d ∈ l /\ d <> "").
Proof.
  induction l as [|s l IH]; intros ds Hn He; cbn [foldl]; [split; [done|]; intros d; rewrite elem_of_nil; tauto|].
  unfold add_domain at 2 4. destruct (decide (s = "" \/ s ∈ ds)) as [Hs|Hs].
  - assert (E : bool_decide (s = "") || bool_decide (s ∈ ds) = true) by (destruct Hs; [rewrite bool_decide_eq_true_2|rewrite orb_comm, bool_decide_eq_true_2]; done).
    rewrite E. destruct (IH ds Hn He) as [H1 H2]. split; [done|]. intros d. rewrite H2, elem_of_cons. clear -Hs. destruct Hs as [->|Hs]; intuition congruence.
  - rewrite (bool_decide_eq_false_2 (s = "")), (bool_decide_eq_false_2 (s ∈ ds)) by naive_solver. cbn [orb].
    destruct (IH (ds ++ [s])) as [H1 H2].
    + apply NoDup_app. split_and!; [done| |apply NoDup_singleton]. intros x Hx ->%list_elem_of_singleton. naive_solver.
    + rewrite elem_of_app, list_elem_of_singleton. naive_solver.
    + split; [done|]. intros d. rewrite H2, elem_of_app, list_elem_of_singleton, elem_of_cons. naive_solver.
Qed.
Lemma cert_domains_exact x : exists ds, extract_cert_domains (Some x) = Ok ds /\ NoDup ds /\ forall d, d ∈ ds <-> d ∈ dns_names x /\ d <> "".
Proof.
  eexists. split; [reflexivity|]. destruct (add_domains (dns_names x) []) as [H1 H2]; [apply NoDup_nil_2|apply not_elem_of_nil|].
  split; [done|]. intros d. rewrite H2, elem_of_nil. tauto.
Qed.
(** A file without a certificate aborts the start of the server. *)
Lemma empty_certificate_file_aborts {Cert SK} (k : SK) (parse : Cert -> option X509) tc :
  load_static (fun _ => Some []) (fun _ => Some k) parse tc = Panic.
Proof. reflexivity. Qed.

(** ** Concrete runs *)
Definition demo_load (c : StoredCertificate) : option string := Some (certificate_pem c +:+ "-" +:+ domain c).
Definition map_values (s : AcmeStorage) : list StoredCertificate := (map_to_list (certificates s)).*2.
Definition demo_acme : AcmeManager (Key := string) :=
  {| m_storage := {| data := storage_default; file := None |}; m_resolver := resolver_new |}.

Lemma acme_renewal_served_witness :
  find_cert demo_load 50 [] "www.a.test"
    (m_resolver (obtain_certificate demo_load (fun _ => "") map_values (Some (demo_cert "a.test" ["a.test"; "www.a.test"])) true 10 demo_acme).2) =
  Ok (Some "c-a.test", m_resolver (obtain_certificate demo_load (fun _ => "") map_values (Some (demo_cert "a.test" ["a.test"; "www.a.test"])) true 10 demo_acme).2).
Proof.
  exact (proj2 (acme_renewal_served demo_load (fun _ => "") map_values (demo_cert "a.test" ["a.test"; "www.a.test"]) "c-a.test" "www.a.test" 10 50 demo_acme
    (fun s => reflexivity _) eq_refl eq_refl ltac:(right; left) (fun n c' H _ => ltac:(done)) eq_refl eq_refl) []).
Defined.

(** A serializer: the number of a value, in binary. *)
#[local] Instance account_eq : EqDecision AcmeAccount := ltac:(solve_decision).
#[local] Instance cert_eq : EqDecision StoredCertificate := ltac:(solve_decision).
#[local] Instance storage_eq : EqDecision AcmeStorage := ltac:(solve_decision).
#[local] Instance account_countable : Countable AcmeAccount :=
  inj_countable' (fun a => (acc_url a, acc_private_key_pem a, acc_email a)) (fun t => Build_AcmeAccount t.1.1 t.1.2 t.2) ltac:(by intros []).
#[local] Instance cert_countable : Countable StoredCertificate :=
  inj_countable' (fun c => (domain c, domains c, certificate_pem c, private_key_pem c, not_after c, not_before c))
    (fun t => Build_StoredCertificate t.1.1.1.1.1 t.1.1.1.1.2 t.1.1.1.2 t.1.1.2 t.1.2 t.2) ltac:(by intros []).
#[local] Instance storage_countable : Countable AcmeStorage :=
  inj_countable' (fun s => (account s, certificates s)) (fun t => Build_AcmeStorage t.1 t.2) ltac:(by intros []).
Fixpoint pos_text (p : positive) : string :=
  match p with xH => "" | xO q => String "0" (pos_text q) | xI q => String "1" (pos_text q) end.
Fixpoint text_pos (s : string) : positive :=
  match s with EmptyString => xH | String c s' => if Ascii.eqb c "0" then xO (text_pos s') else xI (text_pos s') end.
Lemma text_pos_text p : text_pos (pos_text p) = p.
Proof. induction p as [p IH|p IH|]; cbn; by rewrite ?IH. Qed.
Definition binary (s : AcmeStorage) : string := pos_text (encode s).
Definition of_binary (t : string) : option AcmeStorage := decode (text_pos t).
Lemma of_binary_binary s : of_binary (binary s) = Some s.
Proof. unfold of_binary, binary. rewrite text_pos_text. apply decode_encode. Qed.

Lemma storage_durable_witness :
  data <$> storage_new of_binary
    (file (foldl (storage_step binary) {| data := storage_default; file := None |}
      ([] ++ (StoreCert (demo_cert "a" ["a"]), true) :: [(RemoveCert "a", false)]))) =
  Some {| account := None; certificates := {["a" := demo_cert "a" ["a"]]} |}.
Proof.
  exact (proj2 (storage_durable binary of_binary of_binary_binary [] [(RemoveCert "a", false)] (StoreCert (demo_cert "a" ["a"]), true)
    {| data := storage_default; file := None |} ltac:(by repeat constructor) eq_refl)).
Defined.

(** The authority's request for a pending token is answered. *)
Lemma challenge_answers pending token auth : pending !! token = Some auth -> token <> "" -> starts_with challenge_prefix token = false ->
  handle_challenge pending (challenge_prefix +:+ token) = Some (Authorization auth).
Proof.
  intros Hp Hne Hs. assert (Ht : forall n, strip_all n [challenge_prefix] token = token).
  { intros [|n]; [done|]. unfold starts_with in Hs. cbn [strip_all]. unfold strip_any. cbn [fold_right].
    by destruct (RustStr.strip_prefix challenge_prefix token). }
  assert (H1 : forall n, strip_all (S n) [challenge_prefix] (challenge_prefix +:+ token) = token).
  { intros n. cbn [strip_all]. unfold strip_any. cbn [fold_right]. by rewrite strip_prefix_app, Ht. }
  unfold handle_challenge, is_challenge_request. rewrite (proj2 (starts_with_spec _ _)) by (by eexists).
  destruct (String.length (challenge_prefix +:+ token)) as [|n] eqn:El; [done|]. rewrite H1, bool_decide_eq_false_2 by done. by rewrite Hp.
Qed.
