(* ===== verification/Acme.v ===== *)
(** * The ACME client

    Models src/src/tls/acme/client.rs: the account, signed requests, orders,
    authorizations with their HTTP-01 challenges, the polling loops and the
    stored certificate. It composes [Der] (certificate requests, PEM), [Hash]
    (thumbprints) and [Certs] (the storage, the handler that answers
    challenges). Keys, signatures, JSON and the certificate authority are
    parameters; the authority is any machine that sees the client's requests
    and, as long as the proxy listens, what the challenge handler answers.
    Errors are values without their texts. Instants are in seconds. *)
From S2P Require Import Prelude RustStr Duration Encoding BasicAuth Hash Jwt Der Certs.
From stdpp Require Import list gmap.
Open Scope Z_scope.
Open Scope list_scope.
Open Scope rust_scope.
#[local] Set Default Proof Using "Type*".

Definition LETS_ENCRYPT_PRODUCTION : string := "https://acme-v02.api.letsencrypt.org/directory".

Record AcmeDirectory := { new_nonce : string; new_account : string; new_order : string; revoke_cert : option string; key_change : option string }.
Record AcmeIdentifier := { id_type : string; id_value : string }.
Record AcmeOrder := {
  o_status : string;
  o_expires : option string;
  o_identifiers : list AcmeIdentifier;
  o_authorizations : list string;
  o_finalize : string;
  o_certificate : option string;
}.
Record AcmeChallenge := { challenge_type : string; c_url : string; c_token : string; c_status : string }.
Record AcmeAuthorization := { identifier : AcmeIdentifier; a_status : string; challenges : list AcmeChallenge }.
Record PendingChallenge := { token : string; key_authorization : string }.

(** JSON values as the client builds them. *)
#[local] Set Warnings "-register-all".
Inductive json := JStr (s : string) | JTrue | JArr (l : list json) | JObj (fields : list (string * json)).

(** The members of the body of a signed request. *)
Record Jws := { protected : string; payload : string; signature : string }.
Inductive acme_request := Get (url : string) | Head (url : string) | Post (url : string) (body : Jws).
Record acme_response := { location : option string; replay_nonce : option string; rp_body : string }.

(** The libraries: key pairs ([ring]; a number stands for the randomness a call
    draws), PEM private keys, and JSON ([serde_json]). *)
Class AcmeLib := {
  KeyPair : Type;
  generate_pkcs8 : nat -> option string;
  from_pkcs8 : string -> option KeyPair;
  public_key : KeyPair -> string;
  ec_sign : nat -> KeyPair -> string -> option string;
  pkcs8_of_pem : string -> option string;
  json_text : json -> string;
  parse_directory : string -> option AcmeDirectory;
  parse_order : string -> option AcmeOrder;
  parse_authorization : string -> option AcmeAuthorization;
  parse_challenge : string -> option AcmeChallenge;
}.

Section Client.
Context `{AL : AcmeLib} {CA : Type}.
(** The authority: the time, what a request for a path is answered by the
    challenge handler, the request. [None] is a failure of the exchange. *)
Context (ca : Z -> (string -> option challenge_reply) -> acme_request -> CA -> option acme_response * CA).
(** Whether an entry point is listening; whether the storage can be saved at a time. *)
Context (online : bool) (save_ok : Z -> bool) (to_json : AcmeStorage -> string).
(** The client's constant fields. *)
Context (directory_url email : string).

Record client := {
  storage : StorageManager;
  directory : option AcmeDirectory;
  key_pair : option KeyPair;
  account_url : option string;
  pending_challenges : gmap string PendingChallenge;
  (* the world around it *)
  authority : CA;
  clock : Z;
  rng : nat;
  exchanges : list (acme_request * option acme_response);
}.

Definition M (A : Type) : Type := client -> result unit A * client.
Definition mret' {A} (x : A) : M A := fun w => (Ok x, w).
Definition mbind' {A B} (m : M A) (k : A -> M B) : M B := fun w =>
  match m w with (Ok x, w') => k x w' | (Err e, w') => (Err e, w') | (Panic, w') => (Panic, w') end.
#[local] Notation "x <-! m ;; k" := (mbind' m (fun x => k)) (at level 60, m at next level, right associativity).
Definition lift {A} (o : option A) : M A := fun w => (ok_or o tt, w).
Definition gets {A} (f : client -> A) : M A := fun w => (Ok (f w), w).
Definition need {A} (f : client -> option A) : M A := fun w => (ok_or (f w) tt, w).

Definition fetch (w : client) (path : string) : option challenge_reply :=
  if online then handle_challenge (key_authorization <$> pending_challenges w) path else None.
Definition exchange (q : acme_request) : M acme_response := fun w =>
  let '(o, s) := ca (clock w) (fetch w) q (authority w) in
  (ok_or o tt,
   {| storage := storage w; directory := directory w; key_pair := key_pair w; account_url := account_url w;
      pending_challenges := pending_challenges w; authority := s; clock := clock w; rng := rng w; exchanges := exchanges w ++ [(q, o)] |}).
Definition sleep (s : Z) : M unit := fun w =>
  (Ok tt,
   {| storage := storage w; directory := directory w; key_pair := key_pair w; account_url := account_url w;
      pending_challenges := pending_challenges w; authority := authority w; clock := clock w + s; rng := rng w; exchanges := exchanges w |}).
Definition draw : M nat := fun w =>
  (Ok (rng w),
   {| storage := storage w; directory := directory w; key_pair := key_pair w; account_url := account_url w;
      pending_challenges := pending_challenges w; authority := authority w; clock := clock w; rng := S (rng w); exchanges := exchanges w |}).
Definition set_directory (d : AcmeDirectory) : M unit := fun w =>
  (Ok tt,
   {| storage := storage w; directory := Some d; key_pair := key_pair w; account_url := account_url w;
      pending_challenges := pending_challenges w; authority := authority w; clock := clock w; rng := rng w; exchanges := exchanges w |}).
Definition set_key (k : KeyPair) : M unit := fun w =>
  (Ok tt,
   {| storage := storage w; directory := directory w; key_pair := Some k; account_url := account_url w;
      pending_challenges := pending_challenges w; authority := authority w; clock := clock w; rng := rng w; exchanges := exchanges w |}).
Definition set_url (u : string) : M unit := fun w =>
  (Ok tt,
   {| storage := storage w; directory := directory w; key_pair := key_pair w; account_url := Some u;
      pending_challenges := pending_challenges w; authority := authority w; clock := clock w; rng := rng w; exchanges := exchanges w |}).
Definition set_pending (f : gmap string PendingChallenge -> gmap string PendingChallenge) : M unit := fun w =>
  (Ok tt,
   {| storage := storage w; directory := directory w; key_pair := key_pair w; account_url := account_url w;
      pending_challenges := f (pending_challenges w); authority := authority w; clock := clock w; rng := rng w; exchanges := exchanges w |}).
(** A change of the storage, that may fail to be saved. *)
Definition on_storage (f : bool -> StorageManager -> bool * StorageManager) : M unit := fun w =>
  let '(ok, st) := f (save_ok (clock w)) (storage w) in
  (if ok then Ok tt else Err tt,
   {| storage := st; directory := directory w; key_pair := key_pair w; account_url := account_url w;
      pending_challenges := pending_challenges w; authority := authority w; clock := clock w; rng := rng w; exchanges := exchanges w |}).

(** ** Keys and signed requests *)
Definition b64url (s : string) : string := b64_body URL_ALPHABET s.

Definition load_key_pair (pem : string) : option KeyPair := bytes ← pkcs8_of_pem pem; from_pkcs8 bytes.
Definition generate_account_key : M (string * KeyPair) :=
  r <-! draw ;;
  pkcs8 <-! lift (generate_pkcs8 r) ;;
  key <-! lift (from_pkcs8 pkcs8) ;;
  mret' (pem_encode "PRIVATE KEY" pkcs8, key).

Definition get_nonce : M string :=
  d <-! need directory ;;
  r <-! exchange (Head (new_nonce d)) ;;
  lift (replay_nonce r).

(** The uncompressed point: a byte 4 and two coordinates of 32 bytes. *)
Definition get_jwk (k : KeyPair) : option json :=
  let pk := public_key k in
  if (String.length pk =? 65)%nat && starts_with (Der.bytes [4]) pk then
    Some (JObj [("kty", JStr "EC"); ("crv", JStr "P-256"); ("x", JStr (b64url (str_take 32 (str_drop 1 pk))));
                ("y", JStr (b64url (str_take 32 (str_drop 33 pk))))])
  else None.
Definition get_key_authorization (t : string) : M string :=
  k <-! need key_pair ;;
  jwk <-! lift (get_jwk k) ;;
  let thumbprint := string_of (sha256 (bytes_of (json_text jwk))) in
  mret' (t +:+ "." +:+ b64url thumbprint).

(** The protected header: the key itself to create an account, later its URL. *)
Definition request_header (k : KeyPair) (nonce url : string) (use_jwk : bool) : M (list (string * json)) :=
  let base := [("alg", JStr "ES256"); ("nonce", JStr nonce); ("url", JStr url)] in
  if use_jwk then jwk <-! lift (get_jwk k) ;; mret' (base ++ [("jwk", jwk)])
  else u <-! need account_url ;; mret' (base ++ [("kid", JStr u)]).
Definition signed_request (url : string) (body : option json) (use_jwk : bool) : M acme_response :=
  k <-! need key_pair ;;
  nonce <-! get_nonce ;;
  header <-! request_header k nonce url use_jwk ;;
  let protected_b64 := b64url (json_text (JObj header)) in
  let payload_b64 := match body with Some p => b64url (json_text p) | None => "" end in
  r <-! draw ;;
  sig <-! lift (ec_sign r k (protected_b64 +:+ "." +:+ payload_b64)) ;;
  exchange (Post url {| protected := protected_b64; payload := payload_b64; signature := b64url sig |}).

(** ** Accounts *)
Definition create_account : M unit :=
  d <-! need directory ;;
  pk <-! generate_account_key ;;
  _ <-! set_key pk.2 ;;
  response <-! signed_request (new_account d)
    (Some (JObj [("termsOfServiceAgreed", JTrue); ("contact", JArr [JStr ("mailto:" +:+ email)])])) true ;;
  url <-! lift (location response) ;;
  _ <-! set_url url ;;
  on_storage (set_account to_json {| acc_url := url; acc_private_key_pem := pk.1; acc_email := email |}).
Definition init : M unit :=
  r <-! exchange (Get directory_url) ;;
  d <-! lift (parse_directory (rp_body r)) ;;
  _ <-! set_directory d ;;
  a <-! gets (fun w => get_account (storage w)) ;;
  match a with
  | Some a => _ <-! set_url (acc_url a) ;; k <-! lift (load_key_pair (acc_private_key_pem a)) ;; set_key k
  | None => create_account
  end.

(** ** Polling *)
(** [for i in 0..n]: [judge] is what the match on the status does: leave the loop
    or go on. *)
Fixpoint poll {A B} (n : nat) (url : string) (parse : string -> option A) (judge : A -> option (result unit B)) : M B :=
  match n with
  | O => fun w => (Err tt, w)
  | S n' =>
      _ <-! sleep 2 ;;
      r <-! signed_request url None false ;;
      x <-! lift (parse (rp_body r)) ;;
      match judge x with Some res => fun w => (res, w) | None => poll n' url parse judge end
  end.
Definition wait_for_challenge_valid (url : string) : M unit :=
  poll 30 url parse_challenge (fun c =>
    if bool_decide (c_status c = "valid") then Some (Ok tt)
    else if bool_decide (c_status c = "invalid") then Some (Err tt) else None).
Definition wait_for_order_ready (url : string) (initial : AcmeOrder) : M AcmeOrder :=
  if bool_decide (o_status initial = "ready") then mret' initial
  else poll 30 url parse_order (fun o =>
    if bool_decide (o_status o = "ready") then Some (Ok o)
    else if bool_decide (o_status o = "invalid") then Some (Err tt) else None).
Definition is_some {A} (o : option A) : bool := match o with Some _ => true | None => false end.
Definition wait_for_order_valid (url : string) (initial : AcmeOrder) : M AcmeOrder :=
  if bool_decide (o_status initial = "valid") && is_some (o_certificate initial) then mret' initial
  else poll 30 url parse_order (fun o =>
    if bool_decide (o_status o = "valid") then if is_some (o_certificate o) then Some (Ok o) else None
    else if bool_decide (o_status o = "invalid") then Some (Err tt) else None).

(** ** Orders *)
Definition process_authorization (authz_url : string) : M unit :=
  r <-! signed_request authz_url None false ;;
  authz <-! lift (parse_authorization (rp_body r)) ;;
  if bool_decide (a_status authz = "valid") then mret' tt
  else
    c <-! lift (List.find (fun c => bool_decide (challenge_type c = "http-01")) (challenges authz)) ;;
    if bool_decide (c_status c = "valid") then mret' tt
    else
      auth <-! get_key_authorization (c_token c) ;;
      _ <-! set_pending (fun m => <[c_token c := {| token := c_token c; key_authorization := auth |}]> m) ;;
      _ <-! signed_request (c_url c) (Some (JObj [])) false ;;
      _ <-! wait_for_challenge_valid (c_url c) ;;
      set_pending (fun m => delete (c_token c) m).
Fixpoint process_authorizations (urls : list string) : M unit :=
  match urls with [] => mret' tt | u :: urls' => _ <-! process_authorization u ;; process_authorizations urls' end.

Definition generate_csr (domains : list string) : M (string * string) :=
  r <-! draw ;;
  pkcs8 <-! lift (generate_pkcs8 r) ;;
  key <-! lift (from_pkcs8 pkcs8) ;;
  r' <-! draw ;;
  csr <-! (fun w => (build_csr domains (public_key key) (ec_sign r' key), w)) ;;
  mret' (pem_encode "PRIVATE KEY" pkcs8, csr).

(** The certificate is not looked at. *)
Definition parse_certificate_dates (now : Z) (pem : string) : Z * Z := (now, now + 90 * 24 * 60 * 60).
(** For logs; the cast to [i64] keeps instants below [2^63]. *)
Definition chrono_from_unix (timestamp : Z) : string := dec (1970 + wrap_i64 timestamp / 86400 / 365) +:+ "-xx-xx".

Definition order_payload (ds : list string) : json :=
  JObj [("identifiers", JArr ((fun d => JObj [("type", JStr "dns"); ("value", JStr d)]) <$> ds))].
(** [order_certificate] from the parsed order on. *)
Definition complete_order (ds : list string) (order_url : string) (order : AcmeOrder) : M StoredCertificate :=
  _ <-! process_authorizations (o_authorizations order) ;;
  order <-! wait_for_order_ready order_url order ;;
  kc <-! generate_csr ds ;;
  _ <-! signed_request (o_finalize order) (Some (JObj [("csr", JStr (b64url kc.2))])) false ;;
  order <-! wait_for_order_valid order_url order ;;
  cert_url <-! lift (o_certificate order) ;;
  response <-! signed_request cert_url None false ;;
  let cert_pem := rp_body response in
  dates <-! gets (fun w => parse_certificate_dates (clock w) cert_pem) ;;
  stored <-! (fun w => match ds with
    | [] => (Panic, w)
    | p :: _ => (Ok {| domain := p; domains := ds; certificate_pem := cert_pem; private_key_pem := kc.1;
                       not_after := dates.2; not_before := dates.1 |}, w)
    end) ;;
  _ <-! on_storage (store_certificate to_json stored) ;;
  mret' stored.
Definition order_certificate (ds : list string) : M StoredCertificate :=
  d <-! need directory ;;
  response <-! signed_request (new_order d) (Some (order_payload ds)) false ;;
  order <-! lift (parse_order (rp_body response)) ;;
  complete_order ds (default "" (location response)) order.
End Client.

(** Success of a sequence. *)
Lemma bind_returns `{AL : AcmeLib} {CA A B} (m : M (CA := CA) A) (k : A -> M B) w b w' : mbind' m k w = (Ok b, w') ->
  exists a w1, m w = (Ok a, w1) /\ k a w1 = (Ok b, w').
Proof. unfold mbind'. destruct (m w) as [[a|e|] w1]; intros H; [by exists a, w1|done|done]. Qed.

(** ** What holds for every authority *)
Section AnyAuthority.
Context `{AL : AcmeLib} {CA : Type}.
Context (ca : Z -> (string -> option challenge_reply) -> acme_request -> CA -> option acme_response * CA).
Context (online : bool) (save_ok : Z -> bool) (to_json : AcmeStorage -> string).
#[local] Abbreviation M := (M (CA := CA)).
#[local] Abbreviation client := (client (CA := CA)).
#[local] Abbreviation signed_request := (signed_request ca online).
#[local] Abbreviation order_certificate := (order_certificate ca online save_ok to_json).

(** *** Requests and time *)
(** At most [n] exchanges and [t] seconds, on every path. *)
Definition costs {A} (n : nat) (t : Z) (m : M A) : Prop := forall w,
  exists l, exchanges (m w).2 = exchanges w ++ l /\ (length l <= n)%nat /\ clock w <= clock (m w).2 <= clock w + t.

Lemma costs_bind {A B} n1 t1 n2 t2 (m : M A) (k : A -> M B) : costs n1 t1 m -> (forall x, costs n2 t2 (k x)) -> 0 <= t2 ->
  costs (n1 + n2) (t1 + t2) (mbind' m k).
Proof.
  intros Hm Hk Ht w. destruct (Hm w) as (l1 & H1 & Hn1 & Ht1). unfold mbind'. destruct (m w) as [[x|e|] w1]; cbn [snd] in *.
  - destruct (Hk x w1) as (l2 & H2 & Hn2 & Ht2). exists (l1 ++ l2). rewrite H2, H1, app_assoc, length_app. split_and!; [done|lia|lia|lia].
  - exists l1. split_and!; [done|lia|lia|lia].
  - exists l1. split_and!; [done|lia|lia|lia].
Qed.
Lemma costs_more {A} n t n' t' (m : M A) : costs n t m -> (n <= n')%nat -> t <= t' -> costs n' t' m.
Proof. intros H Hn Ht w. destruct (H w) as (l & Hl & Hl' & Hc). exists l. split_and!; [done|lia|lia|lia]. Qed.
Lemma costs_none {A} (m : M A) : (forall w, exchanges (m w).2 = exchanges w /\ clock (m w).2 = clock w) -> costs 0 0 m.
Proof. intros H w. destruct (H w) as [-> ->]. exists []. rewrite app_nil_r. split_and!; [done|cbn; lia|lia|lia]. Qed.
Lemma costs_exchange q : costs 1 0 (exchange ca online q).
Proof. intros w. unfold exchange. destruct (ca _ _ _ _) as [o s]. exists [(q, o)]. cbn. split_and!; [done|lia|lia|lia]. Qed.
(** A part that costs nothing in front. *)
Lemma costs_free {A B} n t (m : M A) (k : A -> M B) : (forall w, exchanges (m w).2 = exchanges w /\ clock (m w).2 = clock w) ->
  (forall x, costs n t (k x)) -> 0 <= t -> costs n t (mbind' m k).
Proof. intros Hm Hk Ht. apply (costs_bind 0 0 n t); [by apply costs_none|done|done]. Qed.
Ltac free := apply costs_free; [by intros; split|intros ?|lia].

Lemma costs_signed url p b : costs 2 0 (signed_request url p b).
Proof.
  unfold Acme.signed_request. free. apply (costs_bind 1 0 1 0); [|intros nonce|lia].
  - unfold get_nonce. free. apply (costs_more (1 + 0) (0 + 0)); [|lia|lia]. apply costs_bind; [apply costs_exchange| |lia].
    intros r. by apply costs_none.
  - apply costs_free; [unfold request_header; destruct b; unfold mbind', lift, need, mret'; intros w; cbn; repeat case_match; simplify_eq/=; done| |lia].
    intros h. free. free. apply costs_exchange.
Qed.

Lemma costs_poll {A B} n url (parse : string -> option A) (judge : A -> option (result unit B)) :
  costs (2 * n) (2 * Z.of_nat n) (poll ca online n url parse judge).
Proof.
  induction n as [|n IH]; [by apply costs_none|]. cbn [poll].
  apply (costs_more (0 + (2 + 2 * n)) (2 + (0 + 2 * Z.of_nat n))); [|lia|lia].
  apply costs_bind; [|intros _|lia].
  { intros w. exists []. cbn. rewrite app_nil_r. split_and!; [done|lia|lia|lia]. }
  apply costs_bind; [apply costs_signed|intros r|lia]. free. destruct (judge x); [|done]. eapply costs_more; [by apply costs_none|lia|lia].
Qed.

Lemma costs_wait {A} url (parse : string -> option A) judge (m : M A) :
  costs 0 0 m -> forall c : bool, costs 60 60 (if c then m else poll ca online 30 url parse judge).
Proof. intros Hm [|]; [eapply costs_more; [exact Hm|lia|lia]|]. apply (costs_more (2 * 30) (2 * Z.of_nat 30)); [apply costs_poll|lia|lia]. Qed.

Lemma costs_authorization u : costs 64 60 (process_authorization ca online u).
Proof.
  unfold process_authorization. apply (costs_bind 2 0 62 60); [apply costs_signed|intros r|lia]. free. rename x into authz.
  case_bool_decide; [by eapply costs_more; [by apply costs_none|lia|lia]|]. free. rename x into c.
  case_bool_decide; [by eapply costs_more; [by apply costs_none|lia|lia]|].
  apply costs_free; [|intros auth|lia].
  { intros w. unfold get_key_authorization, mbind', need, lift, mret'. cbn. repeat case_match; simplify_eq/=; done. }
  free. apply (costs_bind 2 0 60 60); [apply costs_signed|intros _|lia].
  apply (costs_more (60 + 0) (60 + 0)); [|lia|lia]. apply costs_bind; [|intros _; by apply costs_none|lia].
  apply (costs_more (2 * 30) (2 * Z.of_nat 30)); [apply costs_poll|lia|lia].
Qed.
Lemma costs_authorizations us : costs (64 * length us) (60 * Z.of_nat (length us)) (process_authorizations ca online us).
Proof.
  induction us as [|u us IH]; [by apply costs_none|]. cbn [process_authorizations length].
  apply (costs_more (64 + 64 * length us) (60 + 60 * Z.of_nat (length us))); [|lia|lia].
  apply costs_bind; [apply costs_authorization|intros _; exact IH|lia].
Qed.

Lemma costs_csr ds : costs 0 0 (generate_csr (CA := CA) ds).
Proof. unfold generate_csr. do 4 free. apply costs_free; [by intros; split|intros csr; by apply costs_none|lia]. Qed.

Lemma costs_complete ds url order : let n := length (o_authorizations order) in
  costs (64 * n + 124) (60 * Z.of_nat n + 120) (complete_order ca online save_ok to_json ds url order).
Proof.
  cbn zeta. unfold complete_order. apply costs_bind; [apply costs_authorizations|intros _|lia].
  apply (costs_bind 60 60 64 60); [apply costs_wait; by apply costs_none|intros order'|lia].
  apply (costs_bind 0 0 64 60); [apply costs_csr|intros kc|lia]. apply (costs_bind 2 0 62 60); [apply costs_signed|intros _|lia].
  apply (costs_bind 60 60 2 0); [apply costs_wait; by apply costs_none|intros order''|lia]. free.
  apply (costs_bind 2 0 0 0); [apply costs_signed|intros r|lia]. free.
  apply costs_free; [by intros; destruct ds|intros stored|lia].
  apply costs_free; [|intros _; by apply costs_none|lia]. intros w. unfold on_storage. by destruct (store_certificate _ _ _ _).
Qed.

(** *** Signatures *)
(** The account as a request sees it. *)
Definition same_account (w w' : client) : Prop :=
  directory w' = directory w /\ key_pair w' = key_pair w /\ account_url w' = account_url w.

(** A request signed for the account: the protected header names the algorithm,
    the nonce, the URL the request goes to, and the key itself when the account is
    created ([jwk]) and the account's URL in all later requests; the signature
    covers header and payload. *)
Definition signed_for (jwk : bool) (w : client) (nonce url : string) (body : Jws) : Prop :=
  exists k field rd sig, key_pair w = Some k /\
    (if jwk then exists j, get_jwk k = Some j /\ field = ("jwk", j) else exists u, account_url w = Some u /\ field = ("kid", JStr u)) /\
    protected body = b64url (json_text (JObj [("alg", JStr "ES256"); ("nonce", JStr nonce); ("url", JStr url); field])) /\
    ec_sign rd k (protected body +:+ "." +:+ payload body) = Some sig /\ signature body = b64url sig.

(** Every posted request directly follows the request that fetched its nonce. *)
Inductive signed_log (jwk : bool) (w : client) : list (acme_request * option acme_response) -> Prop :=
  | log_nil : signed_log jwk w []
  | log_nonce d o l : directory w = Some d -> signed_log jwk w l -> signed_log jwk w ((Head (new_nonce d), o) :: l)
  | log_post d r nonce url body o l : directory w = Some d -> replay_nonce r = Some nonce -> signed_for jwk w nonce url body ->
      signed_log jwk w l -> signed_log jwk w ((Head (new_nonce d), Some r) :: (Post url body, o) :: l).

Lemma signed_log_app jwk w l1 l2 : signed_log jwk w l1 -> signed_log jwk w l2 -> signed_log jwk w (l1 ++ l2).
Proof. induction 1; intros; cbn; [done|apply log_nonce; auto|eapply log_post; eauto]. Qed.
Lemma signed_log_same (jwk : bool) w w' l : directory w' = directory w -> key_pair w' = key_pair w ->
  (jwk = false -> account_url w' = account_url w) -> signed_log jwk w' l -> signed_log jwk w l.
Proof.
  intros Hd Hk Hu. induction 1 as [|d o l H _ IH|d r n u b o l H Hr Hs _ IH].
  - constructor.
  - apply log_nonce; [congruence|done].
  - eapply log_post; [congruence|exact Hr| |done]. unfold signed_for in *. rewrite <- Hk. destruct jwk; [done|]. by rewrite <- Hu.
Qed.

(** A sequence of steps that keeps a relation. *)
Lemma bind_cases {A B} (m : M A) (k : A -> M B) w (P : result unit B -> client -> Prop) :
  (forall x w1, m w = (Ok x, w1) -> P (k x w1).1 (k x w1).2) ->
  (forall e w1, m w = (Err e, w1) -> P (Err e) w1) -> (forall w1, m w = (Panic, w1) -> P Panic w1) ->
  P (mbind' m k w).1 (mbind' m k w).2.
Proof. unfold mbind'. destruct (m w) as [[x|e|] w1]; eauto. Qed.

(** The nonce and the header of a request. *)
Definition goes_to (url : string) (e : acme_request * option acme_response) : Prop :=
  match e.1 with Post u _ => u = url | Head _ => True | Get _ => False end.
Lemma nonce_spec url w : let '(o, w') := get_nonce ca online w in
  same_account w w' /\ storage w' = storage w /\ pending_challenges w' = pending_challenges w /\ clock w' = clock w /\ o <> Panic /\
  match o with
  | Ok nonce => exists d r, directory w = Some d /\ replay_nonce r = Some nonce /\ exchanges w' = exchanges w ++ [(Head (new_nonce d), Some r)]
  | _ => exists l, (forall jwk, signed_log jwk w l) /\ Forall (goes_to url) l /\ exchanges w' = exchanges w ++ l
  end.
Proof.
  unfold get_nonce, mbind', need. destruct (directory w) as [d|] eqn:Ed; cbn [ok_or].
  2: { split_and!; try done. exists []. rewrite app_nil_r. split_and!; [constructor|constructor|done]. }
  unfold exchange. destruct (ca _ _ _ _) as [[r|] s1]; cbn [ok_or].
  2: { split_and!; try done. exists [(Head (new_nonce d), None)]. split_and!; [|by repeat constructor|reflexivity]. intros jwk. by eapply log_nonce; [|constructor]. }
  unfold lift. destruct (replay_nonce r) as [nonce|] eqn:En; cbn [ok_or].
  - split_and!; try done. exists d, r. done.
  - split_and!; try done. exists [(Head (new_nonce d), Some r)]. split_and!; [|by repeat constructor|reflexivity]. intros jwk. by eapply log_nonce; [|constructor].
Qed.
Lemma header_spec k nonce url b (w : client) : let '(o, w') := request_header k nonce url b w in
  w' = w /\ o <> Panic /\ forall h, o = Ok h -> exists field, h = [("alg", JStr "ES256"); ("nonce", JStr nonce); ("url", JStr url); field] /\
    (if b then exists j, get_jwk k = Some j /\ field = ("jwk", j) else exists u, account_url w = Some u /\ field = ("kid", JStr u)).
Proof.
  unfold request_header, mbind', lift, need, mret'. destruct b.
  - destruct (get_jwk k) as [jwk|]; cbn; split_and!; try done. intros h [= <-]. eexists. split; [reflexivity|]. by eexists.
  - destruct (account_url w) as [u|]; cbn; split_and!; try done. intros h [= <-]. eexists. split; [reflexivity|]. by eexists.
Qed.

(** What one signed request does. *)
Lemma signed_spec url p b w : let '(o, w') := signed_request url p b w in
  same_account w w' /\ storage w' = storage w /\ pending_challenges w' = pending_challenges w /\ clock w' = clock w /\ o <> Panic /\
  exists l, exchanges w' = exchanges w ++ l /\ signed_log b w l /\
    Forall (goes_to url) l /\
    forall r, o = Ok r -> exists l' body, l = l' ++ [(Post url body, Some r)] /\
       payload body = match p with Some j => b64url (json_text j) | None => "" end.
Proof.
  unfold Acme.signed_request. unfold mbind' at 1, need at 1. destruct (key_pair w) as [k|] eqn:Ek; cbn [ok_or].
  2: { split_and!; try done. exists []. rewrite app_nil_r. split_and!; [done|constructor|constructor|done]. }
  pose proof (nonce_spec url w) as Hn. unfold mbind' at 1. destruct (get_nonce ca online w) as [[nonce|e|] w1];
    destruct Hn as (Ha & Hst & Hp & Hc & Hpn & Hl); [|destruct Hl as (l & Hs & Hg & Hl); split_and!; try done; by exists l|done].
  destruct Hl as (d & r & Hd & Hr & Hl).
  assert (Hlog : signed_log b w [(Head (new_nonce d), Some r)]) by (eapply log_nonce; [done|constructor]).
  assert (Hgo : Forall (goes_to url) [(Head (new_nonce d), Some r)]) by by repeat constructor.
  pose proof (header_spec k nonce url b w1) as Hh. unfold mbind' at 1.
  destruct (request_header k nonce url b w1) as [[h|e|] w2]; destruct Hh as (-> & Hpn2 & Hh);
    [|split_and!; try done; by exists [(Head (new_nonce d), Some r)]|done].
  destruct (Hh h eq_refl) as (field & -> & Hf). unfold mbind' at 1, draw at 1. unfold mbind' at 1, lift at 1.
  destruct (ec_sign _ k _) as [sig|] eqn:Es; cbn [ok_or]; [|split_and!; try done; by exists [(Head (new_nonce d), Some r)]].
  unfold exchange. destruct (ca _ _ _ _) as [o s]. cbn [storage pending_challenges clock exchanges directory key_pair account_url].
  split_and!; try done; [by destruct o|]. eexists. rewrite Hl, <- app_assoc. split; [reflexivity|]. split_and!; [|by repeat constructor|].
  - eapply log_post; [done|done| |constructor]. destruct Ha as (_ & _ & Hu). rewrite Hu in Hf.
    exists k, field, (rng w1), sig. split_and!; done.
  - intros r' Hr'. destruct o as [r0|]; [|done]. injection Hr' as <-. exists [(Head (new_nonce d), Some r)]. eexists. split; [reflexivity|done].
Qed.

(** The account stays and only signed requests are sent. *)
Definition keeps (w w' : client) : Prop := same_account w w' /\ exists l, exchanges w' = exchanges w ++ l /\ signed_log false w l.
Definition keeping {A} (m : M A) : Prop := forall w, keeps w (m w).2.

#[local] Instance keeps_preorder : PreOrder keeps.
Proof.
  split.
  - intros w. split; [done|]. exists []. rewrite app_nil_r. split; [done|constructor].
  - intros w1 w2 w3 [Ha (l1 & H1 & L1)] [Hb (l2 & H2 & L2)]. split.
    + destruct Ha as (? & ? & ?), Hb as (? & ? & ?). split_and!; congruence.
    + exists (l1 ++ l2). rewrite H2, H1, app_assoc. split; [done|]. apply signed_log_app; [done|]. destruct Ha as (? & ? & ?). by eapply signed_log_same.
Qed.
Lemma keeping_bind {A B} (m : M A) (k : A -> M B) : keeping m -> (forall x, keeping (k x)) -> keeping (mbind' m k).
Proof.
  intros Hm Hk w. specialize (Hm w). unfold mbind'. destruct (m w) as [[x|e|] w1]; cbn [snd] in *; [|done|done].
  etransitivity; [exact Hm|apply Hk].
Qed.
Lemma keeping_still {A} (m : M A) : (forall w, same_account w (m w).2 /\ exchanges (m w).2 = exchanges w) -> keeping m.
Proof. intros H w. destruct (H w) as [Ha He]. split; [done|]. exists []. rewrite app_nil_r. split; [done|constructor]. Qed.
Lemma keeping_signed url p : keeping (signed_request url p false).
Proof.
  intros w. pose proof (signed_spec url p false w) as H. destruct (signed_request url p false w) as [o w'].
  destruct H as (Ha & _ & _ & _ & _ & l & Hl & Hs & _). split; [done|]. by exists l.
Qed.
Ltac keep :=
  repeat first
    [ apply keeping_signed
    | apply keeping_still; intros ?; by repeat split
    | apply keeping_bind; [|intros ?] | case_match | case_bool_decide ].

Lemma keeping_poll {A B} n url (parse : string -> option A) (judge : A -> option (result unit B)) : keeping (poll ca online n url parse judge).
Proof. induction n as [|n IH]; cbn [poll]; keep. exact IH. Qed.
Lemma keeping_authorization u : keeping (process_authorization ca online u).
Proof.
  unfold process_authorization. apply keeping_bind; [apply keeping_signed|intros r]. apply keeping_bind; [keep|intros authz].
  case_bool_decide; [keep|]. apply keeping_bind; [keep|intros c]. case_bool_decide; [keep|].
  apply keeping_bind; [unfold get_key_authorization; keep|intros auth]. apply keeping_bind; [keep|intros _].
  apply keeping_bind; [apply keeping_signed|intros _]. apply keeping_bind; [apply keeping_poll|intros _; keep].
Qed.
Lemma keeping_authorizations us : keeping (process_authorizations ca online us).
Proof. induction us as [|u us IH]; cbn [process_authorizations]; [keep|]. apply keeping_bind; [apply keeping_authorization|intros _; exact IH]. Qed.
Lemma keeping_store c : keeping (on_storage (CA := CA) save_ok (store_certificate to_json c)).
Proof. apply keeping_still. intros w. unfold on_storage. by destruct (store_certificate _ _ _ _). Qed.
Lemma keeping_wait {A B} (c : bool) (m : M B) url (parse : string -> option A) judge : keeping m ->
  keeping (if c then m else poll ca online 30 url parse judge).
Proof. destruct c; [done|]. intros _. apply keeping_poll. Qed.
Lemma keeping_csr ds : keeping (generate_csr (CA := CA) ds).
Proof. unfold generate_csr. keep. Qed.
Lemma keeping_complete ds url order : keeping (complete_order ca online save_ok to_json ds url order).
Proof.
  unfold complete_order. apply keeping_bind; [apply keeping_authorizations|intros _].
  apply keeping_bind; [apply keeping_wait; keep|intros order']. apply keeping_bind; [apply keeping_csr|intros kc].
  apply keeping_bind; [apply keeping_signed|intros _]. apply keeping_bind; [apply keeping_wait; keep|intros order''].
  apply keeping_bind; [keep|intros cert_url]. apply keeping_bind; [apply keeping_signed|intros r].
  apply keeping_bind; [keep|intros dates]. apply keeping_bind; [destruct ds; keep|intros stored].
  apply keeping_bind; [apply keeping_store|intros _; keep].
Qed.
Lemma keeping_order ds : keeping (order_certificate ds).
Proof.
  unfold Acme.order_certificate. apply keeping_bind; [keep|intros d]. apply keeping_bind; [apply keeping_signed|intros r].
  apply keeping_bind; [keep|intros order]. apply keeping_complete.
Qed.

(** *** The account *)
(** What [create_account] sends: a signed request for the new account with the key
    that the client has from then on. *)
Lemma create_account_log email w res w' : create_account ca online save_ok to_json email w = (res, w') ->
  exists l, exchanges w' = exchanges w ++ l /\ directory w' = directory w /\ signed_log true w' l /\
    (l = [] \/ exists d, directory w = Some d /\ Forall (goes_to (new_account d)) l).
Proof.
  assert (Hnil : forall w1 : client, exchanges w1 = exchanges w -> directory w1 = directory w ->
    exists l, exchanges w1 = exchanges w ++ l /\ directory w1 = directory w /\ signed_log true w1 l /\
      (l = [] \/ exists d, directory w = Some d /\ Forall (goes_to (new_account d)) l)).
  { intros w1 He Hd. exists []. rewrite app_nil_r. split_and!; try done; [constructor|by left]. }
  unfold create_account. unfold mbind' at 1, need. destruct (directory w) as [d|] eqn:Ed; cbn [ok_or]; [|intros [= <- <-]; by apply Hnil].
  set (m := generate_account_key). assert (Hm : forall w, exchanges (m w).2 = exchanges w /\ directory (m w).2 = directory w).
  { intros w0. unfold m, generate_account_key, mbind', draw, lift, mret'. repeat case_match; simplify_eq/=; done. }
  specialize (Hm w). unfold mbind' at 1. destruct (m w) as [[pk|e|] w1]; cbn [snd] in Hm; destruct Hm as [He Hd]; rewrite Ed in Hd;
    [|intros [= <- <-]; by apply Hnil..].
  unfold mbind' at 1. destruct (set_key pk.2 w1) as [x w2] eqn:E2. injection E2 as <- <-. set (w2 := {| storage := _ |}).
  match goal with |- context [mbind' (signed_request _ ?p true) _ w2] =>
    pose proof (signed_spec (new_account d) p true w2) as Hs; unfold mbind' at 1; destruct (signed_request (new_account d) p true w2) as [o w3] end.
  destruct Hs as ((Ha1 & Ha2 & _) & _ & _ & _ & _ & l & Hl & Hsig & Hgo & _).
  assert (Hw3 : forall w4, exchanges w4 = exchanges w3 -> directory w4 = directory w3 -> key_pair w4 = key_pair w3 ->
    exists l, exchanges w4 = exchanges w ++ l /\ directory w4 = Some d /\ signed_log true w4 l /\
     (l = [] \/ exists d', Some d = Some d' /\ Forall (goes_to (new_account d')) l)).
  { intros w4 X4 D4 K4. exists l. rewrite X4, D4, Hl. cbn [exchanges w2]. split_and!; [by rewrite He|rewrite Ha1; cbn; congruence| |right; by exists d].
    apply (signed_log_same true w4 w2); [congruence..|done|done]. }
  destruct o as [r|e|]; [|intros [= <- <-]; by apply Hw3..]. unfold mbind', lift, set_url, on_storage.
  destruct (location r) as [u|]; cbn [ok_or]; [|intros [= <- <-]; by apply Hw3].
  destruct (set_account _ _ _ _) as [ok st]. intros [= <- <-]. by apply Hw3.
Qed.

(** C16. Every request the client posts is authentic and fresh, whatever the
    authority answers. In an order each posted request is signed with the
    account's key over its header and payload, and its header names the URL it
    goes to, the account by its URL, and the nonce that the authority gave in
    answer to the request just before, which was sent for this one alone. When the
    client starts it posts only if no account is stored, only to the address for
    new accounts, and signs in the same way with the key it then has, which the
    header carries in place of the account's URL. *)
Theorem acme_requests_signed directory_url email ds (w : client) :
  (exists l, exchanges (order_certificate ds w).2 = exchanges w ++ l /\ signed_log false w l) /\
  let w' := (init ca online save_ok to_json directory_url email w).2 in
  exists o l, exchanges w' = exchanges w ++ (Get directory_url, o) :: l /\ signed_log true w' l /\
    (l = [] \/ get_account (storage w) = None /\ exists d, directory w' = Some d /\ Forall (goes_to (new_account d)) l).
Proof.
  split; [by destruct (keeping_order ds w) as [_ H]|]. cbn zeta.
  destruct (init ca online save_ok to_json directory_url email w) as [res w'] eqn:E. cbn [snd]. revert E.
  unfold init. unfold mbind' at 1, exchange. destruct (ca _ _ _ _) as [o s].
  assert (Hnil : forall w1 : client, exchanges w1 = exchanges w ++ [(Get directory_url, o)] ->
    exists o' l, exchanges w1 = exchanges w ++ (Get directory_url, o') :: l /\ signed_log true w1 l /\
    (l = [] \/ get_account (storage w) = None /\ exists d, directory w1 = Some d /\ Forall (goes_to (new_account d)) l)).
  { intros w1 H1. exists o, []. split_and!; [done|constructor|by left]. }
  destruct o as [r|]; cbn [ok_or]; [|intros [= <- <-]; by apply Hnil].
  unfold mbind' at 1, lift at 1. destruct (parse_directory (rp_body r)) as [d|]; cbn [ok_or]; [|intros [= <- <-]; by apply Hnil].
  unfold mbind' at 1, set_directory, mbind' at 1, gets. cbn [storage]. destruct (get_account (storage w)) as [a|] eqn:Ea.
  - unfold mbind', set_url, lift, set_key. destruct (load_key_pair _); cbn [ok_or]; intros [= <- <-]; by apply Hnil.
  - intros (l & He & Hd & Hs & Hl)%create_account_log. exists (Some r), l. cbn [exchanges directory] in *.
    split_and!; [by rewrite He, <- app_assoc|done|]. destruct Hl as [->|(d' & [= <-] & Hg)]; [by left|right]. split; [done|]. by exists d.
Qed.

(** C25. An order ends. Whatever the authority answers, an order takes at most two
    minutes of waiting and one more for each authorization the authority asks
    for, and sends at most 126 requests and 64 more for each authorization. *)
Theorem acme_order_bounded ds (w : client) n :
  let w' := (order_certificate ds w).2 in
  (forall q r o, (q, Some r) ∈ exchanges w' -> parse_order (rp_body r) = Some o -> (length (o_authorizations o) <= n)%nat) ->
  (length (exchanges w') <= length (exchanges w) + 126 + 64 * n)%nat /\ clock w' <= clock w + 120 + 60 * Z.of_nat n.
Proof.
  cbn zeta. destruct (order_certificate ds w) as [o w'] eqn:E. cbn [snd]. intros Hb. revert E.
  unfold Acme.order_certificate, mbind' at 1, need at 1. destruct (directory w) as [d|]; cbn [ok_or]; [|intros [= <- <-]; lia].
  pose proof (signed_spec (new_order d) (Some (order_payload ds)) false w) as Hs.
  pose proof (costs_signed (new_order d) (Some (order_payload ds)) false w) as (l0 & Hl0 & Hn0 & Ht0).
  unfold mbind' at 1. destruct (signed_request (new_order d) (Some (order_payload ds)) false w) as [[r|e|] w1]; cbn [snd] in *.
  2, 3: intros [= <- <-]; rewrite Hl0, length_app; lia.
  destruct Hs as (_ & _ & _ & _ & _ & l & Hl & _ & _ & Hr). destruct (Hr r eq_refl) as (l' & body & -> & _).
  unfold mbind' at 1, lift at 1. destruct (parse_order (rp_body r)) as [order|] eqn:Ep; cbn [ok_or snd].
  2: intros [= <- <-]; rewrite Hl0, length_app; lia.
  destruct (costs_complete ds (default "" (location r)) order w1) as (l2 & Hl2 & Hn2 & Ht2).
  intros E. rewrite E in Hl2, Ht2. cbn [snd] in *.
  assert (Hn : (length (o_authorizations order) <= n)%nat).
  { apply (Hb (Post (new_order d) body) r); [|done]. rewrite Hl2, Hl. rewrite !elem_of_app. left. right. right. by left. }
  rewrite Hl2, Hl0, !length_app. lia.
Qed.

(** *** What a successful order leaves *)
(** Neither the storage nor the pending challenges change. *)
Definition quiet {A} (m : M A) : Prop := forall w, storage (m w).2 = storage w /\ pending_challenges (m w).2 = pending_challenges w.
Lemma quiet_bind {A B} (m : M A) (k : A -> M B) : quiet m -> (forall x, quiet (k x)) -> quiet (mbind' m k).
Proof.
  intros Hm Hk w. destruct (Hm w) as [H1 H2]. unfold mbind'. destruct (m w) as [[x|e|] w1]; cbn [snd] in *; [|done|done].
  destruct (Hk x w1) as [H3 H4]. by rewrite H3, H4.
Qed.
Lemma quiet_signed url p b : quiet (signed_request url p b).
Proof.
  intros w. pose proof (signed_spec url p b w) as H. destruct (signed_request url p b w) as [o w'].
  destruct H as (_ & Hs & Hp & _). done.
Qed.
Lemma quiet_poll {A B} n url (parse : string -> option A) (judge : A -> option (result unit B)) : quiet (poll ca online n url parse judge).
Proof.
  induction n as [|n IH]; cbn [poll]; [by split|]. apply quiet_bind; [by split|intros _]. apply quiet_bind; [apply quiet_signed|intros r].
  apply quiet_bind; [by split|intros x]. by destruct (judge x).
Qed.
Lemma quiet_key t : quiet (get_key_authorization (CA := CA) t).
Proof. do 2 (apply quiet_bind; [by split|intros ?]). by split. Qed.
Lemma quiet_wait {A B} (c : bool) (m : M B) url (parse : string -> option A) judge : quiet m ->
  quiet (if c then m else poll ca online 30 url parse judge).
Proof. destruct c; [done|]. intros _. apply quiet_poll. Qed.
Lemma quiet_ok {A} (m : M A) w x w' : quiet m -> m w = (Ok x, w') -> storage w' = storage w /\ pending_challenges w' = pending_challenges w.
Proof. intros Hm H. specialize (Hm w). by rewrite H in Hm. Qed.

Lemma authorization_ok u w w' : process_authorization ca online u w = (Ok tt, w') ->
  storage w' = storage w /\ pending_challenges w' ⊆ pending_challenges w.
Proof.
  intros H. apply bind_returns in H as (r & w1 & H1 & H). apply quiet_ok in H1 as [S1 P1]; [|apply quiet_signed].
  apply bind_returns in H as (authz & w2 & H2 & H). apply quiet_ok in H2 as [S2 P2]; [|by split]. rewrite <- S1, <- P1, <- S2, <- P2. clear -H.
  case_bool_decide; [by injection H as <-|]. apply bind_returns in H as (c & w3 & H3 & H). apply quiet_ok in H3 as [S3 P3]; [|by split].
  rewrite <- S3, <- P3. clear -H. case_bool_decide; [by injection H as <-|].
  apply bind_returns in H as (auth & w4 & H4 & H). apply quiet_ok in H4 as [S4 P4]; [|apply quiet_key]. rewrite <- S4, <- P4. clear -H.
  apply bind_returns in H as (t & w5 & [= _ <-] & H). apply bind_returns in H as (r & w6 & H6 & H). apply quiet_ok in H6 as [S6 P6]; [|apply quiet_signed].
  apply bind_returns in H as (? & w7 & H7 & H). apply quiet_ok in H7 as [S7 P7]; [|apply quiet_poll]. injection H as <-.
  cbn [storage pending_challenges] in *. split; [congruence|]. rewrite P7, P6. rewrite delete_insert_eq. apply delete_subseteq.
Qed.
Lemma authorizations_ok us : forall w w', process_authorizations ca online us w = (Ok tt, w') ->
  storage w' = storage w /\ pending_challenges w' ⊆ pending_challenges w.
Proof.
  induction us as [|u us IH]; intros w w' H; [by injection H as <-|]. cbn [process_authorizations] in H.
  apply bind_returns in H as ([] & w1 & H1 & H). apply authorization_ok in H1 as [S1 P1]. apply IH in H as [S2 P2]. split; [congruence|].
  by etransitivity.
Qed.

(** What a request for a certificate has to say. *)
Definition requests (csr : string) (key : KeyPair) (ds : list string) : Prop :=
  short (String.length csr) -> exists c, read_csr csr = Some c /\ csr_key c = public_key key /\ csr_names c = ds /\ head ds = Some (csr_cn c) /\
    exists rd, ec_sign rd key (csr_signed c) = Some (csr_signature c).

Lemma generate_ok ds w kc w' : generate_csr (CA := CA) ds w = (Ok kc, w') ->
  storage w' = storage w /\ pending_challenges w' = pending_challenges w /\ exists pkcs8 key,
    pem_decode "PRIVATE KEY" kc.1 = Some pkcs8 /\ from_pkcs8 pkcs8 = Some key /\ requests kc.2 key ds.
Proof.
  unfold generate_csr. intros H. apply bind_returns in H as (rd & w1 & [= <- <-] & H). apply bind_returns in H as (pkcs8 & w2 & H2 & H).
  unfold lift in H2. destruct (generate_pkcs8 _) as [p8|]; [|done]. injection H2 as -> <-.
  apply bind_returns in H as (key & w3 & H3 & H). unfold lift in H3. destruct (from_pkcs8 pkcs8) as [k|] eqn:Ek; [|done]. injection H3 as -> <-.
  apply bind_returns in H as (rd' & w4 & [= <- <-] & H). apply bind_returns in H as (csr & w5 & H5 & H).
  apply pair_equal_spec in H5 as [Hb <-]. apply pair_equal_spec in H as [<-%ok_inj <-]. cbn [storage pending_challenges fst snd]. split_and!; [done|done|].
  exists pkcs8, key. split_and!; [by apply pem_decode_encode|done|]. intros Hs. destruct ds as [|cn ds]; [done|].
  destruct (build_csr_reads _ _ _ _ _ Hb Hs) as (sg & Hsg & Hr). eexists. split; [exact Hr|].
  cbn [csr_key csr_names csr_cn csr_signed csr_signature head]. split_and!; [reflexivity..|]. eexists. exact Hsg.
Qed.

Lemma log_grows {A} (m : M A) w x w' e : keeping m -> m w = (Ok x, w') -> e ∈ exchanges w -> e ∈ exchanges w'.
Proof. intros Hm H He. destruct (Hm w) as [_ (l & Hl & _)]. rewrite H in Hl. cbn in Hl. rewrite Hl. apply elem_of_app. by left. Qed.

Lemma signed_ok url p b w r w' : signed_request url p b w = (Ok r, w') ->
  storage w' = storage w /\ pending_challenges w' = pending_challenges w /\ clock w' = clock w /\
  exists l body, exchanges w' = l ++ [(Post url body, Some r)] /\ payload body = match p with Some j => b64url (json_text j) | None => "" end.
Proof.
  intros H. pose proof (signed_spec url p b w) as Hs. rewrite H in Hs. destruct Hs as (_ & Hst & Hp & Hc & _ & l & Hl & _ & _ & Hr).
  destruct (Hr r eq_refl) as (l' & body & -> & Hb). split_and!; try done. exists (exchanges w ++ l'), body. by rewrite Hl, app_assoc.
Qed.

(** C24. A successful order gives a usable certificate. Its text is the body of the
    authority's last reply; it is stored under the first of the ordered domains
    and names all of them; the private key stored with it is a key whose
    certificate request, with exactly these domains, was sent to the authority;
    all challenges of the order are withdrawn; nothing else of the storage
    changes. *)
Theorem acme_order_sound ds (w : client) c w' : order_certificate ds w = (Ok c, w') ->
  domains c = ds /\ head ds = Some (domain c) /\ storage w' = (store_certificate to_json c true (storage w)).2 /\
  pending_challenges w' ⊆ pending_challenges w /\ not_after c = clock w' + 7776000 /\
  (exists l url body r, exchanges w' = l ++ [(Post url body, Some r)] /\ payload body = "" /\ certificate_pem c = rp_body r) /\
  exists pkcs8 key csr url body r, pem_decode "PRIVATE KEY" (private_key_pem c) = Some pkcs8 /\ from_pkcs8 pkcs8 = Some key /\
    requests csr key ds /\ (Post url body, r) ∈ exchanges w' /\ payload body = b64url (json_text (JObj [("csr", JStr (b64url csr))])).
Proof.
  intros H. apply bind_returns in H as (d & w1 & H1 & H). apply quiet_ok in H1 as [S1 P1]; [|by split].
  apply bind_returns in H as (r & w2 & (S2 & P2 & _ & _)%signed_ok & H). apply bind_returns in H as (order & w3 & H3 & H). apply quiet_ok in H3 as [S3 P3]; [|by split].
  apply bind_returns in H as ([] & w4 & (S4 & P4)%authorizations_ok & H).
  apply bind_returns in H as (order' & w5 & H5 & H). apply quiet_ok in H5 as [S5 P5]; [|apply quiet_wait; by split].
  apply bind_returns in H as (kc & w6 & (S6 & P6 & pkcs8 & key & Hpem & Hkey & Hcsr)%generate_ok & H).
  apply bind_returns in H as (r2 & w7 & (S7 & P7 & _ & l7 & body7 & L7 & B7)%signed_ok & H).
  assert (Hin : (Post (o_finalize order') body7, Some r2) ∈ exchanges w7) by (rewrite L7; apply elem_of_app; right; by left).
  apply bind_returns in H as (order'' & w8 & H8 & H). assert (Q8 := H8). apply quiet_ok in Q8 as [S8 P8]; [|apply quiet_wait; by split].
  assert (Hin8 := log_grows _ _ _ _ _ (keeping_wait _ _ _ _ _ (keeping_still (mret' order') ltac:(by repeat split))) H8 Hin).
  apply bind_returns in H as (cert_url & w9 & H9 & H). unfold lift in H9. destruct (o_certificate order''); [|done]. injection H9 as _ <-.
  apply bind_returns in H as (r3 & w10 & H10 & H). assert (Hin10 := log_grows _ _ _ _ _ (keeping_signed _ _) H10 Hin8).
  apply signed_ok in H10 as (S10 & P10 & _ & l10 & body10 & L10 & B10).
  apply bind_returns in H as (dates & w11 & [= <- <-] & H). apply bind_returns in H as (stored & w12 & H12 & H).
  destruct ds as [|p ds]; [done|]. injection H12 as <- <-. apply bind_returns in H as ([] & w13 & H13 & H). injection H as <- <-.
  unfold on_storage in H13. destruct (save_ok (clock w10)) eqn:Esave; [|done]. injection H13 as <-.
  cbn [domains domain not_after certificate_pem private_key_pem storage pending_challenges exchanges clock]. split_and!; try done.
  - cbn. by rewrite S10, S8, S7, S6, S5, S4, S3, S2, S1.
  - rewrite P10, P8, P7, P6, P5. etransitivity; [exact P4|]. by rewrite P3, P2, P1.
  - by exists l10, cert_url, body10, r3.
  - exists pkcs8, key, kc.2. eexists _, body7, _. by split_and!.
Qed.
End AnyAuthority.

(** ** Challenges are served while the authority may check them *)
(** An authority together with a record of what the proxy served at the time of each
    request. *)
Definition seen : Type := acme_request * option acme_response * (string -> option challenge_reply).
Definition watched {CA} (ca : Z -> (string -> option challenge_reply) -> acme_request -> CA -> option acme_response * CA)
    (now : Z) (served : string -> option challenge_reply) (q : acme_request) (s : CA * list seen) : option acme_response * (CA * list seen) :=
  let '(o, s') := ca now served q s.1 in (o, (s', s.2 ++ [(q, o, served)])).

Section Served.
Context `{AL : AcmeLib} {CA : Type}.
Context (ca : Z -> (string -> option challenge_reply) -> acme_request -> CA -> option acme_response * CA).
#[local] Abbreviation M := (M (CA := CA * list seen)).
#[local] Abbreviation client := (client (CA := CA * list seen)).
#[local] Abbreviation seen_by w := (authority (w : client)).2.

(** The thumbprint of a key, RFC 7638. *)
Definition thumbprint_of (k : KeyPair) : option string := jwk ← get_jwk k; Some (b64url (string_of (sha256 (bytes_of (json_text jwk))))).

(** All requests between two states go to [url] and see what the proxy serves in the first;
    account and challenges stay. *)
Definition talks (url : string) (w w' : client) : Prop :=
  same_account w w' /\ pending_challenges w' = pending_challenges w /\
  exists l, seen_by w' = seen_by w ++ l /\ exchanges w' = exchanges w ++ l.*1 /\ Forall (fun e => goes_to url e.1 /\ e.2 = fetch true w) l.
Definition talking {A} (url : string) (m : M A) : Prop := forall w, talks url w (m w).2.

#[local] Instance talks_preorder url : PreOrder (talks url).
Proof.
  split.
  - intros w. split_and!; try done. exists []. cbn. rewrite !app_nil_r. split_and!; [done|done|constructor].
  - intros w1 w2 w3 ((? & ? & ?) & P1 & l1 & E1 & X1 & F1) ((? & ? & ?) & P2 & l2 & E2 & X2 & F2). split_and!; try congruence; [split_and!; congruence|].
    exists (l1 ++ l2). rewrite E2, E1, X2, X1, fmap_app, !app_assoc. split_and!; [done|done|]. apply Forall_app. split; [done|].
    eapply Forall_impl; [exact F2|]. unfold fetch. by rewrite P1.
Qed.
Lemma talking_bind {A B} url (m : M A) (k : A -> M B) : talking url m -> (forall x, talking url (k x)) -> talking url (mbind' m k).
Proof.
  intros Hm Hk w. specialize (Hm w). unfold mbind'. destruct (m w) as [[x|e|] w1]; cbn [snd] in *; [|done|done].
  etransitivity; [exact Hm|apply Hk].
Qed.
Lemma talking_still {A} url (m : M A) :
  (forall w, same_account w (m w).2 /\ pending_challenges (m w).2 = pending_challenges w /\ authority (m w).2 = authority w /\ exchanges (m w).2 = exchanges w) -> talking url m.
Proof. intros H w. destruct (H w) as (Ha & Hp & He & Hx). split_and!; try done. exists []. cbn. rewrite !app_nil_r, He. split_and!; [done|done|constructor]. Qed.
Lemma talking_exchange url q : goes_to url (q, None) -> talking url (exchange (watched ca) true q).
Proof.
  intros Hq w. unfold exchange, watched. destruct (ca _ _ _ _) as [o s]. split_and!; try done. exists [(q, o, fetch true w)]. cbn. split_and!; [done|done|].
  constructor; [|constructor]. done.
Qed.
Ltac talk := repeat first
  [ apply talking_exchange; done | apply talking_still; intros ?; by repeat split
  | apply talking_bind; [|intros ?] | case_match ].
Lemma talking_signed url p : talking url (signed_request (watched ca) true url p false).
Proof. unfold signed_request, get_nonce, request_header. talk. Qed.
Lemma talking_poll {A B} n url (parse : string -> option A) (judge : A -> option (result unit B)) :
  talking url (poll (watched ca) true n url parse judge).
Proof. induction n as [|n IH]; cbn [poll]; [talk|]. apply talking_bind; [talk|intros _]. apply talking_bind; [apply talking_signed|intros r]. talk. exact IH. Qed.

(** A poll that succeeds ends with a reply that says so. *)
Lemma acme_poll_ok {A B} n url (parse : string -> option A) (judge : A -> option (result unit B)) : forall w b w',
  poll (watched ca) true n url parse judge w = (Ok b, w') ->
  exists l body r x, exchanges w' = l ++ [(Post url body, Some r)] /\ parse (rp_body r) = Some x /\ judge x = Some (Ok b).
Proof.
  induction n as [|n IH]; intros w b w' H; [done|]. cbn [poll] in H. apply bind_returns in H as (t & w1 & [= _ <-] & H).
  apply bind_returns in H as (r & w2 & H2 & H). apply signed_ok in H2 as (_ & _ & _ & l & body & Hl & _).
  apply bind_returns in H as (x & w3 & H3 & H). unfold lift in H3. destruct (parse (rp_body r)) as [x'|] eqn:Ep; [|done]. injection H3 as -> <-.
  destruct (judge x) as [res|] eqn:Ej; [|by apply IH in H]. injection H as -> <-. by exists l, body, r, x.
Qed.

(** The part of [process_authorization] that meets a challenge. *)
Definition meet (c : AcmeChallenge) : M unit :=
  mbind' (signed_request (watched ca) true (c_url c) (Some (JObj [])) false) (fun _ => wait_for_challenge_valid (watched ca) true (c_url c)).
Lemma talking_meet c : talking (c_url c) (meet c).
Proof. apply talking_bind; [apply talking_signed|intros _; apply talking_poll]. Qed.
Lemma meet_ok c w x w' : meet c w = (Ok x, w') ->
  exists l body r c', exchanges w' = l ++ [(Post (c_url c) body, Some r)] /\ parse_challenge (rp_body r) = Some c' /\ c_status c' = "valid".
Proof.
  intros H. apply bind_returns in H as (r & w1 & _ & H). apply acme_poll_ok in H as (l & body & r' & c' & Hl & Hp & Hj).
  exists l, body, r', c'. split_and!; try done. by case_bool_decide; [|case_bool_decide].
Qed.

(** The proxy serves the key authorization of a pending token. *)
Lemma fetch_token (w : client) t auth : pending_challenges w !! t = Some {| token := t; key_authorization := auth |} ->
  t <> "" -> starts_with challenge_prefix t = false -> fetch true w (challenge_prefix +:+ t) = Some (Authorization auth).
Proof. intros Hp Hne Hs. unfold fetch. apply challenge_answers; [by rewrite lookup_fmap, Hp|done|done]. Qed.

(** From publishing the challenge on. *)
Lemma serve_spec c auth w o w' :
  mbind' (set_pending (fun m => <[c_token c := {| token := c_token c; key_authorization := auth |}]> m)) (fun _ =>
    mbind' (signed_request (watched ca) true (c_url c) (Some (JObj [])) false) (fun _ =>
      mbind' (wait_for_challenge_valid (watched ca) true (c_url c)) (fun _ => set_pending (fun m => delete (c_token c) m)))) w = (o, w') ->
  exists rest, seen_by w' = seen_by w ++ rest /\ exchanges w' = exchanges w ++ rest.*1 /\ Forall (fun e => goes_to (c_url c) e.1) rest /\
  (c_token c <> "" -> starts_with challenge_prefix (c_token c) = false ->
   Forall (fun e => e.2 (challenge_prefix +:+ c_token c) = Some (Authorization auth)) rest) /\
  (o = Ok tt -> pending_challenges w' = delete (c_token c) (pending_challenges w) /\
     exists l body r c', exchanges w' = l ++ [(Post (c_url c) body, Some r)] /\ parse_challenge (rp_body r) = Some c' /\ c_status c' = "valid").
Proof.
  unfold mbind' at 1, set_pending at 1. set (w1 := {| storage := storage w; pending_challenges := _ |}). intros E.
  assert (E' : mbind' (meet c) (fun _ => set_pending (fun m => delete (c_token c) m)) w1 = (o, w')).
  { rewrite <- E. unfold meet, mbind'. by destruct (signed_request _ _ _ _ _ w1) as [[]]. }
  clear E. pose proof (talking_meet c w1) as (_ & Hp & l & Hl & Hx & Fl). unfold mbind' in E'.
  assert (Hend : seen_by w' = seen_by (meet c w1).2 /\ exchanges w' = exchanges (meet c w1).2).
  { destruct (meet c w1) as [[x|e|] w2]; injection E' as <- <-; done. }
  exists l. destruct Hend as [-> Hxx]. rewrite Hxx, Hl, Hx. split_and!; [done|done| | |].
  - eapply Forall_impl; [exact Fl|]. by intros ? [? _].
  - intros Hne Hs. eapply Forall_impl; [exact Fl|]. intros e [_ ->]. apply fetch_token; [|done|done]. apply lookup_insert_eq.
  - intros ->. rewrite <- Hx. destruct (meet c w1) as [[x|e|] w2] eqn:Em; [|done|done]. injection E' as <-. cbn [snd] in *. split; [|by eapply meet_ok].
    cbn [pending_challenges]. rewrite Hp. cbn [pending_challenges w1]. apply delete_insert_eq.
Qed.

End Served.

(** ** An example authority *)
(** What it asks for: for each authorization its URL, the URL and token of the
    HTTP-01 challenge, and the number of polls until it checks the challenge. *)
Record authz := { az_url : string; az_name : string; ch_url : string; ch_token : string; ch_delay : nat }.
Record authority_plan := {
  plan_dir : AcmeDirectory;
  plan_auths : list authz;
  order_at : string;
  finalize_at : string;
  cert_at : string;
  issue_delay : nat;
  cert_text : string;
}.
Record ca_state := {
  validated : gset string; (* challenges that passed *)
  polls : gmap string nat; (* polls of challenges the client said are ready *)
  finalized : option nat; (* polls since a request was accepted *)
}.

(** Printing of replies. The example serves runs of the client on concrete input: it
    looks neither at signatures nor at the contents of orders. *)
Class AcmeReplies `{AcmeLib} := {
  print_order : AcmeOrder -> string;
  print_authorization : AcmeAuthorization -> string;
  print_challenge : AcmeChallenge -> string;
}.
Section Authority.
Context `{AR : AcmeReplies} (plan : authority_plan).
(** The thumbprint of the account's key, which the authority knows. *)
Context (thumbprint : string).

Definition reply (l : option string) (b : string) : option acme_response := Some {| location := l; replay_nonce := Some "nonce"; rp_body := b |}.
Definition all_valid (s : ca_state) : bool := forallb (fun a => bool_decide (ch_url a ∈ validated s)) (plan_auths plan).
Definition order_now (s : ca_state) : AcmeOrder :=
  {| o_status := match finalized s with
       | Some n => if (n <? issue_delay plan)%nat then "processing" else "valid"
       | None => if all_valid s then "ready" else "pending" end;
     o_expires := None; o_identifiers := (fun a => {| id_type := "dns"; id_value := az_name a |}) <$> plan_auths plan;
     o_authorizations := az_url <$> plan_auths plan; o_finalize := finalize_at plan;
     o_certificate := match finalized s with Some n => if (n <? issue_delay plan)%nat then None else Some (cert_at plan) | None => None end |}.
Definition challenge_now (st : string) (a : authz) : AcmeChallenge :=
  {| challenge_type := "http-01"; c_url := ch_url a; c_token := ch_token a; c_status := st |}.
Definition authz_now (a : authz) (s : ca_state) : AcmeAuthorization :=
  {| identifier := {| id_type := "dns"; id_value := az_name a |};
     a_status := if bool_decide (ch_url a ∈ validated s) then "valid" else "pending";
     challenges := [{| challenge_type := "dns-01"; c_url := "dns"; c_token := ch_token a; c_status := "pending" |}; challenge_now "pending" a] |}.

(** The check of RFC 8555, section 8.3: the body served under the token is the
    key authorization. *)
Definition challenge_passes (fetch : string -> option challenge_reply) (a : authz) : bool :=
  match fetch (challenge_prefix +:+ ch_token a) with
  | Some (Authorization text) => bool_decide (text = ch_token a +:+ "." +:+ thumbprint)
  | _ => false
  end.
(** The client says a challenge is ready with a payload, and polls it without. *)
Definition on_challenge (fetch : string -> option challenge_reply) (a : authz) (body : Jws) (s : ca_state) : option acme_response * ca_state :=
  if bool_decide (payload body = "") then
    match polls s !! ch_url a with
    | Some n =>
        if (n <? ch_delay a)%nat then
          (reply None (print_challenge (challenge_now "processing" a)),
           {| validated := validated s; polls := <[ch_url a := S n]> (polls s); finalized := finalized s |})
        else if challenge_passes fetch a then
          (reply None (print_challenge (challenge_now "valid" a)),
           {| validated := {[ch_url a]} ∪ validated s; polls := polls s; finalized := finalized s |})
        else (reply None (print_challenge (challenge_now "invalid" a)), s)
    | None => (reply None (print_challenge (challenge_now "pending" a)), s)
    end
  else
    (reply None (print_challenge (challenge_now "pending" a)),
     {| validated := validated s; polls := <[ch_url a := O]> (polls s); finalized := finalized s |}).

Definition authority_step (now : Z) (fetch : string -> option challenge_reply) (q : acme_request) (s : ca_state) : option acme_response * ca_state :=
  match q with
  | Head _ => (reply None "", s)
  | Get _ => (None, s)
  | Post u body =>
      if bool_decide (u = new_order (plan_dir plan)) then (reply (Some (order_at plan)) (print_order (order_now s)), s)
      else if bool_decide (u = order_at plan) then
        (reply None (print_order (order_now s)),
         {| validated := validated s; polls := polls s; finalized := S <$> finalized s |})
      else if bool_decide (u = finalize_at plan) then
        (reply None "", {| validated := validated s; polls := polls s; finalized := if all_valid s then Some O else None |})
      else if bool_decide (u = cert_at plan) then (reply None (cert_text plan), s)
      else
        match List.find (fun a => bool_decide (az_url a = u)) (plan_auths plan) with
        | Some a => (reply None (print_authorization (authz_now a s)), s)
        | None =>
            match List.find (fun a => bool_decide (ch_url a = u)) (plan_auths plan) with
            | Some a => on_challenge fetch a body s
            | None => (None, s)
            end
        end
  end.
End Authority.

(** ** A concrete exchange *)
Definition identifier_tuple (i : AcmeIdentifier) : string * string := (id_type i, id_value i).
Definition challenge_tuple (c : AcmeChallenge) : string * string * string * string := (challenge_type c, c_url c, c_token c, c_status c).
Definition order_tuple (o : AcmeOrder) : string * option string * list (string * string) * list string * string * option string :=
  (o_status o, o_expires o, identifier_tuple <$> o_identifiers o, o_authorizations o, o_finalize o, o_certificate o).
Definition authorization_tuple (a : AcmeAuthorization) : string * string * string * list (string * string * string * string) :=
  (identifier_tuple (identifier a), a_status a, challenge_tuple <$> challenges a).
Definition identifier_of (t : string * string) : AcmeIdentifier := {| id_type := t.1; id_value := t.2 |}.
Definition challenge_of (t : string * string * string * string) : AcmeChallenge :=
  {| challenge_type := t.1.1.1; c_url := t.1.1.2; c_token := t.1.2; c_status := t.2 |}.
Definition order_of (t : string * option string * list (string * string) * list string * string * option string) : AcmeOrder :=
  {| o_status := t.1.1.1.1.1; o_expires := t.1.1.1.1.2; o_identifiers := identifier_of <$> t.1.1.1.2; o_authorizations := t.1.1.2;
     o_finalize := t.1.2; o_certificate := t.2 |}.
Definition authorization_of (t : string * string * string * list (string * string * string * string)) : AcmeAuthorization :=
  {| identifier := identifier_of t.1.1; a_status := t.1.2; challenges := challenge_of <$> t.2 |}.

Definition to_text {A} `{Countable A} (x : A) : string := pos_text (encode x).
Definition of_text {A} `{Countable A} (s : string) : option A := decode (text_pos s).
Lemma of_to_text {A} `{Countable A} (x : A) : of_text (to_text x) = Some x.
Proof. unfold of_text, to_text. rewrite text_pos_text. apply decode_encode. Qed.

Definition demo_key : string := String (byte_at 4) "0123456789abcdef0123456789abcdef0123456789abcdef0123456789abcdef".
Definition demo_lib : AcmeLib := {|
  KeyPair := string;
  generate_pkcs8 := fun _ => Some "a new key";
  from_pkcs8 := Some;
  public_key := fun k => k;
  ec_sign := fun _ k m => Some "signature";
  pkcs8_of_pem := pem_decode "PRIVATE KEY";
  json_text := fun j => "{}";
  parse_directory := fun _ => None;
  parse_order := fun s => order_of <$> of_text s;
  parse_authorization := fun s => authorization_of <$> of_text s;
  parse_challenge := fun s => challenge_of <$> of_text s;
|}.
#[local] Existing Instance demo_lib.
#[local] Instance demo_replies : AcmeReplies := {|
  print_order := fun o => to_text (order_tuple o);
  print_authorization := fun a => to_text (authorization_tuple a);
  print_challenge := fun c => to_text (challenge_tuple c);
|}.
Definition demo_plan : authority_plan := {|
  plan_dir := {| new_nonce := "/nonce"; new_account := "/acct"; new_order := "/new"; revoke_cert := None; key_change := None |};
  plan_auths := [{| az_url := "/az"; az_name := "a.test"; ch_url := "/ch"; ch_token := "tok"; ch_delay := 2 |}];
  order_at := "/order"; finalize_at := "/final"; cert_at := "/cert"; issue_delay := 1; cert_text := "the certificate" |}.
Definition demo_thumb : string := default "" (thumbprint_of demo_key).
Definition demo_client : client (CA := ca_state) := {|
  storage := {| data := storage_default; file := None |}; directory := Some (plan_dir demo_plan); key_pair := Some demo_key;
  account_url := Some "/acct/1"; pending_challenges := ∅; authority := {| validated := ∅; polls := ∅; finalized := None |};
  clock := 1000; rng := 0; exchanges := [] |}.
Definition demo_order : result unit StoredCertificate * client (CA := ca_state) :=
  order_certificate (authority_step demo_plan demo_thumb) true (fun _ => true) (fun _ => "") ["a.test"] demo_client.

(** Placed before any entry point listens, as at the start of the program, the same
    order fails at its challenge and stores nothing. *)
Example startup_order_fails :
  let '(o, w') := order_certificate (authority_step demo_plan demo_thumb) false (fun _ => true) (fun _ => "") ["a.test"] demo_client in
  o = Err tt /\ storage w' = storage demo_client.
Proof. vm_compute. split; reflexivity. Qed.

(** The same client with an authority that is watched. *)
Definition demo_watched : client (CA := ca_state * list seen) := {|
  storage := storage demo_client; directory := directory demo_client; key_pair := key_pair demo_client; account_url := account_url demo_client;
  pending_challenges := ∅; authority := (authority demo_client, []); clock := 1000; rng := 0; exchanges := [] |}.

Definition orders_small (n : nat) (e : acme_request * option acme_response) : bool :=
  match e.2 with
  | Some r => match parse_order (rp_body r) with Some o => (length (o_authorizations o) <=? n)%nat | None => true end
  | None => true
  end.
Lemma orders_small_all n l : forallb (orders_small n) l = true ->
  forall q r o, (q, Some r) ∈ l -> parse_order (rp_body r) = Some o -> (length (o_authorizations o) <= n)%nat.
Proof.
  rewrite forallb_forall. intros Hall q r o Hq%list_elem_of_In Ho. specialize (Hall _ Hq). unfold orders_small in Hall. cbn [snd] in Hall.
  rewrite Ho in Hall. by apply Nat.leb_le.
Qed.
Lemma acme_order_bounded_witness :
  (length (exchanges demo_order.2) <= 0 + 126 + 64 * 1)%nat /\ clock demo_order.2 <= 1000 + 120 + 60 * Z.of_nat 1.
Proof.
  apply (acme_order_bounded (authority_step demo_plan demo_thumb) true (fun _ => true) (fun _ => "") ["a.test"] demo_client 1).
  apply orders_small_all. vm_compute. reflexivity.
Defined.

Lemma acme_order_sound_witness : exists c w', demo_order = (Ok c, w') /\ head ["a.test"] = Some (domain c) /\
  pending_challenges w' ⊆ (∅ : gmap string PendingChallenge).
Proof.
  assert (Hok : match demo_order.1 with Ok _ => true | _ => false end = true) by (vm_compute; reflexivity).
  destruct demo_order as [o w'] eqn:E. cbn [fst] in Hok. destruct o as [c| |]; [|discriminate Hok|discriminate Hok]. exists c, w'. split; [reflexivity|].
  destruct (acme_order_sound (authority_step demo_plan demo_thumb) true (fun _ => true) (fun _ => "") ["a.test"] demo_client c w' E)
    as (_ & Hh & _ & Hp & _). split; [exact Hh|exact Hp].
Defined.
