(* ===== verification/Watcher.v ===== *)
(** * The configuration watcher

    Models src/src/config/watcher.rs: the loop that reloads the configuration
    file on notifications of the file system. The file's contents at each
    instant (in milliseconds) and the notifications are inputs; while the watcher
    sleeps notifications queue up. *)
From S2P Require Import Prelude RustStr ConfigTypes ConfigCheck.
From stdpp Require Import list.
Open Scope Z_scope.
Open Scope list_scope.

Inductive EventKind := Modify | Create | Other.
Record Event := { kind : EventKind; paths : list (option string) (* file names *) }.
Inductive notification := Changed (e : Event) | WatchError.

Definition debounce_duration : Z := 200.
Definition write_delay : Z := 100.

Section Watcher.
Context (url_parses : string -> bool) (parse_uri : string -> option (option string * option string)) (from_yaml : string -> option config).
Context (config_filename : string) (contents : Z -> option string).

(** [subscribers]: whether anyone still listens. *)
Record watcher := { last_event : Z; broadcast : list config; running : bool }.
Definition watcher_new (now : Z) : watcher := {| last_event := now; broadcast := []; running := true |}.

Definition is_our_file (e : Event) : bool :=
  existsb (fun p => match p with Some f => bool_decide (f = config_filename) | None => false end) (paths e).
Definition is_change (e : Event) : bool := match kind e with Modify | Create => true | Other => false end.

Definition load_at (t : Z) : result string config := load url_parses parse_uri from_yaml (contents t).

(** One notification that is taken from the queue at [now]; the file is read
    after the delay. *)
Definition watch_step (subscribers : bool) (w : watcher) (now : Z) (n : notification) : watcher :=
  if running w then
    match n with
    | WatchError => w
    | Changed e =>
        if negb (is_change e) then w
        else if negb (is_our_file e) then w
        else if now - last_event w <? debounce_duration then w
        else
          match load_at (now + write_delay) with
          | Ok c =>
              match validate url_parses c with
              | Ok _ => {| last_event := now; broadcast := broadcast w ++ (if subscribers then [c] else []); running := subscribers |}
              | _ => {| last_event := now; broadcast := broadcast w; running := true |}
              end
          | _ => {| last_event := now; broadcast := broadcast w; running := true |}
          end
    end
  else w.
Definition watch_run (subscribers : bool) (ns : list (Z * notification)) (w : watcher) : watcher :=
  foldl (fun w n => watch_step subscribers w n.1 n.2) w ns.

(** ** What subscribers get *)
Definition loaded (c : config) : Prop := exists t, load_at t = Ok c /\ validate url_parses c = Ok tt.

Lemma watch_step_loaded subs w now n : Forall loaded (broadcast w) -> Forall loaded (broadcast (watch_step subs w now n)).
Proof.
  intros Hw. unfold watch_step. destruct (running w); [|done]. destruct n as [e|]; [|done]. destruct (negb (is_change e)); [done|].
  destruct (negb (is_our_file e)); [done|]. destruct (now - last_event w <? debounce_duration); [done|].
  destruct (load_at (now + write_delay)) as [c| |] eqn:El; [|done|done]. destruct (validate url_parses c) as [[]| |] eqn:Ev; [|done|done].
  cbn [broadcast]. apply Forall_app. split; [done|]. destruct subs; constructor; [by exists (now + write_delay)|constructor].
Qed.

(** Reloading. Whatever notifications come and whatever the file holds,
    subscribers get only configurations that were read from the file and
    validated; and a change that is noticed at least 200 ms after the last one
    that was acted upon, of a file that is valid 100 ms later, reaches them. *)
Theorem watcher_reloads ns start now e c :
  let w := watch_run true ns (watcher_new start) in
  Forall loaded (broadcast w) /\
  (is_change e = true -> is_our_file e = true -> last_event w + debounce_duration <= now ->
   load_at (now + write_delay) = Ok c -> validate url_parses c = Ok tt ->
   broadcast (watch_step true w now (Changed e)) = broadcast w ++ [c]).
Proof.
  cbn zeta. assert (Hr : forall ns w, running w = true -> running (watch_run true ns w) = true).
  { clear. induction ns as [|n ns IH]; intros w Hw; [done|]. cbn [watch_run foldl]. apply IH. unfold watch_step. rewrite Hw.
    destruct n.2; [|done]. destruct (negb _); [done|]. destruct (negb _); [done|]. destruct (_ <? _); [done|].
    destruct (load_at _) as [c| |]; [|done|done]. by destruct (validate url_parses c). }
  split.
  - assert (H0 : Forall loaded (broadcast (watcher_new start))) by constructor. revert H0. generalize (watcher_new start).
    induction ns as [|n ns IH]; intros w Hw; [done|]. cbn [watch_run foldl]. apply IH. by apply watch_step_loaded.
  - intros Hc Hf Hd Hl Hv. unfold watch_step. rewrite Hr by done. rewrite Hc, Hf. cbn [negb].
    rewrite (proj2 (Z.ltb_ge _ _)) by lia. by rewrite Hl, Hv.
Qed.
End Watcher.

(** ** Concrete runs *)
Definition demo_yaml (s : string) : option config := if decide (s = "new") then Some (demo_config basic_mw "auth") else Some (demo_config jwt_mw "auth").
Definition our_change : notification := Changed {| kind := Modify; paths := [Some "c.yaml"] |}.
Abbreviation demo_load_at := (load_at (fun _ => true) (fun _ => None) demo_yaml).
Abbreviation demo_watch := (watch_run (fun _ => true) (fun _ => None) demo_yaml "c.yaml").

Lemma watcher_reloads_witness :
  broadcast (watch_step (fun _ => true) (fun _ => None) demo_yaml "c.yaml" (fun _ => Some "new") true (watcher_new 0) 1000 our_change) =
  [pre_parse_uris (fun _ => None) (demo_config basic_mw "auth")].
Proof.
  apply (watcher_reloads (fun _ => true) (fun _ => None) demo_yaml "c.yaml" (fun _ => Some "new") [] 0 1000
    {| kind := Modify; paths := [Some "c.yaml"] |} (pre_parse_uris (fun _ => None) (demo_config basic_mw "auth"))).
  - reflexivity.
  - reflexivity.
  - vm_compute. discriminate.
  - reflexivity.
  - reflexivity.
Defined.

(** A change that is noticed less than 200 ms after another is never read, even
    when the file was written after the reload: the watcher keeps the older
    contents until the next change. *)
Lemma watcher_misses_update :
  let contents t := if t <? 1120 then Some "old" else Some "new" in
  broadcast (demo_watch contents true [(1000, our_change); (1120, our_change)] (watcher_new 0)) = [pre_parse_uris (fun _ => None) (demo_config jwt_mw "auth")] /\
  demo_load_at contents 1120 = Ok (pre_parse_uris (fun _ => None) (demo_config basic_mw "auth")).
Proof. split; reflexivity. Qed.
