(* ===== verification/Extras.v ===== *)
(** * Error pages, buffering, compression and forward authentication

    Models errors.rs, buffering.rs, compress.rs (up to the compressors) and
    forward_auth.rs of src/src/middleware/builtin/, a Module each. The exchange
    with the authentication service is an input. *)
From S2P Require Import Prelude RustStr Rule Net Http Duration ConfigTypes.
From stdpp Require Import list.
Open Scope Z_scope.
Open Scope list_scope.

(** ** Error pages *)
Module Errors.
Inductive StatusRange := Single (s : Z) | Range (lo hi : Z).
Definition matches (r : StatusRange) (status : Z) : bool :=
  match r with Single s => s =? status | Range lo hi => (lo <=? status) && (status <=? hi) end.

(** [parse::<u16>()] *)
Definition parse_u16 (s : string) : option Z :=
  let digits := default s (RustStr.strip_prefix "+" s) in
  if bool_decide (digits = "") || negb (str_forall is_digit digits) then None
  else if dec_scan digits 0 <=? u16_max then Some (dec_scan digits 0) else None.

Definition parse_status_range (s : string) : option StatusRange :=
  let s := trim s in
  if contains "-" s then
    match split_on "-" s with
    | [a; b] =>
        start ← parse_u16 (trim a);
        stop ← parse_u16 (trim b);
        if (start <=? stop) && (100 <=? start) && (stop <=? 599) then Some (Range start stop) else None
    | _ => None
    end
  else
    code ← parse_u16 s;
    if (100 <=? code) && (code <=? 599) then Some (Single code) else None.

Record ErrorsMiddleware := { status_ranges : list StatusRange; service : string; query : string }.
Definition new (c : ErrorsConfig.t) : ErrorsMiddleware :=
  {| status_ranges := omap parse_status_range (ErrorsConfig.status c); service := ErrorsConfig.service c; query := ErrorsConfig.query c |}.
Definition should_intercept (m : ErrorsMiddleware) (status : Z) : bool := existsb (fun r => matches r status) (status_ranges m).

(** [text.replace(from, to)] *)
Fixpoint replace (fuel : nat) (from to text : string) : string :=
  match fuel with
  | O => text
  | S fuel' =>
      match RustStr.strip_prefix from text with
      | Some rest => to +:+ replace fuel' from to rest
      | None => match text with EmptyString => "" | String c rest => String c (replace fuel' from to rest) end
      end
  end.
Definition build_query (m : ErrorsMiddleware) (status : Z) : string :=
  replace (S (String.length (query m))) "{status}" (dec status) (query m).
End Errors.

(** ** Buffering *)
Module Buffering.
Definition t : Type := BufferingConfig.t.
Definition buffer_request (m : t) : bool :=
  negb (BufferingConfig.max_request_body_bytes m =? 0) || (0 <? BufferingConfig.mem_request_body_bytes m).
Definition buffer_response (m : t) : bool :=
  negb (BufferingConfig.max_response_body_bytes m =? 0) || (0 <? BufferingConfig.mem_response_body_bytes m).
Definition request_within_limit (m : t) (size : Z) : bool :=
  (BufferingConfig.max_request_body_bytes m =? 0) || (size <=? BufferingConfig.max_request_body_bytes m).
Definition response_within_limit (m : t) (size : Z) : bool :=
  (BufferingConfig.max_response_body_bytes m =? 0) || (size <=? BufferingConfig.max_response_body_bytes m).
Definition request_fits_in_memory (m : t) (size : Z) : bool :=
  (BufferingConfig.mem_request_body_bytes m =? 0) || (size <=? BufferingConfig.mem_request_body_bytes m).
Definition response_fits_in_memory (m : t) (size : Z) : bool :=
  (BufferingConfig.mem_response_body_bytes m =? 0) || (size <=? BufferingConfig.mem_response_body_bytes m).
End Buffering.

(** ** Compression *)
Module Compress.
Inductive CompressionAlgorithm := Gzip | Brotli | NoCompression.
Section Compress.
Context `{HO : HttpOps}.
(** A window of the header equal to the word up to case. *)
Definition names (word accept : string) : bool := contains word (to_ascii_lowercase accept).
Definition select_algorithm (h : HeaderMap) : CompressionAlgorithm :=
  match header_text h "accept-encoding" with
  | None => NoCompression
  | Some accept => if names "br" accept then Brotli else if names "gzip" accept then Gzip else NoCompression
  end.
Definition should_compress_content_type (h : HeaderMap) : bool :=
  match hm_get h "content-type" with
  | None => true
  | Some v =>
      match hv_to_str v with
      | None => false
      | Some s =>
          let s := to_ascii_lowercase s in
          contains "text/" s || contains "application/json" s || contains "application/xml" s || contains "application/javascript" s ||
          contains "application/xhtml" s || contains "image/svg" s
      end
  end.
Definition is_already_compressed (h : HeaderMap) : bool := bool_decide (is_Some (hm_get h "content-encoding")).
Definition meets_size_threshold (c : CompressConfig.t) (size : option Z) : bool :=
  match size with Some s => CompressConfig.min_response_body_bytes c <=? s | None => true end.
Definition encoding_header (a : CompressionAlgorithm) : option string :=
  match a with Gzip => Some "gzip" | Brotli => Some "br" | NoCompression => None end.
(** The compressors are parameters; [None] is an error. *)
Definition compress (gzip brotli : string -> option string) (data : string) (a : CompressionAlgorithm) : option string :=
  match a with Gzip => gzip data | Brotli => brotli data | NoCompression => Some data end.
End Compress.
End Compress.

(** ** Forward authentication *)
Module ForwardAuth.
Section ForwardAuth.
Context `{HO : HttpOps} `{UL : UriLib} `{IL : IpLib} `{RO : RegexLib}.
(** Iteration over a header map, and the text of a URI. *)
Context (hm_iter : HeaderMap -> list (string * HeaderValue)) (uri_text : Uri -> string).

Record ForwardAuthMiddleware := {
  address : string;
  trust_forward_header : bool;
  auth_response_headers : list string;
  auth_response_headers_regex : option Regex;
  auth_request_headers : list string;
  add_auth_cookies_to_response : list string;
}.
(** [client]: whether the HTTP client can be built. *)
Definition new (client : bool) (c : ForwardAuthConfig.t) : option ForwardAuthMiddleware :=
  if client then
    Some {| address := ForwardAuthConfig.address c;
            trust_forward_header := ForwardAuthConfig.trust_forward_header c;
            auth_response_headers := omap header_name (ForwardAuthConfig.auth_response_headers c);
            auth_response_headers_regex := ForwardAuthConfig.auth_response_headers_regex c ≫= (fun r => match regex_new r with inr re => Some re | inl _ => None end);
            auth_request_headers := omap header_name (ForwardAuthConfig.auth_request_headers c);
            add_auth_cookies_to_response := ForwardAuthConfig.add_auth_cookies_to_response c |}
  else None.

(** The headers of the request to the service, in the order they are added; an
    added header does not replace an earlier one of its name. *)
Definition forward (h : HeaderMap) (name : string) : list (string * string) :=
  match header_text h name with Some v => [(name, v)] | None => [] end.
Definition auth_request (m : ForwardAuthMiddleware) (req : Request) : list (string * string) :=
  let h := rq_headers req in
  forward h "authorization" ++ forward h "cookie" ++
  (auth_request_headers m ≫= forward h) ++
  (if trust_forward_header m then
     hm_iter h ≫= fun nv => if starts_with "x-forwarded-" nv.1 then match hv_to_str nv.2 with Some v => [(nv.1, v)] | None => [] end else []
   else []) ++
  [("x-forwarded-method", rq_method req); ("x-forwarded-uri", uri_text (rq_uri req))] ++
  match header_text h "host" with Some v => [("x-forwarded-host", v)] | None => [] end.

(** The service's answer; [None]: no answer. *)
Record auth_reply := { status : Z; headers : HeaderMap; body : string }.
Record AuthResult := { headers_to_request : HeaderMap; cookies_to_response : list string }.

Definition copy (from : HeaderMap) (to : HeaderMap) (name : string) : HeaderMap :=
  match hm_get from name with Some v => hm_insert name v to | None => to end.
Definition authenticate (m : ForwardAuthMiddleware) (req : Request) (exchange : list (string * string) -> option auth_reply)
    : result (Z * string) AuthResult :=
  match exchange (auth_request m req) with
  | None => Err (500, "Auth service unavailable")
  | Some r =>
      if (200 <=? status r) && (status r <? 300) then
        let fwd := foldl (copy (headers r)) hm_empty (auth_response_headers m) in
        let fwd := match auth_response_headers_regex m with
                   | Some re => foldl (fun h nv => if is_match re nv.1 then hm_insert nv.1 nv.2 h else h) fwd (hm_iter (headers r))
                   | None => fwd
                   end in
        let cookies := add_auth_cookies_to_response m ≫= fun name =>
          match header_text (headers r) "set-cookie" with Some v => if starts_with name v then [v] else [] | None => [] end in
        Ok {| headers_to_request := fwd; cookies_to_response := cookies |}
      else Err (status r, body r)
  end.
End ForwardAuth.
End ForwardAuth.

(** ** Error pages: ranges *)
Definition print_range (r : Errors.StatusRange) : string :=
  match r with Errors.Single s => dec s | Errors.Range lo hi => dec lo +:+ "-" +:+ dec hi end.
Definition range_ok (r : Errors.StatusRange) : bool :=
  match r with
  | Errors.Single s => (100 <=? s) && (s <=? 599)
  | Errors.Range lo hi => (100 <=? lo) && (lo <=? hi) && (hi <=? 599)
  end.

Lemma contains_char_none c s : str_forall (fun d => negb (Ascii.eqb d c)) s = true -> contains (String c "") s = false.
Proof.
  induction s as [|d s IH]; [done|]. cbn [str_forall contains]. intros [Hd Hs]%andb_prop. rewrite IH by done.
  unfold starts_with. cbn [RustStr.strip_prefix]. rewrite Ascii.eqb_sym. by destruct (Ascii.eqb d c).
Qed.
Lemma contains_char_app c a b : contains (String c "") (a +:+ String c b) = true.
Proof.
  induction a as [|d a IH]; cbn [String.append contains].
  - unfold starts_with. cbn [RustStr.strip_prefix]. by rewrite Ascii.eqb_refl.
  - rewrite IH. apply orb_true_r.
Qed.
Lemma parse_u16_dec n : 0 <= n <= u16_max -> Errors.parse_u16 (dec n) = Some n.
Proof.
  intros Hn. destruct (dec_ok n) as (Hs & Hd & Hne); [lia|]. unfold Errors.parse_u16.
  assert (Hp : RustStr.strip_prefix "+" (dec n) = None).
  { destruct (dec n) as [|c s]; [done|]. cbn [RustStr.strip_prefix]. destruct (Ascii.eqb_spec "+" c) as [<-|]; [|done].
    apply andb_prop in Hd as [Hd _]. by vm_compute in Hd. }
  rewrite Hp. cbn [default]. rewrite bool_decide_eq_false_2, Hd, Hs by done. cbn. by rewrite (proj2 (Z.leb_le _ _)) by lia.
Qed.

Lemma range_parsed r : range_ok r = true -> Errors.parse_status_range (print_range r) = Some r.
Proof.
  destruct r as [n|lo hi]; cbn [range_ok print_range]; rewrite !andb_true_iff, !Z.leb_le; unfold Errors.parse_status_range, u16_max.
  - intros [H1 H2]. rewrite trim_all_plain by (apply dec_plain; lia). change "-" with (String "-" "").
    rewrite contains_char_none by (apply dec_no_char; [lia|done]). rewrite parse_u16_dec by (unfold u16_max; lia). cbn [mbind option_bind].
    by rewrite !(proj2 (Z.leb_le _ _)) by lia.
  - intros [[H1 H2] H3]. rewrite trim_all_plain by (rewrite !str_forall_app, !dec_plain by lia; done).
    change ("-" +:+ dec hi) with (String "-" (dec hi)). change "-" with (String "-" "").
    rewrite contains_char_app, split_on_app, !split_on_single by (apply dec_no_char; [lia|done]). cbn [app].
    rewrite !trim_all_plain by (apply dec_plain; lia). rewrite !parse_u16_dec by (unfold u16_max; lia). cbn [mbind option_bind].
    by rewrite !(proj2 (Z.leb_le _ _)) by lia.
Qed.

(** Error pages are shown for exactly the configured codes: the middleware
    made from written-down codes and ranges intercepts a status if and only if it
    is one of the codes or within one of the ranges. *)
Theorem error_ranges_exact rs service query status :
  forallb range_ok rs = true ->
  let m := Errors.new {| ErrorsConfig.status := print_range <$> rs; ErrorsConfig.service := service; ErrorsConfig.query := query |} in
  Errors.status_ranges m = rs /\ Errors.should_intercept m status = existsb (fun r => Errors.matches r status) rs.
Proof.
  intros Hok. assert (E : omap Errors.parse_status_range (print_range <$> rs) = rs).
  { induction rs as [|r rs IH]; [done|]. cbn [forallb] in Hok. apply andb_prop in Hok as [Hr Hrs]. cbn [fmap list_fmap].
    change (omap Errors.parse_status_range (print_range r :: (print_range <$> rs))) with
      (match Errors.parse_status_range (print_range r) with Some y => y :: omap Errors.parse_status_range (print_range <$> rs)
       | None => omap Errors.parse_status_range (print_range <$> rs) end). by rewrite range_parsed, IH. }
  cbn zeta. unfold Errors.should_intercept, Errors.new. cbn [Errors.status_ranges ErrorsConfig.status]. by rewrite E.
Qed.

Lemma error_ranges_exact_witness :
  Errors.should_intercept (Errors.new {| ErrorsConfig.status := print_range <$> [Errors.Single 404; Errors.Range 500 503];
    ErrorsConfig.service := "e"; ErrorsConfig.query := "/{status}.html" |}) 502 = true.
Proof.
  exact (proj2 (error_ranges_exact [Errors.Single 404; Errors.Range 500 503] "e" "/{status}.html" 502 eq_refl)).
Defined.

(** An encoding that the client excludes is chosen all the same. *)
Lemma excluded_encoding_chosen : Compress.names "br" "gzip, br;q=0" = true.
Proof. reflexivity. Qed.

(** ** Forward authentication *)
Section ForwardAuthProofs.
Context `{HO : HttpOps} `{UL : UriLib} `{IL : IpLib} `{RO : RegexLib}.
Context (hm_iter : HeaderMap -> list (string * HeaderValue)) (uri_text : Uri -> string).

Lemma forward_elem h name n v : (n, v) ∈ ForwardAuth.forward h name -> n = name /\ header_text h name = Some v.
Proof. unfold ForwardAuth.forward. destruct (header_text h name) as [x|]; [|by intros H%elem_of_nil]. by intros [= -> ->]%list_elem_of_singleton. Qed.

(** Forward authentication. A request passes exactly when the service answers
    with a success; its refusal is handed to the client, and no answer is the
    error 500. Unless forwarding headers are trusted, what the service is told
    about the method, address and host is the request's own: the client's
    forwarding headers do not reach it, except those the settings name. *)
Theorem forward_auth_faithful (m : ForwardAuth.ForwardAuthMiddleware) req exchange :
  let sent := ForwardAuth.auth_request hm_iter uri_text m req in
  ((exists a, ForwardAuth.authenticate hm_iter uri_text m req exchange = Ok a) <->
     exists r, exchange sent = Some r /\ 200 <= ForwardAuth.status r < 300) /\
  (forall r, exchange sent = Some r -> ~ (200 <= ForwardAuth.status r < 300) ->
     ForwardAuth.authenticate hm_iter uri_text m req exchange = Err (ForwardAuth.status r, ForwardAuth.body r)) /\
  (exchange sent = None -> ForwardAuth.authenticate hm_iter uri_text m req exchange = Err (500, "Auth service unavailable")) /\
  (ForwardAuth.trust_forward_header m = false -> forall n v, (n, v) ∈ sent -> starts_with "x-forwarded-" n = true ->
     n ∈ ForwardAuth.auth_request_headers m \/ (n = "x-forwarded-method" /\ v = rq_method req) \/
     (n = "x-forwarded-uri" /\ v = uri_text (rq_uri req)) \/ (n = "x-forwarded-host" /\ header_text (rq_headers req) "host" = Some v)).
Proof.
  cbn zeta. unfold ForwardAuth.authenticate. split_and!.
  - destruct (exchange _) as [r|]; [|split; [by intros [a Ha]|by intros (r & Hr & _)]].
    destruct (Z.leb_spec 200 (ForwardAuth.status r)), (Z.ltb_spec (ForwardAuth.status r) 300); cbn [andb]; split;
      try (by intros [a Ha]); try (by eexists); try (intros (r' & [= <-] & Hr); lia); try (intros _; exists r; split; [done|lia]).
  - intros r -> Hr. destruct (Z.leb_spec 200 (ForwardAuth.status r)), (Z.ltb_spec (ForwardAuth.status r) 300); cbn [andb]; [lia|done..].
  - by intros ->.
  - intros Ht n v Hin Hx. unfold ForwardAuth.auth_request in Hin. rewrite Ht in Hin. rewrite !elem_of_app in Hin.
    destruct Hin as [Hin|[Hin|[Hin|[Hin|[Hin|Hin]]]]].
    + apply forward_elem in Hin as [-> _]. by vm_compute in Hx.
    + apply forward_elem in Hin as [-> _]. by vm_compute in Hx.
    + apply list_elem_of_bind in Hin as (name & [-> _]%forward_elem & Hname). by left.
    + by apply elem_of_nil in Hin.
    + rewrite !elem_of_cons in Hin. destruct Hin as [[= -> ->]|[[= -> ->]|Hin%elem_of_nil]]; [by right; left|by right; right; left|done].
    + destruct (header_text (rq_headers req) "host") as [h|]; [|by apply elem_of_nil in Hin].
      apply list_elem_of_singleton in Hin as [= -> ->]. by right; right; right.
Qed.
End ForwardAuthProofs.
