(* ===== verification/Connections.v ===== *)
(** * Connections and shutdown

    Models [ConnectionTracker] of src/src/server/mod.rs, the life of a connection
    task in [Listener::serve] of src/src/server/listener.rs, and the graceful
    drain of [Server::run]. The tracker's fields are atomics that tasks access
    one at a time, so the check of the drain flag and the increment of the
    counter are separate steps here. Instants are in milliseconds. *)
From S2P Require Import Prelude.
From stdpp Require Import list gmap fin_maps.
Open Scope Z_scope.
Open Scope list_scope.

Record ConnectionTracker := { active : Z (* usize *); draining : bool }.
Definition tracker_new : ConnectionTracker := {| active := 0; draining := false |}.

Definition active_count (t : ConnectionTracker) : Z := active t.
Definition is_draining (t : ConnectionTracker) : bool := draining t.
Definition start_drain (t : ConnectionTracker) : ConnectionTracker := {| active := active t; draining := true |}.
Definition fetch_add (t : ConnectionTracker) : ConnectionTracker := {| active := wrap_u64 (active t + 1); draining := draining t |}.
Definition connection_end (t : ConnectionTracker) : ConnectionTracker := {| active := wrap_u64 (active t - 1); draining := draining t |}.
(** [connection_start] without another task in between. *)
Definition connection_start (t : ConnectionTracker) : bool * ConnectionTracker :=
  if is_draining t then (false, t) else (true, fetch_add t).

(** [wait_for_drain]: what the [i]-th look at the counter sees, and when. *)
Inductive drain_result := Drained | DrainTimeout (remaining : Z).
Fixpoint wait_loop (fuel : nat) (count now : nat -> Z) (deadline : Z) (i : nat) : option (drain_result * nat) :=
  match fuel with
  | O => None
  | S fuel' =>
      if count i =? 0 then Some (Drained, i)
      else if deadline <=? now i then Some (DrainTimeout (count i), i)
      else wait_loop fuel' count now deadline (S i)
  end.
Definition wait_for_drain (fuel : nat) (timeout : Z) (count now : nat -> Z) : option (drain_result * nat) :=
  wait_loop fuel count now (now O + timeout) O.

(** ** Tasks *)
(** Where the task of a connection is. *)
Inductive phase := Spawned | Entering (* the flag was clear *) | Serving | Finished | Rejected.
#[export] Instance phase_eq_dec : EqDecision phase.
Proof. solve_decision. Defined.

Record tracked := { tracker : ConnectionTracker; tasks : gmap nat phase }.
Definition tracked_new : tracked := {| tracker := tracker_new; tasks := ∅ |}.

(** [Done] is reached on every path of the task: a handshake that fails and a
    connection that ends both lead to [connection_end]. *)
Inductive task_event := Accept (id : nat) | CheckFlag (id : nat) | Count (id : nat) | Done (id : nat) | StartDrain.
Definition move (id : nat) (from : phase) (to : phase) (t : ConnectionTracker) (s : tracked) : option tracked :=
  if bool_decide (tasks s !! id = Some from) then Some {| tracker := t; tasks := <[id := to]> (tasks s) |} else None.
Definition task_step (e : task_event) (s : tracked) : option tracked :=
  match e with
  | Accept id => if bool_decide (tasks s !! id = None) then Some {| tracker := tracker s; tasks := <[id := Spawned]> (tasks s) |} else None
  | CheckFlag id => move id Spawned (if is_draining (tracker s) then Rejected else Entering) (tracker s) s
  | Count id => move id Entering Serving (fetch_add (tracker s)) s
  | Done id => move id Serving Finished (connection_end (tracker s)) s
  | StartDrain => Some {| tracker := start_drain (tracker s); tasks := tasks s |}
  end.
Fixpoint task_run (es : list task_event) (s : tracked) : option tracked :=
  match es with [] => Some s | e :: es' => s' ← task_step e s; task_run es' s' end.

(** ** The counter *)
Definition in_phase (p : phase) (m : gmap nat phase) : gmap nat phase := filter (fun x => x.2 = p) m.
Definition serving (s : tracked) : nat := size (in_phase Serving (tasks s)).

Lemma in_phase_insert_other p q m id : q <> p -> in_phase p (<[id := q]> m) = delete id (in_phase p m).
Proof.
  intros Hne. apply map_eq. intros i. unfold in_phase. apply option_eq. intros x. rewrite lookup_delete_Some, !map_lookup_filter_Some. cbn [snd].
  destruct (decide (i = id)) as [->|Hi].
  - rewrite lookup_insert_eq. split; [intros [[= <-] ->]; done|by intros [? _]].
  - rewrite lookup_insert_ne by done. split; [by intros [? ?]|by intros [_ ?]].
Qed.
Lemma in_phase_insert p m id : in_phase p (<[id := p]> m) = <[id := p]> (in_phase p m).
Proof. apply map_filter_insert_True. done. Qed.
Lemma in_phase_None p m id : m !! id <> Some p -> in_phase p m !! id = None.
Proof. intros Hm. apply map_lookup_filter_None. right. intros x Hx E. cbn in E. congruence. Qed.

(** A task that enters or leaves a phase, and one that does neither. *)
Lemma size_enter p m id : m !! id <> Some p -> size (in_phase p (<[id := p]> m)) = S (size (in_phase p m)).
Proof. intros Hm. rewrite in_phase_insert, map_size_insert_None; [done|]. by apply in_phase_None. Qed.
Lemma size_leave p q m id : q <> p -> m !! id = Some p -> size (in_phase p m) = S (size (in_phase p (<[id := q]> m))).
Proof.
  intros Hne Hm. rewrite in_phase_insert_other by done. assert (Hl : in_phase p m !! id = Some p) by (by apply map_lookup_filter_Some).
  rewrite map_size_delete_Some by (by eexists). assert (Hn : size (in_phase p m) <> O) by (eapply map_size_ne_0_lookup_2; by eexists). lia.
Qed.
Lemma size_stay p q m id : q <> p -> m !! id <> Some p -> size (in_phase p (<[id := q]> m)) = size (in_phase p m).
Proof. intros Hne Hm. rewrite in_phase_insert_other by done. by rewrite delete_id by (by apply in_phase_None). Qed.

(** The counter counts the connections that are served. *)
Definition counts (s : tracked) : Prop := active (tracker s) = wrap_u64 (Z.of_nat (serving s)).

Lemma move_ok id from to t s s' : move id from to t s = Some s' -> tasks s !! id = Some from /\ s' = {| tracker := t; tasks := <[id := to]> (tasks s) |}.
Proof. unfold move. case_bool_decide; [|done]. by intros [= <-]. Qed.

Lemma step_counts e s s' : counts s -> task_step e s = Some s' -> counts s'.
Proof.
  unfold counts, serving. intros Hc. destruct e as [id|id|id|id|]; cbn [task_step].
  - case_bool_decide as Hn; [|done]. intros [= <-]. cbn [tracker tasks]. rewrite Hc. rewrite size_stay; [done|done|]. rewrite Hn. done.
  - intros [Hp ->]%move_ok. cbn [tracker tasks]. rewrite Hc, size_stay; [done|by destruct (is_draining _)|]. rewrite Hp. done.
  - intros [Hp ->]%move_ok. cbn [tracker tasks active fetch_add]. rewrite Hc, size_enter by (rewrite Hp; done).
    unfold wrap_u64. rewrite Zplus_mod_idemp_l. f_equal. lia.
  - intros [Hp ->]%move_ok. cbn [tracker tasks active connection_end]. rewrite Hc, (size_leave Serving Finished (tasks s) id) by done.
    unfold wrap_u64. rewrite Zminus_mod_idemp_l. f_equal. lia.
  - intros [= <-]. cbn [tracker tasks active start_drain]. exact Hc.
Qed.
Lemma run_counts es : forall s s', counts s -> task_run es s = Some s' -> counts s'.
Proof.
  induction es as [|e es IH]; intros s s' Hc; cbn [task_run]; [by intros [= <-]|]. destruct (task_step e s) as [s1|] eqn:E; [|done].
  cbn [mbind option_bind]. apply IH. by eapply step_counts.
Qed.

(** Who may still be served while the server drains. *)
Definition let_in (s : tracked) (id : nat) : Prop := tasks s !! id = Some Entering \/ tasks s !! id = Some Serving.
Lemma step_drain e s s' id : is_draining (tracker s) = true -> task_step e s = Some s' ->
  is_draining (tracker s') = true /\ (let_in s' id -> let_in s id).
Proof.
  unfold let_in. intros Hd. destruct e as [k|k|k|k|]; cbn [task_step].
  - case_bool_decide as Hn; [|done]. intros [= <-]. split; [done|]. cbn [tasks]. rewrite lookup_insert. case_decide; [|done]. by intros [[=]|[=]].
  - intros [Hp ->]%move_ok. split; [done|]. cbn [tasks]. rewrite Hd, lookup_insert. case_decide; [|done]. by intros [[=]|[=]].
  - intros [Hp ->]%move_ok. split; [done|]. cbn [tasks]. rewrite lookup_insert. case_decide as E; [subst; auto|done].
  - intros [Hp ->]%move_ok. split; [done|]. cbn [tasks]. rewrite lookup_insert. case_decide; [|done]. by intros [[=]|[=]].
  - by intros [= <-].
Qed.
Lemma run_drain es : forall s s' id, is_draining (tracker s) = true -> task_run es s = Some s' -> let_in s' id -> let_in s id.
Proof.
  induction es as [|e es IH]; intros s s' id Hd; cbn [task_run]; [by intros [= <-]|]. destruct (task_step e s) as [s1|] eqn:E; [|done].
  cbn [mbind option_bind]. destruct (step_drain e s s1 id Hd E) as [Hd1 Hl]. intros Hr Hin. by apply Hl, (IH s1 s').
Qed.

(** C22. Draining. In every interleaving of connection tasks, the counter that the
    shutdown waits for is the number of connections being served, and once the
    flag is set only connections whose task had passed its check before are ever
    served; if there is none the counter stays at zero. *)
Theorem drain_admits_none es es' s s' :
  task_run es tracked_new = Some s -> is_draining (tracker s) = true -> task_run es' s = Some s' ->
  active_count (tracker s') = wrap_u64 (Z.of_nat (serving s')) /\ (forall id, let_in s' id -> let_in s id) /\
  ((forall id, ~ let_in s id) -> active_count (tracker s') = 0).
Proof.
  intros Hr Hd Hr'. assert (Hc : counts s') by (eapply run_counts; [|exact Hr']; by eapply run_counts; [|exact Hr]).
  split_and!; [exact Hc|intros id; by eapply run_drain|]. intros Hno. unfold active_count. rewrite Hc. unfold serving.
  destruct (decide (in_phase Serving (tasks s') = ∅)) as [->|Hne]; [done|]. apply map_choose in Hne as (id & p & Hp).
  apply map_lookup_filter_Some in Hp as [Hp Hs]. cbn in Hs. destruct (Hno id). eapply run_drain; [exact Hd|exact Hr'|]. right. congruence.
Qed.

(** A task between its check and its increment is not counted: the shutdown sees
    no connection and ends while one is about to be served. *)
Lemma drain_misses_admitted :
  match task_run [Accept 0; CheckFlag 0; StartDrain] tracked_new with
  | Some s => wait_for_drain 1 30000 (fun _ => active_count (tracker s)) (fun i => 100 * Z.of_nat i) = Some (Drained, 0%nat) /\
      (fun s' => active_count (tracker s')) <$> task_run [Count 0] s = Some 1
  | None => False
  end.
Proof. vm_compute. done. Qed.

Definition nobody (s : tracked) : bool := (size (in_phase Entering (tasks s)) =? 0)%nat && (serving s =? 0)%nat.
Lemma nobody_let_in s id : nobody s = true -> ~ let_in s id.
Proof.
  intros [Ha Hs]%andb_true_iff [H|H]; [apply Nat.eqb_eq in Ha|apply Nat.eqb_eq in Hs].
  - by eapply (map_size_ne_0_lookup_2 (in_phase Entering (tasks s)) id); [exists Entering; apply map_lookup_filter_Some|].
  - by eapply (map_size_ne_0_lookup_2 (in_phase Serving (tasks s)) id); [exists Serving; apply map_lookup_filter_Some|].
Qed.
Definition drained : tracked := default tracked_new (task_run [Accept 0; CheckFlag 0; Count 0; StartDrain; Accept 1; Done 0] tracked_new).
Definition drained_later : tracked := default tracked_new (task_run [CheckFlag 1] drained).
Lemma drain_admits_none_witness : active_count (tracker drained_later) = 0.
Proof.
  apply (drain_admits_none [Accept 0; CheckFlag 0; Count 0; StartDrain; Accept 1; Done 0] [CheckFlag 1] drained drained_later).
  - vm_compute. reflexivity.
  - vm_compute. reflexivity.
  - vm_compute. reflexivity.
  - intros id. apply nobody_let_in. vm_compute. reflexivity.
Defined.

(** ** Waiting *)
Lemma wait_loop_ends fuel count now deadline : (forall j, now j + 100 <= now (S j)) -> forall i, (0 < fuel)%nat ->
  deadline <= now i + 100 * (Z.of_nat fuel - 1) ->
  exists r j, wait_loop fuel count now deadline i = Some (r, j) /\ (i <= j)%nat /\ (forall k, (i <= k < j)%nat -> count k <> 0 /\ now k < deadline) /\
    match r with Drained => count j = 0 | DrainTimeout n => n = count j /\ n <> 0 /\ deadline <= now j end.
Proof.
  intros Hs. induction fuel as [|fuel IH]; intros i Hf Hd; [lia|]. cbn [wait_loop].
  destruct (Z.eqb_spec (count i) 0) as [Hz|Hz]; [exists Drained, i; split_and!; [done|lia|lia|done]|].
  destruct (Z.leb_spec deadline (now i)) as [Hl|Hl]; [exists (DrainTimeout (count i)), i; split_and!; [done|lia|lia|done|done|done]|].
  specialize (Hs i). destruct (IH (S i)) as (r & j & Hr & Hij & Hk & Hres); [lia|lia|].
  exists r, j. split_and!; [done|lia| |done]. intros k Hk'. destruct (decide (k = i)) as [->|]; [done|]. apply Hk. lia.
Qed.

(** The shutdown does not hang. Looking at the counter at least a tenth of a
    second apart, waiting with a timeout of [100 * n] milliseconds ends after at
    most [n + 1] looks, 301 for the thirty seconds of the server; it reports
    that all connections are gone only if the counter was zero then, and a
    timeout only when the time was up. *)
Theorem drain_wait_ends n count now :
  (forall j, now j + 100 <= now (S j)) ->
  exists r j, wait_for_drain (S n) (100 * Z.of_nat n) count now = Some (r, j) /\ (j <= n)%nat /\
    (forall k, (k < j)%nat -> count k <> 0) /\
    match r with Drained => count j = 0 | DrainTimeout m => m = count j /\ m <> 0 /\ now O + 100 * Z.of_nat n <= now j end.
Proof.
  intros Hs. destruct (wait_loop_ends (S n) count now (now O + 100 * Z.of_nat n) Hs O) as (r & j & Hr & _ & Hk & Hres); [lia|lia|].
  exists r, j. split_and!; [done| |intros k Hk'; apply Hk; lia|done].
  destruct (decide (j <= n)%nat) as [|Hj]; [done|]. destruct (Hk n) as [_ Hn]; [lia|].
  assert (Hm : forall k, now O + 100 * Z.of_nat k <= now k) by (induction k as [|k IH]; [lia|]; specialize (Hs k); lia).
  specialize (Hm n). lia.
Qed.

Lemma drain_wait_ends_witness : exists r j,
  wait_for_drain 301 30000 (fun i => 2 - Z.of_nat i) (fun i => 100 * Z.of_nat i) = Some (r, j) /\ (j <= 300)%nat.
Proof.
  destruct (drain_wait_ends 300 (fun i => 2 - Z.of_nat i) (fun i => 100 * Z.of_nat i)) as (r & j & Hr & Hj & _); [intros; lia|].
  exists r, j. split; [exact Hr|exact Hj].
Defined.
