(* ===== verification/Tls.v ===== *)
(** * TLS settings and client certificates

    Models src/src/tls/mod.rs ([TlsAcceptor]) and the client authentication of
    src/src/tls/mtls.rs. Files, the PEM reader and the certificate library (what
    a root store accepts, when a verifier can be built, which chains it accepts)
    are parameters. *)
From S2P Require Import Prelude RustStr ConfigTypes.
From stdpp Require Import list.
Open Scope list_scope.
#[local] Open Scope rust_scope.

Inductive ClientAuthMode :=
  NoClientCert | RequestClientCert | RequireAnyClientCert | VerifyClientCertIfGiven | RequireAndVerifyClientCert.

(** No character outside ASCII becomes one of these names' letters in lower case. *)
Definition mode_from_str (s : string) : ClientAuthMode :=
  let one_of (names : list string) := existsb (fun n => bool_decide (to_ascii_lowercase s = n)) names in
  if one_of ["noclientcert"; "no_client_cert"; ""] then NoClientCert
  else if one_of ["requestclientcert"; "request_client_cert"] then RequestClientCert
  else if one_of ["requireanyclientcert"; "require_any_client_cert"] then RequireAnyClientCert
  else if one_of ["verifyclientcertifgiven"; "verify_client_cert_if_given"] then VerifyClientCertIfGiven
  else if one_of ["requireandverifyclientcert"; "require_and_verify_client_cert"] then RequireAndVerifyClientCert
  else NoClientCert.

Section Tls.
Context {Cert Key Resolver : Type}.
(** [None]: the file cannot be opened or read. *)
Context (read_certs : string -> option (list Cert)) (read_key : string -> option (option Key)).
Context (pair_ok : list Cert -> Key -> bool) (root_ok : Cert -> bool) (roots_ok : list Cert -> bool).

(** Whose certificates are checked: nobody's, those of clients that send one, or
    those of all clients. *)
Inductive Verifier := NoAuth | Verify (roots : list Cert) (allow_unauthenticated : bool).
Inductive CertSource := SingleCert (certs : list Cert) (key : Key) | Resolved (r : Resolver).
Record ServerConfig := { verifier : Verifier; source : CertSource; alpn_protocols : list string }.

(** ** Acceptors *)
Definition alpn : list string := ["h2"; "http/1.1"].
Definition build_server_config (cert_path key_path : string) : option ServerConfig :=
  certs ← read_certs cert_path;
  o ← read_key key_path;
  key ← o;
  if pair_ok certs key then Some {| verifier := NoAuth; source := SingleCert certs key; alpn_protocols := alpn |} else None.
(** The outer [option] is the error, the inner one "no certificates". *)
Definition acceptor_from_config (c : TlsConfig.t) : option (option ServerConfig) :=
  match TlsConfig.certificates c with
  | [] => Some None
  | cert :: _ => Some <$> build_server_config (TlsCertificate.cert_file cert) (TlsCertificate.key_file cert)
  end.
Definition from_files (cert_path key_path : string) : option ServerConfig := build_server_config cert_path key_path.
Definition from_resolver (r : Resolver) : option ServerConfig := Some {| verifier := NoAuth; source := Resolved r; alpn_protocols := alpn |}.

(** ** Client authentication *)
Record MtlsConfigBuilder := { client_auth_mode : ClientAuthMode; ca_certs : list Cert }.
Definition builder_new : MtlsConfigBuilder := {| client_auth_mode := NoClientCert; ca_certs := [] |}.

Definition load_certs (path : string) : option (list Cert) :=
  certs ← read_certs path; match certs with [] => None | _ => Some certs end.
Fixpoint load_all (files : list string) (b : MtlsConfigBuilder) : option MtlsConfigBuilder :=
  match files with
  | [] => Some b
  | f :: files' => certs ← load_certs f; load_all files' {| client_auth_mode := client_auth_mode b; ca_certs := ca_certs b ++ certs |}
  end.
Definition with_client_auth (a : ClientAuth.t) (b : MtlsConfigBuilder) : option MtlsConfigBuilder :=
  load_all (ClientAuth.ca_files a)
    {| client_auth_mode := match ClientAuth.client_auth_type a with Some t => mode_from_str t | None => client_auth_mode b end; ca_certs := ca_certs b |}.
Definition from_tls_options (o : TlsOptions.t) : option MtlsConfigBuilder :=
  match TlsOptions.client_auth o with Some a => with_client_auth a builder_new | None => Some builder_new end.

(** The verifier, as both [build_with_cert] and [build_with_resolver] choose it. *)
Definition build_verifier (b : MtlsConfigBuilder) : option Verifier :=
  match client_auth_mode b with
  | NoClientCert => Some NoAuth
  | m =>
      if negb (forallb root_ok (ca_certs b)) then None
      else if roots_ok (ca_certs b) then
        Some (Verify (ca_certs b) (match m with VerifyClientCertIfGiven => true | _ => false end))
      else None
  end.
Definition build_with_cert (b : MtlsConfigBuilder) (certs : list Cert) (key : Key) : option ServerConfig :=
  v ← build_verifier b;
  if pair_ok certs key then Some {| verifier := v; source := SingleCert certs key; alpn_protocols := [] |} else None.
Definition build_with_resolver (b : MtlsConfigBuilder) (r : Resolver) : option ServerConfig :=
  v ← build_verifier b; Some {| verifier := v; source := Resolved r; alpn_protocols := [] |}.

(** ** Which clients get in *)
Context (verifies : list Cert -> list Cert -> bool). (* roots, chain *)
Definition admits (c : ServerConfig) (client : option (list Cert)) : bool :=
  match verifier c, client with
  | NoAuth, _ => true
  | Verify _ unauthenticated, None => unauthenticated
  | Verify roots _, Some chain => verifies roots chain
  end.

Definition requires_cert (m : ClientAuthMode) : bool :=
  match m with NoClientCert | VerifyClientCertIfGiven => false | _ => true end.

Lemma load_all_mode files : forall b b', load_all files b = Some b' ->
  client_auth_mode b' = client_auth_mode b /\ exists cs, mapM load_certs files = Some cs /\ ca_certs b' = ca_certs b ++ concat cs.
Proof.
  induction files as [|f files IH]; intros b b'; cbn [load_all mapM]; [intros [= <-]; split; [done|]; exists []; by rewrite app_nil_r|].
  destruct (load_certs f) as [cs|] eqn:E; [|done]. cbn [mbind option_bind]. intros (Hm & l & Hl & Hc)%IH. cbn in Hm, Hc. split; [done|].
  exists (cs :: l). rewrite Hl. split; [done|]. by rewrite Hc, <- app_assoc.
Qed.

(** What a configured client authentication enforces. When a TLS
    configuration can be built from the options, then for every mode but
    [NoClientCert] a client that shows a certificate gets in only if it verifies
    against exactly the certificates of the configured files; a client without
    one gets in only in the modes [NoClientCert] and [VerifyClientCertIfGiven].
    A file that cannot be read or has no certificate prevents the configuration,
    so the set of trusted certificates is never smaller than configured. *)
Theorem client_auth_enforced o a b r c : TlsOptions.client_auth o = Some a -> from_tls_options o = Some b -> build_with_resolver b r = Some c ->
  let mode := from_option mode_from_str NoClientCert (ClientAuth.client_auth_type a) in
  source c = Resolved r /\ admits c None = negb (requires_cert mode) /\
  (mode <> NoClientCert -> exists cs, mapM load_certs (ClientAuth.ca_files a) = Some cs /\
     forall chain, admits c (Some chain) = verifies (concat cs) chain).
Proof.
  intros Ha Hb Hc. cbn zeta. unfold from_tls_options in Hb. rewrite Ha in Hb. unfold with_client_auth in Hb.
  apply load_all_mode in Hb as (Hm & cs & Hcs & Hca). cbn in Hm, Hca.
  unfold build_with_resolver, build_verifier in Hc. assert (Hmode : client_auth_mode b = from_option mode_from_str NoClientCert (ClientAuth.client_auth_type a))
    by (rewrite Hm; by destruct (ClientAuth.client_auth_type a)).
  rewrite Hmode in Hc. destruct (from_option mode_from_str NoClientCert (ClientAuth.client_auth_type a));
    [injection Hc as <-; split_and!; [done|done|by intros []]|..];
    destruct (negb (forallb root_ok (ca_certs b))); [done| |done| |done| |done|];
    (destruct (roots_ok (ca_certs b)); [|done]); injection Hc as <-; (split_and!; [done|done|]); intros _; exists cs;
    (split; [done|]); intros chain; cbn [admits verifier]; by rewrite Hca.
Qed.
End Tls.

(** Asking for a certificate without requiring one is not possible, and a
    misspelt mode turns the check off. *)
Lemma request_mode_requires {Cert Key Resolver} root_ok roots_ok (verifies : list Cert -> list Cert -> bool) (b : MtlsConfigBuilder) (r : Resolver) c :
  client_auth_mode b = RequestClientCert -> build_with_resolver (Key := Key) root_ok roots_ok b r = Some c -> admits verifies c None = false.
Proof.
  intros Hm. unfold build_with_resolver, build_verifier. rewrite Hm. destruct (negb _); [done|]. destruct (roots_ok _); [|done]. by intros [= <-].
Qed.
Lemma misspelt_mode_open : mode_from_str "RequireAndVerifyClientCertificate" = NoClientCert.
Proof. reflexivity. Qed.

Definition demo_options (mode : string) : TlsOptions.t :=
  {| TlsOptions.min_version := None; TlsOptions.max_version := None; TlsOptions.cipher_suites := []; TlsOptions.curve_preferences := [];
     TlsOptions.client_auth := Some {| ClientAuth.ca_files := ["ca.pem"]; ClientAuth.client_auth_type := Some mode |};
     TlsOptions.sni_strict := false; TlsOptions.alpn_protocols := []; TlsOptions.prefer_server_cipher_suites := false |}.
Definition demo_builder (mode : string) : MtlsConfigBuilder :=
  {| client_auth_mode := mode_from_str mode; ca_certs := ["ca"] |}.
Lemma client_auth_enforced_witness :
  exists c, build_with_resolver (Key := unit) (fun _ => true) (fun _ => true) (demo_builder "RequireAndVerifyClientCert") "resolver" = Some c /\
    admits (fun roots chain => bool_decide (roots = chain)) c None = false.
Proof.
  eexists. split; [reflexivity|].
  exact (proj1 (proj2 (client_auth_enforced (Key := unit) (fun f => Some ["ca"]) (fun _ => true) (fun _ => true)
    (fun roots chain => bool_decide (roots = chain)) (demo_options "RequireAndVerifyClientCert")
    {| ClientAuth.ca_files := ["ca.pem"]; ClientAuth.client_auth_type := Some "RequireAndVerifyClientCert" |}
    (demo_builder "RequireAndVerifyClientCert") "resolver" _ eq_refl eq_refl eq_refl))).
Defined.
