(* ===== verification/Server.v ===== *)
(** * The server

    Models src/src/server/mod.rs (the shared state, hot reload, construction with
    and without ACME, startup) and src/src/server/listener.rs (the TLS choice of
    an entry point and the service of a connection). It composes the components:
    the router, services and middlewares built from one configuration, the
    request handler, the challenge handler, the certificate resolver and the
    connection tracker. A reload stores its three parts one after the other, and
    requests may come between the stores. *)
From S2P Require Import Prelude RustStr Acme ConfigTypes Certs Connections Tls ConfigCheck.
From S2P Require Import Config Balancer LoadBalancer Health Service Rule RuleProofs Router Net Http Middleware Pipeline Grpc WebSocket.
From S2P Require Import AccessLog Handler.
From stdpp Require Import list gmap.
Open Scope Z_scope.
Open Scope list_scope.
#[local] Open Scope rust_scope.
#[local] Set Default Proof Using "Type*".

(** ** What the components read of a configuration *)
Definition router_entry (e : string * ConfigTypes.Router.t) : string * RouterConfig :=
  (e.1, {| rc_entry_points := ConfigTypes.Router.entry_points e.2; rc_rule := ConfigTypes.Router.rule e.2;
           rc_service := ConfigTypes.Router.service e.2; rc_middlewares := ConfigTypes.Router.middlewares e.2;
           rc_priority := ConfigTypes.Router.priority e.2 |}).
Definition service_entry (e : string * ConfigTypes.Service.t) : string * ServiceConfig :=
  (e.1, {| load_balancer := (fun lb => {| servers := ConfigTypes.LoadBalancerService.servers lb;
                                          health_check := is_some (ConfigTypes.LoadBalancerService.health_check lb) |})
                              <$> ConfigTypes.Service.load_balancer e.2;
           weighted := ConfigTypes.WeightedService.services <$> ConfigTypes.Service.weighted e.2;
           mirroring := ConfigTypes.MirroringService.service <$> ConfigTypes.Service.mirroring e.2;
           failover := ConfigTypes.Service.failover e.2 |}).

Section Server.
Context `{HO : HttpOps} `{UL : UriLib} `{UP : !UriParser} `{IL : IpLib} `{RO : RegexOps} `{URL : UrlLib}.
Context (sha1 : string -> string) (server_name_ok : string -> bool).
Context {Key : Type} (load_pair : string * string -> result unit (Key * list string)).
(** What is in a file that is opened to append to it. *)
Context (opens : string -> option (list string)).

Record SharedState := {
  ss_router : Router;
  ss_middlewares : gmap string Instance;
  ss_world : world; (* the services, the passive checker *)
  ss_connections : ConnectionTracker;
  ss_challenges : gmap string string; (* token, key authorization *)
  ss_resolver : option (CertificateResolver (Key := Key));
  ss_log : AccessLogWriter;
}.

(** [None] when one of the certificates cannot be loaded. *)
Definition build_static_resolver (c : ConfigCheck.config) : result Empty_set (option (CertificateResolver (Key := Key))) :=
  match TlsConfig.certificates <$> ConfigTypes.Config.tls c with
  | None | Some [] => Ok None
  | Some certs =>
      match from_static_certs load_pair ((fun tc => (TlsCertificate.cert_file tc, TlsCertificate.key_file tc)) <$> certs) resolver_new with
      | Ok r => Ok (Some r)
      | Err _ => Ok None
      | Panic => Panic
      end
  end.

(** Router, services and middlewares of a configuration; a rule or a middleware
    may abort. *)
Definition build_parts (c : ConfigCheck.config) : result Empty_set (Router * manager * gmap string Instance) :=
  match from_config (router_entry <$> ConfigCheck.routers c) with
  | None => Panic
  | Some rt => reg <-? registry_new (registry_entries c) ∅ ;; Ok (rt, manager_new (service_entry <$> ConfigCheck.services c), reg)
  end.

Definition log_path (c : ConfigCheck.config) : option (option string) := AccessLogConfig.file_path <$> ConfigTypes.Config.access_log c.
Definition assemble (c : ConfigCheck.config) (seed : Z) (challenges : gmap string string) (resolver : option (CertificateResolver (Key := Key)))
    : result Empty_set SharedState :=
  p <-? build_parts c ;;
  Ok {| ss_router := p.1.1; ss_middlewares := p.2;
        ss_world := {| w_services := p.1.2; w_passive := Passive.new Passive.default_config; w_rng := seed; w_sent := [] |};
        ss_connections := tracker_new; ss_challenges := challenges; ss_resolver := resolver; ss_log := writer_new (log_path c) opens |}.
Definition shared_new (c : ConfigCheck.config) (seed : Z) : result Empty_set SharedState :=
  r <-? build_static_resolver c ;; assemble c seed ∅ r.
(** The manager's challenges and resolver are shared with it. *)
Definition with_acme (c : ConfigCheck.config) (seed : Z) (challenges : gmap string string) (resolver : CertificateResolver) : result Empty_set SharedState :=
  assemble c seed challenges (Some resolver).

(** The three stores of [reload]. *)
Definition store_router (rt : Router) (s : SharedState) : SharedState :=
  {| ss_router := rt; ss_middlewares := ss_middlewares s; ss_world := ss_world s; ss_connections := ss_connections s;
     ss_challenges := ss_challenges s; ss_resolver := ss_resolver s; ss_log := ss_log s |}.
Definition store_services (m : manager) (s : SharedState) : SharedState :=
  {| ss_router := ss_router s; ss_middlewares := ss_middlewares s;
     ss_world := {| w_services := m; w_passive := w_passive (ss_world s); w_rng := w_rng (ss_world s); w_sent := w_sent (ss_world s) |};
     ss_connections := ss_connections s; ss_challenges := ss_challenges s; ss_resolver := ss_resolver s; ss_log := ss_log s |}.
Definition store_middlewares (reg : gmap string Instance) (s : SharedState) : SharedState :=
  {| ss_router := ss_router s; ss_middlewares := reg; ss_world := ss_world s; ss_connections := ss_connections s;
     ss_challenges := ss_challenges s; ss_resolver := ss_resolver s; ss_log := ss_log s |}.
(** Everything is built before the first store. *)
Definition reload (c : ConfigCheck.config) (s : SharedState) : result Empty_set SharedState :=
  p <-? build_parts c ;;
  Ok (store_middlewares p.2 (store_services p.1.2 (store_router p.1.1 s))).

(** ** Listeners *)
Definition build_tls_acceptor (ep : EntryPoint.t) (s : SharedState) : option (ServerConfig (Cert := unit) (Key := Key) (Resolver := CertificateResolver (Key := Key))) :=
  h ← EntryPoint.http ep;
  t ← EntryPointHttp.tls h;
  let shared := r ← ss_resolver s; from_resolver r in
  match EntryPointTls.cert_resolver t with
  | Some _ => match shared with Some acceptor => Some acceptor | None => shared end
  | None => shared
  end.
Definition connection_is_tls (ep : EntryPoint.t) (s : SharedState) : bool := is_some (build_tls_acceptor ep s).

(** The response of the challenge handler. *)
Definition challenge_response (r : challenge_reply) : result Empty_set Response :=
  match r with
  | Authorization text =>
      h <-? build_header "content-type" "text/plain" hm_empty ;; Ok {| rs_status := 200; rs_headers := h; rs_body := Text text |}
  | ChallengeNotFound => Ok {| rs_status := 404; rs_headers := hm_empty; rs_body := Text "Not Found" |}
  end.

(** The request context that middlewares read. *)
Definition inject_context (ip : IpAddr) (is_tls : bool) (req : Request) : Request :=
  {| rq_method := rq_method req; rq_uri := rq_uri req; rq_headers := rq_headers req;
     rq_context := Some {| Http.remote_addr := ip; Http.is_tls := is_tls |} |}.

(** One request of a connection. *)
Definition service (to_json : AccessLogEntry -> option string) (e : env) (now : nat -> Z * Z) (clock : Z * Z * Z)
    (entrypoint : string) (ip : IpAddr) (remote : string) (is_tls : bool) (req : Request) (s : SharedState)
    : result Empty_set Response * SharedState :=
  match (if negb is_tls then handle_challenge (ss_challenges s) (uri_path (rq_uri req)) else None) with
  | Some c => (challenge_response c, s)
  | None =>
      let '(r, reg, log, w) :=
        handle sha1 server_name_ok to_json e now clock (ss_router s) entrypoint ip remote is_tls (inject_context ip is_tls req)
          (ss_middlewares s) (ss_log s) (ss_world s) in
      (r, {| ss_router := ss_router s; ss_middlewares := reg; ss_world := w; ss_connections := ss_connections s;
             ss_challenges := ss_challenges s; ss_resolver := ss_resolver s; ss_log := log |})
  end.
End Server.

(** ** Startup and shutdown *)
(** [main]: the resolver that ACME is configured for, in the order the map is
    iterated, and the domains of the routers that name it. *)
Definition acme_resolver (c : ConfigCheck.config) : option (string * ConfigTypes.AcmeConfig.t) :=
  '(n, r) ← List.find (fun e => is_some (ConfigTypes.CertificateResolver.acme e.2)) (ConfigTypes.Config.certificates_resolvers c);
  a ← ConfigTypes.CertificateResolver.acme r; Some (n, a).
Definition domain_set (d : TlsDomain.t) : list string := TlsDomain.main d :: TlsDomain.sans d.
Definition acme_domains (c : ConfigCheck.config) (resolver : string) : list (list string) :=
  ConfigCheck.routers c ≫= fun e =>
    match ConfigTypes.Router.tls e.2 with
    | Some t => if bool_decide (RouterTls.cert_resolver t = Some resolver) then domain_set <$> RouterTls.domains t else []
    | None => []
    end.

(** [Server::run]: which entry points get a UDP listener as well. *)
Definition udp_entrypoints (has_routes : string -> bool) (c : ConfigCheck.config) : list string :=
  if ConfigCheck.has_udp c then List.filter has_routes (ConfigTypes.Config.entry_points c).*1 else [].

(** [reload_config]: only a valid configuration is applied. *)
Definition reload_config {Key} `{HO : HttpOps} `{UL : UriLib} `{UP : !UriParser} `{IL : IpLib} `{RO : RegexOps} `{URL : UrlLib}
    (url_parses : string -> bool) (c : ConfigCheck.config)
    (st : ConfigCheck.config * SharedState (Key := Key)) : result string unit * (ConfigCheck.config * SharedState (Key := Key)) :=
  match ConfigCheck.validate url_parses c with
  | Ok _ => match reload c st.2 with Ok s' => (Ok tt, (c, s')) | _ => (Panic, (c, st.2)) end
  | Err e => (Err e, st)
  | Panic => (Panic, st)
  end.

(** The end of [run]: the flag first, then the wait if anybody is served. *)
Definition graceful_drain (fuel : nat) (count now : nat -> Z) (t : ConnectionTracker) : ConnectionTracker * option (drain_result * nat) :=
  let t := start_drain t in
  (t, if 0 <? active_count t then wait_for_drain fuel 30000 count now else Some (Drained, O)).

(** ** Server lists are those of the configuration *)
Lemma step_servers e s s' : manager_wf (Service.services s) -> step e s = Some s' ->
  manager_wf (Service.services s') /\ forall n, fst <$> view (Service.services s') n = fst <$> view (Service.services s) n.
Proof.
  intros Hwf. destruct e as [name|i x el nw nm|i|i]; cbn [step].
  - destruct (select_backend name (Service.services s) (rng s)) as [[sel m'] rng'] eqn:E. intros [= <-]. cbn [Service.services].
    destruct (select_backend_spec _ _ _ _ _ _ Hwf E) as (H1 & H2 & _). split; [done|]. intros n. by rewrite H2.
  - destruct (inflight s !! i) as [[name u]|]; [|done]. cbn [mbind option_bind]. destruct (Passive.record_response _ _ _). by intros [= <-].
  - destruct (pending s !! i) as [[[c u] name]|]; [|done]. cbn [mbind option_bind]. intros [= <-]. cbn [Service.services].
    assert (Hc : c = Passive.NoChange \/ exists v, c = change_to v) by (destruct c; [by left|right; by exists true|right; by exists false]).
    destruct Hc as [->|[v ->]]; [done|]. destruct (apply_change_spec v u name _ Hwf) as [H1 H2]. split; [done|]. intros n. rewrite H2.
    case_decide; [|done]. by destruct (view (Service.services s) n) as [[ss hs]|].
  - by intros [= <-].
Qed.
Lemma reaches_servers s s' : manager_wf (Service.services s) -> reaches s s' ->
  manager_wf (Service.services s') /\ forall n, fst <$> view (Service.services s') n = fst <$> view (Service.services s) n.
Proof.
  intros Hwf. induction 1 as [|s1 e s2 _ [IH1 IH2] _ Hs]; [done|]. destruct (step_servers e s1 s2 IH1 Hs) as [H1 H2]. split; [done|].
  intros n. by rewrite H2, IH2.
Qed.

Section Proofs.
Context `{HL : HttpLaws} `{UL : UriLib} `{UP : !UriParser} `{IL : IpLib} `{RO : RegexOps} `{URL : UrlLib}.
Context (sha1 : string -> string) (server_name_ok : string -> bool).
Context {Key : Type} (opens : string -> option (list string)).
Context (to_json : AccessLogEntry -> option string).
#[local] Abbreviation state := (SharedState (Key := Key)).

(** ** Everything the server does *)
(** Requests, the single stores of reloads, and the client of the authority that
    registers and withdraws challenges. *)
Inductive server_event :=
| Incoming (a : arrival)
| StoreRouter (c : ConfigCheck.config)
| StoreServices (c : ConfigCheck.config)
| StoreMiddlewares (c : ConfigCheck.config)
| Challenges (m : gmap string string).

Definition set_challenges (m : gmap string string) (s : state) : state :=
  {| ss_router := ss_router s; ss_middlewares := ss_middlewares s; ss_world := ss_world s; ss_connections := ss_connections s;
     ss_challenges := m; ss_resolver := ss_resolver s; ss_log := ss_log s |}.
Definition incoming (a : arrival) (s : state) : result Empty_set Response * state :=
  service sha1 server_name_ok to_json (ar_env a) (ar_now a) (ar_clock a) (ar_entrypoint a) (ar_ip a) (ar_remote a) (ar_tls a) (ar_request a) s.
(** A configuration that cannot be built aborts the reload before its stores: the
    process in the release profile, the watching task in others. *)
Definition server_step (e : server_event) (s : state) : state :=
  match e with
  | Incoming a => (incoming a s).2
  | StoreRouter c => match build_parts c with Ok p => store_router p.1.1 s | _ => s end
  | StoreServices c => match build_parts c with Ok p => store_services p.1.2 s | _ => s end
  | StoreMiddlewares c => match build_parts c with Ok p => store_middlewares p.2 s | _ => s end
  | Challenges m => set_challenges m s
  end.
Definition server_run (es : list server_event) (s : state) : state := foldl (fun s e => server_step e s) s es.

(** The configurations services were taken from. *)
Definition service_configs (c0 : ConfigCheck.config) (es : list server_event) : list ConfigCheck.config :=
  c0 :: omap (fun e => match e with StoreServices c => Some c | _ => None end) es.
Definition configured_backend (cs : list ConfigCheck.config) (u : string) : Prop :=
  exists c n sc srv, c ∈ cs /\ (n, sc) ∈ service_entry <$> ConfigCheck.services c /\ srv ∈ lb_servers_of sc /\ backend_url srv = u.

Lemma build_parts_ok c p : build_parts c = Ok p ->
  from_config (router_entry <$> ConfigCheck.routers c) = Some p.1.1 /\ p.1.2 = manager_new (service_entry <$> ConfigCheck.services c) /\
  registry_new (registry_entries c) ∅ = Ok p.2.
Proof.
  unfold build_parts. destruct (from_config _) as [rt|]; [|done]. destruct (registry_new _ _) as [reg|e|]; [|destruct e|done].
  cbn [res_bind]. by intros [= <-].
Qed.

(** What holds at any time. *)
Record server_ok (cs : list ConfigCheck.config) (s : state) : Prop := {
  ok_router : exists cfg, from_config cfg = Some (ss_router s);
  ok_services : manager_wf (w_services (ss_world s));
  ok_views : forall n ss hs srv, view (w_services (ss_world s)) n = Some (ss, hs) -> srv ∈ ss -> configured_backend cs (backend_url srv);
  ok_sent : forall u m, (u, m) ∈ w_sent (ss_world s) -> configured_backend cs u;
}.
Lemma ok_more cs cs' s : server_ok cs s -> cs ⊆ cs' -> server_ok cs' s.
Proof.
  intros [H1 H2 H3 H4] Hsub. assert (Hm : forall u, configured_backend cs u -> configured_backend cs' u).
  { intros u (c & n & sc & srv & Hc & Hr). exists c, n, sc, srv. split; [by apply Hsub|done]. }
  split; [done|done|intros; by eapply Hm, H3|intros; by eapply Hm, H4].
Qed.

Lemma built_views c n ss hs srv : sizes_ok (service_entry <$> ConfigCheck.services c) ->
  view (manager_new (service_entry <$> ConfigCheck.services c)) n = Some (ss, hs) -> srv ∈ ss -> configured_backend [c] (backend_url srv).
Proof.
  intros Hok Hv Hs. destruct (start_view _ _ _ _ Hok Hv) as (sc & Hc & -> & _). exists c, n, sc, srv. split_and!; [by left|done|done|done].
Qed.

Lemma incoming_ok cs a s : server_ok cs s -> server_ok cs (incoming a s).2.
Proof.
  intros [[cfg Hrt] Hwf Hv Hsent]. unfold incoming, service. destruct (if negb (ar_tls a) then _ else _) as [c|]; [by split; eauto|].
  set (req := inject_context _ _ _).
  pose proof (handle_reaches sha1 server_name_ok to_json (ar_env a) (ar_now a) (ar_clock a) (ss_router s) (ar_entrypoint a) (ar_ip a) (ar_remote a) (ar_tls a)
    req (ss_middlewares s) (ss_log s) (ss_world s)) as Hr.
  pose proof (handle_sends sha1 server_name_ok to_json (ar_env a) (ar_now a) (ar_clock a) (ss_router s) (ar_entrypoint a) (ar_ip a) (ar_remote a) (ar_tls a)
    req (ss_middlewares s) (ss_log s) (ss_world s) Hwf) as Hs.
  destruct (handle _ _ _ _ _ _ _ _ _ _ _ _ _ _ _) as [[[r reg] log] w]. cbn [snd] in Hr, Hs. cbn [ss_router ss_world snd].
  destruct (reaches_servers (system_of (ss_world s)) (system_of w) Hwf Hr) as [Hwf' Hviews]. cbn [system_of Service.services] in Hwf', Hviews. split; cbn [ss_router ss_world].
  - by exists cfg.
  - done.
  - intros n ss hs srv Hn Hsrv. specialize (Hviews n). rewrite Hn in Hviews.
    destruct (view (w_services (ss_world s)) n) as [[ss0 hs0]|] eqn:E; [|done]. cbn in Hviews. injection Hviews as ->. by eapply Hv.
  - intros u m. destruct Hs as [->|(n & u' & msg & ss & hs & srv & -> & Hview & Hsrv & <-)]; [by apply Hsent|].
    intros [Hin|[= -> ->]%list_elem_of_singleton]%elem_of_app; [by eapply Hsent|]. by eapply Hv.
Qed.

Lemma store_services_ok cs c p s : server_ok cs s -> build_parts c = Ok p -> sizes_ok (service_entry <$> ConfigCheck.services c) ->
  server_ok (cs ++ [c]) (store_services p.1.2 s).
Proof.
  intros [H1 H2 H3 H4] (_ & Hm & _)%build_parts_ok Hok. rewrite Hm. split; cbn [store_services ss_router ss_world w_services w_sent].
  - done.
  - by apply start_wf.
  - intros n ss hs srv Hv Hs. destruct (built_views c n ss hs srv Hok Hv Hs) as (c' & n' & sc & srv' & ->%list_elem_of_singleton & Hr).
    exists c, n', sc, srv'. split; [apply elem_of_app; right; by left|done].
  - intros u m Hu. destruct (H4 u m Hu) as (c' & n' & sc & srv' & Hc & Hr). exists c', n', sc, srv'. split; [apply elem_of_app; by left|done].
Qed.
Lemma step_ok cs e s : server_ok cs s ->
  (forall c, e = StoreServices c -> sizes_ok (service_entry <$> ConfigCheck.services c)) ->
  server_ok (cs ++ omap (fun e => match e with StoreServices c => Some c | _ => None end) [e]) (server_step e s).
Proof.
  intros Hok Hc. destruct e as [a|c|c|c|m]; cbn [omap list_omap server_step]; rewrite ?app_nil_r.
  - by apply incoming_ok.
  - destruct (build_parts c) as [p|e|] eqn:E; [|done|done]. apply build_parts_ok in E as (Hrt & _). destruct Hok as [_ H2 H3 H4].
    split; [by eexists|done|done|done].
  - destruct (build_parts c) as [p|e|] eqn:E; [by apply store_services_ok; [|done|apply Hc]|eapply ok_more; [done|]..]; set_solver.
  - destruct (build_parts c) as [p|e|]; [|done|done]. by destruct Hok.
  - by destruct Hok.
Qed.

(** C5. Requests only ever go to configured backends, also during reloads. From
    the start of the server, under every interleaving of requests, of the single
    stores of any number of reloads, so that requests may see parts of different
    configurations, and of challenges that are registered and withdrawn: every
    message that leaves the proxy goes to a server that one of the loaded
    configurations names, and looking up a route never aborts a request. (No
    service has more than 2^15 servers; addresses may be shared.) *)
Theorem server_sends_configured c0 seed challenges resolver es s0 :
  assemble (Key := Key) opens c0 seed challenges resolver = Ok s0 ->
  Forall (fun c => sizes_ok (service_entry <$> ConfigCheck.services c)) (service_configs c0 es) ->
  let s := server_run es s0 in
  (forall u m, (u, m) ∈ w_sent (ss_world s) -> configured_backend (service_configs c0 es) u) /\
  (forall ep q, exists o, match_request (ss_router s) ep q = Ok o).
Proof.
  intros H0 Hall. cbn zeta. assert (Hok : server_ok (service_configs c0 es) (server_run es s0)).
  { unfold service_configs in *. apply Forall_cons in Hall as [Hc0 Hall]. change (c0 :: ?l) with ([c0] ++ l).
    assert (Hs : server_ok [c0] s0).
    { unfold assemble in H0. destruct (build_parts c0) as [p|e|] eqn:E; [|destruct e|done]. injection H0 as <-.
      apply build_parts_ok in E as (Hrt & Hm & _). split; cbn [ss_router ss_world w_services w_sent]; rewrite ?Hm.
      - by eexists.
      - by apply start_wf.
      - intros n ss hs srv Hv Hs. by eapply built_views.
      - by intros u m ?%elem_of_nil. }
    clear H0. generalize dependent s0. generalize [c0] as cs. induction es as [|e es IH]; intros cs s Hs; [by rewrite app_nil_r|].
    rewrite (omap_app _ [e] es), app_assoc. cbn [server_run foldl]. apply IH.
    - rewrite (omap_app _ [e] es) in Hall. by apply Forall_app in Hall as [_ ?].
    - apply step_ok; [done|]. intros c ->. cbn in Hall. by apply Forall_cons in Hall as [? _]. }
  split; [apply Hok|]. intros ep q. destruct (ok_router _ _ Hok) as [cfg Hcfg]. destruct (match_request_spec cfg _ ep q Hcfg) as (o & Ho & _). by exists o.
Qed.

(** ** Challenges *)
(** The authority reaches the challenge handler. When the server shares the
    challenges of an ACME client, a request on an entry point without TLS gets
    exactly what the client's challenge handler answers for its path, whatever
    the routers and middlewares say, and nothing is forwarded or logged for it;
    all other requests go to the request handler. *)
Theorem challenge_answered {CA} `{AcmeLib} (cl : Acme.client (CA := CA)) a (s : state) :
  ss_challenges s = key_authorization <$> pending_challenges cl -> ar_tls a = false ->
  match Acme.fetch true cl (uri_path (rq_uri (ar_request a))) with
  | Some c => exists r, incoming a s = (Ok r, s) /\
      match c with
      | Authorization text => rs_status r = 200 /\ rs_body r = Text text /\ header_text (rs_headers r) "content-type" = Some "text/plain"
      | ChallengeNotFound => rs_status r = 404
      end
  | None => incoming a s =
      (let '(r, reg, log, w) := handle sha1 server_name_ok to_json (ar_env a) (ar_now a) (ar_clock a) (ss_router s) (ar_entrypoint a) (ar_ip a)
         (ar_remote a) false (inject_context (ar_ip a) false (ar_request a)) (ss_middlewares s) (ss_log s) (ss_world s) in
       (r, {| ss_router := ss_router s; ss_middlewares := reg; ss_world := w; ss_connections := ss_connections s;
              ss_challenges := ss_challenges s; ss_resolver := ss_resolver s; ss_log := log |}))
  end.
Proof.
  intros Hs Ht. unfold Acme.fetch, incoming, service. rewrite Ht, Hs. cbn [negb].
  destruct (handle_challenge _ _) as [[text|]|]; cbn [challenge_response]; [| |done].
  - destruct (build_header_ok (E := Empty_set) "content-type" "text/plain" hm_empty eq_refl) as (v & -> & Hv). cbn [res_bind].
    eexists. split; [reflexivity|]. cbn [rs_status rs_body rs_headers]. split_and!; [done|done|]. unfold header_text. rewrite get_insert_eq. exact Hv.
  - by eexists.
Qed.

(** ** Reloads *)
(** What a reload replaces and keeps. Both a reload and a start build their parts with
    [build_parts]: router, services and middlewares are those of a fresh start, and
    the passive checker's records, the connections, challenges, certificates and the
    access log live on. When the parts cannot be built, the call aborts (with it a
    process of a release build) before it has stored any of them. *)
Lemma reload_like_restart c seed (s : state) :
  match reload c s with
  | Ok s' => server_run [StoreRouter c; StoreServices c; StoreMiddlewares c] s = s' /\
      exists fresh, assemble opens c seed (ss_challenges s) (ss_resolver s) = Ok fresh /\
        s' = {| ss_router := ss_router fresh; ss_middlewares := ss_middlewares fresh;
                ss_world := {| w_services := w_services (ss_world fresh); w_passive := w_passive (ss_world s); w_rng := w_rng (ss_world s);
                               w_sent := w_sent (ss_world s) |};
                ss_connections := ss_connections s; ss_challenges := ss_challenges s; ss_resolver := ss_resolver s; ss_log := ss_log s |}
  | _ => server_run [StoreRouter c; StoreServices c; StoreMiddlewares c] s = s /\ assemble opens c seed (ss_challenges s) (ss_resolver s) = Panic
  end.
Proof using Type.
  unfold reload, assemble. cbn [server_run foldl server_step]. destruct (build_parts c) as [p|e|]; [|destruct e|done].
  cbn [res_bind]. split; [done|]. eexists. split; [reflexivity|]. done.
Qed.

(** A reload marks every server as healthy again, also those that the passive
    checker, which is kept, has ejected. *)
Lemma reload_resets_flags c p (s : state) n ss hs : build_parts c = Ok p -> sizes_ok (service_entry <$> ConfigCheck.services c) ->
  view (w_services (ss_world (store_services p.1.2 s))) n = Some (ss, hs) ->
  hs = replicate (length ss) true /\ w_passive (ss_world (store_services p.1.2 s)) = w_passive (ss_world s).
Proof.
  intros (_ & Hm & _)%build_parts_ok Hok Hv. cbn [store_services ss_world w_services] in Hv. rewrite Hm in Hv.
  by destruct (start_view _ _ _ _ Hok Hv) as (sc & _ & _ & ->).
Qed.

(** ** TLS *)
Definition wants_tls (ep : EntryPoint.t) : Prop := exists h t, EntryPoint.http ep = Some h /\ EntryPointHttp.tls h = Some t.

(** Which entry points speak TLS. An entry point terminates TLS exactly when
    its configuration asks for it and the server has a certificate resolver,
    static or from ACME; it then serves the certificates of that resolver and
    offers HTTP/2 and HTTP/1.1, and asks no client for a certificate. *)
Theorem listener_tls ep (s : state) :
  (connection_is_tls ep s = true <-> wants_tls ep /\ is_Some (ss_resolver s)) /\
  (forall acceptor, build_tls_acceptor ep s = Some acceptor ->
     exists r, ss_resolver s = Some r /\ source acceptor = Resolved r /\ alpn_protocols acceptor = ["h2"; "http/1.1"] /\ verifier acceptor = NoAuth).
Proof using Type.
  unfold connection_is_tls, wants_tls, build_tls_acceptor. destruct (EntryPoint.http ep) as [h|]; cbn [mbind option_bind is_some].
  2: { split; [|done]. split; [done|]. by intros [(h & t & ? & _) _]. }
  destruct (EntryPointHttp.tls h) as [t|] eqn:Et; cbn [mbind option_bind is_some].
  2: { split; [|done]. split; [done|]. intros [(h' & t & [= <-] & ?) _]. congruence. }
  destruct (ss_resolver s) as [r|]; cbn [mbind option_bind from_resolver].
  - destruct (EntryPointTls.cert_resolver t); cbn [is_some]; (split; [split; [intros _; split; [by eexists _, _|by eexists]|done]|]);
      intros acceptor [= <-]; by exists r.
  - destruct (EntryPointTls.cert_resolver t); cbn [is_some]; (split; [split; [done|by intros [_ [? ?]]]|done]).
Qed.
(** Without a resolver an entry point that asks for TLS serves plain HTTP. *)
Lemma tls_without_resolver_plain ep (s : state) : wants_tls ep -> ss_resolver s = None -> connection_is_tls ep s = false.
Proof.
  intros (h & t & Hh & Ht) Hr. unfold connection_is_tls, build_tls_acceptor. rewrite Hh. cbn [mbind option_bind]. rewrite Ht, Hr.
  cbn [mbind option_bind]. by destruct (EntryPointTls.cert_resolver t).
Qed.
(** One certificate that cannot be loaded disables all static ones. *)
Lemma static_certs_all_or_nothing (load_pair : string * string -> result unit (Key * list string)) certs tc : forall r, tc ∈ certs ->
  (forall c, c ∈ certs -> load_pair c <> Panic) -> load_pair tc = Err tt -> from_static_certs load_pair certs r = Err tt.
Proof using Type.
  induction certs as [|c certs IH]; intros r Hin Hp Hl; [by apply elem_of_nil in Hin|]. cbn [from_static_certs].
  apply elem_of_cons in Hin as [<-|Hin]; [by rewrite Hl|]. pose proof (Hp c ltac:(by left)) as Hc.
  destruct (load_pair c) as [[k ds]|[]|]; [|done|done]. cbn [res_bind]. apply IH; [done| |done]. intros c' Hc'. apply Hp. by right.
Qed.
End Proofs.

(** ** A concrete server *)
#[local] Existing Instance map_http.
#[local] Existing Instance text_uri.
#[local] Existing Instance two_hosts.
#[local] Existing Instance no_regex_ops.
#[local] Existing Instance text_url.
#[local] Existing Instance demo_parser.

Definition demo_config : ConfigCheck.config :=
  {| ConfigTypes.Config.entry_points := []; ConfigTypes.Config.tcp := None; ConfigTypes.Config.udp := None; ConfigTypes.Config.tls := None;
     ConfigTypes.Config.http := Some {| HttpConfig.routers := [("all", ConfigTypes.Router.new "PathPrefix(`/`)" "web")];
       HttpConfig.services := [("web", {| ConfigTypes.Service.load_balancer :=
           Some (ConfigTypes.LoadBalancerService.new [mk_server "http://a" 1; mk_server "http://b" 1]);
         ConfigTypes.Service.weighted := None; ConfigTypes.Service.mirroring := None; ConfigTypes.Service.failover := None |})];
       HttpConfig.middlewares := []; HttpConfig.servers_transports := [] |};
     ConfigTypes.Config.certificates_resolvers := []; ConfigTypes.Config.providers := None; ConfigTypes.Config.metrics := None;
     ConfigTypes.Config.api := None; ConfigTypes.Config.log := None; ConfigTypes.Config.access_log := None; ConfigTypes.Config.cluster := None |}.
Definition demo_state : SharedState (Key := unit) :=
  match assemble (fun _ => None) demo_config 7 {["tok" := "tok.thumb"]} None with
  | Ok s => s
  | _ => {| ss_router := demo_rt; ss_middlewares := ∅; ss_world := demo_world; ss_connections := tracker_new; ss_challenges := ∅; ss_resolver := None; ss_log := None |}
  end.
Lemma demo_state_ok : assemble (Key := unit) (fun _ => None) demo_config 7 {["tok" := "tok.thumb"]} None = Ok demo_state.
Proof.
  assert (Hok : match assemble (Key := unit) (fun _ => None) demo_config 7 {["tok" := "tok.thumb"]} None with Ok _ => true | _ => false end = true)
    by (vm_compute; reflexivity).
  unfold demo_state. by destruct (assemble _ _ _ _ _).
Qed.
Definition demo_events : list server_event :=
  [Incoming (demo_arrival true); StoreRouter demo_config; Incoming (demo_arrival false); StoreServices demo_config; Incoming (demo_arrival true)].

Lemma server_sends_configured_witness :
  fst <$> w_sent (ss_world (server_run (fun s => s) (fun _ => true) (fun _ => None) demo_events demo_state)) = ["http://a"; "http://b"; "http://a"] /\
  configured_backend (service_configs demo_config demo_events) "http://b".
Proof.
  assert (Hs : fst <$> w_sent (ss_world (server_run (fun s => s) (fun _ => true) (fun _ => None) demo_events demo_state)) = ["http://a"; "http://b"; "http://a"])
    by (vm_compute; reflexivity).
  split; [exact Hs|].
  assert (Hu : "http://b" ∈ fst <$> w_sent (ss_world (server_run (fun s => s) (fun _ => true) (fun _ => None) demo_events demo_state)))
    by (rewrite Hs; right; left).
  apply list_elem_of_fmap in Hu as ([u m] & Hu & Hin). cbn [fst] in Hu. subst u.
  assert (H2 : Forall (fun c => sizes_ok (service_entry <$> ConfigCheck.services c)) (service_configs demo_config demo_events))
    by (apply Forall_cons_2; [exact two_backends_ok|]; apply Forall_cons_2; [exact two_backends_ok|]; apply Forall_nil_2).
  destruct (server_sends_configured (fun s => s) (fun _ => true) (fun _ => None) (fun _ => None) demo_config 7 {["tok" := "tok.thumb"]} None
    demo_events demo_state demo_state_ok H2) as [H _]. exact (H "http://b" m Hin).
Defined.

Definition challenge_arrival : arrival :=
  {| ar_env := demo_env 0 None; ar_now _ := (0, 0); ar_clock := (0, 0, 0); ar_entrypoint := "web"; ar_ip := false : @IpAddr two_hosts;
     ar_remote := "1.2.3.4:5"; ar_tls := false;
     ar_request := {| rq_method := "GET"; rq_uri := (None, None, "/.well-known/acme-challenge/tok") : Uri; rq_headers := hm_empty; rq_context := None |} |}.
Definition challenge_client : Acme.client (AL := demo_lib) (CA := unit) :=
  {| storage := {| data := storage_default; file := None |}; directory := None; key_pair := None; account_url := None;
     pending_challenges := {["tok" := {| token := "tok"; key_authorization := "tok.thumb" |}]}; Acme.authority := tt; clock := 0;
     Acme.rng := 0; exchanges := [] |}.
Lemma challenge_answered_witness :
  exists r, incoming (fun s => s) (fun _ => true) (fun _ => None) challenge_arrival demo_state = (Ok r, demo_state) /\ rs_status r = 200 /\ rs_body r = Text "tok.thumb".
Proof.
  assert (Hs : ss_challenges demo_state = key_authorization <$> pending_challenges challenge_client) by (vm_compute; reflexivity).
  assert (Hf : Acme.fetch true challenge_client (uri_path (rq_uri (ar_request challenge_arrival))) = Some (Authorization "tok.thumb")) by (vm_compute; reflexivity).
  pose proof (challenge_answered (fun s => s) (fun _ => true) (fun _ => None) challenge_client challenge_arrival demo_state Hs eq_refl) as H.
  rewrite Hf in H. destruct H as (r & Hr & H1 & H2 & _). exists r. split; [exact Hr|split; [exact H1|exact H2]].
Defined.
