(* ===== verification/Admin.v ===== *)
(** * The administration interface

    Models src/src/admin/api.rs: the dispatch on method and path, what each
    endpoint reports of the configuration, and the endpoints that inspect and
    drain cluster nodes, over the managers and stores of [Cluster]. The JSON
    serializer and the text of errors are parameters; the dashboard is a
    constant text. *)
From S2P Require Import Prelude RustStr L4 ConfigTypes LocalStore Cluster ConfigCheck.
From stdpp Require Import list gmap.
Open Scope Z_scope.
Open Scope list_scope.

(** ** Reports *)
Record RouterInfo := { ri_name : string; ri_rule : string; ri_service : string; ri_entrypoints : list string; ri_middlewares : list string; ri_priority : Z }.
Record ServerInfo := { si_url : string; si_weight : option Z (* i32 *) }.
Record ServiceInfo := { sv_name : string; sv_servers : list ServerInfo; sv_load_balancer : option string }.
Inductive report :=
| Overview (version : string) (routers services middlewares entrypoints : nat)
| Entrypoints (l : list (string * string))
| Routers (l : list RouterInfo)
| RouterDetail (r : RouterInfo) (status : string)
| Services (l : list ServiceInfo)
| ServiceDetail (s : ServiceInfo) (healthy : list bool) (status : string)
| Middlewares (l : list (string * string))
| HealthStatus (status : string) (services : list (string * string * list (string * string)))
| ClusterStatus (s : ClusterStats)
| NotEnabled (enabled : bool) (message : string)
| NodeList (l : list NodeInfo)
| NodeDetail (n : NodeInfo)
| DrainResponse (success : bool) (message node_id : string).

Inductive body := Json (text : string) | ErrorJson (message : string) | Plain (text : string) | Dashboard.
Record reply := { code : Z; content_type : string; content : body }.

(** [w as i32] *)
Definition as_i32 (w : Z) : Z := (w + 2 ^ 31) mod 2 ^ 32 - 2 ^ 31.

(** Looking up one node, which only this interface does. *)
Class NodeLookup (S : Type) := { st_node_get : string -> Z -> S -> result StoreError (option NodeInfo) * S }.
#[export] Instance local_lookup : NodeLookup LocalStore := {| st_node_get id _ s := (Ok (node_get id s), s) |}.

Section Admin.
Context {S : Type} `{CS : ClusterStore S} `{NL : NodeLookup S}.
Context (version : string) (to_json : report -> option string) (error_text : StoreError -> string) (cfg : ConfigCheck.config).

(** The cluster manager and its store, if cluster mode is on. *)
Definition cluster : Type := option (ClusterManager * S).

Definition json_response (r : report) : reply :=
  match to_json r with
  | Some text => {| code := 200; content_type := "application/json"; content := Json text |}
  | None => {| code := 500; content_type := "application/json"; content := ErrorJson "Serialization failed" |}
  end.
Definition not_found : reply := {| code := 404; content_type := "application/json"; content := ErrorJson "Not Found" |}.
Definition error_response (status : Z) (message : string) : reply :=
  {| code := status; content_type := "application/json"; content := ErrorJson message |}.

(** ** The configuration *)
Definition overview : reply :=
  json_response (Overview version (length (ConfigCheck.routers cfg)) (length (ConfigCheck.services cfg)) (length (ConfigCheck.middlewares cfg))
    (length (ConfigTypes.Config.entry_points cfg))).
Definition entrypoints : reply :=
  json_response (Entrypoints ((fun e => (e.1, EntryPoint.address e.2)) <$> ConfigTypes.Config.entry_points cfg)).
Definition router_info (e : string * ConfigTypes.Router.t) : RouterInfo :=
  {| ri_name := e.1; ri_rule := ConfigTypes.Router.rule e.2; ri_service := ConfigTypes.Router.service e.2;
     ri_entrypoints := ConfigTypes.Router.entry_points e.2; ri_middlewares := ConfigTypes.Router.middlewares e.2;
     ri_priority := ConfigTypes.Router.priority e.2 |}.
Definition routers_list : reply := json_response (Routers (router_info <$> ConfigCheck.routers cfg)).
Definition find_named {A} (name : string) (l : list (string * A)) : option A := snd <$> List.find (fun e => bool_decide (e.1 = name)) l.
Definition router_detail (name : string) : reply :=
  match find_named name (ConfigCheck.routers cfg) with
  | Some r => json_response (RouterDetail (router_info (name, r)) "enabled")
  | None => not_found
  end.
Definition servers_of (s : ConfigTypes.Service.t) : list Config.Server :=
  from_option ConfigTypes.LoadBalancerService.servers [] (ConfigTypes.Service.load_balancer s).
Definition service_info (e : string * ConfigTypes.Service.t) : ServiceInfo :=
  {| sv_name := e.1; sv_servers := (fun s => {| si_url := Config.url s; si_weight := Some (as_i32 (Config.weight s)) |}) <$> servers_of e.2;
     sv_load_balancer := (fun _ => "roundRobin") <$> ConfigTypes.Service.load_balancer e.2 |}.
Definition services_list : reply := json_response (Services (service_info <$> ConfigCheck.services cfg)).
(** Every server is reported as healthy. *)
Definition service_detail (name : string) : reply :=
  match find_named name (ConfigCheck.services cfg) with
  | Some s => json_response (ServiceDetail (service_info (name, s)) ((fun _ => true) <$> servers_of s) "enabled")
  | None => not_found
  end.
Definition middlewares_list : reply := json_response (Middlewares ((fun e => (e.1, middleware_type e.2)) <$> ConfigCheck.middlewares cfg)).
Definition health_status : reply :=
  json_response (HealthStatus "healthy"
    ((fun e => (e.1, "healthy", (fun s => (Config.url s, "healthy")) <$> servers_of e.2)) <$> ConfigCheck.services cfg)).

(** ** The cluster *)
Definition cluster_status (wall now : Z) (c : cluster) : reply * cluster :=
  match c with
  | Some (m, s) => let '(stats, s) := get_cluster_stats wall now m s in (json_response (ClusterStatus stats), Some (m, s))
  | None => (json_response (NotEnabled false "Cluster mode not enabled"), None)
  end.
Definition cluster_nodes (wall now : Z) (c : cluster) : reply * cluster :=
  match c with
  | Some (m, s) =>
      let '(r, s) := get_active_nodes wall now m s in
      (match r with
       | Ok l => json_response (NodeList l)
       | Err e => error_response 500 ("Failed to get nodes: " +:+ error_text e)
       | Panic => error_response 500 "" (* no store operation aborts *)
       end, Some (m, s))
  | None => (json_response (NodeList []), None)
  end.
Definition node_detail (id : string) (now : Z) (c : cluster) : reply * cluster :=
  match c with
  | Some (m, s) =>
      let '(r, s) := st_node_get id now s in
      (match r with
       | Ok (Some n) => json_response (NodeDetail n)
       | Ok None => not_found
       | Err e => error_response 500 ("Failed to get node: " +:+ error_text e)
       | Panic => error_response 500 ""
       end, Some (m, s))
  | None => (not_found, None)
  end.
Definition start_drain_endpoint (wall now : Z) (c : cluster) : reply * cluster :=
  match c with
  | Some (m, s) =>
      let '(r, m', s) := start_drain wall now m s in
      (match r with
       | Ok _ => json_response (DrainResponse true "Drain started" (cm_node_id m))
       | Err e => error_response 500 ("Failed to start drain: " +:+ error_text e)
       | Panic => error_response 500 ""
       end, Some (m', s))
  | None => (error_response 400 "Cluster mode not enabled", None)
  end.
Definition stop_drain (c : cluster) : reply * cluster :=
  (error_response 501 "Undrain not yet implemented. Restart the node to re-enable.", c).
Definition drain_node (id : string) (wall now : Z) (c : cluster) : reply * cluster :=
  match c with
  | Some (m, s) =>
      if bool_decide (cm_node_id m = id) then start_drain_endpoint wall now c
      else
        let '(r, s) := st_node_set_status id Draining wall now s in
        (match r with
         | Ok _ => json_response (DrainResponse true ("Drain initiated for node " +:+ id) id)
         | Err e => error_response 500 ("Failed to drain node: " +:+ error_text e)
         | Panic => error_response 500 ""
         end, Some (m, s))
  | None => (error_response 400 "Cluster mode not enabled", None)
  end.

(** ** Dispatch *)
Definition ping : reply := {| code := 200; content_type := "text/plain"; content := Plain "OK" |}.
Definition dashboard : reply := {| code := 200; content_type := "text/html; charset=utf-8"; content := Dashboard |}.
Definition nodes_prefix : string := "/api/cluster/nodes/".
(** [trim_start_matches] and [trim_end_matches] remove all repetitions. *)
Definition trim_prefix (p s : string) : string := strip_all (String.length s) [p] s.
Definition trim_suffix (p s : string) : string := str_rev (strip_all (String.length s) [str_rev p] (str_rev s)).

Definition handle (method path : string) (wall now : Z) (c : cluster) : reply * cluster :=
  let get := bool_decide (method = "GET") in
  let post := bool_decide (method = "POST") in
  let at_ p := bool_decide (path = p) in
  if get && at_ "/api/overview" then (overview, c)
  else if get && at_ "/api/entrypoints" then (entrypoints, c)
  else if get && at_ "/api/routers" then (routers_list, c)
  else if get && at_ "/api/services" then (services_list, c)
  else if get && at_ "/api/middlewares" then (middlewares_list, c)
  else if get && starts_with "/api/routers/" path then (router_detail (str_drop (String.length "/api/routers/") path), c)
  else if get && starts_with "/api/services/" path then (service_detail (str_drop (String.length "/api/services/") path), c)
  else if get && at_ "/api/health" then (health_status, c)
  else if get && at_ "/api/cluster" then cluster_status wall now c
  else if get && at_ "/api/cluster/nodes" then cluster_nodes wall now c
  else if post && at_ "/api/cluster/drain" then start_drain_endpoint wall now c
  else if post && at_ "/api/cluster/undrain" then stop_drain c
  else if get && starts_with nodes_prefix path then
    let id := str_drop (String.length nodes_prefix) path in
    if ends_with "/drain" id then drain_node (trim_suffix "/drain" id) wall now c else node_detail id now c
  else if post && starts_with nodes_prefix path && ends_with "/drain" path then
    drain_node (trim_suffix "/drain" (trim_prefix nodes_prefix path)) wall now c
  else if get && at_ "/ping" then (ping, c)
  else if get && (at_ "/" || at_ "/dashboard") then (dashboard, c)
  else (not_found, c).
End Admin.

(** ** What requests can change *)
Section Proofs.
Context (version : string) (to_json : report -> option string) (error_text : StoreError -> string) (cfg : ConfigCheck.config).
#[local] Abbreviation handle := (handle (S := LocalStore) version to_json error_text cfg).

(** Requests that name a node to drain. *)
Definition drain_target (m : ClusterManager) (method path : string) : option string :=
  if bool_decide (method = "POST") && bool_decide (path = "/api/cluster/drain") then Some (cm_node_id m)
  else if bool_decide (method = "GET") && starts_with nodes_prefix path then
    let id := str_drop (String.length nodes_prefix) path in
    if ends_with "/drain" id then Some (trim_suffix "/drain" id) else None
  else if bool_decide (method = "POST") && starts_with nodes_prefix path && ends_with "/drain" path then
    Some (trim_suffix "/drain" (trim_prefix nodes_prefix path))
  else None.
Definition drained (id : string) (m : ClusterManager) (s : LocalStore) : ClusterManager * LocalStore :=
  (if bool_decide (cm_node_id m = id) then set_draining m else m, node_set_status id Draining s).

Lemma drain_node_state id wall now m s :
  (drain_node (S := LocalStore) to_json error_text id wall now (Some (m, s))).2 = Some (drained id m s).
Proof.
  unfold drain_node, drained. case_bool_decide as Hd; [|done]. subst id. done.
Qed.

(** No path under the routers or the services is one under the nodes. *)
Lemma prefix_apart p path : p = "/api/routers/" \/ p = "/api/services/" -> starts_with p path = true -> starts_with nodes_prefix path = false.
Proof.
  intros Hp [r ->]%starts_with_spec. destruct (starts_with nodes_prefix (p +:+ r)) eqn:E; [|done].
  apply starts_with_spec in E as [r' E]. by destruct Hp as [-> | ->].
Qed.

Lemma prefix_false p id : p = "/api/routers/" \/ p = "/api/services/" -> starts_with p (nodes_prefix +:+ id) = false.
Proof. by intros [-> | ->]. Qed.

(** The administration interface changes nothing but drain states. With a
    cluster on the local store, every request leaves the manager and the store as
    they are, except those that drain a node: [POST /api/cluster/drain], and
    requests below [/api/cluster/nodes/] that end in [/drain]; they set the
    status of the named node, and the manager's own flag if it is this one.
    Without a cluster no request changes anything. *)
Theorem admin_changes method path wall now m s :
  (handle method path wall now (Some (m, s))).2 =
    Some (match drain_target m method path with Some id => drained id m s | None => (m, s) end) /\
  (handle method path wall now None).2 = None.
Proof.
  unfold Admin.handle, drain_target. cbn zeta.
  destruct (decide (method = "GET")) as [->|Hg].
  - change (bool_decide ("GET" = "GET")) with true. change (bool_decide ("GET" = "POST")) with false. cbn [andb].
    repeat (case_bool_decide; [subst path; done|]).
    destruct (starts_with "/api/routers/" path) eqn:E1; [by rewrite (prefix_apart _ _ (or_introl eq_refl) E1)|].
    destruct (starts_with "/api/services/" path) eqn:E2; [by rewrite (prefix_apart _ _ (or_intror eq_refl) E2)|].
    repeat (case_bool_decide; [subst path; done|]).
    destruct (starts_with nodes_prefix path); [|by repeat case_match].
    case_match; [|done]. by rewrite drain_node_state.
  - rewrite (bool_decide_eq_false_2 _ Hg). cbn [andb].
    destruct (decide (method = "POST")) as [->|Hp]; [|by rewrite (bool_decide_eq_false_2 _ Hp)].
    rewrite bool_decide_eq_true_2 by done. cbn [andb]. case_bool_decide; [unfold drained; by rewrite (bool_decide_eq_true_2 (cm_node_id m = _))|].
    case_bool_decide as E; [subst path; done|].
    destruct (starts_with nodes_prefix path && ends_with "/drain" path); [|done]. by rewrite drain_node_state.
Qed.

(** A [GET] drains as well: reading the page of a node's drain takes it out of
    service. *)
Lemma get_drains_node m id wall now s : ends_with "/drain" id = true ->
  (handle "GET" (nodes_prefix +:+ id) wall now (Some (m, s))).2 = Some (drained (trim_suffix "/drain" id) m s).
Proof.
  intros Hid. assert (Hs : starts_with nodes_prefix (nodes_prefix +:+ id) = true) by (apply starts_with_spec; eauto).
  unfold Admin.handle. cbn zeta. change (bool_decide ("GET" = "GET")) with true. cbn [andb].
  repeat (case_bool_decide; [done|]). rewrite Hs, str_drop_app, Hid. cbn [andb].
  rewrite !(fun p H => prefix_false p id H) by eauto. apply drain_node_state.
Qed.

(** Draining a node that is not in the store changes nothing and is answered
    like a success. *)
Lemma drain_unknown_reported m id wall now s : nodes s !! id = None -> cm_node_id m <> id ->
  drain_node to_json error_text id wall now (Some (m, s)) =
    (json_response to_json (DrainResponse true ("Drain initiated for node " +:+ id) id), Some (m, s)).
Proof.
  intros Hn Hid. unfold drain_node. rewrite bool_decide_eq_false_2 by done. cbn. unfold node_set_status. by rewrite Hn.
Qed.
End Proofs.
