(* ===== verification/InstanceLock.v ===== *)
(** * One instance at a time

    Models src/src/single_instance.rs and its use at the start of
    src/src/main.rs: every process opens the lock file, asks for a write lock on
    it without waiting, reads the recorded process number when the lock is
    refused, or empties the file and writes its own. The system calls of
    different processes interleave; the kernel's lock belongs to one process at
    a time and goes with it. *)
From S2P Require Import Prelude RustStr Duration.
From stdpp Require Import list gmap.
Open Scope Z_scope.
Open Scope list_scope.

Inductive InstanceLockError := AlreadyRunning (pid : Z) | OpenFailed | LockFailed.

(** [parse::<i32>()] *)
Definition parse_i32 (s : string) : option Z :=
  let '(neg, ds) := match s with String "-" ds => (true, ds) | String "+" ds => (false, ds) | _ => (false, s) end in
  if bool_decide (ds = "") || negb (str_forall is_digit ds) then None
  else
    let n := if neg : bool then - dec_scan ds 0 else dec_scan ds 0 in
    if (- 2 ^ 31 <=? n) && (n <? 2 ^ 31) then Some n else None.

Definition newline : string := String (Ascii.ascii_of_nat 10) "".
Definition recorded (contents : string) : Z := default 0 (parse_i32 (trim contents)).
Definition pid_line (pid : Z) : string := dec pid +:+ newline.

(** Where a process is in [acquire_at], and what [main] makes of its result: it
    ends when another instance runs, and goes on without a lock after any other
    error. *)
Inductive stage :=
| Started | Opened | Refused | Locked | Emptied
| Running (locked : bool)
| Ended (report : option InstanceLockError).
Record os := { contents : string; holder : option Z; procs : gmap Z stage }.
Definition os_new (contents : string) : os := {| contents := contents; holder := None; procs := ∅ |}.

Definition move (p : Z) (st : stage) (s : os) : os := {| contents := contents s; holder := holder s; procs := <[p := st]> (procs s) |}.
Definition put (text : string) (s : os) : os := {| contents := text; holder := holder s; procs := procs s |}.
Definition hold (h : option Z) (s : os) : os := {| contents := contents s; holder := h; procs := procs s |}.

(** [main] on the result of [acquire]. *)
Definition after_error (e : InstanceLockError) : stage :=
  match e with AlreadyRunning pid => Ended (Some e) | _ => Running false end.

(** The system calls of a process, with their outcomes; a write overwrites the
    beginning of the file. *)
Inductive os_event :=
| Start (p : Z) | Open (p : Z) (ok : bool) | SetLk (p : Z) (ok : bool) | ReadPid (p : Z) (ok : bool)
| SetLen (p : Z) (ok : bool) | WritePid (p : Z) (ok : bool) | Exit (p : Z).
Definition os_step (e : os_event) (s : os) : option os :=
  match e with
  | Start p => match procs s !! p with None => Some (move p Started s) | Some _ => None end
  | Open p ok =>
      match procs s !! p with Some Started => Some (move p (if ok then Opened else after_error OpenFailed) s) | _ => None end
  | SetLk p ok =>
      match procs s !! p with
      | Some Opened =>
          if negb (bool_decide (holder s = None \/ holder s = Some p)) then Some (move p Refused s)
          else if ok then Some (hold (Some p) (move p Locked s))
          else Some (move p (after_error LockFailed) s)
      | _ => None
      end
  | ReadPid p ok =>
      match procs s !! p with
      | Some Refused => Some (move p (after_error (AlreadyRunning (recorded (if ok then contents s else "")))) s)
      | _ => None
      end
  | SetLen p ok =>
      match procs s !! p with Some Locked => Some (move p Emptied (if ok then put "" s else s)) | _ => None end
  | WritePid p ok =>
      match procs s !! p with
      | Some Emptied =>
          let line := pid_line p in
          Some (move p (Running true) (if ok then put (line +:+ str_drop (String.length line) (contents s)) s else s))
      | _ => None
      end
  | Exit p =>
      match procs s !! p with
      | Some (Ended _) | None => None
      | Some _ => Some (hold (if bool_decide (holder s = Some p) then None else holder s) (move p (Ended None) s))
      end
  end.
Fixpoint os_run (es : list os_event) (s : os) : option os :=
  match es with [] => Some s | e :: es' => s' ← os_step e s; os_run es' s' end.

(** ** Who holds the lock *)
(** Exactly the processes past the lock call hold it. *)
Definition locking (st : stage) : bool := match st with Locked | Emptied | Running true => true | _ => false end.
Record lock_ok (s : os) : Prop := {
  ok_stage : forall p st, procs s !! p = Some st -> locking st = true <-> holder s = Some p;
  ok_holder : forall p, holder s = Some p -> is_Some (procs s !! p);
}.
Lemma lock_new text : lock_ok (os_new text).
Proof. split; done. Qed.

(** A process that moves between stages on the same side of the lock. *)
Lemma move_lock p st st' s : lock_ok s -> procs s !! p = Some st -> locking st' = locking st -> lock_ok (move p st' s).
Proof.
  intros [H1 H2] Hp Hl. split; cbn [move procs holder].
  - intros q sq. rewrite lookup_insert. case_decide as Hq; [subst q|by apply H1]. intros [= <-]. rewrite Hl. by apply H1.
  - intros q Hq. rewrite lookup_insert. case_decide; [done|by apply H2].
Qed.
Lemma start_ok p s : lock_ok s -> procs s !! p = None -> lock_ok (move p Started s).
Proof.
  intros [H1 H2] Hp. assert (Hn : holder s <> Some p) by (intros Hh; destruct (H2 p Hh); congruence). split; cbn [move procs holder].
  - intros q sq. rewrite lookup_insert. case_decide as Hq; [subst q|by apply H1]. intros [= <-]. cbn. split; [done|by intros ?%Hn].
  - intros q Hq. rewrite lookup_insert. case_decide; [done|by apply H2].
Qed.
Lemma put_ok text s : lock_ok s -> lock_ok (put text s).
Proof. intros [H1 H2]. by split. Qed.
Lemma step_lock e s s' : lock_ok s -> os_step e s = Some s' -> lock_ok s'.
Proof.
  intros Hs. pose proof Hs as [H1 H2]. destruct e as [p|p ok|p ok|p ok|p ok|p ok|p]; cbn [os_step]; destruct (procs s !! p) as [st|] eqn:Hp; try done.
  - intros [= <-]. by apply start_ok.
  - destruct st; try done. intros [= <-]. eapply move_lock; [done..|]. by destruct ok.
  - destruct st; try done. case_bool_decide as Hh; cbn [negb]; [destruct ok|]; intros [= <-]; [|by eapply move_lock..].
    assert (Hn : holder s = None) by (destruct Hh as [Hh|Hh]; [done|apply (H1 p _ Hp) in Hh; done]).
    split; cbn [hold move procs holder].
    + intros q sq. rewrite lookup_insert. case_decide as Hq; [subst q; by intros [= <-]|]. intros Hsq. rewrite (H1 q sq Hsq), Hn. split; congruence.
    + intros q [= <-]. by rewrite lookup_insert_eq.
  - destruct st; try done. intros [= <-]. by eapply move_lock.
  - destruct st; try done. intros [= <-]. destruct ok; (eapply move_lock; [|exact Hp|done]); [by apply put_ok|done].
  - destruct st; try done. intros [= <-]. destruct ok; (eapply move_lock; [|exact Hp|done]); [by apply put_ok|done].
  - assert (Hex : forall s', s' = hold (if bool_decide (holder s = Some p) then None else holder s) (move p (Ended None) s) -> lock_ok s').
    { intros ? ->. split; cbn [hold move procs holder].
      - intros q sq. rewrite lookup_insert. case_decide as Hq.
        + intros [= <-]. cbn. subst q. case_bool_decide; split; congruence.
        + intros Hsq. rewrite (H1 q sq Hsq). case_bool_decide as Hh; split; congruence.
      - intros q. rewrite lookup_insert. case_decide; [done|]. case_bool_decide; [done|]. apply H2. }
    destruct st as [| | | | |b|r]; try done; intros [= <-]; by apply Hex.
Qed.
Lemma run_lock es : forall s s', lock_ok s -> os_run es s = Some s' -> lock_ok s'.
Proof.
  induction es as [|e es IH]; intros s s' Hs; cbn [os_run]; [by intros [= <-]|]. destruct (os_step e s) as [s1|] eqn:E; [|done].
  cbn [mbind option_bind]. apply IH. by eapply step_lock.
Qed.

(** ** What the file says *)
Definition io_ok (e : os_event) : bool :=
  match e with ReadPid _ ok | SetLen _ ok | WritePid _ ok => ok | _ => true end.
(** While every file operation succeeds, the file of a locked instance names it. *)
Definition file_ok (s : os) : Prop :=
  forall p, (procs s !! p = Some (Running true) -> contents s = pid_line p) /\ (procs s !! p = Some Emptied -> contents s = "").

Lemma move_file p st s : file_ok s -> st <> Running true -> st <> Emptied -> file_ok (move p st s).
Proof. intros Hf H1 H2 q. cbn [move procs contents]. rewrite lookup_insert. case_decide; [split; congruence|apply Hf]. Qed.
Lemma other_locked s p q st st' : lock_ok s -> procs s !! p = Some st -> procs s !! q = Some st' -> locking st = true -> locking st' = true -> p = q.
Proof. intros [H1 _] Hp Hq Hl Hl'. apply (H1 p st Hp) in Hl. apply (H1 q st' Hq) in Hl'. congruence. Qed.
Lemma step_file e s s' : lock_ok s -> file_ok s -> io_ok e = true -> os_step e s = Some s' -> file_ok s'.
Proof.
  intros Hs Hf He. destruct e as [p|p ok|p ok|p ok|p ok|p ok|p]; cbn [os_step io_ok] in *; destruct (procs s !! p) as [st|] eqn:Hp; try done.
  - intros [= <-]. by apply move_file.
  - destruct st; try done. intros [= <-]. by destruct ok; apply move_file.
  - destruct st; try done. case_bool_decide; cbn [negb]; [destruct ok|]; intros [= <-]; by apply move_file.
  - destruct st; try done. intros [= <-]. by apply move_file.
  - destruct st; try done. subst ok. intros [= <-] q. cbn [move put procs contents]. rewrite lookup_insert. case_decide as Hq; [split; [done|done]|].
    split; intros Hsq; [|done]. destruct Hq. by eapply other_locked.
  - destruct st; try done. subst ok. intros [= <-] q. cbn [move put procs contents]. rewrite lookup_insert.
    destruct (Hf p) as [_ Hc]. rewrite (Hc Hp). case_decide as Hq.
    + subst q. split; [intros _|done]. replace (str_drop _ "") with "" by by destruct (String.length (pid_line p)). apply str_app_nil_r.
    + split; intros Hsq; destruct Hq; by eapply other_locked.
  - destruct st; try done; intros [= <-]; by apply (move_file p (Ended None) s).
Qed.
Lemma run_file es : forall s s', lock_ok s -> file_ok s -> forallb io_ok es = true -> os_run es s = Some s' -> file_ok s'.
Proof.
  induction es as [|e es IH]; intros s s' Hs Hf; cbn [os_run forallb]; [by intros _ [= <-]|]. intros [He Hes]%andb_prop.
  destruct (os_step e s) as [s1|] eqn:E; [|done]. cbn [mbind option_bind]. apply IH; [by eapply step_lock|by eapply step_file|done].
Qed.

Lemma parse_i32_dec n : 0 <= n < 2 ^ 31 -> parse_i32 (dec n) = Some n.
Proof.
  intros Hn. destruct (dec_ok n) as (Hs & Hd & Hne); [lia|]. unfold parse_i32.
  assert (E : match dec n with String "-" ds => (true, ds) | String "+" ds => (false, ds) | _ => (false, dec n) end = (false, dec n)).
  { destruct (dec n) as [|c s]; [done|]. apply andb_prop in Hd as [Hd _]. destruct c as [[] [] [] [] [] [] [] []]; done. }
  rewrite E, bool_decide_eq_false_2, Hd, Hs by done. cbn [orb negb].
  by rewrite (proj2 (Z.leb_le _ _)), (proj2 (Z.ltb_lt _ _)) by lia.
Qed.
Lemma trim_line s : str_forall is_plain s = true -> s <> "" -> trim (s +:+ newline) = s.
Proof.
  intros Hs Hne. destruct s as [|d s]; [done|]. destruct (last_byte_some d s) as [c Hl]. pose proof (last_byte_forall _ _ _ Hs Hl) as Hc.
  pose proof Hs as [Hd _]%andb_prop. unfold trim. change (String d s +:+ newline) with (String d (s +:+ newline)). rewrite trim_start_plain by done.
  unfold trim_end. change (String d (s +:+ newline)) with (String d s +:+ newline). rewrite str_rev_append, str_length_app, Nat.add_comm.
  destruct (last_byte_rev _ _ Hl) as [t Ht]. rewrite Ht. apply andb_prop in Hc as [_ Hc].
  change (strip_all _ _ _) with (strip_all (String.length (String d s)) (str_rev <$> white_space) (String c t)).
  rewrite strip_all_plain by done. rewrite <- Ht. apply str_rev_involutive.
Qed.
Lemma recorded_line p : 0 <= p < 2 ^ 31 -> recorded (pid_line p) = p.
Proof.
  intros Hp. unfold recorded, pid_line. destruct (dec_ok p) as (_ & _ & Hne); [lia|].
  rewrite trim_line by (done || (apply dec_plain; lia)). by rewrite parse_i32_dec.
Qed.

(** C30. At most one instance runs with the lock. In every interleaving of the
    system calls of any number of processes, whatever was in the file before and
    whichever calls fail, no two processes run with the lock at the same time;
    so two instances run together only if opening or locking the file failed for
    one of them. As long as the file operations succeed, a process that is
    refused while an instance runs reports the number of that instance. *)
Theorem instance_exclusive text es s : os_run es (os_new text) = Some s ->
  (forall p q, procs s !! p = Some (Running true) -> procs s !! q = Some (Running true) -> p = q) /\
  (forallb io_ok es = true -> forall p q s', procs s !! p = Some (Running true) -> 0 <= p < 2 ^ 31 ->
     os_step (ReadPid q true) s = Some s' -> procs s' !! q = Some (Ended (Some (AlreadyRunning p)))).
Proof.
  intros Hr. pose proof (run_lock es _ _ (lock_new text) Hr) as Hs. split; [intros p q Hp Hq; by eapply other_locked|].
  intros Hio p q s' Hp Hpid. assert (Hf : file_ok s) by (eapply run_file; [apply lock_new| |exact Hio|exact Hr]; intros x; done).
  cbn [os_step]. destruct (procs s !! q) as [[]|]; try done. intros [= <-]. cbn [move procs after_error]. rewrite lookup_insert_eq.
  destruct (Hf p) as [Hc _]. rewrite (Hc Hp), recorded_line by done. done.
Qed.

(** A process that cannot open the file runs beside the instance that holds the
    lock. *)
Lemma open_failure_two_instances :
  match os_run [Start 1; Open 1 true; SetLk 1 true; SetLen 1 true; WritePid 1 true; Start 2; Open 2 false] (os_new "") with
  | Some s => procs s !! 1 = Some (Running true) /\ procs s !! 2 = Some (Running false)
  | None => False
  end.
Proof. vm_compute. done. Qed.
(** Between taking the lock and writing the number the number of an instance that
    ended long ago is reported. *)
Lemma stale_pid_reported :
  match os_run [Start 2; Open 2 true; SetLk 2 true; Start 3; Open 3 true; SetLk 3 true; ReadPid 3 true] (os_new (pid_line 1)) with
  | Some s => procs s !! 3 = Some (Ended (Some (AlreadyRunning 1)))
  | None => False
  end.
Proof. vm_compute. done. Qed.

Definition demo_events : list os_event :=
  [Start 41; Open 41 true; SetLk 41 true; SetLen 41 true; WritePid 41 true; Exit 41; Start 42; Open 42 true; SetLk 42 true; SetLen 42 true;
   WritePid 42 true; Start 43; Open 43 true; SetLk 43 true].
Definition demo_os : os := default (os_new "") (os_run demo_events (os_new "old")).
Lemma instance_exclusive_witness :
  procs (default (os_new "") (os_step (ReadPid 43 true) demo_os)) !! 43 = Some (Ended (Some (AlreadyRunning 42))).
Proof.
  exact (proj2 (instance_exclusive "old" demo_events demo_os eq_refl) eq_refl 42 43 _ eq_refl ltac:(lia) eq_refl).
Defined.
