(* ===== verification/Relay.v ===== *)
(** * Both directions of a connection

    Models [proxy_bidirectional], [copy_stream] and [copy_stream_with_initial] of
    src/src/tcp/proxy.rs and [proxy_streams] of src/src/proxy/websocket.rs: which
    calls each direction makes, one after the other, and what becomes of the other
    direction when one ends. What the calls of the library answer ([write_all],
    [copy], [shutdown]) are inputs; nothing is said about the bytes they move. *)
From S2P Require Import Prelude RustStr.
From stdpp Require Import list.
Open Scope Z_scope.
Open Scope list_scope.

(** ** One direction *)
Inductive io_call := WriteAll (data : string) | CopyLoop | Shutdown.
Inductive io_reply := Moved (bytes : Z) | IoError.
(** The call a direction waits for, or its end with the number of bytes ([None]: an
    error). *)
Inductive flow_phase := WritingInitial | Copying | ShuttingDown | Over (bytes : option Z) | Dropped.
Record flow := { fl_calls : list io_call; fl_total : Z (* u64 *); fl_phase : flow_phase }.

(** [copy_stream], and [copy_stream_with_initial] for initial bytes. *)
Definition copy_stream (initial : string) : flow :=
  if bool_decide (initial = "") then {| fl_calls := [CopyLoop]; fl_total := 0; fl_phase := Copying |}
  else {| fl_calls := [WriteAll initial]; fl_total := Z.of_nat (String.length initial); fl_phase := WritingInitial |}.

Definition flow_step (f : flow) (r : io_reply) : flow :=
  match fl_phase f, r with
  | WritingInitial, Moved _ => {| fl_calls := fl_calls f ++ [CopyLoop]; fl_total := fl_total f; fl_phase := Copying |}
  | Copying, Moved n => {| fl_calls := fl_calls f ++ [Shutdown]; fl_total := wrap_u64 (fl_total f + n); fl_phase := ShuttingDown |}
  | WritingInitial, IoError | Copying, IoError => {| fl_calls := fl_calls f; fl_total := fl_total f; fl_phase := Over None |}
  | ShuttingDown, _ => {| fl_calls := fl_calls f; fl_total := fl_total f; fl_phase := Over (Some (fl_total f)) |}
  | Over _, _ | Dropped, _ => f
  end.
(** A branch of the [select!] of the WebSocket proxy is the bare copy loop. *)
Definition ws_flow_step (f : flow) (r : io_reply) : flow :=
  match fl_phase f, r with
  | Copying, Moved n => {| fl_calls := fl_calls f; fl_total := n; fl_phase := Over (Some n) |}
  | Copying, IoError => {| fl_calls := fl_calls f; fl_total := fl_total f; fl_phase := Over None |}
  | _, _ => f
  end.
Definition ended (f : flow) : bool := match fl_phase f with Over _ => true | _ => false end.

(** ** Both directions *)
Record relay := { to_backend : flow; to_client : flow; returned : bool }.
Definition relay_new (initial : string) : relay := {| to_backend := copy_stream initial; to_client := copy_stream ""; returned := false |}.
Inductive side := ClientToBackend | BackendToClient.
Definition other (d : side) : side := match d with ClientToBackend => BackendToClient | BackendToClient => ClientToBackend end.
Definition dir (d : side) (r : relay) : flow := match d with ClientToBackend => to_backend r | BackendToClient => to_client r end.
Definition with_dir (d : side) (f : flow) (r : relay) : relay :=
  match d with
  | ClientToBackend => {| to_backend := f; to_client := to_client r; returned := returned r |}
  | BackendToClient => {| to_backend := to_backend r; to_client := f; returned := returned r |}
  end.
Definition return_if (b : bool) (r : relay) : relay := {| to_backend := to_backend r; to_client := to_client r; returned := returned r || b |}.

(** TCP: the directions are tasks; when one ends the function returns and the
    other task goes on. *)
Definition tcp_step (r : relay) (e : side * io_reply) : relay :=
  let f := flow_step (dir e.1 r) e.2 in return_if (ended f) (with_dir e.1 f r).

(** WebSocket: the directions are branches of one task; when one ends the other
    is dropped with both connections. *)
Definition drop_flow (f : flow) : flow := {| fl_calls := fl_calls f; fl_total := fl_total f; fl_phase := Dropped |}.
Definition ws_step (r : relay) (e : side * io_reply) : relay :=
  if returned r then r
  else
    let f := ws_flow_step (dir e.1 r) e.2 in let r := with_dir e.1 f r in
    if ended f then return_if true (with_dir (other e.1) (drop_flow (dir (other e.1) r)) r) else r.

(** ** The directions of a TCP connection do not disturb each other *)
Definition replies_to (d : side) (es : list (side * io_reply)) : list io_reply :=
  omap (fun e => match d, e.1 with ClientToBackend, ClientToBackend | BackendToClient, BackendToClient => Some e.2 | _, _ => None end) es.

(** A direction is what its own replies make of it, also after the other ended and
    the function returned. *)
Lemma tcp_directions_independent d es : forall r, dir d (foldl tcp_step r es) = foldl flow_step (dir d r) (replies_to d es).
Proof.
  induction es as [|[d' x] es IH]; intros r; [done|]. cbn [foldl]. rewrite IH. unfold replies_to, tcp_step. cbn [omap list_omap fst snd].
  by destruct d, d'.
Qed.

(** A direction that ends without an error reports the initial bytes and those copied,
    and has written the initial bytes first and shut its destination down last. *)
Lemma tcp_direction_result initial rs t :
  fl_phase (foldl flow_step (copy_stream initial) rs) = Over (Some t) ->
  exists n, t = wrap_u64 (Z.of_nat (String.length initial) + n) /\
    fl_calls (foldl flow_step (copy_stream initial) rs) = (if bool_decide (initial = "") then [] else [WriteAll initial]) ++ [CopyLoop; Shutdown].
Proof.
  assert (Hover : forall rs f o, fl_phase f = Over o -> foldl flow_step f rs = f).
  { induction rs0 as [|r rs0 IH]; intros f o Hf; [done|]. cbn. unfold flow_step at 2. rewrite Hf. by eapply IH. }
  assert (Hcopy : forall rs calls total, fl_phase (foldl flow_step {| fl_calls := calls; fl_total := total; fl_phase := Copying |} rs) = Over (Some t) ->
    exists n, t = wrap_u64 (total + n) /\ fl_calls (foldl flow_step {| fl_calls := calls; fl_total := total; fl_phase := Copying |} rs) = calls ++ [Shutdown]).
  { intros [|[n|] rs1] calls total; cbn [foldl flow_step fl_phase fl_calls fl_total]; [done| |by erewrite Hover].
    destruct rs1 as [|r rs1]; [done|]. cbn [foldl flow_step fl_phase fl_calls fl_total]. erewrite Hover by done. cbn. intros [= <-]. by exists n. }
  unfold copy_stream. case_bool_decide as E.
  - subst. intros H. by apply Hcopy in H.
  - destruct rs as [|[n|] rs]; cbn [foldl flow_step fl_phase fl_calls fl_total]; [done| |by erewrite Hover]. intros H. by apply Hcopy in H.
Qed.

(** ** A WebSocket ends with its first direction *)
Lemma websocket_half_close_loses d x r es : returned r = false -> ended (ws_flow_step (dir d r) x) = true ->
  let r' := foldl ws_step (ws_step r (d, x)) es in
  returned r' = true /\ fl_phase (dir (other d) r') = Dropped /\ fl_calls (dir (other d) r') = fl_calls (dir (other d) r).
Proof.
  intros Hr He. unfold ws_step at 2. rewrite Hr. cbn [fst snd]. rewrite He. set (q := return_if true _). cbn zeta.
  assert (Hq : foldl ws_step q es = q) by (induction es as [|e es IH]; [done|]; cbn; by unfold ws_step at 2; cbn; rewrite orb_true_r).
  rewrite Hq. split_and!; [cbn; by rewrite orb_true_r|by destruct d|by destruct d].
Qed.
