(* ===== verification/Http2Pool.v ===== *)
(** * The pool of HTTP/2 connections

    Models src/src/proxy/http2_client.rs: the map from addresses to
    connections, looking one up, dialing, storing and sending. The requests
    interleave at their waits; a connection's sender is behind a lock that a
    request holds from the check that it is ready until it is answered. *)
From S2P Require Import Prelude RustStr Duration.
From stdpp Require Import list gmap.
Open Scope Z_scope.
Open Scope list_scope.

Inductive Http2Error := Connect | Handshake | Ready | Request | ConnectionClosed.
(** [sender]: whether it is ready, if there is one; [locked_by]: the request that
    holds the lock of the sender. *)
Record Http2Connection := { dialed : string; sender : option bool; locked_by : option nat }.
Definition key (host : string) (port : Z) : string := host +:+ ":" +:+ dec port.

(** The places where a request waits. *)
Inductive stage :=
| Begin | Dial | Dialed (id : nat) | Got (id : nat) | InFlight (id : nat) | Closing
| Finished (r : result Http2Error nat). (* the connection that was used *)
Record task := { host : string; port : Z; at_stage : stage }.
Record Http2ConnectionPool := {
  connections : gmap string nat;
  heap : gmap nat Http2Connection;
  next : nat;
  tasks : gmap nat task;
}.
Definition pool_new : Http2ConnectionPool := {| connections := ∅; heap := ∅; next := 0; tasks := ∅ |}.
Definition stats (s : Http2ConnectionPool) : nat := size (connections s).

Definition is_ready (c : Http2Connection) : bool := default false (sender c).
Definition remove_connection (k : string) (s : Http2ConnectionPool) : Http2ConnectionPool :=
  {| connections := delete k (connections s); heap := heap s; next := next s; tasks := tasks s |}.
Definition store_connection (k : string) (id : nat) (s : Http2ConnectionPool) : Http2ConnectionPool :=
  {| connections := <[k := id]> (connections s); heap := heap s; next := next s; tasks := tasks s |}.
Definition set_conn (id : nat) (c : Http2Connection) (s : Http2ConnectionPool) : Http2ConnectionPool :=
  {| connections := connections s; heap := <[id := c]> (heap s); next := next s; tasks := tasks s |}.
Definition create_connection (k : string) (s : Http2ConnectionPool) : Http2ConnectionPool :=
  {| connections := connections s; heap := <[next s := {| dialed := k; sender := Some true; locked_by := None |}]> (heap s);
     next := S (next s); tasks := tasks s |}.
Definition lock (t : option nat) (c : Http2Connection) : Http2Connection := {| dialed := dialed c; sender := sender c; locked_by := t |}.
Definition go (t : nat) (k : task) (st : stage) (s : Http2ConnectionPool) : Http2ConnectionPool :=
  {| connections := connections s; heap := heap s; next := next s;
     tasks := <[t := {| host := host k; port := port k; at_stage := st |}]> (tasks s) |}.

Inductive dial_outcome := Connected | ConnectFails | HandshakeFails.
Inductive send_outcome := Answered | NotReady | RequestFails.
Inductive pool_event :=
| NewRequest (t : nat) (h : string) (p : Z)
| Lookup (t : nat) | DialDone (t : nat) (o : dial_outcome) | Store (t : nat) | Send (t : nat) | Answer (t : nat) (o : send_outcome) | Remove (t : nat)
| PeerCloses (id : nat).

(** [get_or_create_connection], first part: the lock of the sender is awaited. *)
Definition lookup_step (t : nat) (k : task) (s : Http2ConnectionPool) : option Http2ConnectionPool :=
  match connections s !! key (host k) (port k) with
  | None => Some (go t k Dial s)
  | Some id =>
      match heap s !! id with
      | None => None
      | Some c => if bool_decide (locked_by c = None) then Some (go t k (if is_ready c then Got id else Dial) s) else None
      end
  end.
(** [Http2Connection::send] up to the request's being on its way. *)
Definition send_step (t : nat) (k : task) (id : nat) (s : Http2ConnectionPool) : option Http2ConnectionPool :=
  match heap s !! id with
  | None => None
  | Some c =>
      if bool_decide (locked_by c = None) then
        match sender c with
        | Some _ => Some (go t k (InFlight id) (set_conn id (lock (Some t) c) s))
        | None => Some (go t k Closing s)
        end
      else None
  end.
Definition pool_step (e : pool_event) (s : Http2ConnectionPool) : option Http2ConnectionPool :=
  match e with
  | NewRequest t h p =>
      match tasks s !! t with None => Some (go t {| host := h; port := p; at_stage := Begin |} Begin s) | Some _ => None end
  | PeerCloses id =>
      c ← heap s !! id; Some (set_conn id {| dialed := dialed c; sender := (fun _ => false) <$> sender c; locked_by := locked_by c |} s)
  | Lookup t => k ← tasks s !! t; match at_stage k with Begin => lookup_step t k s | _ => None end
  | DialDone t o =>
      k ← tasks s !! t;
      match at_stage k, o with
      | Dial, Connected => Some (go t k (Dialed (next s)) (create_connection (key (host k) (port k)) s))
      | Dial, ConnectFails => Some (go t k (Finished (Err Connect)) s)
      | Dial, HandshakeFails => Some (go t k (Finished (Err Handshake)) s)
      | _, _ => None
      end
  | Store t =>
      k ← tasks s !! t;
      match at_stage k with Dialed id => Some (go t k (Got id) (store_connection (key (host k) (port k)) id s)) | _ => None end
  | Send t => k ← tasks s !! t; match at_stage k with Got id => send_step t k id s | _ => None end
  | Answer t o =>
      k ← tasks s !! t;
      match at_stage k with
      | InFlight id =>
          c ← heap s !! id;
          Some (go t k (Finished (match o with Answered => Ok id | NotReady => Err Ready | RequestFails => Err Request end))
                  (set_conn id (lock None c) s))
      | _ => None
      end
  | Remove t =>
      k ← tasks s !! t;
      match at_stage k with Closing => Some (go t k (Finished (Err ConnectionClosed)) (remove_connection (key (host k) (port k)) s)) | _ => None end
  end.
Fixpoint pool_run (es : list pool_event) (s : Http2ConnectionPool) : option Http2ConnectionPool :=
  match es with [] => Some s | e :: es' => s' ← pool_step e s; pool_run es' s' end.

(** ** Connections belong to their address *)
Definition conn_ok (h : gmap nat Http2Connection) (k : string) (id : nat) : Prop := exists c, h !! id = Some c /\ dialed c = k.
Definition stage_ok (h : gmap nat Http2Connection) (k : string) (t : nat) (st : stage) : Prop :=
  match st with
  | Begin | Dial => True
  | Dialed id | Got id | Finished (Ok id) => conn_ok h k id
  | InFlight id => exists c, h !! id = Some c /\ dialed c = k /\ locked_by c = Some t
  | Closing | Finished (Err ConnectionClosed) | Finished Panic => False
  | Finished (Err _) => True
  end.
Record pool_ok (s : Http2ConnectionPool) : Prop := {
  po_conn : forall k id, connections s !! k = Some id -> conn_ok (heap s) k id;
  po_heap : forall id c, heap s !! id = Some c -> (id < next s)%nat /\ is_Some (sender c);
  po_task : forall t k, tasks s !! t = Some k -> stage_ok (heap s) (key (host k) (port k)) t (at_stage k);
}.
Lemma pool_new_ok : pool_ok pool_new.
Proof. by split. Qed.

(** A change of one connection that keeps its address and the locks in use. *)
Lemma conn_keep h id c c' k id' : h !! id = Some c -> dialed c' = dialed c -> conn_ok h k id' -> conn_ok (<[id := c']> h) k id'.
Proof.
  intros Hc Hd (x & Hx & Hk). unfold conn_ok. rewrite lookup_insert. case_decide as E; [subst id'|by exists x].
  exists c'. split; [done|]. congruence.
Qed.
Lemma stage_keep h id c c' k t st : h !! id = Some c -> dialed c' = dialed c -> (st = InFlight id -> locked_by c' = Some t) ->
  stage_ok h k t st -> stage_ok (<[id := c']> h) k t st.
Proof.
  intros Hc Hd Hl. destruct st as [| |i|i|i| |[i|e|]]; cbn [stage_ok]; try done; try (by apply conn_keep with c).
  intros (x & Hx & Hk & Ht). rewrite lookup_insert. case_decide as E; [subst i|by exists x]. exists c'. rewrite Hc in Hx. injection Hx as <-.
  split_and!; [done|congruence|by apply Hl].
Qed.
Lemma conn_fresh h n c k id : (forall i x, h !! i = Some x -> (i < n)%nat) -> conn_ok h k id -> conn_ok (<[n := c]> h) k id.
Proof. intros Hn (x & Hx & Hk). exists x. split; [|done]. rewrite lookup_insert_ne; [done|]. apply Hn in Hx. lia. Qed.
Lemma stage_fresh h n c k t st : (forall i x, h !! i = Some x -> (i < n)%nat) -> stage_ok h k t st -> stage_ok (<[n := c]> h) k t st.
Proof.
  intros Hn. destruct st as [| |i|i|i| |[i|e|]]; cbn [stage_ok]; try done; try (by apply conn_fresh).
  intros (x & Hx & Hk). exists x. split; [|done]. rewrite lookup_insert_ne; [done|]. apply Hn in Hx. lia.
Qed.
(** Only the request itself moves. *)
Lemma go_ok t k st s : pool_ok s -> stage_ok (heap s) (key (host k) (port k)) t st -> pool_ok (go t k st s).
Proof.
  intros [H1 H2 H3] Hst. split; cbn [go connections heap next tasks]; [done|done|]. intros t' k'. rewrite lookup_insert.
  case_decide as E; [|by apply H3]. subst t'. by intros [= <-].
Qed.
Lemma set_conn_ok id c c' s : pool_ok s -> heap s !! id = Some c -> dialed c' = dialed c -> is_Some (sender c') ->
  (forall t k, tasks s !! t = Some k -> at_stage k = InFlight id -> locked_by c' = Some t) -> pool_ok (set_conn id c' s).
Proof.
  intros [H1 H2 H3] Hc Hd Hs Hl. split; cbn [set_conn connections heap next tasks].
  - intros k i Hi. eapply conn_keep; eauto.
  - intros i x. rewrite lookup_insert. case_decide as E; [|by apply H2]. intros [= <-]. subst i. split; [|done]. by apply (H2 id c).
  - intros t k Hk. eapply stage_keep; eauto.
Qed.
Lemma create_ok k s : pool_ok s -> pool_ok (create_connection k s).
Proof.
  intros [H1 H2 H3]. assert (Hn : forall i x, heap s !! i = Some x -> (i < next s)%nat) by (intros i x Hx; by apply (H2 i x)).
  split; cbn [create_connection connections heap next tasks].
  - intros k' i Hi. apply conn_fresh; eauto.
  - intros i x. rewrite lookup_insert. case_decide as E; [intros [= <-]; subst i; split; [lia|by eexists]|]. intros Hx. destruct (H2 i x Hx). split; [lia|done].
  - intros t x Hx. apply stage_fresh; eauto.
Qed.
Lemma store_ok k id s : pool_ok s -> conn_ok (heap s) k id -> pool_ok (store_connection k id s).
Proof.
  intros [H1 H2 H3] Hc. split; cbn [store_connection connections heap next tasks]; [|done|done].
  intros k' i. rewrite lookup_insert. case_decide as E; [|apply H1]. intros [= <-]. by subst k'.
Qed.

Lemma free_conn s id c t k : pool_ok s -> heap s !! id = Some c -> locked_by c = None -> tasks s !! t = Some k -> at_stage k <> InFlight id.
Proof.
  intros [_ _ H3] Hc Hl Hk E. specialize (H3 t k Hk). rewrite E in H3. cbn in H3. destruct H3 as (x & Hx & _ & Hx'). congruence.
Qed.
Lemma lookup_step_ok t k s s' : pool_ok s -> lookup_step t k s = Some s' -> pool_ok s'.
Proof.
  intros Hs. unfold lookup_step. destruct (connections s !! _) as [id|] eqn:Hc; [|intros [= <-]; by apply go_ok].
  destruct (heap s !! id) as [c|] eqn:Hh; [|done]. case_bool_decide; [|done]. intros [= <-]. apply go_ok; [done|].
  destruct (is_ready c); [|done]. by apply (po_conn s Hs).
Qed.
Lemma send_step_ok t k id s s' : pool_ok s -> conn_ok (heap s) (key (host k) (port k)) id -> send_step t k id s = Some s' -> pool_ok s'.
Proof.
  intros Hs (c & Hh & Hd). unfold send_step. rewrite Hh. case_bool_decide as Hl; [|done].
  destruct (po_heap s Hs id c Hh) as [_ [b Hb]]. rewrite Hb. intros [= <-]. apply go_ok.
  - apply (set_conn_ok id c); [done|done|done|cbn; rewrite Hb; by eexists|]. intros t' k' Hk' E. by destruct (free_conn s id c t' k' Hs Hh Hl Hk').
  - cbn [stage_ok set_conn heap]. rewrite lookup_insert_eq. by eexists.
Qed.
Lemma answer_ok t k id c r s : pool_ok s -> tasks s !! t = Some k -> at_stage k = InFlight id -> heap s !! id = Some c ->
  stage_ok (heap s) (key (host k) (port k)) t (Finished r) -> pool_ok (go t k (Finished r) (set_conn id (lock None c) s)).
Proof.
  intros Hs Hk E Hc Hr. change (go t k (Finished r) (set_conn id (lock None c) s)) with (set_conn id (lock None c) (go t k (Finished r) s)).
  pose proof (po_task s Hs t k Hk) as Ht. rewrite E in Ht. destruct Ht as (x & Hx & _ & Hl). rewrite Hc in Hx. injection Hx as <-.
  apply (set_conn_ok id c); [by apply go_ok|done|done|by apply (po_heap s Hs id c)|]. cbn [go tasks]. intros t' k'. rewrite lookup_insert.
  case_decide as Et; [by intros [= <-]|]. intros Hk' E'. pose proof (po_task s Hs t' k' Hk') as Ht'. rewrite E' in Ht'.
  destruct Ht' as (x & Hx & _ & Hl'). congruence.
Qed.
Lemma step_pool e s s' : pool_ok s -> pool_step e s = Some s' -> pool_ok s'.
Proof.
  intros Hs. destruct e as [t h p|t|t o|t|t|t o|t|id]; cbn [pool_step].
  - destruct (tasks s !! t); [done|]. intros [= <-]. by apply go_ok.
  - destruct (tasks s !! t) as [k|] eqn:Hk; [|done]. cbn [mbind option_bind]. destruct (at_stage k); try done. by apply lookup_step_ok.
  - destruct (tasks s !! t) as [k|] eqn:Hk; [|done]. cbn [mbind option_bind]. destruct (at_stage k); try done.
    destruct o; intros [= <-]; [|by apply go_ok..]. apply go_ok; [by apply create_ok|]. cbn [stage_ok create_connection heap].
    exists {| dialed := key (host k) (port k); sender := Some true; locked_by := None |}. by rewrite lookup_insert_eq.
  - destruct (tasks s !! t) as [k|] eqn:Hk; [|done]. cbn [mbind option_bind]. destruct (at_stage k) eqn:E; try done. intros [= <-].
    pose proof (po_task s Hs t k Hk) as Ht. rewrite E in Ht. apply go_ok; [by apply store_ok|done].
  - destruct (tasks s !! t) as [k|] eqn:Hk; [|done]. cbn [mbind option_bind]. destruct (at_stage k) eqn:E; try done.
    pose proof (po_task s Hs t k Hk) as Ht. rewrite E in Ht. by apply send_step_ok.
  - destruct (tasks s !! t) as [k|] eqn:Hk; [|done]. cbn [mbind option_bind]. destruct (at_stage k) as [| | | |id| |] eqn:E; try done.
    pose proof (po_task s Hs t k Hk) as Ht. rewrite E in Ht. destruct Ht as (c & Hc & Hd & _). rewrite Hc. intros [= <-].
    apply answer_ok; try done. destruct o; cbn [stage_ok]; try done. by exists c.
  - destruct (tasks s !! t) as [k|] eqn:Hk; [|done]. cbn [mbind option_bind]. destruct (at_stage k) eqn:E; try done.
    pose proof (po_task s Hs t k Hk) as Ht. by rewrite E in Ht.
  - destruct (heap s !! id) as [c|] eqn:Hc; [|done]. intros [= <-]. destruct (po_heap s Hs id c Hc) as [_ [b Hb]].
    apply (set_conn_ok id c); [done|done|done|by cbn; rewrite Hb; eexists|]. intros t k Hk E.
    pose proof (po_task s Hs t k Hk) as Ht. rewrite E in Ht. destruct Ht as (x & Hx & _ & Hl). cbn. congruence.
Qed.
Lemma run_pool es : forall s s', pool_ok s -> pool_run es s = Some s' -> pool_ok s'.
Proof.
  induction es as [|e es IH]; intros s s' Hs; cbn [pool_run]; [by intros [= <-]|]. destruct (pool_step e s) as [s1|] eqn:E; [|done].
  cbn [mbind option_bind]. apply IH. by eapply step_pool.
Qed.

(** An address is cut at its last colon, so it names one host and port. *)
Lemma last_colon a a' d d' : str_forall (fun c => negb (Ascii.eqb c ":")) d = true -> str_forall (fun c => negb (Ascii.eqb c ":")) d' = true ->
  a +:+ ":" +:+ d = a' +:+ ":" +:+ d' -> a = a' /\ d = d'.
Proof.
  intros Hd Hd'. revert a'. induction a as [|c a IH]; intros [|c' a']; cbn [String.append].
  - by intros [= ->].
  - intros [= <- E]. rewrite E, str_forall_app in Hd. cbn in Hd. by rewrite andb_false_r in Hd.
  - intros [= -> E]. rewrite <- E, str_forall_app in Hd'. cbn in Hd'. by rewrite andb_false_r in Hd'.
  - intros [= -> E]. by destruct (IH a' E) as [-> ->].
Qed.
Lemma key_inj h p h' p' : 0 <= p -> 0 <= p' -> key h p = key h' p' -> h = h' /\ p = p'.
Proof.
  intros Hp Hp' E. apply last_colon in E as [-> E]; [|by apply dec_no_char..]. split; [done|]. by apply dec_inj.
Qed.

(** The connection a request was sent on. *)
Definition used (st : stage) : option nat := match st with InFlight id | Finished (Ok id) => Some id | _ => None end.

(** C23. Requests keep to their host. In every interleaving of requests, however
    connections fail or are closed, two requests that are sent on one connection
    have the same host and port, never two of them at the same time, and each is
    finished with an answer or an error other than [ConnectionClosed], so that
    no connection is ever taken out of the pool. *)
Theorem http2_requests_isolated es s t t' k k' id : pool_run es pool_new = Some s ->
  tasks s !! t = Some k -> tasks s !! t' = Some k' -> 0 <= port k -> 0 <= port k' ->
  used (at_stage k) = Some id -> used (at_stage k') = Some id ->
  host k = host k' /\ port k = port k' /\ (at_stage k = InFlight id -> at_stage k' = InFlight id -> t = t') /\
  (forall u ku, tasks s !! u = Some ku -> at_stage ku <> Closing /\ at_stage ku <> Finished (Err ConnectionClosed)).
Proof.
  intros Hr Hk Hk' Hp Hp' Hu Hu'. pose proof (run_pool es _ _ pool_new_ok Hr) as Hs.
  assert (Hdial : forall u ku, tasks s !! u = Some ku -> used (at_stage ku) = Some id -> conn_ok (heap s) (key (host ku) (port ku)) id).
  { intros u ku Hku Huse. pose proof (po_task s Hs u ku Hku) as Hst. destruct (at_stage ku) as [| |i|i|i| |[i|e|]]; try done; injection Huse as ->; [|done].
    destruct Hst as (c & Hc & Hd & _). by exists c. }
  destruct (Hdial t k Hk Hu) as (c & Hc & Hd), (Hdial t' k' Hk' Hu') as (c' & Hc' & Hd').
  destruct (key_inj (host k) (port k) (host k') (port k')) as [-> ->]; [done|done|congruence|]. split_and!; [done|done| |].
  - intros E E'. pose proof (po_task s Hs t k Hk) as Ht. pose proof (po_task s Hs t' k' Hk') as Ht'. rewrite E in Ht. rewrite E' in Ht'.
    destruct Ht as (x & Hx & _ & Hl), Ht' as (x' & Hx' & _ & Hl'). congruence.
  - intros u ku Hku. pose proof (po_task s Hs u ku Hku) as Hst. split; intros E; rewrite E in Hst; done.
Qed.

(** A connection in the pool is used again while it is ready, without dialing. *)
Lemma pool_reuses t k id c s : tasks s !! t = Some k -> at_stage k = Begin -> connections s !! key (host k) (port k) = Some id ->
  heap s !! id = Some c -> locked_by c = None -> sender c = Some true -> pool_step (Lookup t) s = Some (go t k (Got id) s).
Proof.
  intros Hk E Hi Hc Hl Hse. cbn [pool_step]. rewrite Hk. cbn [mbind option_bind]. rewrite E. unfold lookup_step, is_ready.
  by rewrite Hi, Hc, bool_decide_eq_true_2, Hse.
Qed.
(** While a request waits for its answer, another one for the same host cannot even
    look its connection up. *)
Lemma requests_wait_for_each_other :
  match pool_run [NewRequest 0 "a" 80; Lookup 0; DialDone 0 Connected; Store 0; Send 0; NewRequest 1 "a" 80] pool_new with
  | Some s => pool_step (Lookup 1) s = None
  | None => False
  end.
Proof. vm_compute. done. Qed.

Definition demo_requests : list pool_event :=
  [NewRequest 0 "a" 80; Lookup 0; NewRequest 1 "a" 80; Lookup 1; DialDone 0 Connected; Store 0; DialDone 1 Connected; Store 1;
   Send 0; Answer 0 Answered; NewRequest 2 "a" 80; Lookup 2; Send 2; Answer 2 Answered; Send 1].
Definition demo_pool : Http2ConnectionPool := default pool_new (pool_run demo_requests pool_new).
Lemma http2_requests_isolated_witness : exists k k', tasks demo_pool !! 1%nat = Some k /\ tasks demo_pool !! 2%nat = Some k' /\
  host k = host k' /\ port k = port k'.
Proof.
  exists {| host := "a"; port := 80; at_stage := InFlight 1 |}, {| host := "a"; port := 80; at_stage := Finished (Ok 1%nat) |}.
  split; [reflexivity|]. split; [reflexivity|].
  destruct (http2_requests_isolated demo_requests demo_pool 1 2 {| host := "a"; port := 80; at_stage := InFlight 1 |}
    {| host := "a"; port := 80; at_stage := Finished (Ok 1%nat) |} 1 eq_refl eq_refl eq_refl ltac:(done) ltac:(done) eq_refl eq_refl) as (H1 & H2 & _).
  exact (conj H1 H2).
Defined.
