(* ===== verification/Lifecycle.v ===== *)
(** * The life of the process

    Models [main] of src/src/main.rs and [Server::run] of src/src/server/mod.rs as
    the sequence of what they ask of the system and of the tasks they start and
    stop: the instance lock, the configuration file, the metrics exporter, ACME,
    health checks, listeners, the watcher, the signal, and the shutdown. A program
    is a tree of requests with a continuation for every reply; an environment
    answers each request, knowing what was asked before, so that a theorem about
    all environments is one about all outcomes. Between the requests run the
    functions of the other files: [ConfigCheck.load], [Server.shared_new],
    [HealthTasks.start_health_checks], [Udp.udp_router_of]. *)
From S2P Require Import Prelude RustStr Duration Acme ConfigTypes Certs Connections Tls ConfigCheck InstanceLock.
From S2P Require Import Config Balancer LoadBalancer Health Service Rule RuleProofs Router Net Http Middleware Pipeline Grpc WebSocket.
From S2P Require Import AccessLog Handler HealthTasks L4 Udp Server.
From stdpp Require Import list gmap.
Open Scope Z_scope.
Open Scope list_scope.
#[local] Open Scope rust_scope.
#[local] Set Default Proof Using "Type*".

(** ** Listening *)
(** [SocketAddr] and its [FromStr] of the standard library: four octets without
    leading zeros and a port, or an IPv6 address in brackets, whose reader is a
    parameter. *)
Inductive SocketAddr := V4 (octets : list Z) (port : Z) | V6 (text : string).
Definition read_number (max : Z) (s : string) : option Z :=
  if negb (bool_decide (s = "")) && str_forall is_digit s && (dec_scan s 0 <=? max) then Some (dec_scan s 0) else None.
Definition read_octet (s : string) : option Z :=
  if (1 <? String.length s)%nat && starts_with "0" s then None else read_number 255 s.
Definition parse_v4 (s : string) : option SocketAddr :=
  '(host, port) ← split_once ":" s;
  octets ← mapM read_octet (split_on "." host);
  p ← read_number 65535 port;
  if (length octets =? 4)%nat then Some (V4 octets p) else None.
Definition parse_socket_addr (is_v6 : string -> bool) (s : string) : option SocketAddr :=
  if starts_with "[" s then (if is_v6 s then Some (V6 s) else None) else parse_v4 s.

Section Listening.
Context (is_v6 : string -> bool) (binds : SocketAddr -> bool).

Inductive listen_error := InvalidAddress (address : string) | BindFailed (a : SocketAddr).
(** [Listener::serve] up to the loop that accepts connections: the address it
    listens on, and the protocol it reports. *)
Definition listener_serve (ep : EntryPoint.t) (tls : bool) : result listen_error (SocketAddr * string) :=
  addr <-? ok_or (parse_socket_addr is_v6 (EntryPoint.address ep)) (InvalidAddress (EntryPoint.address ep)) ;;
  if binds addr then Ok (addr, if tls then "https" else "http") else Err (BindFailed addr).
(** [UdpListener::serve] up to the proxy's loop. *)
Definition udp_listener_serve (ep : EntryPoint.t) : result listen_error SocketAddr :=
  addr <-? ok_or (parse_socket_addr is_v6 (EntryPoint.address ep)) (InvalidAddress (EntryPoint.address ep)) ;;
  if binds addr then Ok addr else Err (BindFailed addr).
(** [start_metrics_server]: the exporter is installed on an address that parses. *)
Definition start_metrics_server (address : string) : bool :=
  match parse_socket_addr is_v6 address with Some addr => binds addr | None => false end.

(** An address without a host, as every example of the documentation has, is
    refused: neither listener nor the exporter opens a port. *)
Lemma port_only_refused port ep tls : EntryPoint.address ep = ":" +:+ port ->
  listener_serve ep tls = Err (InvalidAddress (":" +:+ port)) /\ udp_listener_serve ep = Err (InvalidAddress (":" +:+ port)) /\
  start_metrics_server (":" +:+ port) = false.
Proof. intros Ha. unfold listener_serve, udp_listener_serve, start_metrics_server. rewrite Ha. by split_and!. Qed.
Lemma documented_examples : parse_socket_addr is_v6 ":80" = None /\ parse_socket_addr is_v6 "0.0.0.0:80" = Some (V4 [0; 0; 0; 0] 80) /\
  parse_socket_addr is_v6 "127.0.0.1:65536" = None /\ parse_socket_addr is_v6 "localhost:80" = None.
Proof. by split_and!. Qed.
End Listening.

(** The arguments of the command line. *)
Record Args := { a_config : string; a_debug : bool; a_validate : bool }.

(** How the process ends: with a code, or by an abort. *)
Inductive outcome := Exited (code : Z) | Panicked.

Section Lifecycle.
Context `{HO : HttpOps} `{UL : UriLib} `{UP : !UriParser} `{IL : IpLib} `{RO : RegexOps} `{URL : UrlLib}.
Context {Key Uri : Type} (load_pair : string * string -> result unit (Key * list string)) (opens : string -> option (list string)).
Context (check_uri : string -> option Uri) (check_method : string -> option string).
Context (url_parses : string -> bool) (server_uri : string -> option (option string * option string)) (from_yaml : string -> option ConfigCheck.config).
Context (seed : Z).

(** ** Requests *)
Inductive request :=
| AcquireLock
| ReadFile (path : string)
| StartMetrics (address : string)
| BuildAcme (b : AcmeManagerBuilder)
| SpawnCheck (c : HealthChecker (Uri := Uri))
| SpawnListener (name : string) (ep : EntryPoint.t) (tls : bool)
| SpawnUdpListener (name : string) (ep : EntryPoint.t)
| SpawnWatcher (path : string)
| AwaitSignal
| AbortWatcher
| SetDraining
| SignalUdp (name : string)
| ActiveCount
| WaitForDrain (millis : Z)
| AbortListener (name : string)
| AbortUdpListener (name : string).

Definition reply (q : request) : Type :=
  match q with
  | AcquireLock => result InstanceLockError unit
  | ReadFile _ => option string
  | StartMetrics _ => bool
  | BuildAcme _ => result unit (gmap string string * CertificateResolver (Key := Key)) (* pending challenges, resolver *)
  | ActiveCount => Z
  | _ => unit
  end.

Inductive prog := Do (q : request) (k : reply q -> prog) | Done (o : outcome).

(** Requests whose replies do not matter. *)
Fixpoint all_of (qs : list request) (k : prog) : prog :=
  match qs with [] => k | q :: qs' => Do q (fun _ => all_of qs' k) end.

(** An environment, and what a program asks and is answered in it. *)
Definition environment : Type := forall (asked : list request) (q : request), reply q.
Fixpoint exec (env : environment) (asked : list request) (p : prog) : list {q & reply q} * outcome :=
  match p with
  | Do q k => let r := env asked q in let '(tr, o) := exec env (asked ++ [q]) (k r) in (existT q r :: tr, o)
  | Done o => ([], o)
  end.
Definition requests (tr : list {q & reply q}) : list request := (fun e => projT1 e) <$> tr.

(** ** The server *)
Definition entry_points (c : ConfigCheck.config) : list (string * EntryPoint.t) := ConfigTypes.Config.entry_points c.

(** [run] after the start of the listeners of all protocols; [udp] are the entry
    points with a UDP listener. *)
Definition shutdown (c : ConfigCheck.config) (udp : list string) (k : prog) : prog :=
  Do AbortWatcher (fun _ =>
  Do SetDraining (fun _ =>
  all_of (SignalUdp <$> udp) (
  Do ActiveCount (fun active =>
  let finish := all_of ((AbortListener <$> (entry_points c).*1) ++ (AbortUdpListener <$> udp)) k in
  if 0 <? active then Do (WaitForDrain 30000) (fun _ => finish) else finish)))).

Definition udp_listeners (c : ConfigCheck.config) : result Empty_set (list (string * EntryPoint.t)) :=
  if has_udp c then res_map (fun rt => List.filter (fun e => udp_has_routes_for rt e.1) (entry_points c)) (udp_router_of c) else Ok [].

Definition run (path : string) (c : ConfigCheck.config) (s : SharedState (Key := Key)) (k : prog) : prog :=
  let '(checkers, started) := start_health_checks check_uri check_method 1 (ConfigCheck.services c) in
  all_of (SpawnCheck <$> checkers) (
  if negb started then Done Panicked
  else
    all_of ((fun e => SpawnListener e.1 e.2 (connection_is_tls e.2 s)) <$> entry_points c) (
    match udp_listeners c with
    | Ok udp =>
        all_of ((fun e => SpawnUdpListener e.1 e.2) <$> udp) (
        Do (SpawnWatcher path) (fun _ =>
        Do AwaitSignal (fun _ => shutdown c udp.*1 k)))
    | _ => Done Panicked
    end)).

(** ** The process *)
(** The builder of [main] for the first resolver with ACME. *)
Definition acme_builder (c : ConfigCheck.config) : option AcmeManagerBuilder :=
  (fun '(name, acme) =>
     let b := Certs.builder_new (ConfigTypes.AcmeConfig.email acme) (ConfigTypes.AcmeConfig.storage acme) in
     let b := match ConfigTypes.AcmeConfig.ca_server acme with Some ca => Certs.ca_server ca b | None => b end in
     foldl (fun b ds => Certs.domain_set ds b) b (acme_domains c name)) <$> acme_resolver c.

(** [Server::with_path] and [Server::with_acme]; building may abort. *)
Definition with_server (path : string) (c : ConfigCheck.config) (r : result Empty_set SharedState) (k : prog) : prog :=
  match r with Ok s => run path c s k | _ => Done Panicked end.

Definition serve (path : string) (c : ConfigCheck.config) : prog :=
  let exit := Done (Exited 0) in
  match acme_builder c with
  | Some b => Do (BuildAcme b) (fun r =>
      match r with
      | Ok (challenges, resolver) => with_server path c (with_acme opens c seed challenges resolver) exit
      | Err _ => with_server path c (shared_new load_pair opens c seed) exit
      | Panic => Done Panicked
      end)
  | None => with_server path c (shared_new load_pair opens c seed) exit
  end.

Definition after_lock (a : Args) : prog :=
  Do (ReadFile (a_config a)) (fun file =>
  match load url_parses server_uri from_yaml file with
  | Ok c =>
      if a_validate a then Done (Exited 0)
      else
        match ConfigTypes.Config.metrics c ≫= MetricsConfig.prometheus with
        | Some p => Do (StartMetrics (PrometheusConfig.address p)) (fun _ => serve (a_config a) c)
        | None => serve (a_config a) c
        end
  | Err _ => Done (Exited 1)
  | Panic => Done Panicked
  end).
Definition main (a : Args) : prog :=
  if a_validate a then after_lock a
  else
    Do AcquireLock (fun r =>
    match r with
    | Err (AlreadyRunning _) => Done (Exited 1)
    | Ok _ | Err _ => after_lock a
    | Panic => Done Panicked
    end).

(** ** What the requests start and stop *)
(** The task of a listener: its protocol and entry point. *)
Definition spawned (q : request) : option (bool * string) :=
  match q with SpawnListener n _ _ => Some (false, n) | SpawnUdpListener n _ => Some (true, n) | _ => None end.
Definition aborted (q : request) : option (bool * string) :=
  match q with AbortListener n => Some (false, n) | AbortUdpListener n => Some (true, n) | _ => None end.
(** Everything but the lock and the configuration file. *)
Definition starts (q : request) : bool := match q with AcquireLock | ReadFile _ => false | _ => true end.
(** The listeners a configuration asks for. *)
Definition tasks_of (c : ConfigCheck.config) (udp : list (string * EntryPoint.t)) : list (bool * string) :=
  (pair false <$> (entry_points c).*1) ++ (pair true <$> udp.*1).

(** What the configuration file was found to hold, and the answer of the lock. *)
Definition file_read (e : {q & reply q}) : option (option string) :=
  match e with existT q r => match q return reply q -> option (option string) with ReadFile _ => Some | _ => fun _ => None end r end.
Definition lock_answer (e : {q & reply q}) : option (result InstanceLockError unit) :=
  match e with existT q r => match q return reply q -> option (result InstanceLockError unit) with AcquireLock => Some | _ => fun _ => None end r end.

Lemma requests_app tr tr' : requests (tr ++ tr') = requests tr ++ requests tr'.
Proof using. apply fmap_app. Qed.
Lemma requests_cons e tr : requests (e :: tr) = projT1 e :: requests tr.
Proof using. done. Qed.

Lemma exec_all_of env k qs : forall h, exists tr, requests tr = qs /\
  exec env h (all_of qs k) = (tr ++ (exec env (h ++ qs) k).1, (exec env (h ++ qs) k).2).
Proof.
  induction qs as [|q qs IH]; intros h; [exists []; rewrite app_nil_r; split; [done|]; cbn; by destruct (exec env h k)|].
  cbn [all_of exec]. destruct (IH (h ++ [q])) as (tr & Hq & ->). exists (existT q (env h q) :: tr). rewrite requests_cons, Hq, <- app_assoc. done.
Qed.

(** The end of [run]. *)
Lemma shutdown_asks env h c udp o : exists w, (w = [] \/ w = [WaitForDrain 30000]) /\
  requests (exec env h (shutdown c udp (Done o))).1 =
    AbortWatcher :: SetDraining :: (SignalUdp <$> udp) ++ ActiveCount :: w ++ (AbortListener <$> (entry_points c).*1) ++ (AbortUdpListener <$> udp) /\
  (exec env h (shutdown c udp (Done o))).2 = o.
Proof.
  unfold shutdown. cbn [exec]. set (h1 := (h ++ _) ++ _). set (aborts := (AbortListener <$> _) ++ _).
  set (p := Do ActiveCount _). destruct (exec_all_of env p (SignalUdp <$> udp) h1) as (tr1 & Hq1 & ->). subst p. cbn [exec].
  set (active := env _ ActiveCount). set (h2 := (h1 ++ _) ++ _).
  destruct (0 <? (active : Z)).
  - cbn [exec]. destruct (exec_all_of env (Done o) aborts (h2 ++ [WaitForDrain 30000])) as (tr2 & Hq2 & ->). cbn [exec fst snd].
    exists [WaitForDrain 30000]. split; [by right|]. split; [|done]. cbn [fst snd app projT1]. by rewrite !requests_cons, requests_app, Hq1, !requests_cons, requests_app, Hq2, app_nil_r.
  - destruct (exec_all_of env (Done o) aborts h2) as (tr2 & Hq2 & ->). cbn [exec fst snd].
    exists []. split; [by left|]. split; [|done]. cbn [fst snd app projT1]. by rewrite !requests_cons, requests_app, Hq1, !requests_cons, requests_app, Hq2, app_nil_r.
Qed.

Lemma omap_const {A B C} (f : B -> option C) (g : A -> B) (l : list A) : (forall a, f (g a) = None) -> omap f (g <$> l) = [].
Proof. intros Hn. induction l as [|a l IH]; [done|]. cbn. by rewrite Hn. Qed.
Lemma omap_all {A B C} (f : B -> option C) (g : A -> B) (r : A -> C) (l : list A) : (forall a, f (g a) = Some (r a)) -> omap f (g <$> l) = r <$> l.
Proof. intros Hs. induction l as [|a l IH]; [done|]. cbn. rewrite Hs. f_equal. exact IH. Qed.

(** What a run of the server that came to its end has asked: everything it started
    before the signal it stopped after it. *)
Definition stopped (c : ConfigCheck.config) (qs : list request) : Prop :=
  exists udp before after, udp_listeners c = Ok udp /\ qs = before ++ AwaitSignal :: AbortWatcher :: SetDraining :: after /\
    omap spawned before = tasks_of c udp /\ omap aborted before = [] /\ omap spawned after = [] /\ omap aborted after = tasks_of c udp.

Lemma shutdown_tasks c udp w : w = [] \/ w = [WaitForDrain 30000] ->
  let after := (SignalUdp <$> udp.*1) ++ ActiveCount :: w ++ (AbortListener <$> (entry_points c).*1) ++ (AbortUdpListener <$> udp.*1) in
  omap spawned after = [] /\ omap aborted after = tasks_of c udp.
Proof.
  intros Hw after. assert (Hn : omap spawned w = [] /\ omap aborted w = []) by (by destruct Hw as [->| ->]). destruct Hn as [Hn1 Hn2].
  subst after. split; rewrite !omap_app, omap_const by done; cbn [omap list_omap spawned aborted app].
  - rewrite !omap_app, Hn1, !omap_const by done. done.
  - rewrite !omap_app, Hn2, app_nil_l. unfold tasks_of. f_equal; by apply omap_all.
Qed.

(** A configuration whose parts can all be built: server addresses that can be
    checked, rules that can be read, certificate files that do not abort. *)
Record startable (c : ConfigCheck.config) : Prop := {
  st_checks : (start_health_checks check_uri check_method 1 (ConfigCheck.services c)).2 = true;
  st_udp : exists udp, udp_listeners c = Ok udp;
  st_state : exists s, shared_new load_pair opens c seed = Ok s;
  st_acme : forall challenges (resolver : CertificateResolver (Key := Key)), exists s, with_acme opens c seed challenges resolver = Ok s;
}.
(** The construction of the ACME manager did not abort. *)
Definition acme_aborted (e : {q & reply q}) : bool :=
  match e with existT q r => match q return reply q -> bool with BuildAcme _ => fun r => match r with Panic => true | _ => false end | _ => fun _ => false end r end.

(** A run of the server either aborts while it starts, which takes a configuration
    that is not startable or an abort of ACME, or comes to such an end. *)
Definition ended (c : ConfigCheck.config) (o : outcome) (x : list {q & reply q} * outcome) : Prop :=
  (x.2 = Panicked /\ (startable c -> existsb acme_aborted x.1 = true)) \/ (x.2 = o /\ stopped c (requests x.1)).

Lemma run_asks env h path c s o : ended c o (exec env h (run path c s (Done o))).
Proof.
  unfold ended, run. destruct (start_health_checks _ _ _ _) as [checkers started] eqn:Ec.
  set (p := if negb started then _ else _). destruct (exec_all_of env p (SpawnCheck <$> checkers) h) as (tr1 & Hq1 & ->). cbn [fst snd]. subst p.
  destruct started; cbn [negb]; [|left; split; [done|intros [Hc _ _ _]; by rewrite Ec in Hc]]. set (h1 := h ++ _).
  set (p := match udp_listeners c with Ok _ => _ | _ => _ end).
  set (ls := (fun e => SpawnListener e.1 e.2 (connection_is_tls e.2 s)) <$> entry_points c).
  destruct (exec_all_of env p ls h1) as (tr2 & Hq2 & ->). cbn [fst snd]. subst p.
  destruct (udp_listeners c) as [udp|[]|] eqn:Eu; [|left; split; [done|intros [_ [udp Hu] _ _]; by rewrite Eu in Hu]]. right. set (h2 := h1 ++ _).
  set (p := Do (SpawnWatcher path) _). destruct (exec_all_of env p ((fun e => SpawnUdpListener e.1 e.2) <$> udp) h2) as (tr3 & Hq3 & ->). cbn [fst snd]. subst p.
  cbn [exec]. set (h3 := (_ ++ [SpawnWatcher path]) ++ _).
  destruct (shutdown_asks env h3 c udp.*1 o) as (w & Hw & Hqs & Ho). destruct (exec env h3 (shutdown c udp.*1 (Done o))) as [tr4 o4]. cbn [fst snd] in *.
  split; [done|]. destruct (shutdown_tasks c udp w Hw) as [Hn Ha].
  eexists udp, ((SpawnCheck <$> checkers) ++ ls ++ ((fun e => SpawnUdpListener e.1 e.2) <$> udp) ++ [SpawnWatcher path]), _.
  split; [done|]. split.
  { rewrite !requests_app, !requests_cons, Hq1, Hq2, Hq3, Hqs. cbn [projT1]. by rewrite <- !app_assoc. }
  split; [|split; [|split; [exact Hn|exact Ha]]]; rewrite !omap_app, (omap_const _ SpawnCheck) by done.
  - cbn [omap list_omap spawned app]. rewrite app_nil_r. unfold tasks_of, ls. rewrite <- !list_fmap_compose. f_equal; by apply omap_all.
  - unfold ls. rewrite !omap_const by done. done.
Qed.

Lemma with_server_asks env h path c r o : (startable c -> exists s, r = Ok s) -> ended c o (exec env h (with_server path c r (Done o))).
Proof. unfold with_server. intros Hr. destruct r; [apply run_asks|left; split; [done|by intros [s Hs]%Hr]..]. Qed.

Lemma ended_cons c o e x : spawned (projT1 e) = None -> aborted (projT1 e) = None -> ended c o x -> ended c o (let '(tr, o) := x in (e :: tr, o)).
Proof.
  destruct x as [tr o']. intros H1 H2 [[Ho Ha]|[Ho (udp & b & a & Hu & Hq & Hs & Hb & Ha & Hd)]]; [left; split; [done|]; intros Hs; cbn [existsb fst]; apply orb_true_intro; right; by apply Ha|right]. split; [done|].
  cbn [fst snd] in *. exists udp, (projT1 e :: b), a. rewrite requests_cons, Hq. cbn [omap list_omap]. rewrite H1, H2. by split_and!.
Qed.
Lemma serve_asks env h path c : ended c (Exited 0) (exec env h (serve path c)).
Proof.
  unfold serve. destruct (acme_builder c) as [b|]; [|apply with_server_asks, st_state]. cbn [exec].
  set (r := env h (BuildAcme b)). destruct (r : result _ _) as [[ch rs]|e|];
    [apply ended_cons, with_server_asks; [done..|intros Hs; apply Hs]|apply ended_cons, with_server_asks; [done..|apply st_state]|by left].
Qed.

(** The configuration a file holds. *)
Definition loads (file : option string) (c : ConfigCheck.config) : Prop := load url_parses server_uri from_yaml file = Ok c.

(** After the file was read: the outcome is decided by it alone when it is only
    validated; otherwise nothing is asked unless it loads. *)
Lemma after_lock_asks env h a : exists file rest o,
  exec env h (after_lock a) = (existT (ReadFile (a_config a)) file :: rest, o) /\
  (a_validate a = true -> rest = [] /\ (o = Exited 0 <-> exists c, loads file c)) /\
  (rest <> [] -> exists c, loads file c) /\
  (a_validate a = false -> o = Exited 0 -> exists c, loads file c /\ stopped c (requests rest)) /\
  (a_validate a = false -> forall c, loads file c -> startable c -> existsb acme_aborted rest = false -> o = Exited 0).
Proof.
  unfold after_lock, loads. cbn [exec]. set (file := env h (ReadFile (a_config a))). exists file.
  destruct (load url_parses server_uri from_yaml (file : option string)) as [c|e|].
  2, 3: (eexists [], _; split; [done|]; split_and!; [intros _; split; [done|]; split; [done|by intros [c ?]]|done..]).
  destruct (a_validate a); [eexists [], _; split; [done|]; split_and!; [intros _; split; [done|]; split; [by exists c|done]|done..]|].
  set (p := match ConfigTypes.Config.metrics c ≫= MetricsConfig.prometheus with Some _ => _ | None => _ end).
  assert (Hp : ended c (Exited 0) (exec env (h ++ [ReadFile (a_config a)]) p)).
  { subst p. destruct (ConfigTypes.Config.metrics c ≫= MetricsConfig.prometheus) as [p|]; [|apply serve_asks]. cbn [exec].
    apply ended_cons; [done|done|apply serve_asks]. }
  destruct (exec env (h ++ [ReadFile (a_config a)]) p) as [tr o]. exists tr, o. cbn [ended fst snd] in Hp.
  split; [done|]. split_and!; [done|by exists c| |].
  - intros _ Ho. exists c. split; [done|]. destruct Hp as [[Hp _]|[_ Hp]]; [cbn in Hp; congruence|exact Hp].
  - intros _ c' [= <-] Hs Hn. destruct Hp as [[_ Hp]|[Hp _]]; [|exact Hp]. cbn in Hp. by rewrite Hp in Hn.
Qed.
End Lifecycle.

(** C26. The life of the process, for every outcome of what it asks of the system.
    Told to validate, it reads the configuration file and does nothing else, and
    its code says whether the file loads. Otherwise it starts no task and opens no
    port unless the file gave a valid configuration and the answer to its request
    for the lock was not that another instance holds it (a lock file that cannot be
    opened or locked does not stop it). If it ends with success, a signal has come,
    before which it had started one listener for every entry point and one for
    every entry point with UDP routes, and after which it stopped the watcher first, then
    refused new connections, started nothing more and stopped exactly the
    listeners it had started. And with a configuration whose parts can be built it
    does end with success, unless the construction of ACME aborts. *)
Theorem process_lifecycle `{HO : HttpOps} `{UL : UriLib} `{UP : !UriParser} `{IL : IpLib} `{RO : RegexOps} `{URL : UrlLib} {Key Uri}
    load_pair opens (check_uri : string -> option Uri) check_method url_parses server_uri from_yaml seed
    (env : environment (Key := Key) (Uri := Uri)) (a : Args) :
  let '(tr, o) := exec env [] (main load_pair opens check_uri check_method url_parses server_uri from_yaml seed a) in
  let loads := fun file c => file ∈ omap file_read tr /\ load url_parses server_uri from_yaml file = Ok c /\ valid url_parses c in
  (a_validate a = true -> requests tr = [ReadFile (a_config a)] /\ (o = Exited 0 <-> exists file c, loads file c)) /\
  (forall q, q ∈ requests tr -> starts q = true ->
     a_validate a = false /\ (exists file c, loads file c) /\ (exists r, r ∈ omap lock_answer tr /\ forall pid, r <> Err (AlreadyRunning pid))) /\
  (a_validate a = false -> o = Exited 0 -> exists file c, loads file c /\ stopped c (requests tr)) /\
  (a_validate a = false -> forall file c, head (omap file_read tr) = Some file -> load url_parses server_uri from_yaml file = Ok c -> startable load_pair opens check_uri check_method seed c ->
     existsb acme_aborted tr = false -> o = Exited 0).
Proof.
  unfold main. pose proof (after_lock_asks load_pair opens check_uri check_method url_parses server_uri from_yaml seed env) as Hasks.
  assert (Hvalid : forall file c, load url_parses server_uri from_yaml file = Ok c -> valid url_parses c) by (intros file c Hl; by eapply load_valid).
  destruct (a_validate a) eqn:Ev.
  - destruct (Hasks [] a) as (file & rest & o & -> & Hv & _). destruct (Hv Ev) as [-> Ho]. split_and!; [|intros q; cbn; by rewrite list_elem_of_singleton; intros ->|done..].
    intros _. split; [done|]. rewrite Ho. split; [intros [c Hc]; exists file, c; split_and!; [left|done|eauto]|].
    intros (f & c & Hin & Hc & _). apply list_elem_of_singleton in Hin as ->. by exists c.
  - cbn [exec]. set (r := env [] AcquireLock). set (p := match r with Ok _ => _ | _ => _ end).
    assert (Hp : p = Done Panicked \/ p = Done (Exited 1) \/
      ((forall pid, (r : result _ _) <> Err (AlreadyRunning pid)) /\ p = after_lock load_pair opens check_uri check_method url_parses server_uri from_yaml seed a)).
    { subst p. destruct (r : result _ _) as [u|[pid| |]|]; auto; right; right; by split. }
    destruct Hp as [->|[->|[Hr ->]]]; [cbn; split_and!; [done|intros q; rewrite list_elem_of_singleton; by intros ->|done|done]..|].
    destruct (Hasks ([] ++ [AcquireLock]) a) as (file & rest & o & -> & _ & Hq & Hs & Hl). split_and!; [done| | |].
    + intros q Hin Hst. split; [done|]. rewrite !requests_cons, !elem_of_cons in Hin. destruct Hin as [->|[->|Hin]]; [done|done|].
      split; [|exists r; split; [left|done]]. destruct Hq as [c Hc]; [intros ->; by apply elem_of_nil in Hin|]. exists file, c. split_and!; [left|done|eauto].
    + intros _ Ho. destruct (Hs Ev Ho) as (c & Hc & (udp & b & af & Hu & Hqs & H1 & H2 & H3 & H4)). exists file, c. split; [split_and!; [left|done|eauto]|].
      exists udp, (AcquireLock :: ReadFile (a_config a) :: b), af. rewrite !requests_cons, Hqs. by split_and!.
    + intros _ f c [= <-] Hc Hst Hn. by apply (Hl Ev c).
Qed.

(** ** A concrete life *)
#[local] Existing Instance map_http.
#[local] Existing Instance text_uri.
#[local] Existing Instance prefix_ip.
#[local] Existing Instance no_regex_ops.
#[local] Existing Instance text_url.
#[local] Existing Instance demo_parser.

Definition demo_life : ConfigCheck.config :=
  {| ConfigTypes.Config.entry_points := [("web", EntryPoint.new "0.0.0.0:80"); ("dns", EntryPoint.new "0.0.0.0:53")];
     ConfigTypes.Config.http := None; ConfigTypes.Config.tcp := None;
     ConfigTypes.Config.udp := Some {|
       UdpConfig.routers := [("any", {| ConfigTypes.UdpRouter.entry_points := ["dns"]; ConfigTypes.UdpRouter.rule := "*";
         ConfigTypes.UdpRouter.service := "resolver"; ConfigTypes.UdpRouter.middlewares := []; ConfigTypes.UdpRouter.priority := 0 |})];
       UdpConfig.services := [("resolver", {| ConfigTypes.UdpService.load_balancer := Some (UdpLoadBalancer.new [UdpServer.new "a:53"]);
                                              ConfigTypes.UdpService.weighted := None |})];
       UdpConfig.middlewares := [] |};
     ConfigTypes.Config.tls := None; ConfigTypes.Config.certificates_resolvers := []; ConfigTypes.Config.providers := None;
     ConfigTypes.Config.metrics := Some {| MetricsConfig.prometheus := Some PrometheusConfig.new |};
     ConfigTypes.Config.api := None; ConfigTypes.Config.log := None; ConfigTypes.Config.access_log := None; ConfigTypes.Config.cluster := None |}.
(** The lock file cannot be opened, two connections are open at the end. *)
Definition demo_env : environment (Key := unit) (Uri := string) := fun _ q =>
  match q return reply q with
  | AcquireLock => Err OpenFailed
  | ReadFile _ => Some "text"
  | StartMetrics _ => true
  | BuildAcme _ => Err tt
  | ActiveCount => 2
  | _ => tt
  end.
Definition demo_main (args : Args) :=
  exec demo_env [] (main (fun _ => Err tt) (fun _ => None) Some Some (fun _ => true) (fun _ => None) (fun _ => Some demo_life) 7 args).
Definition demo_args (validate : bool) : Args := {| a_config := "config.yaml"; a_debug := false; a_validate := validate |}.

Lemma succeeds {E A} (r : result E A) : match r with Ok _ => true | _ => false end = true -> exists x, r = Ok x.
Proof. destruct r; [by eexists|done..]. Qed.
Lemma demo_startable c : load (fun _ => true) (fun _ => None) (fun _ => Some demo_life) (Some "text") = Ok c ->
  startable (Key := unit) (fun _ => Err tt) (fun _ => None) (Some : string -> option string) Some 7 c.
Proof.
  intros Hl. vm_compute in Hl. injection Hl as <-. split; [vm_compute; reflexivity|apply succeeds; vm_compute; reflexivity..|].
  intros. apply succeeds. vm_compute. reflexivity.
Qed.
Lemma process_lifecycle_witness :
  requests (demo_main (demo_args true)).1 = [ReadFile "config.yaml"] /\
  (demo_main (demo_args false)).2 = Exited 0 /\ exists c, stopped c (requests (demo_main (demo_args false)).1).
Proof.
  pose proof (process_lifecycle (fun _ => Err tt) (fun _ => None) Some Some (fun _ => true) (fun _ => None) (fun _ => Some demo_life) 7 demo_env) as H.
  pose proof (H (demo_args true)) as H1. pose proof (H (demo_args false)) as H2. clear H.
  change (exec _ _ (main _ _ _ _ _ _ _ _ (demo_args true))) with (demo_main (demo_args true)) in H1.
  change (exec _ _ (main _ _ _ _ _ _ _ _ (demo_args false))) with (demo_main (demo_args false)) in H2.
  assert (Hf : head (omap file_read (demo_main (demo_args false)).1) = Some (Some "text")) by (vm_compute; reflexivity).
  assert (Hb : existsb acme_aborted (demo_main (demo_args false)).1 = false) by (vm_compute; reflexivity).
  destruct (load (fun _ => true) (fun _ => None) (fun _ => Some demo_life) (Some "text")) as [c| |] eqn:El; [|vm_compute in El; discriminate..].
  destruct (demo_main (demo_args true)) as [tr1 o1], (demo_main (demo_args false)) as [tr2 o2]. cbn [fst snd] in *.
  split; [by apply H1|]. destruct H2 as (_ & _ & H2 & H3). assert (Ho : o2 = Exited 0) by exact (H3 eq_refl _ _ Hf El (demo_startable _ El) Hb).
  split; [exact Ho|]. destruct (H2 eq_refl Ho) as (file & c' & _ & Hs). by exists c'.
Defined.
Lemma demo_main_asks : length (requests (demo_main (demo_args false)).1) = 16%nat /\
  omap spawned (requests (demo_main (demo_args false)).1) = [(false, "web"); (false, "dns"); (true, "dns")] /\
  omap aborted (requests (demo_main (demo_args false)).1) = [(false, "web"); (false, "dns"); (true, "dns")].
Proof. split_and!; vm_compute; reflexivity. Qed.
